(* ===== verification/_CoqProject ===== *)
-Q . S2P
Prelude.v
BTree.v
Float64.v
FloatBits.v
Types.v
Db.v
DbFacts.v
Lru.v
Sched.v
SchedFacts.v
Cli.v
CliFacts.v
ControlPlane.v
Playground.v
Proxy.v
ProxyFacts.v
Deploy.v
ProxyMain.v
Ownership.v
Mm.v
Interface.v
Io.v
IoFacts.v
IoProc.v
Tenants.v
Fetchd.v
Executor.v
ExecutorFacts.v
Isolate.v
Runtime.v
RuntimeServer.v
Cluster.v
Request.v
Metrics.v
MetricsFacts.v
Atomics.v
Atomic64.v
MetricVec.v
Registry.v
RegistryFacts.v
TextEncoder.v
TextEncoderFacts.v
Exporter.v
ProtoWire.v
ProtoLaws.v
Proto.v
ProtoFacts.v
ProtoFormat.v
ProtoEncode.v
PlainModel.v
PlainFacts.v
Push.v
PushFacts.v
Histogram.v
Options.v
ProcessCollector.v
HistogramFacts.v
HistogramInv.v
LocalMetrics.v
LocalMetricsFacts.v
HistogramApi.v
AutoFlush.v
Client.v
ClientFacts.v
ClientGather.v
