(* ===== verification/Prelude.v ===== *)
(** * rusty-workers: a verification library

    This library models the core of rusty-workers, a serverless platform that runs
    JavaScript workers, and of the Prometheus client it carries as a workspace member,
    and proves what makes them correct.  This file is its root: this comment documents
    the whole, the code below is what all the other files share.

    ** The program

    A proxy ([src/rusty-workers-proxy]) accepts HTTP requests, finds the app of a
    request by domain and path, takes an instance of the app from a pool or has one
    spawned on a runtime, and forwards the request.  A runtime
    ([src/rusty-workers-runtime]) runs each instance, a worker, in a V8 isolate of a
    pool of threads; it limits its time, memory and CPU share, and performs the I/O
    the script asks for.  Both reach a MySQL database through a data client
    ([src/rusty-workers/src/db.rs]) that holds routes, apps, bundles, key-value data
    and logs.  The proxy exports metrics through [src/prometheus].

    ** Files, and the code they model

    Shared:
    - [Prelude]: Rust's [Result], machine integers, strings and bytes, lists.
    - [BTree]: [BTreeMap] of the Rust library, as sorted association lists.
    - [Float64]: [f64] and [f32], on the standard library's executable [spec_float].
      [FloatBits]: which of its elements are floats, that results are, and their bits.
    - [Types]: [rusty-workers/src/types.rs], [app.rs], [util.rs], the proxy's [config.rs].

    Database:
    - [Db]: [db.rs]; the state is the record [tables], one map per table; [DB] is the
      state and error monad in which each [await] may fail by the next entry of an
      explicit list of [faults]; a transaction works on the tables it was given and
      keeps its result only when it commits.  [DbFacts]: its theorems.

    Operators:
    - [Cli]: the [App] commands of [rusty-workers-cli/src/main.rs], in a monad over that
      of [Db].  [CliFacts]: their theorems, up to what the proxy then serves.
    - [ControlPlane]: [rusty-workers-cp/src/main.rs], the same operations over HTTP, and
      its theorems.
    - [Playground]: [rusty-workers-playground-api], as the calls it makes to a data
      client of which nothing is assumed.
    - [RuntimeServer]: the RPC interface of the runtime ([rpc.rs]) as a class with its
      law, [rusty-workers-runtime/src/server.rs] as the instance, the start of that process
      ([main.rs]) and the [Runtime]
      commands of the command line over any instance.

    Proxy:
    - [Lru]: the interface of the LRU cache crate as a class, and an instance.
    - [Sched]: [sched.rs].  The [Scheduler] record has the fields of the struct; the
      deque inside an [Arc<AppState>] is shared between the cache and the requests that
      hold the [Arc], so it lives in a store, [ready_store], and an [AppState] has its
      location.  [SchedFacts]: its theorems.
    - [Proxy]: [Scheduler::handle_request] and the service of [main.rs].  What the
      outside answers, attempt by attempt, is the record [Environment]; hyper's header
      maps are the class [Http].  [ProxyFacts]: its theorems.
    - [Ownership]: the interleavings of all that touches instances, as a step relation
      over the operations of [Sched].
    - [Deploy]: the commands of [Cli], the collectors of [Sched] and [Proxy] composed.
    - [ProxyMain]: options, start and runtime discovery loop of the proxy's [main.rs].
    - [Exporter]: its gauges, the task that sets them and the endpoint that serves them,
      over [Registry] and [TextEncoder].

    Runtime:
    - [Mm]: [mm.rs] and [semaphore.rs].
    - [Interface]: [interface.rs], [error.rs], [buffer.rs], [crypto.rs].
    - [Io]: the calls of [io.rs], [remote_buffer.rs].  [IoFacts]: its theorems.
    - [IoProc]: [IoProcessor::run] and [IoWaiter::wait] of [io.rs] with the channels,
      permits and tasks between them, as step relations, and its theorems.
    - [Tenants]: the calls of the workers of all apps on one database.
    - [Fetchd]: the fetch daemon, [rusty-workers-fetchd/src/server.rs], and its theorems.
    - [Executor]: [executor.rs], [engine.rs].  Each function is a computation over
      [InstanceState] that may fail and that records its externally visible actions in
      a trace of [event]s.  What V8 does with a script is data: the host calls it makes
      in order and how the run ends.  [ExecutorFacts]: its theorems.
    - [Isolate]: [isolate.rs] and the [InstanceHandle] of [executor.rs].
    - [Runtime]: [runtime.rs]; the expiring LRU cache is the class [ExpiringCache].
    - [Cluster]: a proxy and any number of runtimes that run against each other.
      [Request]: the retry loop of a request as a process among all that.

    Prometheus client:
    - [Metrics]: the messages in the form the other files use, [errors.rs],
      [metrics.rs], [desc.rs], the label pairs of [value.rs].  [MetricsFacts]: its theorems.
    - [Atomics]: the clock of [timer.rs], [value.rs], [counter.rs], [gauge.rs].
      [Atomic64]: [atomic64.rs], the trait [Atomic] as a class with its laws, its three
      implementations, and any threads that use one as a step relation.
    - [Options]: the builders of options of [metrics.rs] and [histogram.rs], and the macros
      for labels and options.  [ProcessCollector]: [process_collector.rs].
    - [MetricVec]: [vec.rs].  [Registry], [RegistryFacts]: [registry.rs].
    - [TextEncoder], [TextEncoderFacts]: [encoder/text.rs], with a reader of the format.
    - [ProtoWire], [ProtoLaws], [Proto], [ProtoFacts]: the messages of the default build,
      [proto/proto_model.rs].  [ProtoWire] has the interface of the [protobuf] crate as a
      class with its laws and what all messages share, [ProtoLaws] the contract of a
      message and the lemmas that establish it field by field, [ProtoFacts] its instances.
      [ProtoFormat]: the wire format, an instance of the class.
    - [ProtoEncode]: [encoder/pb.rs], its theorems, and the messages seen through their
      getters in the form of [Metrics].
    - [PlainModel]: [plain_model.rs], the messages without the [protobuf] feature;
      [PlainFacts]: that they have the getters and setters of the generated ones.
    - [Push], [PushFacts]: [push.rs].
    - [Histogram], [HistogramFacts], [HistogramInv]: [histogram.rs] as single atomic
      operations of threads.  [HistogramApi]: its methods from beginning to end, as one
      thread uses them, with instants and timers, and that they implement a list of values.
    - [LocalMetrics], [LocalMetricsFacts]: the local metrics of [histogram.rs] and
      [counter.rs] and their vectors, against the class [LocalMetric] with its laws.
      [AutoFlush]: [auto_flush.rs] and the updater of [timer.rs], against the class
      [Recording].
    - [Client], [ClientFacts], [ClientGather]: the client as a program uses it.  A counter,
      gauge, histogram or vector is a handle, a location in a store of [Cell]s; vectors and
      registries hold handles; [macros.rs] makes and registers metrics; a program is a list
      of calls ([op]) that [run_ops] runs on a [Client], the store with its registries.

    ** What the theorems show

    Data client: compare-and-update is atomic ([worker_data_cmpupdate_atomic]); scans
    are exact ([worker_data_scan_keys_spec]); app metadata reads back
    ([app_metadata_roundtrip]).

    Operators: no command leaves an app without its bundle, whichever statement fails
    ([commands_keep_bundles]); deploying switches an app over as a whole, up to the state
    that the proxy loads ([add_app_switches]), and one collector round later the next
    request runs the new bundle, whatever the proxy had cached ([deployed_app_serves]);
    the control plane has the effect of the commands ([service_agrees_with_cli]); the
    playground API calls its data client only with its token and stops at the first call
    that fails ([playground_requests]); a
    worker that was terminated by a command answers no more, even if the answer to the
    command was lost ([terminate_is_final]).

    Proxy: on a freshly loaded domain routing picks the longest stored prefix, as the
    query of the database does when no path holds a wildcard of [LIKE]
    ([cold_route_agrees]); caches hold what the database holds
    ([do_lookup_app_background_spec], [apps_gc_round_spec], [route_cache_gc_round_spec]); pools are trimmed as
    configured ([gc_lists_spec]); the set of runtimes follows health checks and
    discovery ([query_runtimes_spec], [discover_runtimes_spec]); the weighted choice
    cannot panic below 56861 runtimes ([choose_runtime_total]); the body limit is exact
    ([read_body_spec]); a request makes at most three calls and the client gets the
    last answer ([handle_request_spec]); a worker is never shared
    ([workers_never_shared], and [attempts_steps] that the retry loop is a run of the
    steps it speaks of).  Against any number of runtimes, over a
    transport that loses calls, a request is answered by a worker that was started with the
    bundle of its own app ([cluster_isolation]), and so the response a client gets in the
    end ([request_served_by_own_code]), from a loop that alone is, in any environment, that
    of the sequential model ([request_alone_is_attempts]).  The proxy starts exactly when every address resolves
    ([startup_spec]), and a turn of its discovery loop leaves the runtimes that answered
    ([runtimes_turn_spec]); its metrics endpoint never panics ([exporter_never_panics])
    and reports what the gauge task set ([export_turn_report]).

    Runtime: memory is conserved under concurrency, and what a reset adds to it is what
    was outstanding ([pool_conserved]), the semaphore
    bounds its permits ([semaphore_bound]); a script reaches only its own namespaces
    ([handle_task_isolated]), whatever the other apps do and whichever rows a limited
    scan picks ([tenants_noninterference]), gets back what it stored ([kv_put_get]), and each result
    of a call runs its own callback ([result_finds_callback]), also when the processor,
    its tasks and the script interleave ([io_replies_match]); at most
    [max_io_concurrency] tasks run ([io_concurrency_bounded]); waiting for I/O ends
    ([io_terminates], [exited_request_drains]).  A fetch returns what the request got
    ([run_fetch_spec]), and its errors are values for the script
    ([script_fetch_spec]).  A worker refines a
    protocol of permit, timer and requests ([instance_follows_protocol]), answers every
    request once ([every_request_answered]), and the time monitor measures exactly its
    running time ([monitor_measures_running_time]); a termination reaches only the
    worker it is meant for ([termination_hits_own_worker]); the thread pool has a
    thread for each permit, also after cancelled runs and panics, and a thread never has
    two runs that wait for it ([pool_has_thread]); removed workers stay removed
    ([removed_worker_unreachable]); the load figure is bounded ([load_bounded]); the log
    pipeline loses nothing it accepted ([log_exactly_once]).

    Prometheus client: a histogram collected while it is written is an exact snapshot
    ([snapshot_exact], [collector_waits_exactly], [sample_count_exact]); increments are
    not lost ([atomics_linearizable], [local_counters_conserved]), nor what local
    metrics flush ([local_vec_flush]), whose histograms take the steps of the shared
    one ([local_histogram_flush_runs]), and those that flush themselves lack only what
    was recorded less than the interval after the last flush that was due
    ([auto_flush_delivers]); to one thread a histogram is the list of
    its observations ([histogram_refines_list]).  A call of [op] on a
    handle of its type returns ([typed_call_returns]; the [with] methods, which panic on a
    wrong number of labels, are not among these calls); a registering
    macro registers what it returns ([macro_registers]); after any program a registry
    exports exactly what is registered with it ([gather_exports_exactly]), each metric as
    the calls on it have left it ([exported_history]), and children that were removed from
    their vectors no more ([removed_child_forgotten]); descriptors
    are accepted exactly when valid and their hashes are of what identifies them
    ([Desc_new_accepts], [desc_identity]); the registry stays consistent
    ([register_spec], [register_unregister]) and gathers everything once
    ([gather_spec]); encoded text is complete and can be read back
    ([encode_to_string_spec], [sample_roundtrip]), and so can the binary format, message
    by message ([protobuf_roundtrip]), whose parser ends on any input
    ([merge_from_total]); the two builds of the messages agree on what the
    client uses of them ([plain_and_proto_agree]); a push makes one request with what it was given, or none
    and an error or a panic ([push_spec], [push_from_collector_spec]); the process collector shows the reading it
    got ([process_collector_spec]).

    Where the code does something its callers may not expect there is a lemma that says
    so: [cmpupdate_count_overflow], [memory_limit_never_reported],
    [reset_ignores_outstanding], [vec_label_collision], [kill_waits_for_permit],
    [removed_local_metrics], [failed_register_leaves_dimensions],
    [unregister_by_sum], [nan_bounds_accepted], [gone_pool_attempts],
    [export_turn_report], [push_name_not_checked], [failed_add_app_loses_bundle],
    [dead_thread_is_reused].

    ** Conventions

    Integers are [Z] with the wrap-around of their width written out, as a release
    build computes; [fits w] states the range.  Times are milliseconds or nanoseconds
    given as arguments, never read.  Loops over data are structural; the retry loop has
    the bound of the source, three; a loop that waits is a step relation without fuel,
    and reachability is [rtc]; where such a system stops, the step relation is shown well
    founded by a measure (in [IoProc] the calls not yet spawned, then the work of the
    tasks and the results).  [read_pairs], [merge_loop] and [decode] take fuel, the length
    of the input they read, which they cannot exceed because each step consumes some of
    it ([merge_from_total]).

    Parameters stand for what is not in the repository: hex, base64 and JSON encoders,
    the LRU caches, [WeightedIndex], hyper's headers, RPC clients, V8, the digests of
    ring, the fnv hash, [memchr] and the printing of floats.  A hypothesis about one is
    a named assumption of a Section or a law of a class, and every theorem with
    hypotheses is followed by an instance, [.._holds], at concrete data.  Atomic
    operations are sequentially consistent.

    ** What is not modelled

    The macros and the transport of [rpc.rs] and the set-up of the other processes are
    I/O around the modelled parts.  The data client that the
    playground API is written for is not in the repository: it is any function of the calls
    made so far.  The column [nsid] of [sql/migration_000001/appkv.sql] has the collation
    of the server; [Db] compares it bytewise, as a binary one does.
    Of the Prometheus client: reflection of the messages;
    programs in [Client] run on one thread and use no local metrics, whose concurrency is in
    [HistogramInv], [Atomic64] and [Atomics]; that the count of a histogram stays below 2^63
    is a hypothesis there; no process collector is in the default registry, since no
    workspace member enables its feature. *)
From Stdlib Require Import ZArith Lia Ascii.
From Stdlib Require Strings.Byte Strings.String.
From stdpp Require Export base tactics numbers list list_numbers option strings countable gmap.


(** ** Scope and notations of the development *)

Declare Scope rw_scope.
Delimit Scope rw_scope with rw.

(** ** Results: Rust's [Result<A, E>] with the [?] operator as monadic bind *)

Inductive result (E A : Type) : Type :=
  | Ok (a : A)
  | Err (e : E).
Arguments Ok {E A} _.
Arguments Err {E A} _.

#[export] Instance result_ret E : MRet (result E) := λ A a, Ok a.
#[export] Instance result_bind E : MBind (result E) := λ A B f r,
  match r with Ok a => f a | Err e => Err e end.
#[export] Instance result_fmap E : FMap (result E) := λ A B f r,
  match r with Ok a => Ok (f a) | Err e => Err e end.

(** [Result::map_err] *)
Definition map_err {E F A} (f : E → F) (r : result E A) : result F A :=
  match r with Ok a => Ok a | Err e => Err (f e) end.

(** [Option::ok_or] (and [ok_or_else] with a pure closure) *)
Definition ok_or {E A} (o : option A) (e : E) : result E A :=
  match o with Some a => Ok a | None => Err e end.

(** [Result::ok] *)
Definition ok {E A} (r : result E A) : option A :=
  match r with Ok a => Some a | Err _ => None end.

Definition is_ok {E A} (r : result E A) : bool :=
  match r with Ok _ => true | Err _ => false end.

#[export] Instance result_eq_dec {E A} `{EqDecision E, EqDecision A} :
  EqDecision (result E A).
Proof. solve_decision. Defined.

Section result_lemmas.
Context {E A B : Type}.
Implicit Types r : result E A.

Lemma result_bind_Ok r (f : A → result E B) b :
  (r ≫= f) = Ok b ↔ ∃ a, r = Ok a ∧ f a = Ok b.
Proof. destruct r; naive_solver. Qed.

Lemma result_bind_Err r (f : A → result E B) e :
  (r ≫= f) = Err e ↔ r = Err e ∨ ∃ a, r = Ok a ∧ f a = Err e.
Proof. destruct r; naive_solver. Qed.

Lemma ok_or_Ok (o : option A) (e : E) a : ok_or o e = Ok a ↔ o = Some a.
Proof. destruct o; naive_solver. Qed.

Lemma ok_or_Err (o : option A) (e e' : E) : ok_or o e = Err e' ↔ o = None ∧ e' = e.
Proof. destruct o; naive_solver. Qed.

Lemma ok_Some r a : ok r = Some a ↔ r = Ok a.
Proof. destruct r; naive_solver. Qed.
End result_lemmas.

(** ** Machine integers

    A [w]-bit unsigned integer is a [Z] in [0, 2^w); the operations write out
    the wrap-around, the overflow check or the saturation of the Rust one. *)
Section machine_integers.
Local Open Scope Z_scope.

Definition umax (w : Z) : Z := 2 ^ w - 1.
Definition fits (w z : Z) : Prop := 0 <= z < 2 ^ w.
Definition wrap (w z : Z) : Z := z mod 2 ^ w.

(** [uN::wrapping_add] (also [AtomicUN::fetch_add], and [+] in release builds) *)
Definition wrapping_add (w a b : Z) : Z := wrap w (a + b).
Definition wrapping_sub (w a b : Z) : Z := wrap w (a - b).
(** [uN::checked_add] *)
Definition checked_add (w a b : Z) : option Z :=
  if decide (a + b < 2 ^ w) then Some (a + b) else None.

Lemma wrap_fits w z : 0 <= w -> fits w (wrap w z).
Proof. intros. apply Z.mod_pos_bound. lia. Qed.

Lemma wrap_id w z : fits w z -> wrap w z = z.
Proof. apply Z.mod_small. Qed.

Lemma wrapping_add_small w a b :
  0 <= a -> 0 <= b -> a + b < 2 ^ w -> wrapping_add w a b = a + b.
Proof. intros. apply wrap_id. unfold fits. lia. Qed.

Lemma wrapping_sub_small w a b :
  b <= a -> a < 2 ^ w -> 0 <= b -> wrapping_sub w a b = a - b.
Proof. intros. apply wrap_id. unfold fits. lia. Qed.

Lemma wrapping_add_0_r w a : fits w a -> wrapping_add w a 0 = a.
Proof. intros. unfold wrapping_add. rewrite Z.add_0_r. by apply wrap_id. Qed.

Lemma wrapping_add_assoc w a b c :
  0 <= w -> wrapping_add w (wrapping_add w a b) c = wrapping_add w a (b + c).
Proof.
  intros. unfold wrapping_add, wrap.
  rewrite Zplus_mod_idemp_l. f_equal. lia.
Qed.

(** Adding and taking away the same amount is the identity, wrap-around or not. *)
Lemma wrapping_add_sub w a b :
  fits w a -> wrapping_sub w (wrapping_add w a b) b = a.
Proof.
  intros. unfold wrapping_add, wrapping_sub, wrap.
  rewrite Zminus_mod_idemp_l. replace (a + b - b) with a by lia.
  by apply Z.mod_small.
Qed.

Lemma checked_add_Some w a b c :
  checked_add w a b = Some c <-> c = a + b /\ a + b < 2 ^ w.
Proof. unfold checked_add. case_decide; naive_solver. Qed.

Lemma checked_add_None w a b : checked_add w a b = None <-> 2 ^ w <= a + b.
Proof. unfold checked_add. case_decide; naive_solver lia. Qed.
End machine_integers.

(** ** Bytes and strings *)

Abbreviation byte := Byte.byte.
Abbreviation bytes := (list Byte.byte).

#[export] Instance byte_eq_dec : EqDecision byte := Byte.byte_eq_dec.
#[export] Program Instance byte_countable : Countable byte :=
  inj_countable Byte.to_N Byte.of_N _.
Next Obligation. intros b. apply Byte.of_to_N. Qed.

(** [str::as_bytes] and its inverse on the byte level *)
Definition as_bytes (s : string) : bytes := String.list_byte_of_string s.
Definition of_bytes (b : bytes) : string := String.string_of_list_byte b.

Lemma of_bytes_as_bytes s : of_bytes (as_bytes s) = s.
Proof. apply String.string_of_list_byte_of_string. Qed.
Lemma as_bytes_of_bytes b : as_bytes (of_bytes b) = b.
Proof. apply String.list_byte_of_string_of_list_byte. Qed.

(** [str::from_utf8]: the well-formed byte sequences of the Unicode standard, without
    overlong forms, surrogates and code points over U+10FFFF *)
Definition byte_in (lo hi : N) (b : byte) : bool := (lo <=? Byte.to_N b)%N && (Byte.to_N b <=? hi)%N.
Definition continuation : byte → bool := byte_in 0x80 0xBF.

Fixpoint valid_utf8 (b : bytes) : bool :=
  match b with
  | [] => true
  | x :: b =>
      if byte_in 0 0x7F x then valid_utf8 b else
      match b with
      | [] => false
      | y :: b =>
          if byte_in 0xC2 0xDF x then continuation y && valid_utf8 b else
          match b with
          | [] => false
          | z :: b =>
              if byte_in 0xE0 0xEF x then
                (if byte_in 0xE0 0xE0 x then byte_in 0xA0 0xBF y
                 else if byte_in 0xED 0xED x then byte_in 0x80 0x9F y else continuation y) &&
                continuation z && valid_utf8 b
              else
              match b with
              | [] => false
              | w :: b =>
                  byte_in 0xF0 0xF4 x &&
                  (if byte_in 0xF0 0xF0 x then byte_in 0x90 0xBF y
                   else if byte_in 0xF4 0xF4 x then byte_in 0x80 0x8F y else continuation y) &&
                  continuation z && continuation w && valid_utf8 b
              end
          end
      end
  end.

Definition from_utf8 (b : bytes) : option string := if valid_utf8 b then Some (of_bytes b) else None.

Lemma from_utf8_Some b s : from_utf8 b = Some s → as_bytes s = b.
Proof. unfold from_utf8. destruct (valid_utf8 b); [|done]. intros [= <-]. apply as_bytes_of_bytes. Qed.

(** [str::starts_with] with a string pattern *)
Definition starts_with (s pre : string) : bool := String.prefix pre s.

Lemma starts_with_nil s : starts_with s "" = true.
Proof. by destruct s. Qed.

Lemma append_cons c a b : String.append (String c a) b = String c (String.append a b).
Proof. done. Qed.

Lemma append_nil_l a : String.append "" a = a.
Proof. done. Qed.

Lemma append_assoc a b c :
  String.append a (String.append b c) = String.append (String.append a b) c.
Proof.
  induction a as [|x a IH]; [done|]. rewrite !append_cons. by rewrite IH.
Qed.

Lemma append_nil_r a : String.append a "" = a.
Proof. induction a as [|x a IH]; [done|]. rewrite append_cons. by rewrite IH. Qed.

Lemma length_append a b : String.length (String.append a b) = String.length a + String.length b.
Proof. induction a as [|x a IH]; [done|]. rewrite append_cons. simpl. by rewrite IH. Qed.

Lemma starts_with_spec s pre :
  starts_with s pre = true ↔ ∃ suf, s = String.append pre suf.
Proof.
  unfold starts_with. revert s.
  induction pre as [|c pre IH]; intros s; simpl.
  - split; [by eexists|by destruct s].
  - destruct s as [|d s]; simpl; [split; [done|intros [suf Hs]; by rewrite append_cons in Hs]|].
    destruct (ascii_dec c d) as [->|Hne].
    + rewrite IH. split; intros [suf Hs]; exists suf; [by rewrite Hs|].
      rewrite append_cons in Hs. by injection Hs.
    + split; [done|]. intros [suf Hs]. rewrite append_cons in Hs. congruence.
Qed.

(** Two prefixes of the same string are comparable: the longer one extends the other. *)
Lemma starts_with_weak_total s a b :
  starts_with s a = true → starts_with s b = true →
  String.length a ≤ String.length b → starts_with b a = true.
Proof.
  unfold starts_with. revert a b.
  induction s as [|c s IH]; intros [|x a] [|y b]; simpl; try done; try lia.
  destruct (ascii_dec x c), (ascii_dec y c); simplify_eq; try done.
  destruct (ascii_dec c c); [|done]. intros. apply IH; [done..|lia].
Qed.

Lemma starts_with_length s a : starts_with s a = true → String.length a ≤ String.length s.
Proof.
  unfold starts_with. revert a.
  induction s as [|c s IH]; intros [|x a]; simpl; try done; try lia.
  destruct (ascii_dec x c); [|done]. intros ?%IH. lia.
Qed.

Lemma starts_with_same_length s a b :
  starts_with s a = true → starts_with s b = true →
  String.length a = String.length b → a = b.
Proof.
  unfold starts_with. revert a b.
  induction s as [|c s IH]; intros [|x a] [|y b]; simpl; try done.
  destruct (ascii_dec x c), (ascii_dec y c); simplify_eq; try done.
  intros. f_equal. apply IH; [done..|lia].
Qed.

(** [str::split] on a character *)
Fixpoint split_on (sep : ascii) (s : string) : list string :=
  match s with
  | EmptyString => [""]
  | String c rest =>
      if decide (c = sep) then "" :: split_on sep rest
      else match split_on sep rest with
           | x :: xs => String c x :: xs
           | [] => [String c ""]
           end
  end.

(** [str::contains] and [str::ends_with] with a character, [String::pop] of an ASCII character *)
Definition contains_char (c : ascii) (s : string) : bool := bool_decide (c ∈ String.list_ascii_of_string s).
Definition ends_with_char (c : ascii) (s : string) : bool :=
  bool_decide (last (String.list_ascii_of_string s) = Some c).
Definition pop (s : string) : string := String.substring 0 (String.length s - 1) s.

(** [join] with one separator, and back *)
Fixpoint join (sep : ascii) (l : list string) : string :=
  match l with
  | [] => ""
  | [s] => s
  | s :: l => String.append s (String sep (join sep l))
  end.

Lemma contains_char_cons c x s : contains_char c (String x s) = false → x ≠ c ∧ contains_char c s = false.
Proof. unfold contains_char. simpl. rewrite !bool_decide_eq_false, elem_of_cons. naive_solver. Qed.

Lemma split_on_single sep s : contains_char sep s = false → split_on sep s = [s].
Proof.
  induction s as [|c s IH]; [done|]. intros [Hc Hs]%contains_char_cons. simpl.
  rewrite decide_False by done. by rewrite IH.
Qed.

Lemma split_on_append sep s rest :
  contains_char sep s = false → split_on sep (String.append s (String sep rest)) = s :: split_on sep rest.
Proof.
  induction s as [|c s IH]; simpl; [by rewrite decide_True|]. intros [Hc Hs]%contains_char_cons.
  rewrite decide_False by done. by rewrite IH.
Qed.

Lemma split_on_join sep l : l ≠ [] → Forall (λ s, contains_char sep s = false) l → split_on sep (join sep l) = l.
Proof.
  intros Hl Hall. induction Hall as [|s l Hs Hall IH]; [done|]. destruct l as [|s' l]; [by apply split_on_single|].
  change (join sep (s :: s' :: l)) with (String.append s (String sep (join sep (s' :: l)))).
  rewrite split_on_append by done. by rewrite IH.
Qed.

(** ** Sub-multisets of lists *)
#[export] Instance app_submseteq_proper {A} :
  Proper (submseteq ==> submseteq ==> submseteq) (@app A).
Proof. intros l1 l2 H k1 k2 G. by apply submseteq_app. Qed.

#[export] Instance cons_submseteq_proper {A} (x : A) : Proper (submseteq ==> submseteq) (cons x).
Proof. intros l1 l2 H. by apply submseteq_skip. Qed.

Lemma submseteq_NoDup {A} (l k : list A) : l ⊆+ k → NoDup k → NoDup l.
Proof. intros [k' ->]%submseteq_Permutation [? _]%NoDup_app. done. Qed.

(** ** Sequences of steps *)

Notation reachable R := (rtc R).

(** Rule induction for an invariant of a step relation. *)
Lemma rtc_invariant {A} (R : relation A) (P : A → Prop) x y :
  (∀ a b, R a b → P a → P b) → rtc R x y → P x → P y.
Proof. intros HR. induction 1; eauto. Qed.

(** ** Automation *)

Create HintDb rw discriminated.
#[export] Hint Resolve wrap_fits : rw.
#[export] Hint Rewrite of_bytes_as_bytes as_bytes_of_bytes : rw.

(** Case analysis on the scrutinee of the innermost [match] or [if] of the goal. *)
Ltac split_match :=
  match goal with
  | |- context [match ?x with _ => _ end] =>
      lazymatch x with
      | context [match _ with _ => _ end] => fail
      | _ => destruct x eqn:?
      end
  end.

(** The same on a hypothesis, closing the contradictory branches. *)
Ltac split_match_in H :=
  match type of H with
  | context [match ?x with _ => _ end] =>
      lazymatch x with
      | context [match _ with _ => _ end] => fail
      | _ => destruct x eqn:?; simplify_eq/=; try done
      end
  end.

Ltac split_matches := repeat split_match; simplify_eq/=; try done.
