(* ===== verification/BTree.v ===== *)
(** * The standard library's [BTreeMap], as the source uses it

    A [BTreeMap<K, V>] is a strictly increasing association list: [get],
    [insert], [remove], [contains_key], [len], collection from an iterator
    (later bindings win) and iteration in key order, with the laws the
    components rely on.  Rust's [String] keys are ordered bytewise. *)
From Stdlib Require Import Sorted.
From S2P Require Import Prelude.

(** ** Total orders on keys *)
Class KeyOrd (K : Type) := {
  kcompare : K → K → comparison;
  kcompare_eq a b : kcompare a b = Eq ↔ a = b;
  kcompare_antisym a b : kcompare b a = CompOpp (kcompare a b);
  kcompare_trans a b c : kcompare a b = Lt → kcompare b c = Lt → kcompare a c = Lt;
}.

Section order.
Context `{KeyOrd K}.
Implicit Types a b : K.

Definition klt a b : Prop := kcompare a b = Lt.

Lemma kcompare_refl a : kcompare a a = Eq.
Proof. by apply kcompare_eq. Qed.
Lemma klt_irrefl a : ¬ klt a a.
Proof. unfold klt. by rewrite kcompare_refl. Qed.
Lemma klt_trans a b c : klt a b → klt b c → klt a c.
Proof. apply kcompare_trans. Qed.
Lemma kcompare_Gt a b : kcompare a b = Gt ↔ klt b a.
Proof. unfold klt. rewrite (kcompare_antisym a b). destruct (kcompare a b); naive_solver. Qed.
Lemma klt_ne a b : klt a b → a ≠ b.
Proof. intros Hlt ->. by apply (klt_irrefl b). Qed.

#[export] Instance klt_transitive : Transitive klt.
Proof. intros a b c. apply klt_trans. Qed.

#[export] Instance key_eq_dec : EqDecision K.
Proof.
  intros a b. destruct (kcompare a b) eqn:E.
  - left. by apply kcompare_eq.
  - right. intros ->. by rewrite kcompare_refl in E.
  - right. intros ->. by rewrite kcompare_refl in E.
Defined.
End order.

(** [u8]/[char] order, then the lexicographic order of [str] *)
Lemma ascii_compare_trans a b c :
  Ascii.compare a b = Lt → Ascii.compare b c = Lt → Ascii.compare a c = Lt.
Proof. unfold Ascii.compare. rewrite !N.compare_lt_iff. lia. Qed.

Lemma ascii_compare_refl a : Ascii.compare a a = Eq.
Proof. apply N.compare_refl. Qed.

Lemma string_compare_refl (a : string) : String.compare a a = Eq.
Proof. induction a as [|x a IH]; simpl; [done|]. by rewrite ascii_compare_refl. Qed.

Lemma string_compare_trans (a b c : string) :
  String.compare a b = Lt → String.compare b c = Lt → String.compare a c = Lt.
Proof.
  revert b c. induction a as [|x a IH]; intros [|y b] [|z c]; simpl; try done.
  destruct (Ascii.compare x y) eqn:Exy, (Ascii.compare y z) eqn:Eyz; try done.
  - apply Ascii.compare_eq_iff in Exy as ->. rewrite Eyz. by apply IH.
  - apply Ascii.compare_eq_iff in Exy as ->. by rewrite Eyz.
  - apply Ascii.compare_eq_iff in Eyz as ->. by rewrite Exy.
  - by rewrite (ascii_compare_trans _ _ _ Exy Eyz).
Qed.

#[export] Program Instance string_ord : KeyOrd string := {| kcompare := String.compare |}.
Next Obligation. split; [apply String.compare_eq_iff|]. intros ->. apply string_compare_refl. Qed.
Next Obligation. intros. rewrite (String.compare_antisym a b). by destruct (String.compare b a). Qed.
Next Obligation. intros a b c. apply string_compare_trans. Qed.

(** A proper extension of a string is greater than the string. *)
Lemma prefix_klt (a b : string) : starts_with b a = true → a ≠ b → klt a b.
Proof.
  unfold starts_with, klt. revert b.
  induction a as [|x a IH]; intros [|y b]; simpl; try done.
  destruct (Ascii.ascii_dec x y) as [->|]; [|done]. intros Hp Hne.
  rewrite ascii_compare_refl.
  apply IH; [done|]. by intros ->.
Qed.

(** ** Ordered maps *)
Section btree.
Context `{KeyOrd K} {V : Type}.
Implicit Types (m : list (K * V)) (k : K) (v : V).

Fixpoint bt_get k m : option V :=
  match m with
  | [] => None
  | (k', v) :: m' => if decide (k = k') then Some v else bt_get k m'
  end.

Fixpoint bt_insert k v m : list (K * V) :=
  match m with
  | [] => [(k, v)]
  | (k', v') :: m' =>
      match kcompare k k' with
      | Eq => (k, v) :: m'
      | Lt => (k, v) :: (k', v') :: m'
      | Gt => (k', v') :: bt_insert k v m'
      end
  end.

Fixpoint bt_remove k m : list (K * V) :=
  match m with
  | [] => []
  | (k', v') :: m' => if decide (k = k') then m' else (k', v') :: bt_remove k m'
  end.

Definition bt_contains_key k m : bool := if bt_get k m then true else false.

(** [FromIterator]: insert one after the other, later bindings win *)
Definition bt_from_list (l : list (K * V)) : list (K * V) :=
  foldl (λ m kv, bt_insert kv.1 kv.2 m) [] l.

(** The representation invariant: keys strictly increase. *)
Definition bt_sorted m : Prop := StronglySorted klt m.*1.

Lemma bt_sorted_nil : bt_sorted [].
Proof. constructor. Qed.

Lemma bt_sorted_cons k v m :
  bt_sorted ((k, v) :: m) ↔ bt_sorted m ∧ ∀ k', k' ∈ m.*1 → klt k k'.
Proof.
  unfold bt_sorted. simpl. split.
  - intros Hs. apply StronglySorted_inv in Hs as [? Hall]. split; [done|].
    by apply Forall_forall.
  - intros [? ?]. constructor; [done|]. by apply Forall_forall.
Qed.

Lemma bt_get_Some_elem k v m : bt_get k m = Some v → (k, v) ∈ m.
Proof.
  induction m as [|[k' v'] m IH]; simpl; [done|].
  case_decide; [|set_solver]. intros [= ->]. subst. left.
Qed.

Lemma bt_get_None k m : bt_get k m = None ↔ k ∉ m.*1.
Proof.
  induction m as [|[k' v'] m IH]; simpl; [set_solver|].
  case_decide; [subst; set_solver|]. rewrite IH. set_solver.
Qed.

Lemma elem_bt_get k v m : bt_sorted m → (k, v) ∈ m → bt_get k m = Some v.
Proof.
  induction m as [|[k' v'] m IH]; simpl; [set_solver|].
  rewrite bt_sorted_cons. intros [Hs Hlt] [[= -> ->]|Hin]%elem_of_cons.
  - by rewrite decide_True.
  - rewrite decide_False; [by apply IH|]. intros ->.
    apply (klt_irrefl k'), Hlt. apply list_elem_of_fmap. by exists (k', v).
Qed.

Lemma bt_get_elem_iff k v m : bt_sorted m → bt_get k m = Some v ↔ (k, v) ∈ m.
Proof. split; [apply bt_get_Some_elem|by apply elem_bt_get]. Qed.

Lemma bt_insert_keys k v m k' : k' ∈ (bt_insert k v m).*1 ↔ k' = k ∨ k' ∈ m.*1.
Proof.
  induction m as [|[k1 v1] m IH]; simpl; [set_solver|].
  destruct (kcompare k k1) eqn:E; simpl; [|set_solver|set_solver].
  apply kcompare_eq in E as ->. set_solver.
Qed.

Lemma bt_insert_sorted k v m : bt_sorted m → bt_sorted (bt_insert k v m).
Proof.
  induction m as [|[k1 v1] m IH]; simpl.
  { intros _. apply bt_sorted_cons. split; [apply bt_sorted_nil|set_solver]. }
  rewrite bt_sorted_cons. intros [Hs Hlt].
  destruct (kcompare k k1) eqn:E; rewrite !bt_sorted_cons.
  - apply kcompare_eq in E as ->. done.
  - split; [done|]. intros k' [->|?]%elem_of_cons; [done|]. by eapply klt_trans, Hlt.
  - split; [by apply IH|]. intros k' [->|?]%bt_insert_keys; [|by apply Hlt].
    by apply kcompare_Gt.
Qed.

Lemma bt_get_insert k v m k' :
  bt_get k' (bt_insert k v m) = if decide (k' = k) then Some v else bt_get k' m.
Proof.
  induction m as [|[k1 v1] m IH]; simpl; [done|].
  destruct (kcompare k k1) eqn:E; simpl.
  - apply kcompare_eq in E as ->. repeat case_decide; done.
  - done.
  - rewrite IH. repeat case_decide; subst; try done.
    by rewrite kcompare_refl in E.
Qed.

Lemma bt_get_insert_eq k v m : bt_get k (bt_insert k v m) = Some v.
Proof. by rewrite bt_get_insert, decide_True. Qed.
Lemma bt_get_insert_ne k v m k' : k' ≠ k → bt_get k' (bt_insert k v m) = bt_get k' m.
Proof. intros. by rewrite bt_get_insert, decide_False. Qed.

(** Inserting replaces the binding of the key where it is, or adds one. *)
Lemma bt_insert_split k v m :
  bt_sorted m →
  match bt_get k m with
  | Some v0 => ∃ l1 l2, m = l1 ++ (k, v0) :: l2 ∧ bt_insert k v m = l1 ++ (k, v) :: l2
  | None => bt_insert k v m ≡ₚ (k, v) :: m
  end.
Proof.
  induction m as [|[k' v'] m IH]; simpl; [done|]. intros [Hs Hlt]%bt_sorted_cons. case_decide as Hk.
  - subst k'. rewrite kcompare_refl. by exists [], m.
  - specialize (IH Hs). destruct (kcompare k k') eqn:E; [by apply kcompare_eq in E| |].
    + destruct (bt_get k m) as [v0|] eqn:Eg; [|done]. apply bt_get_Some_elem in Eg.
      assert (Hin : k ∈ m.*1) by (apply list_elem_of_fmap; by exists (k, v0)).
      destruct (klt_irrefl k). eapply klt_trans; [exact E|]. by apply Hlt.
    + destruct (bt_get k m) as [v0|].
      * destruct IH as (l1 & l2 & -> & ->). by exists ((k', v') :: l1), l2.
      * rewrite IH. apply Permutation_swap.
Qed.

Lemma bt_remove_keys k m k' : k' ∈ (bt_remove k m).*1 → k' ∈ m.*1.
Proof. induction m as [|[k1 v1] m IH]; simpl; [done|]. case_decide; set_solver. Qed.

Lemma bt_remove_sorted k m : bt_sorted m → bt_sorted (bt_remove k m).
Proof.
  induction m as [|[k1 v1] m IH]; simpl; [done|].
  rewrite bt_sorted_cons. intros [Hs Hlt]. case_decide; [done|].
  apply bt_sorted_cons. split; [by apply IH|]. intros ? ?%bt_remove_keys. by apply Hlt.
Qed.

Lemma bt_get_remove k m k' :
  bt_sorted m → bt_get k' (bt_remove k m) = if decide (k' = k) then None else bt_get k' m.
Proof.
  induction m as [|[k1 v1] m IH]; simpl; [by intros; case_decide|].
  rewrite bt_sorted_cons. intros [Hs Hlt].
  destruct (decide (k = k1)) as [->|Hne]; simpl.
  - repeat case_decide; subst; try done. apply bt_get_None. intros Hin.
    by apply (klt_irrefl k1), Hlt.
  - rewrite IH by done. repeat case_decide; subst; done.
Qed.

Lemma bt_from_list_sorted_aux l m :
  bt_sorted m → bt_sorted (foldl (λ m kv, bt_insert kv.1 kv.2 m) m l).
Proof. revert m. induction l as [|[k v] l IH]; simpl; eauto using bt_insert_sorted. Qed.

Lemma bt_from_list_sorted l : bt_sorted (bt_from_list l).
Proof. apply bt_from_list_sorted_aux, bt_sorted_nil. Qed.

Lemma bt_from_list_app_one l k v :
  bt_from_list (l ++ [(k, v)]) = bt_insert k v (bt_from_list l).
Proof. unfold bt_from_list. by rewrite foldl_app. Qed.

(** Collecting a list keeps, for each key, the last binding of the list. *)
Lemma bt_get_from_list l k : bt_get k (bt_from_list l) = bt_get k (reverse l).
Proof.
  induction l as [|[k1 v1] l IH] using rev_ind; [done|].
  rewrite bt_from_list_app_one, bt_get_insert, reverse_snoc. simpl.
  repeat case_decide; try done.
Qed.

Lemma bt_get_NoDup l k v : NoDup l.*1 → (k, v) ∈ l → bt_get k l = Some v.
Proof.
  induction l as [|[k1 v1] l IH]; simpl; [set_solver|].
  rewrite NoDup_cons. intros [Hni Hnd] [[= -> ->]|Hin]%elem_of_cons.
  - by rewrite decide_True.
  - rewrite decide_False; [by apply IH|]. intros ->. apply Hni.
    apply list_elem_of_fmap. by exists (k1, v).
Qed.

Lemma bt_from_list_NoDup l k v :
  NoDup l.*1 → bt_get k (bt_from_list l) = Some v ↔ (k, v) ∈ l.
Proof.
  intros Hnd. rewrite bt_get_from_list. split.
  - intros ?%bt_get_Some_elem. by apply elem_of_reverse.
  - intros Hin. apply bt_get_NoDup.
    + by rewrite fmap_reverse, reverse_Permutation.
    + by apply elem_of_reverse.
Qed.

(** A map is determined by its entries. *)
Lemma bt_sorted_head_in k1 v1 m1 k2 v2 m2 :
  bt_sorted ((k2, v2) :: m2) → (k1, v1) ∈ (k2, v2) :: m2 → (k1, v1) = (k2, v2) ∨ klt k2 k1.
Proof.
  intros [_ Hl]%bt_sorted_cons [?|Hin]%elem_of_cons; [by left|right]. apply Hl.
  apply list_elem_of_fmap. by exists (k1, v1).
Qed.

Lemma bt_sorted_ext m1 m2 :
  bt_sorted m1 → bt_sorted m2 → (∀ x, x ∈ m1 ↔ x ∈ m2) → m1 = m2.
Proof.
  revert m2. induction m1 as [|[k1 v1] m1 IH]; intros [|[k2 v2] m2] H1 H2 Heq; [done|..].
  - destruct (elem_of_nil (k2, v2)) as [Hn _]. destruct Hn. apply Heq. by left.
  - destruct (elem_of_nil (k1, v1)) as [Hn _]. destruct Hn. apply Heq. by left.
  - assert (Hhead : (k1, v1) = (k2, v2)).
    { destruct (bt_sorted_head_in k1 v1 m2 k2 v2 m2 H2) as [|L2]; [apply Heq; by left|done|].
      destruct (bt_sorted_head_in k2 v2 m1 k1 v1 m1 H1) as [|L1]; [apply Heq; by left|done|].
      destruct (klt_irrefl k1). by apply (klt_trans _ k2). }
    simplify_eq. f_equal.
    apply bt_sorted_cons in H1 as [Hs1 Hl1]. apply bt_sorted_cons in H2 as [Hs2 Hl2].
    apply IH; [done..|]. intros [k v]. specialize (Heq (k, v)). rewrite !elem_of_cons in Heq.
    assert (Hne : ∀ m, (∀ k', k' ∈ m.*1 → klt k2 k') → (k, v) ∈ m → (k, v) ≠ (k2, v2)).
    { intros m Hm Hin [= -> ->]. destruct (klt_irrefl k2). apply Hm, list_elem_of_fmap. by exists (k2, v2). }
    split; intros Hin; pose proof Hin as Hin'; [apply Hne in Hin'; [|done]|apply Hne in Hin'; [|done]]; tauto.
Qed.
End btree.

#[export] Hint Resolve bt_sorted_nil bt_insert_sorted bt_remove_sorted bt_from_list_sorted : rw.
#[export] Hint Rewrite @bt_get_insert_eq : rw.

(** ** Multimaps: [entry(k).or_insert(vec![]).push(v)] *)
Section multimap.
Context `{KeyOrd K} {V : Type}.
Implicit Types (m : list (K * list V)) (items : list (K * V)).

Definition bt_push (k : K) (v : V) m : list (K * list V) := bt_insert k (default [] (bt_get k m) ++ [v]) m.

(** the values given for a key, in order *)
Definition values_of (k : K) items : list V := (filter (λ kv, kv.1 = k) items).*2.

Lemma bt_get_push k k' v m :
  default [] (bt_get k' (bt_push k v m)) = default [] (bt_get k' m) ++ (if decide (k = k') then [v] else []).
Proof.
  unfold bt_push. case_decide as Hk; [subst; by rewrite bt_get_insert_eq|].
  rewrite bt_get_insert_ne by done. by rewrite app_nil_r.
Qed.

Lemma bt_push_fold k items m :
  default [] (bt_get k (foldl (λ m kv, bt_push kv.1 kv.2 m) m items)) = default [] (bt_get k m) ++ values_of k items.
Proof.
  unfold values_of. revert m. induction items as [|[k' v] items IH]; intros m; simpl; [by rewrite app_nil_r|].
  rewrite IH, bt_get_push, filter_cons. simpl. by case_decide; simpl; rewrite <-app_assoc.
Qed.
End multimap.
