(* ===== verification/Float64.v ===== *)
(** * IEEE 754 binary64 and binary32, as the source uses [f64] and [f32]

    A float is the standard library's [spec_float]; arithmetic is its
    executable specification at precision 53/24, so every definition computes.
    The casts are Rust's: an integer rounds to nearest even, a float truncates
    and saturates. The lemmas bound the rounding of a product by its exact value,
    which is what the load computation of the runtime needs. *)
From Stdlib Require Import ZArith Lia Floats.SpecFloat.
From S2P Require Import Prelude.
Local Open Scope Z_scope.

Abbreviation f64 := spec_float.
Abbreviation f32 := spec_float.

Definition f64_add : f64 → f64 → f64 := SFadd 53 1024.
Definition f64_mul : f64 → f64 → f64 := SFmul 53 1024.
Definition f64_div : f64 → f64 → f64 := SFdiv 53 1024.
(** [a < b], [a <= b], [a > b], [a >= b]: false on NaN *)
Definition f64_lt (a b : f64) : bool := SFltb a b.
Definition f64_le (a b : f64) : bool := SFleb a b.
Definition f64_gt (a b : f64) : bool := SFltb b a.
Definition f64_ge (a b : f64) : bool := SFleb b a.
Definition f64_eq (a b : f64) : bool := SFeqb a b.

(** [z as f64] of an integer *)
Definition f64_of_Z (z : Z) : f64 := binary_normalize 53 1024 z 0 false.

Definition f64_zero : f64 := S754_zero false.
Definition f64_one : f64 := f64_of_Z 1.
Definition f64_infinity : f64 := S754_infinity false.

(** [f64::is_finite], [is_infinite], [is_sign_positive] *)
Definition f64_is_finite (x : f64) : bool :=
  match x with S754_zero _ | S754_finite _ _ _ => true | _ => false end.
Definition f64_is_infinite (x : f64) : bool :=
  match x with S754_infinity _ => true | _ => false end.
Definition f64_is_sign_positive (x : f64) : bool :=
  match x with
  | S754_zero s | S754_infinity s | S754_finite s _ _ => negb s
  | S754_nan => true
  end.

(** [x as uN]: truncation towards zero, saturating, NaN to 0 *)
Definition f64_to_uint (w : Z) (x : f64) : Z :=
  match x with
  | S754_finite false m e =>
      Z.min (2 ^ w - 1)
        (if e <? 0 then Z.pos m / 2 ^ (- e) else Z.pos m * 2 ^ e)
  | S754_infinity false => 2 ^ w - 1
  | _ => 0
  end.

#[export] Instance spec_float_eq_dec : EqDecision spec_float.
Proof. solve_decision. Defined.

Example f64_one_value : f64_one = S754_finite false 4503599627370496 (-52).
Proof. reflexivity. Qed.
Example f64_half_trunc :
  f64_to_uint 16 (f64_mul (f64_div (f64_of_Z 1) (f64_of_Z 2)) (f64_of_Z 30001)) = 15000.
Proof. reflexivity. Qed.

(** ** Digits and shifts *)

Lemma digits2_pos_bound p : 2 ^ (Z.pos (digits2_pos p) - 1) <= Z.pos p < 2 ^ Z.pos (digits2_pos p).
Proof.
  induction p as [p IH|p IH|]; simpl digits2_pos; [| |done];
    rewrite Pos2Z.inj_succ; replace (Z.succ _ - 1) with (Z.succ (Z.pos (digits2_pos p) - 1)) by lia;
    rewrite !Z.pow_succ_r by lia; lia.
Qed.

Lemma Zdigits2_bound m : 0 <= m -> m < 2 ^ Zdigits2 m.
Proof. destruct m as [|p|p]; simpl; [lia| |lia]. intros _. apply digits2_pos_bound. Qed.

Lemma Zdigits2_nonneg m : 0 <= Zdigits2 m.
Proof. destruct m; simpl; lia. Qed.

(** A number below [2^n] has at most [n] digits. *)
Lemma Zdigits2_le m n : 0 <= n -> 0 <= m < 2 ^ n -> Zdigits2 m <= n.
Proof.
  destruct m as [|p|p]; simpl; [lia| |lia]. intros Hn [_ Hlt].
  pose proof (digits2_pos_bound p) as [Hge _].
  enough (Z.pos (digits2_pos p) - 1 < n) by lia.
  apply (Z.pow_lt_mono_r_iff 2); lia.
Qed.

Lemma iter_pos_nat {A} (f : A → A) n x : SpecFloat.iter_pos f n x = Nat.iter (Pos.to_nat n) f x.
Proof.
  assert (Hsplit : ∀ a b y, Nat.iter (a + b) f y = Nat.iter a f (Nat.iter b f y)).
  { induction a as [|a IH]; intros b y; simpl; [done|]. by rewrite IH. }
  assert (Hend : ∀ k y, Nat.iter k f (f y) = Nat.iter (S k) f y).
  { induction k as [|k IH]; intros y; simpl; [done|]. f_equal. by rewrite IH. }
  revert x. induction n as [n IH|n IH|]; intros x; cbn [SpecFloat.iter_pos]; [| |done].
  - rewrite !IH, Hend, <- Hsplit. f_equal. lia.
  - rewrite !IH, <- Hsplit. f_equal. lia.
Qed.

Lemma shr_1_m mrs : 0 <= shr_m mrs -> shr_m (shr_1 mrs) = shr_m mrs / 2.
Proof.
  destruct mrs as [[|[p|p|]|p] r s]; simpl; intros; try done; try lia.
  - apply Z.div_unique with (r := 1); lia.
  - apply Z.div_unique with (r := 0); lia.
Qed.

Lemma shr_iter_m n mrs :
  0 <= shr_m mrs ->
  shr_m (Nat.iter n shr_1 mrs) = shr_m mrs / 2 ^ Z.of_nat n.
Proof.
  intros Hm. induction n as [|n IH]; [simpl; by rewrite Z.div_1_r|].
  change (Nat.iter (S n) shr_1 mrs) with (shr_1 (Nat.iter n shr_1 mrs)).
  assert (0 < 2 ^ Z.of_nat n) by (apply Z.pow_pos_nonneg; lia).
  rewrite shr_1_m by (rewrite IH; by apply Z.div_pos).
  rewrite IH, Nat2Z.inj_succ, Z.pow_succ_r, Z.div_div, Z.mul_comm by lia. done.
Qed.

Lemma shr_record_of_loc_m m l : shr_m (shr_record_of_loc m l) = m.
Proof. by destruct l as [|[]]. Qed.

(** The shift of a rounding: how far, and what it leaves of the mantissa. *)
Lemma shr_fexp_spec m e l :
  0 <= m ->
  let k := Z.max 0 (fexp 53 1024 (Zdigits2 m + e) - e) in
  let r := shr_fexp 53 1024 m e l in
  shr_m r.1 = m / 2 ^ k /\ r.2 = e + k.
Proof.
  intros Hm. unfold shr_fexp, shr.
  destruct (fexp 53 1024 (Zdigits2 m + e) - e) as [|n|n] eqn:Ek;
    simpl; rewrite ?shr_record_of_loc_m.
  - by rewrite Z.div_1_r, Z.add_0_r.
  - rewrite iter_pos_nat, shr_iter_m; rewrite shr_record_of_loc_m; [|done].
    split; [f_equal; f_equal; lia|lia].
  - by rewrite Z.div_1_r, Z.add_0_r.
Qed.

(** After the shift at most 53 digits are left. *)
Lemma shr_fexp_digits m e :
  0 <= m ->
  m / 2 ^ Z.max 0 (fexp 53 1024 (Zdigits2 m + e) - e) < 2 ^ 53.
Proof.
  intros Hm. pose proof (Zdigits2_bound m Hm) as Hb. pose proof (Zdigits2_nonneg m).
  set (k := Z.max 0 _).
  assert (0 < 2 ^ k) by (apply Z.pow_pos_nonneg; lia).
  apply Z.div_lt_upper_bound; [done|].
  rewrite <- Z.pow_add_r by lia.
  eapply Z.lt_le_trans; [exact Hb|]. apply Z.pow_le_mono_r; [lia|].
  unfold k, fexp, emin. lia.
Qed.

Lemma round_nearest_even_bound m l : m <= round_nearest_even m l <= m + 1.
Proof. destruct l as [|[]]; simpl; try lia. destruct (Z.even m); lia. Qed.

(** ** What a rounded result can be *)

(** Truncation of [m * 2^e] to an integer, and the bound [m * 2^e <= b], with both
    signs of the exponent in one formula. *)
Definition trunc (m e : Z) : Z := m * 2 ^ Z.max e 0 / 2 ^ Z.max (- e) 0.
Definition below (m e b : Z) : Prop := m * 2 ^ Z.max e 0 <= b * 2 ^ Z.max (- e) 0.

Lemma trunc_below m e b : below m e b -> trunc m e <= b.
Proof.
  unfold below, trunc. intros. apply Z.div_le_upper_bound; [|lia].
  apply Z.pow_pos_nonneg; lia.
Qed.

Lemma f64_to_uint_finite w m e :
  f64_to_uint w (S754_finite false m e) = Z.min (2 ^ w - 1) (trunc (Z.pos m) e).
Proof.
  unfold f64_to_uint, trunc. f_equal. destruct (Z.ltb_spec e 0).
  - rewrite (Z.max_r e), (Z.max_l (- e)), Z.mul_1_r by lia. done.
  - rewrite (Z.max_l e), (Z.max_r (- e)), Z.div_1_r by lia. done.
Qed.

(** A positive number below [2^51] needs at most 52 integer digits. *)
Lemma below_digits m e : 0 < m -> below m e (2 ^ 51) -> Zdigits2 m + e <= 52.
Proof.
  unfold below. intros Hm Hb. destruct (Z.le_gt_cases 0 e).
  - rewrite (Z.max_l e), (Z.max_r (- e)), Z.mul_1_r in Hb by lia.
    assert (e <= 51).
    { apply (Z.pow_le_mono_r_iff 2); [lia..|]. nia. }
    enough (Zdigits2 m <= 52 - e) by lia. apply Zdigits2_le; [lia|].
    split; [lia|]. apply (Z.mul_lt_mono_pos_r (2 ^ e)); [apply Z.pow_pos_nonneg; lia|].
    rewrite <- Z.pow_add_r by lia. replace (52 - e + e) with 52 by lia. lia.
  - rewrite (Z.max_r e), (Z.max_l (- e)), Z.mul_1_r, <- Z.pow_add_r in Hb by lia.
    enough (Zdigits2 m <= 52 - e) by lia. apply Zdigits2_le; [lia|].
    split; [lia|]. eapply Z.le_lt_trans; [exact Hb|]. apply Z.pow_lt_mono_r; lia.
Qed.

(** Shifting right by at most [- e] places does not change the truncation. *)
Lemma trunc_shift m e k : 0 <= m -> 0 <= k -> e + k <= 0 -> trunc (m / 2 ^ k) (e + k) = trunc m e.
Proof.
  intros. unfold trunc.
  rewrite (Z.max_r e), (Z.max_r (e + k)), (Z.max_l (- e)), (Z.max_l (- (e + k))) by lia.
  rewrite !Z.mul_1_r, Z.div_div, <- Z.pow_add_r by (try (apply Z.pow_nonzero; lia); try (apply Z.pow_pos_nonneg; lia); lia).
  do 2 f_equal. lia.
Qed.

(** Rounding up in the last place of a fraction keeps the integer bound. *)
Lemma trunc_round_up m m' e b :
  0 <= m' <= m + 1 -> e < 0 -> below m e b -> 0 <= b -> trunc m' e <= b.
Proof.
  unfold below, trunc. intros Hm He Hb Hb0.
  rewrite (Z.max_r e), (Z.max_l (- e)), Z.mul_1_r in * by lia.
  assert (2 <= 2 ^ (- e)) by (change 2 with (2 ^ 1) at 1; apply Z.pow_le_mono_r; lia).
  assert (m' / 2 ^ (- e) < b + 1); [|lia].
  apply Z.div_lt_upper_bound; nia.
Qed.

(** Rounding an exact product below [b <= 2^51] to 53 bits truncates to at most [b]. *)
Lemma round_aux_trunc_le w m e b :
  0 < m -> 0 <= b <= 2 ^ 51 -> 0 <= w -> below m e b ->
  f64_to_uint w (binary_round_aux 53 1024 false m e loc_Exact) <= b.
Proof.
  intros Hm Hb Hw Hbelow. unfold binary_round_aux.
  assert (Hd : Zdigits2 m + e <= 52).
  { apply below_digits; [done|]. unfold below in *. nia. }
  assert (0 < 2 ^ w) by (apply Z.pow_pos_nonneg; lia).
  pose proof (shr_fexp_spec m e loc_Exact ltac:(lia)) as Hs1.
  pose proof (shr_fexp_digits m e ltac:(lia)) as Hd1.
  set (k1 := Z.max 0 (fexp 53 1024 (Zdigits2 m + e) - e)) in *.
  assert (Hexact : k1 = 0 → shr_fexp 53 1024 m e loc_Exact = (Build_shr_record m false false, e)).
  { intros Hk. unfold shr_fexp, shr. unfold k1 in Hk.
    destruct (fexp 53 1024 (Zdigits2 m + e) - e); [done|lia|done]. }
  destruct (shr_fexp 53 1024 m e loc_Exact) as [mrs1 e1]. simpl in Hs1.
  destruct Hs1 as [Hm1 He1].
  set (m2 := round_nearest_even (shr_m mrs1) (loc_of_shr_record mrs1)).
  assert (Hm2 : shr_m mrs1 <= m2 <= shr_m mrs1 + 1) by apply round_nearest_even_bound.
  assert (0 <= shr_m mrs1).
  { rewrite Hm1. apply Z.div_pos; [lia|]. apply Z.pow_pos_nonneg; lia. }
  pose proof (shr_fexp_spec m2 e1 loc_Exact ltac:(lia)) as Hs2.
  destruct (shr_fexp 53 1024 m2 e1 loc_Exact) as [mrs2 e2]. simpl in Hs2.
  destruct Hs2 as [Hm3 He3].
  destruct (shr_m mrs2) as [|p|p] eqn:Ep; [simpl; lia| |simpl; lia].
  assert (Hgoal : trunc (Z.pos p) e2 <= b).
  { rewrite Hm3, He3. destruct (decide (k1 = 0)) as [Hk|Hk].
    - pose proof (Hexact Hk) as Heq. injection Heq as -> ->. subst m2. simpl in *.
      unfold k1 in Hk. rewrite Hk, Z.div_1_r, Z.add_0_r. by apply trunc_below.
    - assert (e1 = fexp 53 1024 (Zdigits2 m + e)) as He1' by lia.
      assert (-1074 <= e1 < 0) by (rewrite He1'; unfold fexp, emin; lia).
      assert (Zdigits2 m2 <= 54) by (apply Zdigits2_le; lia).
      rewrite trunc_shift; [|lia|lia|unfold fexp, emin; lia].
      eapply (trunc_round_up (shr_m mrs1)); [lia|lia| |lia].
      rewrite Hm1, He1. unfold below in *.
      rewrite (Z.max_r (e + k1)), (Z.max_l (- (e + k1))), Z.mul_1_r by lia.
      rewrite (Z.max_r e), (Z.max_l (- e)), Z.mul_1_r in Hbelow by lia.
      apply Z.div_le_upper_bound; [apply Z.pow_pos_nonneg; lia|].
      rewrite (Z.mul_comm b), Z.mul_assoc, <- Z.pow_add_r by lia.
      replace (k1 + - (e + k1)) with (- e) by lia. lia. }
  destruct (e2 <=? 1024 - 53) eqn:Hov.
  - rewrite f64_to_uint_finite. lia.
  - exfalso. apply Z.leb_gt in Hov. unfold trunc in Hgoal.
    rewrite (Z.max_l e2), (Z.max_r (- e2)), Z.div_1_r in Hgoal by lia.
    assert (2 ^ 52 <= 2 ^ e2) by (apply Z.pow_le_mono_r; lia). lia.
Qed.

(** ** Mantissas of results *)

Definition narrow (x : f64) : Prop :=
  match x with S754_finite _ m _ => Z.pos m < 2 ^ 53 | _ => True end.

Lemma round_aux_narrow s m e l : 0 <= m -> narrow (binary_round_aux 53 1024 s m e l).
Proof.
  intros Hm. unfold binary_round_aux.
  pose proof (shr_fexp_spec m e l Hm) as Hs1.
  destruct (shr_fexp 53 1024 m e l) as [mrs1 e1]. simpl in Hs1. destruct Hs1 as [Hm1 He1].
  set (m2 := round_nearest_even _ _).
  assert (0 <= m2).
  { pose proof (round_nearest_even_bound (shr_m mrs1) (loc_of_shr_record mrs1)).
    assert (0 <= shr_m mrs1); [|subst m2; lia].
    rewrite Hm1. apply Z.div_pos; [lia|]. apply Z.pow_pos_nonneg; lia. }
  pose proof (shr_fexp_spec m2 e1 loc_Exact ltac:(lia)) as Hs2.
  pose proof (shr_fexp_digits m2 e1 ltac:(lia)) as Hd2.
  destruct (shr_fexp 53 1024 m2 e1 loc_Exact) as [mrs2 e2]. simpl in Hs2.
  destruct Hs2 as [Hm3 _]. rewrite <- Hm3 in Hd2.
  destruct (shr_m mrs2) as [|p|p]; simpl; [done| |done].
  by destruct (e2 <=? 1024 - 53).
Qed.

Lemma f64_div_narrow x y : narrow (f64_div x y).
Proof.
  destruct x as [sx|sx| |sx mx ex], y as [sy|sy| |sy my ey]; try done.
  unfold f64_div, SFdiv. destruct (SFdiv_core_binary _ _ _ _ _ _) as [[mz ez] lz] eqn:E.
  apply round_aux_narrow. unfold SFdiv_core_binary in E.
  match type of E with (let '(q, r) := Z.div_eucl ?n ?d in _) = _ =>
    assert (0 <= n) as Hn by (destruct (ex - ey - _) eqn:Es; [lia|apply Z.shiftl_nonneg; lia|lia]);
    pose proof (Z.div_pos n d Hn ltac:(lia)) as Hq; unfold Z.div in Hq;
    destruct (Z.div_eucl n d) as [q r]; simplify_eq; done
  end.
Qed.

Lemma pos_iter_xO p d : Z.pos (Pos.iter xO p d) = Z.pos p * 2 ^ Z.pos d.
Proof.
  induction d as [|d IH] using Pos.peano_ind.
  - change (Z.pos (Pos.iter xO p 1)) with (2 * Z.pos p). lia.
  - rewrite Pos.iter_succ, Pos2Z.inj_succ, Z.pow_succ_r by lia.
    change (2 * Z.pos (Pos.iter xO p d) = Z.pos p * (2 * 2 ^ Z.pos d)). rewrite IH. lia.
Qed.

(** An integer of at most 53 bits is represented exactly. *)
Lemma f64_of_pos p :
  Z.pos p < 2 ^ 53 ->
  ∃ m k, f64_of_Z (Z.pos p) = S754_finite false m (- k) ∧ 0 <= k <= 52 ∧
         Z.pos m = Z.pos p * 2 ^ k.
Proof.
  intros Hp. pose proof (digits2_pos_bound p) as Hdp.
  assert (Hd : Z.pos (digits2_pos p) <= 53).
  { change (Zdigits2 (Z.pos p) <= 53). apply Zdigits2_le; lia. }
  set (k := 53 - Z.pos (digits2_pos p)).
  assert (∃ m, shl_align p 0 (fexp 53 1024 (Z.pos (digits2_pos p) + 0)) = (m, - k) ∧
               Z.pos m = Z.pos p * 2 ^ k) as (m & Hs & Hm).
  { unfold shl_align.
    assert (fexp 53 1024 (Z.pos (digits2_pos p) + 0) = - k) as ->
      by (unfold fexp, emin, k; lia).
    destruct (- k - 0) as [|d|d] eqn:Ek; [|lia|].
    - exists p. assert (k = 0) as -> by lia. split; [done|]. simpl. lia.
    - eexists. split; [done|]. rewrite pos_iter_xO. do 2 f_equal. lia. }
  exists m, k. split; [|split; [unfold k in *; lia|done]].
  assert (Hdm : Zdigits2 (Z.pos m) = 53).
  { assert (Hlo : 2 ^ 52 <= Z.pos m < 2 ^ 53).
    { rewrite Hm. split.
      - transitivity (2 ^ (Z.pos (digits2_pos p) - 1) * 2 ^ k).
        + rewrite <- Z.pow_add_r by lia. apply Z.pow_le_mono_r; lia.
        + apply Z.mul_le_mono_nonneg_r; [|lia]. apply Z.pow_nonneg; lia.
      - apply (Z.lt_le_trans _ (2 ^ Z.pos (digits2_pos p) * 2 ^ k)).
        + apply Z.mul_lt_mono_pos_r; [apply Z.pow_pos_nonneg; lia|lia].
        + rewrite <- Z.pow_add_r by lia. apply Z.pow_le_mono_r; lia. }
    apply Z.le_antisymm; [apply Zdigits2_le; lia|].
    destruct (Z.le_gt_cases 53 (Zdigits2 (Z.pos m))) as [|Hlt]; [done|].
    pose proof (Zdigits2_bound (Z.pos m) ltac:(lia)).
    assert (2 ^ Zdigits2 (Z.pos m) <= 2 ^ 52) by (apply Z.pow_le_mono_r; lia). lia. }
  assert (Hfix : ∀ l, shr_fexp 53 1024 (Z.pos m) (- k) l = (shr_record_of_loc (Z.pos m) l, - k)).
  { intros l. unfold shr_fexp. rewrite Hdm.
    assert (fexp 53 1024 (53 + - k) - - k = 0) as -> by (unfold fexp, emin; lia). done. }
  unfold f64_of_Z, binary_normalize, binary_round. rewrite Hs.
  unfold binary_round_aux. rewrite Hfix. simpl shr_m. simpl round_nearest_even.
  rewrite Hfix. simpl. destruct (Z.leb_spec (- k) (1024 - 53)); [done|lia].
Qed.

(** A usage ratio that is not above 1, scaled by [n], truncates to at most [n]. *)
Lemma f64_mul_ratio_le w x n :
  0 <= w -> 0 <= n < 2 ^ 51 -> narrow x -> f64_is_finite x = true -> f64_gt x f64_one = false ->
  f64_to_uint w (f64_mul x (f64_of_Z n)) <= n.
Proof.
  intros Hw Hn Hx Hfin Hle. destruct n as [|p|p]; [by destruct x as [| | |[]]| |lia].
  destruct (f64_of_pos p) as (m & k & -> & Hk & Hm); [lia|].
  destruct x as [sx|sx| |[] mx ex]; try done; try (by destruct sx).
  { unfold f64_mul, SFmul. simpl xorb. unfold binary_round_aux.
    destruct (shr_fexp _ _ _ _ _) as [mrs1 e1]. destruct (shr_fexp _ _ _ _ _) as [mrs2 e2].
    destruct (shr_m mrs2); simpl; [lia| |lia]. destruct (e2 <=? _); simpl; lia. }
  unfold f64_mul, SFmul. simpl xorb. apply round_aux_trunc_le; [lia|lia|done|].
  simpl in Hx. unfold below. rewrite Pos2Z.inj_mul, Hm.
  assert (ex <= -52 ∧ Z.pos mx <= 2 ^ (- ex)) as [Hex1 Hex2].
  { revert Hle. unfold f64_gt, SFltb. change f64_one with (S754_finite false 4503599627370496 (-52)).
    assert (2 ^ 52 = Z.pos 4503599627370496) as H52 by done.
    generalize dependent 4503599627370496%positive. intros c Hc.
    unfold SFcompare. destruct (Z.compare_spec (-52) ex) as [Heq|Hlt|Hgt]; [| |].
    - subst ex. fold (Pos.compare c mx). replace (2 ^ (- -52)) with (Z.pos c) by done.
      destruct (Pos.compare_spec c mx); [lia|congruence|lia].
    - congruence.
    - intros _. split; [lia|].
      assert (2 ^ 53 <= 2 ^ (- ex)) by (apply Z.pow_le_mono_r; lia). lia. }
  rewrite (Z.max_r (ex + - k)), (Z.max_l (- (ex + - k))), Z.mul_1_r by lia.
  replace (- (ex + - k)) with (- ex + k) by lia. rewrite Z.pow_add_r by lia.
  assert (0 < 2 ^ k) by (apply Z.pow_pos_nonneg; lia).
  transitivity (2 ^ (- ex) * (Z.pos p * 2 ^ k)); [|lia].
  apply Z.mul_le_mono_nonneg_r; [lia|done].
Qed.

Lemma f64_to_uint_nonneg w x : 0 <= w -> 0 <= f64_to_uint w x.
Proof.
  intros Hw. assert (0 < 2 ^ w) by (apply Z.pow_pos_nonneg; lia).
  destruct x as [s|[]| |[] m e]; simpl; try lia.
  apply Z.min_glb; [lia|]. destruct (Z.ltb_spec e 0).
  - apply Z.div_pos; [lia|]. apply Z.pow_pos_nonneg; lia.
  - apply Z.mul_nonneg_nonneg; [lia|]. by apply Z.pow_nonneg.
Qed.
