(* ===== verification/FloatBits.v ===== *)
(** * The numbers that are floats, and their bits

    [spec_float] has more elements than there are binary64 numbers: a number is valid if
    its mantissa and exponent are those of the format.  Results of additions and casts are,
    and only valid numbers survive [f64::to_bits] and [from_bits]. *)
From Stdlib Require Import ZArith Lia Floats.SpecFloat.
From S2P Require Import Prelude Float64.
Local Open Scope Z_scope.

Abbreviation valid := (valid_binary 53 1024).

(** ** Results are valid *)

Lemma Zdigits2_pos m : 0 < m → 1 <= Zdigits2 m ∧ 2 ^ (Zdigits2 m - 1) <= m < 2 ^ Zdigits2 m.
Proof. destruct m as [|p|p]; simpl; [lia| |lia]. intros _. split; [lia|apply digits2_pos_bound]. Qed.

Lemma Zdigits2_unique m d : 2 ^ (d - 1) <= m < 2 ^ d → 1 <= d → Zdigits2 m = d.
Proof.
  intros [Hl Hu] Hd. assert (0 < 2 ^ (d - 1)) by (apply Z.pow_pos_nonneg; lia).
  destruct (Zdigits2_pos m ltac:(lia)) as (H1 & Hl' & Hu').
  assert (d - 1 < Zdigits2 m) by (apply (Z.pow_lt_mono_r_iff 2); lia).
  assert (Zdigits2 m - 1 < d) by (apply (Z.pow_lt_mono_r_iff 2); lia). lia.
Qed.

Lemma Zdigits2_shift_left m k : 0 < m → 0 <= k → Zdigits2 (m * 2 ^ k) = Zdigits2 m + k.
Proof.
  intros Hm Hk. destruct (Zdigits2_pos m Hm) as (H1 & Hl & Hu). assert (0 < 2 ^ k) by (apply Z.pow_pos_nonneg; lia).
  apply Zdigits2_unique; [|lia]. replace (Zdigits2 m + k - 1) with (Zdigits2 m - 1 + k) by lia.
  rewrite !Z.pow_add_r by lia. nia.
Qed.

Lemma Zdigits2_shift_right m k : 0 <= k → 0 < m / 2 ^ k → Zdigits2 (m / 2 ^ k) = Zdigits2 m - k.
Proof.
  intros Hk Hp. assert (Hk' : 0 < 2 ^ k) by (apply Z.pow_pos_nonneg; lia).
  assert (Hm : 0 < m).
  { destruct (Z.lt_ge_cases 0 m); [done|]. pose proof (Z.div_le_upper_bound m (2 ^ k) 0 Hk' ltac:(lia)). lia. }
  destruct (Zdigits2_pos m Hm) as (H1 & Hl & Hu).
  assert (Hlt : k < Zdigits2 m).
  { apply (Z.pow_lt_mono_r_iff 2); [lia..|]. pose proof (Z.mul_div_le m (2 ^ k) Hk'). nia. }
  apply Zdigits2_unique; [|lia]. split.
  - apply Z.div_le_lower_bound; [done|]. rewrite <-Z.pow_add_r by lia.
    replace (k + (Zdigits2 m - k - 1)) with (Zdigits2 m - 1) by lia. done.
  - apply Z.div_lt_upper_bound; [done|]. rewrite <-Z.pow_add_r by lia.
    replace (k + (Zdigits2 m - k)) with (Zdigits2 m) by lia. done.
Qed.

(** A shift that reaches the exponent of the format leaves a canonical mantissa. *)
Lemma shr_fexp_canonical m e l :
  0 <= m → e <= fexp 53 1024 (Zdigits2 m + e) →
  let r := shr_fexp 53 1024 m e l in
  r.2 = fexp 53 1024 (Zdigits2 m + e) ∧ (0 < shr_m r.1 → fexp 53 1024 (Zdigits2 (shr_m r.1) + r.2) = r.2).
Proof.
  intros Hm He r. destruct (shr_fexp_spec m e l Hm) as [H1 H2]. fold r in H1, H2.
  split; [lia|]. intros Hp. rewrite H1 in *. rewrite H2, Zdigits2_shift_right by (done || lia).
  replace (Zdigits2 m - _ + (e + _)) with (Zdigits2 m + e) by lia. lia.
Qed.

Lemma round_aux_valid s m e l :
  0 <= m → e <= fexp 53 1024 (Zdigits2 m + e) → valid (binary_round_aux 53 1024 s m e l) = true.
Proof.
  intros Hm He. unfold binary_round_aux.
  destruct (shr_fexp_spec m e l Hm) as [Hm1 _].
  destruct (shr_fexp_canonical m e l Hm He) as [He1 Hc1].
  destruct (shr_fexp 53 1024 m e l) as [mrs1 e1]. cbn [fst snd] in *.
  assert (H1 : 0 <= shr_m mrs1) by (rewrite Hm1; apply Z.div_pos; [lia|apply Z.pow_pos_nonneg; lia]).
  pose proof (round_nearest_even_bound (shr_m mrs1) (loc_of_shr_record mrs1)) as Hb.
  set (m2 := round_nearest_even _ _) in *.
  assert (He2 : e1 <= fexp 53 1024 (Zdigits2 m2 + e1)).
  { destruct (decide (shr_m mrs1 = 0)) as [Hz|Hnz].
    - pose proof (Zdigits2_nonneg m2). pose proof (Zdigits2_nonneg m).
      assert (Hd : Zdigits2 m + e <= e1).
      { pose proof (Zdigits2_bound m Hm). destruct (Z.le_gt_cases (Zdigits2 m + e) e1); [done|].
        rewrite Hm1 in Hz. destruct (decide (m = 0)) as [->|]; [unfold fexp, emin in *; simpl in *; lia|].
        destruct (Zdigits2_pos m ltac:(lia)) as (_ & Hl & _). apply Z.div_small_iff in Hz; [|apply Z.pow_nonzero; lia].
        destruct Hz as [Hz|Hz]; [|lia]. assert (Zdigits2 m - 1 < Z.max 0 (fexp 53 1024 (Zdigits2 m + e) - e)); [|lia].
        apply (Z.pow_lt_mono_r_iff 2); lia. }
      rewrite He1 in *. unfold fexp, emin in *. lia.
    - rewrite <-(Hc1 ltac:(lia)) at 1. unfold fexp, emin.
      enough (Zdigits2 (shr_m mrs1) <= Zdigits2 m2) by lia.
      destruct (Zdigits2_pos (shr_m mrs1) ltac:(lia)) as (_ & Hl & _), (Zdigits2_pos m2 ltac:(lia)) as (? & _ & Hu).
      assert (Zdigits2 (shr_m mrs1) - 1 < Zdigits2 m2); [|lia]. apply (Z.pow_lt_mono_r_iff 2); lia. }
  destruct (shr_fexp_canonical m2 e1 loc_Exact ltac:(lia) He2) as [_ Hc2].
  destruct (shr_fexp 53 1024 m2 e1 loc_Exact) as [mrs2 e2]. cbn [fst snd] in *.
  destruct (shr_m mrs2) as [|p|p]; [done| |done]. destruct (e2 <=? 1024 - 53) eqn:Ho; [|done].
  specialize (Hc2 ltac:(lia)). simpl. unfold bounded, canonical_mantissa. rewrite Ho, andb_true_r. apply Z.eqb_eq.
  exact Hc2.
Qed.

Lemma binary_round_valid s p e : valid (binary_round 53 1024 s p e) = true.
Proof.
  unfold binary_round, shl_align. set (e' := fexp 53 1024 (Z.pos (digits2_pos p) + e)).
  destruct (e' - e) as [|d|d] eqn:Ed; (apply round_aux_valid; [lia|]).
  - change (Zdigits2 (Z.pos p)) with (Z.pos (digits2_pos p)). fold e'. lia.
  - change (Zdigits2 (Z.pos p)) with (Z.pos (digits2_pos p)). fold e'. lia.
  - rewrite pos_iter_xO, Zdigits2_shift_left by lia. change (Zdigits2 (Z.pos p)) with (Z.pos (digits2_pos p)).
    replace (Z.pos (digits2_pos p) + Z.pos d + e') with (Z.pos (digits2_pos p) + e) by lia. fold e'. lia.
Qed.

Lemma binary_normalize_valid m e s : valid (binary_normalize 53 1024 m e s) = true.
Proof. destruct m; simpl; [done|apply binary_round_valid..]. Qed.

Lemma f64_add_valid x y : valid x = true → valid y = true → valid (f64_add x y) = true.
Proof.
  intros Hx Hy. destruct x as [[]|[]| |sx mx ex], y as [[]|[]| |sy my ey]; try done.
  apply binary_normalize_valid.
Qed.

Lemma f64_of_Z_valid z : valid (f64_of_Z z) = true.
Proof. apply binary_normalize_valid. Qed.

(** ** Bits *)

Definition sign_bit (s : bool) : Z := if s then 2 ^ 63 else 0.

Definition to_bits (f : f64) : Z :=
  match f with
  | S754_zero s => sign_bit s
  | S754_infinity s => sign_bit s + 2047 * 2 ^ 52
  | S754_nan => 2047 * 2 ^ 52 + 2 ^ 51
  | S754_finite s m e =>
      sign_bit s + (if Z.pos m <? 2 ^ 52 then Z.pos m else (e + 1075) * 2 ^ 52 + (Z.pos m - 2 ^ 52))
  end.

Definition finite (s : bool) (m e : Z) : f64 :=
  match m with Z.pos m => S754_finite s m e | _ => S754_zero s end.

Definition of_bits (z : Z) : f64 :=
  let s := 2 ^ 63 <=? z in
  let z := z mod 2 ^ 63 in
  let ex := z / 2 ^ 52 in
  let fr := z mod 2 ^ 52 in
  if ex =? 0 then finite s fr (-1074)
  else if ex =? 2047 then (if fr =? 0 then S754_infinity s else S754_nan)
  else finite s (2 ^ 52 + fr) (ex - 1075).

(** Of a sign and the 63 bits below it *)
Lemma of_bits_signed s z : 0 <= z < 2 ^ 63 → (2 ^ 63 <=? sign_bit s + z) = s ∧ (sign_bit s + z) mod 2 ^ 63 = z.
Proof.
  intros Hz. destruct s; unfold sign_bit.
  - split; [apply Z.leb_le; lia|]. rewrite <-Z.add_mod_idemp_l, Z.mod_same by lia. by apply Z.mod_small.
  - split; [apply Z.leb_gt; lia|]. by apply Z.mod_small.
Qed.

Lemma bounded_cases m e :
  bounded 53 1024 m e = true →
  (Z.pos m < 2 ^ 52 ∧ e = -1074) ∨ (2 ^ 52 <= Z.pos m < 2 ^ 53 ∧ -1074 <= e <= 971).
Proof.
  unfold bounded, canonical_mantissa, fexp, SpecFloat.emin. rewrite andb_true_iff, Z.leb_le.
  intros [Hc%Z.eqb_eq He]. pose proof (digits2_pos_bound m) as Hd.
  assert (Hle : Z.pos (digits2_pos m) <= 53) by lia.
  assert (Z.pos m < 2 ^ 53) by (pose proof (Z.pow_le_mono_r 2 _ _ ltac:(lia) Hle); lia).
  destruct (Z.lt_ge_cases (Z.pos m) (2 ^ 52)); [left|right; lia]. split; [done|].
  assert (Z.pos (digits2_pos m) - 1 < 52); [|lia].
  apply (Z.pow_lt_mono_r_iff 2); lia.
Qed.

Lemma of_to_bits f : valid f = true → of_bits (to_bits f) = f.
Proof.
  destruct f as [s|s| |s m e]; simpl valid_binary; intros Hv; [by destruct s|by destruct s|done|].
  unfold to_bits, of_bits. destruct (bounded_cases m e Hv) as [[Hm ->]|[Hm He]].
  - destruct (Z.ltb_spec (Z.pos m) (2 ^ 52)); [|lia].
    destruct (of_bits_signed s (Z.pos m)) as [-> ->]; [lia|].
    by rewrite Z.div_small, Z.mod_small by lia.
  - destruct (Z.ltb_spec (Z.pos m) (2 ^ 52)); [lia|].
    destruct (of_bits_signed s ((e + 1075) * 2 ^ 52 + (Z.pos m - 2 ^ 52))) as [-> ->]; [lia|].
    rewrite Z.div_add_l, Z.div_small, (Z.add_comm (_ * _)), Z.mod_add, Z.mod_small by lia.
    destruct (Z.eqb_spec (e + 1075 + 0) 0); [lia|]. destruct (Z.eqb_spec (e + 1075 + 0) 2047); [lia|].
    replace (2 ^ 52 + (Z.pos m - 2 ^ 52)) with (Z.pos m) by lia. simpl. f_equal. lia.
Qed.

Lemma to_bits_range f : valid f = true → 0 <= to_bits f < 256 ^ 8.
Proof.
  destruct f as [s|s| |s m e]; simpl valid_binary; intros Hv; [by destruct s|by destruct s|done|].
  unfold to_bits, sign_bit. destruct (bounded_cases m e Hv) as [[Hm ->]|[Hm He]], s, (Z.ltb_spec (Z.pos m) (2 ^ 52)); lia.
Qed.
