(* ===== verification/Types.v ===== *)
(** * Shared data types: [rusty-workers/src/types.rs], [app.rs], [util.rs] and
    the configuration of the proxy ([rusty-workers-proxy/src/config.rs]).

    [u16]/[u32]/[u64] fields are [Z]; a [SocketAddr] is only passed around and
    stays a string.  [base64] and [hex] are libraries, so their coders are
    parameters of the section that uses them. *)
From Stdlib Require Import ZArith Lia.
From S2P Require Import Prelude BTree Float64.

(** ** Errors *)
Inductive ExecutionError : Type :=
  | NoSuchWorker
  | RuntimeThrowsException
  | TimeLimitExceeded
  | MemoryLimitExceeded
  | IoTimeout
  | ScriptThrowsException (s : string).

Inductive GenericError : Type :=
  | Io (s : string)
  | Database (s : string)
  | Executor (s : string)
  | V8Unknown
  | Execution (e : ExecutionError)
  | ScriptInitException (s : string)
  | IoLimitExceeded
  | TryAgain
  | Conversion
  | Typeck (expected : string)
  | Other (s : string).

Abbreviation ExecutionResult := (result ExecutionError).
Abbreviation GenericResult := (result GenericError).

#[export] Instance ExecutionError_eq_dec : EqDecision ExecutionError.
Proof. solve_decision. Defined.
#[export] Instance GenericError_eq_dec : EqDecision GenericError.
Proof. solve_decision. Defined.

Definition terminates_worker (e : ExecutionError) : bool :=
  match e with
  | NoSuchWorker | RuntimeThrowsException | TimeLimitExceeded
  | MemoryLimitExceeded | IoTimeout => true
  | ScriptThrowsException _ => false
  end.

(** ** Worker configuration *)
Record ExecutorConfiguration := {
  max_ab_memory_mb : Z;
  max_time_ms : Z;
  max_io_concurrency : Z;
  max_io_per_request : Z;
}.

Record WorkerConfiguration := {
  executor : ExecutorConfiguration;
  fetch_service : string;
  env : list (string * string);            (* BTreeMap<String, String> *)
  kv_namespaces : list (string * string);  (* BTreeMap<String, String> *)
}.

#[export] Instance ExecutorConfiguration_eq_dec : EqDecision ExecutorConfiguration.
Proof. solve_decision. Defined.
#[export] Instance WorkerConfiguration_eq_dec : EqDecision WorkerConfiguration.
Proof. solve_decision. Defined.

Record WorkerHandle := { handle_id : string }.
Record RuntimeId := { runtime_id : string }.
Record AppId := { app_id : string }.

#[export] Instance WorkerHandle_eq_dec : EqDecision WorkerHandle.
Proof. solve_decision. Defined.
#[export] Instance RuntimeId_eq_dec : EqDecision RuntimeId.
Proof. solve_decision. Defined.
#[export] Instance AppId_eq_dec : EqDecision AppId.
Proof. solve_decision. Defined.
#[export] Program Instance WorkerHandle_countable : Countable WorkerHandle :=
  inj_countable' handle_id Build_WorkerHandle _.
Next Obligation. by intros []. Qed.
#[export] Program Instance AppId_countable : Countable AppId :=
  inj_countable' app_id Build_AppId _.
Next Obligation. by intros []. Qed.
#[export] Program Instance RuntimeId_ord : KeyOrd RuntimeId :=
  {| kcompare a b := String.compare (runtime_id a) (runtime_id b) |}.
Next Obligation.
  intros [a] [b]. pose proof (kcompare_eq a b) as Heq. simpl in *. rewrite Heq. naive_solver.
Qed.
Next Obligation. intros [a] [b]. exact (kcompare_antisym a b). Qed.
Next Obligation. intros [a] [b] [c]. exact (kcompare_trans a b c). Qed.

(** ** HTTP objects *)
Inductive HttpBody := Binary (b : bytes).

Definition HttpBody_default : HttpBody := Binary [].

Record RequestObject := {
  req_headers : list (string * list string);  (* BTreeMap<String, Vec<String>> *)
  req_method : string;
  req_url : string;
  req_body : HttpBody;
}.

Record ResponseObject := {
  res_headers : list (string * list string);
  res_status : Z;
  res_body : HttpBody;
}.

Definition RequestObject_default : RequestObject :=
  {| req_headers := []; req_method := ""; req_url := ""; req_body := HttpBody_default |}.
Definition ResponseObject_default : ResponseObject :=
  {| res_headers := []; res_status := 0; res_body := HttpBody_default |}.

#[export] Instance HttpBody_eq_dec : EqDecision HttpBody.
Proof. solve_decision. Defined.
#[export] Instance RequestObject_eq_dec : EqDecision RequestObject.
Proof. solve_decision. Defined.
#[export] Instance ResponseObject_eq_dec : EqDecision ResponseObject.
Proof. solve_decision. Defined.

(** ** Applications *)
Record KvNamespaceConfig := { kv_name : string; kv_id : string }.

Record AppConfig := {
  app_config_id : AppId;
  bundle_id : string;
  app_env : list (string * string);  (* BTreeMap<String, String> *)
  app_kv_namespaces : list KvNamespaceConfig;
}.

Record AppRoute := { route_domain : string; path_prefix : string }.

#[export] Instance KvNamespaceConfig_eq_dec : EqDecision KvNamespaceConfig.
Proof. solve_decision. Defined.
#[export] Instance AppConfig_eq_dec : EqDecision AppConfig.
Proof. solve_decision. Defined.

(** ** 128-bit identifiers *)
Section id128.
(** The [base64] crate: [base64::encode] and [base64::decode]. *)
Context (base64_encode : bytes → string) (base64_decode : string → option bytes).

Definition decode_id128 (raw : string) : option bytes :=
  match base64_decode raw with
  | Some x => if decide (length x = 16) then Some x else None
  | None => None
  end.

Definition encode_id128 (raw : bytes) : string := base64_encode raw.

Lemma decode_id128_Some raw x :
  decode_id128 raw = Some x ↔ base64_decode raw = Some x ∧ length x = 16.
Proof. unfold decode_id128. destruct (base64_decode raw); [case_decide|]; naive_solver. Qed.
End id128.

(** ** Random identifiers: [util::rand_hex] over the bytes the generator yields *)
Section identifiers.
Context (hex_encode : bytes → string).

Definition rand_hex (rng : bytes) (num_bytes : nat) : string := hex_encode (take num_bytes rng).
Definition WorkerHandle_generate (rng : bytes) : WorkerHandle := {| handle_id := rand_hex rng 16 |}.
Definition RuntimeId_generate (rng : bytes) : RuntimeId := {| runtime_id := rand_hex rng 16 |}.
End identifiers.

(** [util::current_millis]: the clock in milliseconds since the epoch, truncated to
    [u64]; a clock before the epoch reads 0. *)
Definition current_millis (system_time_ms : Z) : Z :=
  wrap 64 (Z.max 0 system_time_ms).

Lemma current_millis_fits t : fits 64 (current_millis t).
Proof. by apply wrap_fits. Qed.

(** ** Local configuration of the proxy *)
Record LocalConfig := {
  runtime_cluster : list string;
  max_ready_instances_per_app : nat;
  ready_instance_expiration_ms : Z;
  request_timeout_ms : Z;
  max_request_body_size_bytes : Z;
  dropout_rate : f32;
  route_cache_size : nat;
  app_cache_size : nat;
}.
