(* ===== verification/Db.v ===== *)
(** * The data client: [rusty-workers/src/db.rs]

    The five tables of [sql/migration_000001] are finite maps from primary keys to
    the remaining columns; each SQL statement of the source is the corresponding
    update or query, with columns compared bytewise (the migration declares binary
    collations; [appkv] is taken to have one too).  The server and the network are
    not code of the repository: every [.await?] of the source takes its outcome from
    a script of faults, so every early return is modelled; a faulty statement or
    commit leaves the tables as they were.  The order in which a query without
    [order by] yields rows, the JSON coder and the error of a duplicate key are
    parameters. *)
From Stdlib Require Import ZArith Lia Ascii.
From S2P Require Import Prelude BTree Types.
Local Open Scope Z_scope.

(** ** Tables *)
Record kv_row := { appvalue : bytes; appmetadata : bytes; appexpiration : Z }.
Record app_row := { row_bundle_id : string; row_env : string; row_kv_namespaces : string; row_createtime : Z }.

Record tables := {
  appkv : gmap (string * bytes) kv_row;
  routes : gmap (string * string) (string * Z);
  apps : gmap string app_row;
  bundles : gmap string (bytes * Z);
  applog : gmap (string * Z * Z) string;
}.

#[export] Instance kv_row_eq_dec : EqDecision kv_row.
Proof. solve_decision. Defined.

Definition no_tables : tables :=
  {| appkv := ∅; routes := ∅; apps := ∅; bundles := ∅; applog := ∅ |}.

Definition set_appkv (f : gmap (string * bytes) kv_row → gmap (string * bytes) kv_row) t :=
  {| appkv := f (appkv t); routes := routes t; apps := apps t; bundles := bundles t; applog := applog t |}.
Definition set_routes (f : gmap (string * string) (string * Z) → gmap (string * string) (string * Z)) t :=
  {| appkv := appkv t; routes := f (routes t); apps := apps t; bundles := bundles t; applog := applog t |}.
Definition set_apps (f : gmap string app_row → gmap string app_row) t :=
  {| appkv := appkv t; routes := routes t; apps := f (apps t); bundles := bundles t; applog := applog t |}.
Definition set_bundles (f : gmap string (bytes * Z) → gmap string (bytes * Z)) t :=
  {| appkv := appkv t; routes := routes t; apps := apps t; bundles := f (bundles t); applog := applog t |}.
Definition set_applog (f : gmap (string * Z * Z) string → gmap (string * Z * Z) string) t :=
  {| appkv := appkv t; routes := routes t; apps := apps t; bundles := bundles t; applog := f (applog t) |}.

(** ** The monad of database calls *)
Abbreviation faults := (list (option GenericError)).

Definition DB (A : Type) : Type := faults → tables → GenericResult A * faults * tables.

#[export] Instance DB_ret : MRet DB := λ A a fs t, (Ok a, fs, t).
#[export] Instance DB_bind : MBind DB := λ A B f m fs t,
  match m fs t with
  | (Ok a, fs', t') => f a fs' t'
  | (Err e, fs', t') => (Err e, fs', t')
  end.

(** [.await?] on a call to the server *)
Definition await : DB unit := λ fs t,
  match fs with
  | Some e :: fs' => (Err e, fs', t)
  | None :: fs' => (Ok tt, fs', t)
  | [] => (Ok tt, [], t)
  end.

Definition lift {A} (r : GenericResult A) : DB A := λ fs t, (r, fs, t).
Definition query {A} (f : tables → A) : DB A := λ fs t, (Ok (f t), fs, t).
Definition update (f : tables → tables) : DB unit := λ fs t, (Ok tt, fs, f t).

Lemma DB_bind_eq {A B} (m : DB A) (f : A → DB B) fs t :
  (m ≫= f) fs t =
  match m fs t with
  | (Ok a, fs', t') => f a fs' t'
  | (Err e, fs', t') => (Err e, fs', t')
  end.
Proof. done. Qed.

Lemma await_nil t : await [] t = (Ok tt, [], t).
Proof. done. Qed.
Lemma await_fault e fs t : await (Some e :: fs) t = (Err e, fs, t).
Proof. done. Qed.
Lemma await_ok fs t : await (None :: fs) t = (Ok tt, fs, t).
Proof. done. Qed.

(** Steps through the awaits of a database call, one case per fault. *)
Ltac db_cases :=
  repeat match goal with
  | |- context [await ?fs _] => is_var fs; destruct fs as [|[?|] fs]
  | H : context [await ?fs _] |- _ => is_var fs; destruct fs as [|[?|] fs]
  | _ => progress (rewrite ?DB_bind_eq, ?await_nil, ?await_fault, ?await_ok in *;
                   cbn [query update lift mret DB_ret] in *)
  end.

(** ** Worker data *)

(** [appexpiration = 0 or appexpiration > now] *)
Definition live (now : Z) (r : kv_row) : bool :=
  bool_decide (appexpiration r = 0 ∨ now < appexpiration r).

(** [insert ... on duplicate key update appvalue, appexpiration]: an existing row
    keeps its metadata *)
Definition upsert_kv (nsid : string) (key value md : bytes) (expiration : Z)
    (m : gmap (string * bytes) kv_row) : gmap (string * bytes) kv_row :=
  <[(nsid, key) := {| appvalue := value;
                      appmetadata := match m !! (nsid, key) with
                                     | Some old => appmetadata old
                                     | None => md
                                     end;
                      appexpiration := expiration |}]> m.

(** [replace into] *)
Definition replace_kv (nsid : string) (key value md : bytes) (expiration : Z)
    (m : gmap (string * bytes) kv_row) : gmap (string * bytes) kv_row :=
  <[(nsid, key) := {| appvalue := value; appmetadata := md; appexpiration := expiration |}]> m.

(** the expiration column for a time to live, with [checked_add] on [u64] *)
Definition expiration_of (now ttl_ms : Z) : GenericResult Z :=
  if decide (ttl_ms = 0) then Ok 0
  else ok_or (checked_add 64 now ttl_ms) (Other "expiration time overflow").

Definition worker_data_get (now : Z) (namespace_id : string) (key : bytes) : DB (option bytes) :=
  await ;;
  await ;;
  query (λ t,
    match appkv t !! (namespace_id, key) with
    | Some r => if live now r then Some (appvalue r) else None
    | None => None
    end).

Definition worker_data_put (now1 now2 : Z) (namespace_id : string) (key value : bytes)
    (if_not_exists : bool) (ttl_ms : Z) : DB unit :=
  await ;;
  expiration ← lift (expiration_of now1 ttl_ms);
  if if_not_exists then
    await ;;
    update (λ t,
      match appkv t !! (namespace_id, key) with
      | Some r => if live now2 r then t
                  else set_appkv (replace_kv namespace_id key value [] expiration) t
      | None => set_appkv (replace_kv namespace_id key value [] expiration) t
      end)
  else
    await ;;
    update (set_appkv (upsert_kv namespace_id key value [] expiration)).

Definition worker_data_delete (namespace_id : string) (key : bytes) : DB unit :=
  await ;;
  await ;;
  update (set_appkv (delete (namespace_id, key))).

(** the order of byte strings, [appkey >= start] and [between] *)
Fixpoint bytes_le (a b : bytes) : bool :=
  match a, b with
  | [], _ => true
  | _ :: _, [] => false
  | x :: a', y :: b' =>
      match N.compare (Byte.to_N x) (Byte.to_N y) with
      | Lt => true
      | Gt => false
      | Eq => bytes_le a' b'
      end
  end.

Definition in_range (start : bytes) (end_ : option bytes) (k : bytes) : bool :=
  bytes_le start k && match end_ with Some e => bytes_le k e | None => true end.

(** the rows a scan selects, before [limit] *)
Definition scan_matches (now : Z) (namespace_id : string) (start : bytes) (end_ : option bytes)
    (t : tables) : list bytes :=
  (filter (λ kr, kr.1.1 = namespace_id ∧ in_range start end_ kr.1.2 = true ∧ live now kr.2 = true)
     (map_to_list (appkv t))).*1.*2.

Section scan.
(** The order in which the server yields the rows of an unordered query. *)
Context (row_order : list bytes → list bytes).

Definition worker_data_scan_keys (now : Z) (namespace_id : string) (start : bytes)
    (end_ : option bytes) (limit : Z) : DB (list bytes) :=
  await ;;
  await ;;
  query (λ t, take (Z.to_nat limit) (row_order (scan_matches now namespace_id start end_ t))).
End scan.

(** ** Compare-and-update in a transaction

    The statements of the transaction run on the tables of its snapshot; a dropped
    transaction rolls back, so only a successful [commit] installs the writes. *)
Fixpoint check_assertions (now : Z) (namespace_id : string) (assertions : list (bytes * bytes)) : DB bool :=
  match assertions with
  | [] => mret true
  | (k, v) :: rest =>
      await ;;
      existence ← query (λ t,
        match appkv t !! (namespace_id, k) with
        | Some r => bool_decide (appvalue r = v) && live now r
        | None => false
        end);
      if (existence : bool) then check_assertions now namespace_id rest else mret false
  end.

Definition write_batch (namespace_id : string) (writes : list (bytes * bytes)) (expiration : Z)
    (m : gmap (string * bytes) kv_row) : gmap (string * bytes) kv_row :=
  foldl (λ m kv, upsert_kv namespace_id kv.1 kv.2 [] expiration m) m writes.

Definition worker_data_cmpupdate (now : Z) (namespace_id : string)
    (assertions writes : list (bytes * bytes)) (ttl_ms : Z) : DB bool :=
  expiration ← lift (expiration_of now ttl_ms);
  await ;;                    (* start_transaction *)
  await ;;                    (* prep *)
  held ← check_assertions now namespace_id assertions;
  if (held : bool) then
    await ;;                  (* exec_batch *)
    await ;;                  (* commit *)
    update (set_appkv (write_batch namespace_id writes expiration)) ;;
    mret true
  else mret false.

(** ** Routes *)
Definition route_mapping_delete_domain (domain : string) : DB unit :=
  await ;;
  await ;;
  update (set_routes (filter (λ kv, kv.1.1 ≠ domain))).

(** [select path, appid from routes where domain = ?] *)
Definition routes_of (domain : string) (t : tables) : list (string * string) :=
  (λ kv : (string * string) * (string * Z), (kv.1.2, kv.2.1)) <$>
    filter (λ kv, kv.1.1 = domain) (map_to_list (routes t)).

Definition route_mapping_list_for_domain (domain : string) : DB (list (string * string)) :=
  await ;;
  await ;;
  items ← query (routes_of domain);
  mret (bt_from_list items).

(** SQL [LIKE] with the default escape character, on a byte string *)
Fixpoint like_bytes (p : list Ascii.ascii) (s : list Ascii.ascii) : bool :=
  match p with
  | [] => bool_decide (s = [])
  | c :: p' =>
      if decide (c = "%"%char) then
        (fix any s := like_bytes p' s ||
           match s with [] => false | _ :: s' => any s' end) s
      else if decide (c = "_"%char) then
        match s with [] => false | _ :: s' => like_bytes p' s' end
      else if decide (c = "\"%char) then
        match p', s with
        | d :: p'', x :: s' => bool_decide (d = x) && like_bytes p'' s'
        | [], x :: s' => bool_decide (c = x) && bool_decide (s' = [])
        | _, [] => false
        end
      else match s with [] => false | x :: s' => bool_decide (c = x) && like_bytes p' s' end
  end.

Definition like (s pattern : string) : bool :=
  like_bytes (String.list_ascii_of_string pattern) (String.list_ascii_of_string s).

(** [order by length(path) desc limit 1] *)
Definition longest_path (items : list (string * string)) : option (string * string) :=
  foldr (λ kv best,
    match best with
    | Some b => if decide (String.length b.1 < String.length kv.1)%nat then Some kv else Some b
    | None => Some kv
    end) None items.

Definition route_mapping_lookup (domain path : string) : DB (option string) :=
  await ;;
  await ;;
  query (λ t, snd <$> longest_path
                (filter (λ kv, like path (String.append kv.1 "%") = true) (routes_of domain t))).

Definition route_mapping_insert (now : Z) (domain path appid : string) : DB unit :=
  await ;;
  await ;;
  update (set_routes (insert (domain, path) (appid, now))).

Definition route_mapping_delete (domain path : string) : DB unit :=
  await ;;
  await ;;
  update (set_routes (delete (domain, path))).

(** ** Applications, bundles and logs *)
Section apps.
(** [serde_json] on the two JSON columns, and the error of a duplicate key. *)
Context (env_to_json : list (string * string) → GenericResult string)
        (env_of_json : string → GenericResult (list (string * string)))
        (ns_to_json : list KvNamespaceConfig → GenericResult string)
        (ns_of_json : string → GenericResult (list KvNamespaceConfig))
        (duplicate_key : GenericError).

Definition app_metadata_get (appid : string) : DB (option AppConfig) :=
  await ;;
  await ;;
  row ← query (λ t, apps t !! appid);
  match row with
  | None => mret None
  | Some r =>
      env ← lift (env_of_json (row_env r));
      kv_namespaces ← lift (ns_of_json (row_kv_namespaces r));
      mret (Some {| app_config_id := {| app_id := appid |};
                    bundle_id := row_bundle_id r;
                    app_env := env;
                    app_kv_namespaces := kv_namespaces |})
  end.

Definition app_metadata_put (now : Z) (config : AppConfig) : DB unit :=
  await ;;
  env ← lift (env_to_json (app_env config));
  kv_namespaces ← lift (ns_to_json (app_kv_namespaces config));
  await ;;
  update (set_apps (λ m,
    let id := app_id (app_config_id config) in
    <[id := {| row_bundle_id := bundle_id config; row_env := env;
               row_kv_namespaces := kv_namespaces;
               row_createtime := match m !! id with
                                 | Some old => row_createtime old
                                 | None => now
                                 end |}]> m)).

Definition app_metadata_delete (appid : string) : DB unit :=
  await ;;
  await ;;
  update (set_apps (delete appid)).

Definition app_bundle_get (id : string) : DB (option bytes) :=
  await ;;
  await ;;
  query (λ t, fst <$> bundles t !! id).

(** a plain [insert]: an existing primary key is an error *)
Definition app_bundle_put (now : Z) (id : string) (value : bytes) : DB unit :=
  await ;;
  await ;;
  existing ← query (λ t, bundles t !! id);
  match existing with
  | Some _ => lift (Err duplicate_key)
  | None => update (set_bundles (insert id (value, now)))
  end.

(** [logtime] in milliseconds since the epoch (0 before it), truncated to [u64] *)
Definition applog_write (subid : Z) (appid : string) (logtime_ms : Z) (logcontent : string) : DB unit :=
  await ;;
  await ;;
  let key := (appid, wrap 64 (Z.max 0 logtime_ms), subid) in
  existing ← query (λ t, applog t !! key);
  match existing with
  | Some _ => lift (Err duplicate_key)
  | None => update (set_applog (insert key logcontent))
  end.
End apps.
