(* ===== verification/DbFacts.v ===== *)
(** * What the data client promises

    The worker data of a namespace is, abstractly, a map from keys to values with an
    expiry ([kv_lookup]); the theorems relate each statement of [Db] to that map. *)
From Stdlib Require Import ZArith Lia.
From S2P Require Import Prelude BTree Types Db.
Local Open Scope Z_scope.

(** ** The abstract view *)
Definition kv_lookup (now : Z) (t : tables) (ns : string) (k : bytes) : option bytes :=
  match appkv t !! (ns, k) with
  | Some r => if live now r then Some (appvalue r) else None
  | None => None
  end.

(** Nothing changes but the worker data of namespace [ns]. *)
Definition same_outside (ns : string) (t t' : tables) : Prop :=
  (∀ ns' k, ns' ≠ ns → appkv t' !! (ns', k) = appkv t !! (ns', k)) ∧
  routes t' = routes t ∧ apps t' = apps t ∧ bundles t' = bundles t ∧ applog t' = applog t.

#[export] Instance same_outside_refl ns : Reflexive (same_outside ns).
Proof. by repeat split. Qed.
#[export] Instance same_outside_trans ns : Transitive (same_outside ns).
Proof.
  intros t1 t2 t3 (H1 & H2 & H3 & H4 & H5) (G1 & G2 & G3 & G4 & G5).
  split; [|split_and!; congruence]. intros ns' k Hne. by rewrite G1, H1.
Qed.

Lemma live_0 now r : appexpiration r = 0 → live now r = true.
Proof. intros. apply bool_decide_eq_true. by left. Qed.

Lemma same_outside_set_appkv ns f t :
  (∀ ns' k, ns' ≠ ns → f (appkv t) !! (ns', k) = appkv t !! (ns', k)) →
  same_outside ns t (set_appkv f t).
Proof. by repeat split. Qed.

Lemma same_outside_insert ns k r t :
  same_outside ns t (set_appkv (insert (ns, k) r) t).
Proof.
  apply same_outside_set_appkv. intros ns' k' Hne. apply lookup_insert_ne. congruence.
Qed.

Lemma upsert_kv_lookup ns key v md e m ns' k' :
  (ns', k') ≠ (ns, key) → upsert_kv ns key v md e m !! (ns', k') = m !! (ns', k').
Proof. intros. unfold upsert_kv. by rewrite lookup_insert_ne. Qed.

Lemma write_batch_outside ns writes e m ns' k :
  ns' ≠ ns → write_batch ns writes e m !! (ns', k) = m !! (ns', k).
Proof.
  intros Hne. unfold write_batch. revert m.
  induction writes as [|[k1 v1] writes IH]; intros m; simpl; [done|].
  rewrite IH. apply upsert_kv_lookup. congruence.
Qed.

(** The last write to a key wins; keys not written keep their row. *)
Lemma write_batch_lookup ns writes e m k :
  (λ r, (appvalue r, appexpiration r)) <$> write_batch ns writes e m !! (ns, k) =
  match (list_to_map (reverse writes) : gmap bytes bytes) !! k with
  | Some v => Some (v, e)
  | None => (λ r, (appvalue r, appexpiration r)) <$> m !! (ns, k)
  end.
Proof.
  unfold write_batch.
  induction writes as [|[k1 v1] writes IH] using rev_ind; simpl; [done|].
  rewrite foldl_app, reverse_snoc. simpl. unfold upsert_kv at 1.
  destruct (decide (k = k1)) as [->|Hne].
  - by rewrite !lookup_insert_eq.
  - rewrite !lookup_insert_ne by congruence. apply IH.
Qed.

(** ** Properties of the operations *)

(** Put: an error changes nothing; otherwise the key holds the value until its time
    to live is over (unless [if_not_exists] found a live value), and no other key of
    any namespace is affected. *)
Theorem worker_data_put_spec now1 now2 ns key value ine ttl fs t :
  0 <= now1 → 0 <= ttl →
  match worker_data_put now1 now2 ns key value ine ttl fs t with
  | (Err _, _, t') => t' = t
  | (Ok _, _, t') =>
      (ttl ≠ 0 → now1 + ttl < 2 ^ 64) ∧
      (∀ now ns' k', (ns', k') ≠ (ns, key) → kv_lookup now t' ns' k' = kv_lookup now t ns' k') ∧
      (∀ now, kv_lookup now t' ns key =
         if ine && bool_decide (is_Some (kv_lookup now2 t ns key)) then kv_lookup now t ns key
         else if decide (ttl = 0 ∨ now < now1 + ttl) then Some value else None)
  end.
Proof.
  intros Hn Ht. unfold worker_data_put.
  assert (Hexp : ∀ e, expiration_of now1 ttl = Ok e →
    (ttl ≠ 0 → now1 + ttl < 2 ^ 64) ∧
    ∀ now r, appexpiration r = e → live now r = bool_decide (ttl = 0 ∨ now < now1 + ttl)).
  { unfold expiration_of. intros e. case_decide as Hz; intros He.
    - simplify_eq. split; [done|]. intros now r Hr. unfold live.
      by rewrite !bool_decide_eq_true_2 by auto.
    - apply ok_or_Ok, checked_add_Some in He as [-> ?]. split; [done|].
      intros now r Hr. unfold live. rewrite Hr. apply bool_decide_ext. lia. }
  destruct (expiration_of now1 ttl) as [e|err] eqn:E; db_cases; try done;
    destruct (Hexp e eq_refl) as [Hfit Hlive]; clear Hexp;
    destruct ine; db_cases; try done; (split; [exact Hfit|]); unfold kv_lookup;
    try (destruct (appkv t !! (ns, key)) as [r|] eqn:Er; [destruct (live now2 r) eqn:El|]);
    (split; [intros now ns' k' Hne; simpl; unfold upsert_kv, replace_kv;
             by rewrite ?lookup_insert_ne by done|]);
    intros now; simpl; unfold upsert_kv, replace_kv;
    rewrite ?lookup_insert_eq, ?Er, ?El; simpl; try done;
    rewrite Hlive by done; by repeat case_decide; case_bool_decide.
Qed.

Example put_spec_holds :
  (0 <= 100 ∧ 0 <= 50) ∧
  kv_lookup 149 (worker_data_put 100 100 "ns" [] [Byte.x01] false 50 [] no_tables).2 "ns" []
    = Some [Byte.x01] ∧
  kv_lookup 150 (worker_data_put 100 100 "ns" [] [Byte.x01] false 50 [] no_tables).2 "ns" [] = None.
Proof.
  pose proof (worker_data_put_spec 100 100 "ns" [] [Byte.x01] false 50 [] no_tables
                ltac:(lia) ltac:(lia)) as (_ & _ & Hk).
  split; [lia|]. split; apply Hk.
Defined.

Lemma worker_data_get_spec now ns key fs t :
  match worker_data_get now ns key fs t with
  | (Ok v, _, t') => v = kv_lookup now t ns key ∧ t' = t
  | (Err _, _, t') => t' = t
  end.
Proof. unfold worker_data_get. by db_cases. Qed.

Lemma check_assertions_spec now ns assertions fs t :
  match check_assertions now ns assertions fs t with
  | (Ok true, _, t') => t' = t ∧ ∀ k v, (k, v) ∈ assertions → kv_lookup now t ns k = Some v
  | (Ok false, _, t') => t' = t ∧ ∃ k v, (k, v) ∈ assertions ∧ kv_lookup now t ns k ≠ Some v
  | (Err _, _, t') => t' = t
  end.
Proof.
  revert fs. induction assertions as [|[k v] rest IH]; intros fs; simpl.
  { split; [done|]. intros ? ?. set_solver. }
  assert (Hx : match appkv t !! (ns, k) with
               | Some r => bool_decide (appvalue r = v) && live now r
               | None => false
               end = bool_decide (kv_lookup now t ns k = Some v)).
  { unfold kv_lookup. destruct (appkv t !! (ns, k)) as [r|]; [|by rewrite bool_decide_eq_false_2].
    destruct (live now r).
    - rewrite andb_true_r. apply bool_decide_ext. naive_solver.
    - by rewrite andb_false_r, bool_decide_eq_false_2. }
  assert (Hstep : ∀ fs',
    match (if bool_decide (kv_lookup now t ns k = Some v)
           then check_assertions now ns rest else mret false) fs' t with
    | (Ok true, _, t') => t' = t ∧ ∀ k0 v0, (k0, v0) ∈ (k, v) :: rest → kv_lookup now t ns k0 = Some v0
    | (Ok false, _, t') => t' = t ∧ ∃ k0 v0, (k0, v0) ∈ (k, v) :: rest ∧ kv_lookup now t ns k0 ≠ Some v0
    | (Err _, _, t') => t' = t
    end).
  { intros fs'. case_bool_decide as Hk.
    - specialize (IH fs'). destruct (check_assertions now ns rest fs' t) as [[[[]|] ?] ?].
      + destruct IH as [-> IH]. split; [done|]. intros k0 v0 [[= -> ->]|?]%elem_of_cons; eauto.
      + destruct IH as (-> & k0 & v0 & ? & ?). split; [done|]. exists k0, v0. set_solver.
      + done.
    - simpl. split; [done|]. exists k, v. set_solver. }
  destruct fs as [|[e|] fs]; rewrite DB_bind_eq; cbn [await]; [|done|];
    rewrite DB_bind_eq; cbn [query]; rewrite Hx; apply Hstep.
Qed.

Lemma write_batch_set ns writes e t :
  let t' := set_appkv (write_batch ns writes e) t in
  same_outside ns t t' ∧
  ∀ k, (λ r, (appvalue r, appexpiration r)) <$> appkv t' !! (ns, k) =
    match (list_to_map (reverse writes) : gmap bytes bytes) !! k with
    | Some v => Some (v, e)
    | None => (λ r, (appvalue r, appexpiration r)) <$> appkv t !! (ns, k)
    end.
Proof.
  split.
  - apply same_outside_set_appkv. intros. by apply write_batch_outside.
  - intros k. apply (write_batch_lookup ns writes e).
Qed.

(** The part of the transaction after the statement is prepared. *)
Definition cmpupdate_body (now : Z) (ns : string) (assertions writes : list (bytes * bytes))
    (e : Z) : DB bool :=
  held ← check_assertions now ns assertions;
  if (held : bool) then
    await ;; await ;; update (set_appkv (write_batch ns writes e)) ;; mret true
  else mret false.

Lemma cmpupdate_unfold now ns assertions writes ttl fs t :
  (∃ err fs', worker_data_cmpupdate now ns assertions writes ttl fs t = (Err err, fs', t)) ∨
  ∃ e fs0, expiration_of now ttl = Ok e ∧
    worker_data_cmpupdate now ns assertions writes ttl fs t =
      cmpupdate_body now ns assertions writes e fs0 t.
Proof.
  unfold worker_data_cmpupdate. rewrite DB_bind_eq. cbn [lift].
  destruct (expiration_of now ttl) as [e|err]; [|by eauto].
  destruct fs as [|[?|] [|[?|] fs]]; rewrite DB_bind_eq, ?await_nil, ?await_fault, ?await_ok;
    rewrite ?DB_bind_eq, ?await_nil, ?await_fault, ?await_ok; eauto 6.
Qed.

Lemma cmpupdate_body_spec now ns assertions writes e fs t :
  match cmpupdate_body now ns assertions writes e fs t with
  | (Ok true, _, t') =>
      (∀ k v, (k, v) ∈ assertions → kv_lookup now t ns k = Some v) ∧
      t' = set_appkv (write_batch ns writes e) t
  | (Ok false, _, t') => t' = t ∧ ∃ k v, (k, v) ∈ assertions ∧ kv_lookup now t ns k ≠ Some v
  | (Err _, _, t') => t' = t
  end.
Proof.
  unfold cmpupdate_body. rewrite DB_bind_eq.
  pose proof (check_assertions_spec now ns assertions fs t) as Hc.
  destruct (check_assertions now ns assertions fs t) as [[[[]|] fs1] t1]; [|done|done].
  destruct Hc as [-> Hc]. db_cases; done.
Qed.

(** C14. Compare-and-update is atomic: it reports [true] exactly when every assertion
    held, and then all writes are in (the last write to a key wins); on [false], on
    a failed statement and on a failed commit nothing has changed. *)
Theorem worker_data_cmpupdate_atomic now ns assertions writes ttl fs t :
  match worker_data_cmpupdate now ns assertions writes ttl fs t with
  | (Ok true, _, t') =>
      (∀ k v, (k, v) ∈ assertions → kv_lookup now t ns k = Some v) ∧
      ∃ e, expiration_of now ttl = Ok e ∧ same_outside ns t t' ∧
        ∀ k, (λ r, (appvalue r, appexpiration r)) <$> appkv t' !! (ns, k) =
          match (list_to_map (reverse writes) : gmap bytes bytes) !! k with
          | Some v => Some (v, e)
          | None => (λ r, (appvalue r, appexpiration r)) <$> appkv t !! (ns, k)
          end
  | (Ok false, _, t') =>
      t' = t ∧ ∃ k v, (k, v) ∈ assertions ∧ kv_lookup now t ns k ≠ Some v
  | (Err _, _, t') => t' = t
  end.
Proof.
  destruct (cmpupdate_unfold now ns assertions writes ttl fs t)
    as [(err & fs' & ->)|(e & fs0 & He & ->)]; [done|].
  pose proof (cmpupdate_body_spec now ns assertions writes e fs0 t) as Hb.
  destruct (cmpupdate_body now ns assertions writes e fs0 t) as [[[[]|] ?] t']; [|done|done].
  destruct Hb as [Ha ->]. split; [done|]. exists e. split; [done|]. apply write_batch_set.
Qed.

(** ** Scans *)
Lemma elem_scan_matches now ns start end_ t k :
  k ∈ scan_matches now ns start end_ t ↔
  in_range start end_ k = true ∧ is_Some (kv_lookup now t ns k).
Proof.
  unfold scan_matches, kv_lookup. rewrite list_elem_of_fmap. split.
  - intros [[ns' k'] [-> Hin]]. apply list_elem_of_fmap in Hin as [[[ns1 k1] r] [[= -> ->] Hin]].
    apply list_elem_of_filter in Hin as [(Hns & Hr & Hl) Hin]. simpl in *. subst ns1.
    apply elem_of_map_to_list in Hin. rewrite Hin, Hl. by eauto.
  - intros [Hr Hs]. destruct (appkv t !! (ns, k)) as [r|] eqn:E; [|by destruct Hs].
    destruct (live now r) eqn:El; [|by destruct Hs].
    exists (ns, k). split; [done|]. apply list_elem_of_fmap. exists ((ns, k), r).
    split; [done|]. apply list_elem_of_filter. split; [done|]. by apply elem_of_map_to_list.
Qed.

Lemma scan_matches_NoDup now ns start end_ t : NoDup (scan_matches now ns start end_ t).
Proof.
  unfold scan_matches. set (P := λ kr : (string * bytes) * kv_row, _).
  assert (Hnd : NoDup (filter P (map_to_list (appkv t))).*1).
  { eapply NoDup_fmap_fst.
    - intros [ns1 k1] r1 r2 [_ H1]%list_elem_of_filter [_ H2]%list_elem_of_filter.
      apply elem_of_map_to_list in H1, H2. congruence.
    - apply NoDup_filter, NoDup_map_to_list. }
  revert Hnd. generalize (map_to_list (appkv t)) as l. intros l.
  induction l as [|[[ns1 k1] r1] l IH]; [constructor|].
  rewrite filter_cons. destruct (decide _) as [HP|]; [|apply IH].
  simpl. rewrite !NoDup_cons. intros [Hni Hnd]. split; [|by apply IH].
  intros Hin. apply Hni. apply list_elem_of_fmap in Hin as [[ns2 k2] [-> Hin]]. simpl in *.
  apply list_elem_of_fmap in Hin as [[[ns3 k3] r3] [[= -> ->] Hin]].
  apply list_elem_of_fmap. exists ((ns1, k3), r3). split; [done|].
  apply list_elem_of_filter in Hin as [(Hns & ?) ?]. destruct HP as (Hns' & ?). simpl in *. subst.
  by apply list_elem_of_filter.
Qed.

Section scan.
Context (row_order : list bytes → list bytes)
        (row_order_perm : ∀ l, row_order l ≡ₚ l).

(** A scan yields distinct live keys of the requested range, at most [limit] of
    them; and all of them when it yields fewer than [limit]. *)
Theorem worker_data_scan_keys_spec now ns start end_ limit fs t :
  match worker_data_scan_keys row_order now ns start end_ limit fs t with
  | (Ok ks, _, t') =>
      t' = t ∧ NoDup ks ∧ Z.of_nat (length ks) <= Z.max 0 limit ∧
      (∀ k, k ∈ ks → in_range start end_ k = true ∧ is_Some (kv_lookup now t ns k)) ∧
      (Z.of_nat (length ks) < limit →
         ∀ k, in_range start end_ k = true → is_Some (kv_lookup now t ns k) → k ∈ ks)
  | (Err _, _, t') => t' = t
  end.
Proof.
  unfold worker_data_scan_keys.
  assert (Hin : ∀ k, k ∈ row_order (scan_matches now ns start end_ t) ↔
            in_range start end_ k = true ∧ is_Some (kv_lookup now t ns k)).
  { intros k. by rewrite row_order_perm, elem_scan_matches. }
  assert (Hnd : NoDup (row_order (scan_matches now ns start end_ t))).
  { rewrite row_order_perm. apply scan_matches_NoDup. }
  db_cases; try done; (split; [done|]);
    generalize dependent (row_order (scan_matches now ns start end_ t)); intros l Hin Hnd;
    (split_and!;
     [ apply (sublist_NoDup _ l); [done|apply sublist_take]
     | rewrite length_take; lia
     | intros k Hk; apply Hin; by apply elem_of_take in Hk as (? & ? & ?); eapply list_elem_of_lookup_2
     | rewrite length_take; intros Hlt k Hr Hs; rewrite take_ge by lia; by apply Hin ]).
Qed.
End scan.

Example scan_keys_spec_holds :
  (∀ l : list bytes, reverse l ≡ₚ l) ∧
  (let t := (worker_data_put 0 0 "ns" [Byte.x61] [] false 0 [] no_tables).2 in
   Z.of_nat (length [[Byte.x61]]) < 5 →
   ∀ k, in_range [] None k = true → is_Some (kv_lookup 7 t "ns" k) → k ∈ [[Byte.x61]]).
Proof.
  split; [intros l; apply reverse_Permutation|].
  pose proof (worker_data_scan_keys_spec reverse (λ l, reverse_Permutation l) 7 "ns" [] None 5 []
    (worker_data_put 0 0 "ns" [Byte.x61] [] false 0 [] no_tables).2) as Hs.
  apply Hs.
Defined.

(** ** What the operations leave alone *)
Lemma worker_data_put_outside now1 now2 ns key value ine ttl fs t :
  same_outside ns t (worker_data_put now1 now2 ns key value ine ttl fs t).2.
Proof.
  unfold worker_data_put.
  destruct (expiration_of now1 ttl) as [e|err], ine; db_cases; try done; simpl;
    try (destruct (appkv t !! (ns, key)) as [r|]; [destruct (live now2 r)|]); try done;
    apply same_outside_insert.
Qed.

Lemma worker_data_delete_outside ns key fs t :
  same_outside ns t (worker_data_delete ns key fs t).2.
Proof.
  unfold worker_data_delete. db_cases; try done; simpl;
    apply same_outside_set_appkv; intros ns' k Hne; apply lookup_delete_ne; congruence.
Qed.

Lemma worker_data_get_unchanged now ns key fs t : (worker_data_get now ns key fs t).2 = t.
Proof. unfold worker_data_get. by db_cases. Qed.

Lemma worker_data_scan_keys_unchanged ord now ns s e limit fs t :
  (worker_data_scan_keys ord now ns s e limit fs t).2 = t.
Proof. unfold worker_data_scan_keys. by db_cases. Qed.

Lemma worker_data_cmpupdate_outside now ns assertions writes ttl fs t :
  same_outside ns t (worker_data_cmpupdate now ns assertions writes ttl fs t).2.
Proof.
  destruct (cmpupdate_unfold now ns assertions writes ttl fs t)
    as [(err & fs' & ->)|(e & fs0 & He & ->)]; [done|].
  pose proof (cmpupdate_body_spec now ns assertions writes e fs0 t) as Hb.
  destruct (cmpupdate_body now ns assertions writes e fs0 t) as [[[[]|] ?] t']; simpl;
    [destruct Hb as [_ ->]; apply write_batch_set|by destruct Hb as [-> _]|by rewrite Hb].
Qed.

#[export] Hint Resolve worker_data_put_outside worker_data_delete_outside
  worker_data_cmpupdate_outside : rw.

(** Deleting removes the row, live or expired. *)
Lemma worker_data_delete_spec now ns key fs t :
  match worker_data_delete ns key fs t with
  | (Ok _, _, t') => kv_lookup now t' ns key = None
  | (Err _, _, t') => t' = t
  end.
Proof.
  unfold worker_data_delete. db_cases; try done; unfold kv_lookup; simpl; by rewrite lookup_delete_eq.
Qed.

(** ** Database calls preserve *)
Definition keeps (P : tables → tables → Prop) {A} (m : DB A) : Prop := ∀ fs t, P t (m fs t).2.

Section keeps.
Context (P : tables → tables → Prop) `{!PreOrder P}.

Lemma keeps_lift {A} (r : GenericResult A) : keeps P (lift r).
Proof. intros fs t. reflexivity. Qed.

Lemma db_keeps_ret {A} (a : A) : keeps P (mret a).
Proof. intros fs t. reflexivity. Qed.

Lemma db_keeps_bind {A B} (m : DB A) (f : A → DB B) :
  keeps P m → (∀ a, keeps P (f a)) → keeps P (m ≫= f).
Proof.
  intros Hm Hf fs t. rewrite DB_bind_eq. specialize (Hm fs t).
  destruct (m fs t) as [[[a|e] fs'] t']; [|done]. etrans; [exact Hm|]. apply Hf.
Qed.
End keeps.

(** ** Application metadata *)
Section metadata.
Context (env_to_json : list (string * string) → GenericResult string)
        (env_of_json : string → GenericResult (list (string * string)))
        (ns_to_json : list KvNamespaceConfig → GenericResult string)
        (ns_of_json : string → GenericResult (list KvNamespaceConfig)).
(** The JSON coder reads back what it wrote. *)
Context (env_json : ∀ x s, env_to_json x = Ok s → env_of_json s = Ok x)
        (ns_json : ∀ x s, ns_to_json x = Ok s → ns_of_json s = Ok x).

(** An app's metadata reads back as it was stored, and storing it does not affect
    what is read for any other app. *)
Theorem app_metadata_roundtrip now config fs fs1 t t1 :
  app_metadata_put env_to_json ns_to_json now config fs t = (Ok tt, fs1, t1) →
  (app_metadata_get env_of_json ns_of_json (app_id (app_config_id config)) [] t1).1.1
    = Ok (Some config) ∧
  ∀ id, id ≠ app_id (app_config_id config) →
    (app_metadata_get env_of_json ns_of_json id [] t1).1.1 =
    (app_metadata_get env_of_json ns_of_json id [] t).1.1.
Proof.
  unfold app_metadata_put.
  destruct (env_to_json (app_env config)) as [je|] eqn:Ee; [|by db_cases].
  destruct (ns_to_json (app_kv_namespaces config)) as [jn|] eqn:En; [|by db_cases].
  apply env_json in Ee. apply ns_json in En.
  assert (Hget : ∀ id t0, (app_metadata_get env_of_json ns_of_json id [] t0).1.1 =
    match apps t0 !! id with
    | None => Ok None
    | Some r =>
        env ← env_of_json (row_env r);
        nss ← ns_of_json (row_kv_namespaces r);
        Ok (Some {| app_config_id := {| app_id := id |}; bundle_id := row_bundle_id r;
                    app_env := env; app_kv_namespaces := nss |})
    end).
  { intros id t0. unfold app_metadata_get, mbind, DB_bind. simpl.
    destruct (apps t0 !! id) as [r|]; [|done]. unfold lift. simpl.
    destruct (env_of_json (row_env r)); [|done]. simpl.
    by destruct (ns_of_json (row_kv_namespaces r)). }
  db_cases; intros; unfold update in *; simplify_eq; (split; [|intros id Hne]);
    rewrite !Hget; simpl; rewrite ?lookup_insert_eq, ?lookup_insert_ne by done; try done;
    simpl; rewrite Ee; simpl; rewrite En; by destruct config as [[] ???].
Qed.
End metadata.

(** The coder that stores the empty map and the empty list. *)
Example app_metadata_roundtrip_holds :
  let config := {| app_config_id := {| app_id := "a" |}; bundle_id := "b"; app_env := [];
                   app_kv_namespaces := [] |} in
  let to_json (A : Type) (x : list A) : GenericResult string :=
    match x with [] => Ok "" | _ => Err Conversion end in
  (app_metadata_get (λ _, Ok []) (λ _, Ok []) "a" []
     (app_metadata_put (to_json _) (to_json _) 5 config [] no_tables).2).1.1 = Ok (Some config).
Proof.
  intros config to_json.
  apply (app_metadata_roundtrip (to_json _) (λ _, Ok []) (to_json _) (λ _, Ok [])
           ltac:(intros [] s; [done|discriminate]) ltac:(intros [] s; [done|discriminate])
           5 config [] [] no_tables _ eq_refl).
Defined.
