(* ===== verification/Lru.v ===== *)
(** * The LRU cache the proxy relies on

    The [lru_time_cache] crate is a library: what its callers rely on is the class
    [LruCache] below, whose laws state its documented behaviour for a cache created
    by [with_capacity].  Reading with [get] may reorder entries but not change them;
    [lru_iter] is what [iter] and [peek_iter] yield, and [lru_touch] what [iter] leaves,
    which marks every entry as used on its way;
    [insert] may evict other entries, and its own when there is no room at all, and
    nothing else does.  [LruList] is an
    instance, a list with the most recently used entry first, that the concrete runs
    of the development use. *)
From S2P Require Import Prelude.

Class LruCache (C : Type → Type → Type) := {
  lru_empty {K V} : nat → C K V;
  lru_get `{EqDecision K} {V} : K → C K V → option V * C K V;
  lru_peek `{EqDecision K} {V} : K → C K V → option V;
  lru_insert `{EqDecision K} {V} : K → V → C K V → C K V;
  lru_remove `{EqDecision K} {V} : K → C K V → C K V;
  lru_iter {K V} : C K V → list (K * V);
  lru_touch {K V} : C K V → C K V;
  lru_capacity {K V} : C K V → nat;

  lru_peek_empty `{EqDecision K} {V} cap (k : K) : lru_peek k (lru_empty (V := V) cap) = None;
  lru_get_fst `{EqDecision K} {V} (k : K) (c : C K V) : (lru_get k c).1 = lru_peek k c;
  lru_get_snd `{EqDecision K} {V} (k k' : K) (c : C K V) :
    lru_peek k' (lru_get k c).2 = lru_peek k' c;
  lru_peek_insert_ne `{EqDecision K} {V} (k k' : K) (v v' : V) (c : C K V) :
    k' ≠ k → lru_peek k' (lru_insert k v c) = Some v' → lru_peek k' c = Some v';
  lru_peek_insert_eq `{EqDecision K} {V} (k : K) (v v' : V) (c : C K V) :
    lru_peek k (lru_insert k v c) = Some v' → v' = v;
  lru_peek_remove `{EqDecision K} {V} (k k' : K) (c : C K V) :
    lru_peek k' (lru_remove k c) = if decide (k' = k) then None else lru_peek k' c;
  lru_iter_peek `{EqDecision K} {V} (k : K) (v : V) (c : C K V) :
    (k, v) ∈ lru_iter c ↔ lru_peek k c = Some v;
  lru_peek_touch `{EqDecision K} {V} (k : K) (c : C K V) : lru_peek k (lru_touch c) = lru_peek k c;
  lru_capacity_empty {K V} cap : lru_capacity (lru_empty (K := K) (V := V) cap) = cap;
  lru_capacity_get `{EqDecision K} {V} (k : K) (c : C K V) : lru_capacity (lru_get k c).2 = lru_capacity c;
  lru_capacity_remove `{EqDecision K} {V} (k : K) (c : C K V) : lru_capacity (lru_remove k c) = lru_capacity c;
  lru_capacity_touch {K V} (c : C K V) : lru_capacity (lru_touch c) = lru_capacity c;
  lru_peek_insert_room `{EqDecision K} {V} (k : K) (v : V) (c : C K V) :
    0 < lru_capacity c → lru_peek k (lru_insert k v c) = Some v;
}.

(** ** A list instance *)
Module LruList.

(** The capacity and the entries, the most recently used first; no key twice. *)
Record cache (K V : Type) := { capacity : nat; entries : list (K * V); nodup : NoDup entries.*1 }.
Arguments capacity {K V} _.
Arguments entries {K V} _.
Arguments nodup {K V} _.

Section ops.
Context `{EqDecision K} {V : Type}.
Implicit Types (l : list (K * V)) (k : K).

Definition assoc k l : option V := snd <$> list_find (λ kv, kv.1 = k) l ≫= (λ x, Some x.2).
Definition without k l : list (K * V) := filter (λ kv, kv.1 ≠ k) l.

Lemma elem_of_keys k l : k ∈ l.*1 ↔ ∃ v, (k, v) ∈ l.
Proof.
  rewrite list_elem_of_fmap. split.
  - intros [[? v] [-> ?]]. by exists v.
  - intros [v ?]. by exists (k, v).
Qed.

Lemma assoc_Some k v l : NoDup l.*1 → assoc k l = Some v ↔ (k, v) ∈ l.
Proof.
  intros Hnd. unfold assoc. induction l as [|[k1 v1] l IH]; simpl.
  { split; [done|]. intros ?%elem_of_nil. done. }
  apply NoDup_cons in Hnd as [Hni Hnd]. rewrite elem_of_cons.
  destruct (decide (k1 = k)) as [->|Hne]; simpl.
  - split; [intros; simplify_eq; by left|]. intros [[= ->]|Hin]; [done|].
    destruct Hni. apply elem_of_keys. by exists v.
  - specialize (IH Hnd). destruct (list_find (λ kv : K * V, kv.1 = k) l) as [[i x]|]; simpl in *;
      rewrite IH; naive_solver.
Qed.

Lemma without_keys k k' l : k' ∈ (without k l).*1 ↔ k' ∈ l.*1 ∧ k' ≠ k.
Proof.
  rewrite !elem_of_keys. unfold without. setoid_rewrite list_elem_of_filter. naive_solver.
Qed.

Lemma without_nodup k l : NoDup l.*1 → NoDup (without k l).*1.
Proof.
  unfold without. induction l as [|[k1 v1] l IH]; simpl; [done|].
  rewrite NoDup_cons. intros [Hni Hnd]. rewrite filter_cons. case_decide; simpl; [|by auto].
  apply NoDup_cons. split; [|by auto]. intros Hin. apply Hni.
  apply (without_keys k k1 l) in Hin. by destruct Hin.
Qed.

Lemma touch_nodup k v l : NoDup l.*1 → NoDup ((k, v) :: without k l).*1.
Proof.
  intros Hnd. simpl. apply NoDup_cons. split; [|by apply without_nodup].
  intros [_ ?]%without_keys. done.
Qed.

Lemma take_nodup n l : NoDup l.*1 → NoDup (take n l).*1.
Proof. rewrite fmap_take. intros. eapply sublist_NoDup; [done|apply sublist_take]. Qed.

Lemma reverse_nodup l : NoDup l.*1 → NoDup (reverse l).*1.
Proof. intros. rewrite fmap_reverse. by apply (NoDup_Permutation_proper _ _ (reverse_Permutation _)). Qed.

Definition empty (cap : nat) : cache K V := {| capacity := cap; entries := []; nodup := NoDup_nil_2 |}.

Definition peek k (c : cache K V) : option V := assoc k (entries c).

Definition get k (c : cache K V) : option V * cache K V :=
  match assoc k (entries c) with
  | Some v => (Some v, {| capacity := capacity c; entries := (k, v) :: without k (entries c);
                          nodup := touch_nodup k v _ (nodup c) |})
  | None => (None, c)
  end.

Definition insert k (v : V) (c : cache K V) : cache K V :=
  {| capacity := capacity c;
     entries := take (capacity c) ((k, v) :: without k (entries c));
     nodup := take_nodup _ _ (touch_nodup k v _ (nodup c)) |}.

Definition remove k (c : cache K V) : cache K V :=
  {| capacity := capacity c; entries := without k (entries c); nodup := without_nodup k _ (nodup c) |}.

(** Each entry is touched in turn, the last one last. *)
Definition touch (c : cache K V) : cache K V :=
  {| capacity := capacity c; entries := reverse (entries c); nodup := reverse_nodup _ (nodup c) |}.

Lemma peek_Some k v (c : cache K V) : peek k c = Some v ↔ (k, v) ∈ entries c.
Proof. apply assoc_Some, nodup. Qed.

Lemma peek_ext k (c c' : cache K V) :
  (∀ v, (k, v) ∈ entries c ↔ (k, v) ∈ entries c') → peek k c = peek k c'.
Proof.
  intros Heq. destruct (peek k c) as [v|] eqn:E.
  - apply peek_Some, Heq, peek_Some in E. by rewrite E.
  - destruct (peek k c') as [v|] eqn:E'; [|done].
    apply peek_Some, Heq, peek_Some in E'. congruence.
Qed.
End ops.

#[export] Program Instance lru_list : LruCache cache := {|
  lru_empty K V := empty;
  lru_get K _ V := get;
  lru_peek K _ V := peek;
  lru_insert K _ V := insert;
  lru_remove K _ V := remove;
  lru_iter K V := entries;
  lru_touch K V := touch;
  lru_capacity K V := capacity;
|}.
Next Obligation. done. Qed.
Next Obligation. intros. unfold get, peek. by destruct (assoc k (entries c)). Qed.
Next Obligation.
  intros K ? V k k' c. apply peek_ext. intros v. unfold get.
  destruct (assoc k (entries c)) as [w|] eqn:E; [|done]. simpl.
  apply assoc_Some in E; [|apply nodup]. unfold without.
  rewrite elem_of_cons, list_elem_of_filter. simpl.
  destruct (decide (k' = k)) as [->|]; [|naive_solver].
  split; [naive_solver|]. intros Hin. left. apply assoc_Some in E, Hin; [|apply nodup..]. congruence.
Qed.
Next Obligation.
  intros K ? V k k' v v' c Hne. rewrite !peek_Some. intros Hin. simpl in Hin.
  apply elem_of_take in Hin as (i & Hin & _). apply list_elem_of_lookup_2 in Hin.
  apply elem_of_cons in Hin as [?|Hin]; [congruence|]. by apply list_elem_of_filter in Hin as [_ ?].
Qed.
Next Obligation.
  intros K ? V k v v' c. rewrite !peek_Some. simpl. intros Hin.
  apply elem_of_take in Hin as (i & Hin & _). apply list_elem_of_lookup_2 in Hin.
  apply elem_of_cons in Hin as [?|Hin]; [congruence|]. by apply list_elem_of_filter in Hin as [? _].
Qed.
Next Obligation.
  intros K ? V k k' c. case_decide as Hk.
  - subst k'. destruct (peek k (remove k c)) as [v|] eqn:E; [|done].
    apply peek_Some in E. by apply list_elem_of_filter in E as [? _].
  - apply peek_ext. intros v. simpl. unfold without. rewrite list_elem_of_filter. naive_solver.
Qed.
Next Obligation. intros. by rewrite peek_Some. Qed.
Next Obligation. intros. apply peek_ext. intros v. apply elem_of_reverse. Qed.
Next Obligation. done. Qed.
Next Obligation. intros. unfold get. by destruct (assoc k (entries c)). Qed.
Next Obligation. done. Qed.
Next Obligation. done. Qed.
Next Obligation.
  intros K ? V k v c Hc. apply peek_Some. simpl in *. destruct (capacity c); [lia|]. simpl. by left.
Qed.

End LruList.

#[export] Existing Instance LruList.lru_list.
