(* ===== verification/Sched.v ===== *)
(** * The proxy's scheduler: [rusty-workers-proxy/src/sched.rs]

    State, instance pools, runtime discovery and the route and app caches.  The
    request handler is in [Proxy].

    An [AppState] is shared by reference ([Arc]) between the cache and the requests
    in flight, and only its deque of ready instances changes; so the deques live in
    the store [ready_store] of the scheduler and an [AppState] holds the location of
    its own.  Each function below is what the code does while it holds one lock, or
    a composition of those.  Time is in nanoseconds of the monotonic clock; a
    function that reads the clock several times takes the sequence of readings.
    Outcomes of remote calls are arguments. *)
From Stdlib Require Import ZArith Lia.
From S2P Require Import Prelude BTree Float64 Types Db Lru.
Local Open Scope Z_scope.

(** ** Errors *)
Inductive SchedError : Type :=
  | NoAvailableInstance
  | NoRouteMapping
  | RequestBodyTooLarge
  | RequestFailedAfterRetries.

(** The [anyhow::Error] of the scheduler: which error it wraps matters to the
    caller, which downcasts to [SchedError].  [Panic] is an unwinding [expect]. *)
Inductive ProxyError : Type :=
  | Sched (e : SchedError)
  | Rpc (s : string)
  | Spawn (e : GenericError)
  | Hyper (s : string)
  | Panic.

Abbreviation RpcResult := (result string).

#[export] Instance SchedError_eq_dec : EqDecision SchedError.
Proof. solve_decision. Defined.

(** ** State *)

(** A connection to a runtime: only its identity matters here. *)
Record RuntimeServiceClient := { connection : positive }.

Record RtState := { rt_client : RuntimeServiceClient; load : Z }.

Record ReadyInstance := {
  inst_rtid : RuntimeId;
  last_active : Z;
  inst_handle : WorkerHandle;
  inst_client : RuntimeServiceClient;
}.

Record AppState := {
  state_id : AppId;
  state_config : WorkerConfiguration;
  state_bundle_id : string;
  state_bundle : bytes;
  ready_instances : positive;
  start_time : Z;
}.

#[export] Instance RuntimeServiceClient_eq_dec : EqDecision RuntimeServiceClient.
Proof. solve_decision. Defined.
#[export] Instance ReadyInstance_eq_dec : EqDecision ReadyInstance.
Proof. solve_decision. Defined.

(** The capacities given to [tokio::sync::mpsc::channel] *)
Definition terminate_queue_capacity : nat := 1000.

Section scheduler.
Context {C : Type → Type → Type} {HC : LruCache C}.

Record Scheduler := {
  local_config : LocalConfig;
  worker_config : WorkerConfiguration;
  clients : list (RuntimeId * RtState);              (* BTreeMap *)
  app_cache : C AppId AppState;
  route_cache : C string (list (string * AppId));    (* domain -> (prefix -> appid) *)
  terminate_queue : list ReadyInstance;
  ready_store : gmap positive (list ReadyInstance);
}.

Definition set_clients f (s : Scheduler) : Scheduler :=
  {| local_config := local_config s; worker_config := worker_config s; clients := f (clients s);
     app_cache := app_cache s; route_cache := route_cache s;
     terminate_queue := terminate_queue s; ready_store := ready_store s |}.
Definition set_app_cache a (s : Scheduler) : Scheduler :=
  {| local_config := local_config s; worker_config := worker_config s; clients := clients s;
     app_cache := a; route_cache := route_cache s;
     terminate_queue := terminate_queue s; ready_store := ready_store s |}.
Definition set_route_cache r (s : Scheduler) : Scheduler :=
  {| local_config := local_config s; worker_config := worker_config s; clients := clients s;
     app_cache := app_cache s; route_cache := r;
     terminate_queue := terminate_queue s; ready_store := ready_store s |}.
Definition set_pools q st (s : Scheduler) : Scheduler :=
  {| local_config := local_config s; worker_config := worker_config s; clients := clients s;
     app_cache := app_cache s; route_cache := route_cache s;
     terminate_queue := q; ready_store := st |}.

(** [Scheduler::new], without the tasks it spawns *)
Definition Scheduler_new (worker_config : WorkerConfiguration) (local_config : LocalConfig) : Scheduler :=
  {| local_config := local_config;
     worker_config := worker_config;
     clients := [];
     app_cache := lru_empty (app_cache_size local_config);
     route_cache := lru_empty (route_cache_size local_config);
     terminate_queue := [];
     ready_store := ∅ |}.

(** ** Instances and their pools *)

(** [Duration] arithmetic: [duration_since] saturates at zero. *)
Definition is_usable (expiration_ms : Z) (current : Z) (inst : ReadyInstance) : bool :=
  if decide (expiration_ms * 1000000 < Z.max 0 (current - last_active inst)) then false else true.

Definition update_last_active (now : Z) (inst : ReadyInstance) : ReadyInstance :=
  {| inst_rtid := inst_rtid inst; last_active := now;
     inst_handle := inst_handle inst; inst_client := inst_client inst |}.

(** [drop(terminate_queue.try_send(x))]: a full queue loses the instance *)
Definition try_send (x : ReadyInstance) (q : list ReadyInstance) : list ReadyInstance :=
  if decide (length q < terminate_queue_capacity)%nat then q ++ [x] else q.

(** the first loop of [gc_ready_instances] *)
Fixpoint gc_excess (max : nat) (ready q : list ReadyInstance) : list ReadyInstance * list ReadyInstance :=
  match ready with
  | x :: rest => if decide (max < length ready)%nat then gc_excess max rest (try_send x q) else (ready, q)
  | [] => ([], q)
  end.

(** the second loop, reading the clock once per instance *)
Fixpoint gc_expired (expiration_ms : Z) (clock : nat → Z) (ready q : list ReadyInstance)
    : list ReadyInstance * list ReadyInstance :=
  match ready with
  | x :: rest =>
      if is_usable expiration_ms (clock O) x then (ready, q)
      else gc_expired expiration_ms (λ i, clock (S i)) rest (try_send x q)
  | [] => ([], q)
  end.

Definition gc_lists (cfg : LocalConfig) (clock : nat → Z) (ready q : list ReadyInstance)
    : list ReadyInstance * list ReadyInstance :=
  let '(ready, q) := gc_excess (max_ready_instances_per_app cfg) ready q in
  gc_expired (ready_instance_expiration_ms cfg) clock ready q.

(** the deque of an app; a location is allocated with its [AppState] *)
Definition ready_of (app : AppState) (s : Scheduler) : list ReadyInstance :=
  default [] (ready_store s !! ready_instances app).

Definition gc_ready_instances (clock : nat → Z) (app : AppState) (s : Scheduler) : Scheduler :=
  let '(ready, q) := gc_lists (local_config s) clock (ready_of app s) (terminate_queue s) in
  set_pools q (<[ready_instances app := ready]> (ready_store s)) s.

Definition push_ready (app : AppState) (inst : ReadyInstance) (s : Scheduler) : Scheduler :=
  set_pools (terminate_queue s)
    (<[ready_instances app := ready_of app s ++ [inst]]> (ready_store s)) s.

Definition pool_instance (sample : f32) (clock : nat → Z) (app : AppState) (inst : ReadyInstance)
    (s : Scheduler) : Scheduler :=
  gc_ready_instances clock app
    (if f64_gt sample (dropout_rate (local_config s)) then push_ready app inst s
     else set_pools (try_send inst (terminate_queue s)) (ready_store s) s).

Definition pop_ready (now : Z) (app : AppState) (s : Scheduler) : option (ReadyInstance * Scheduler) :=
  match ready_of app s with
  | inst :: rest =>
      Some (update_last_active now inst,
            set_pools (terminate_queue s) (<[ready_instances app := rest]> (ready_store s)) s)
  | [] => None
  end.

(** The weight of a runtime, in [u32] *)
Definition instance_weight (rt : RtState) : Z := wrapping_add 32 (wrapping_sub 16 (umax 16) (load rt)) 10000.

(** The receiving task of [terminate_queue]: one round *)
Definition terminate_next (s : Scheduler) : option (ReadyInstance * Scheduler) :=
  match terminate_queue s with
  | x :: q => Some (x, set_pools q (ready_store s) s)
  | [] => None
  end.

Section get_instance.
(** The [rand] crate: [WeightedIndex::new] and [sample], which takes the generator's output. *)
Context {Distribution : Type} (weighted_index_new : list Z → option Distribution)
        (sample : Distribution → Z → nat).
(** What the chosen runtime answers to [spawn_worker]. *)
Context (spawn_worker : RuntimeServiceClient → string → WorkerConfiguration → bytes →
                        RpcResult (GenericResult WorkerHandle)).

Definition choose_runtime (rng : Z) (cs : list (RuntimeId * RtState))
    : result ProxyError (RuntimeId * RtState) :=
  if decide (length cs = 0)%nat then Err (Sched NoAvailableInstance) else
  match weighted_index_new (instance_weight ∘ snd <$> cs) with
  | Some distribution => ok_or (cs !! sample distribution rng) Panic
  | None => Err Panic
  end.

(** [now] is the reading of the clock for [last_active]. *)
Definition get_instance (clock : nat → Z) (now rng : Z) (app : AppState) (s : Scheduler)
    : result ProxyError ReadyInstance * Scheduler :=
  let s := gc_ready_instances clock app s in
  match pop_ready now app s with
  | Some (inst, s) => (Ok inst, s)
  | None =>
      (c ← choose_runtime rng (clients s);
       let '(rtid, rt) := c in
       reply ← map_err Rpc (spawn_worker (rt_client rt) (app_id (state_id app)) (state_config app)
                              (state_bundle app));
       handle ← map_err Spawn reply;
       Ok {| inst_rtid := rtid; last_active := now; inst_handle := handle; inst_client := rt_client rt |},
       s)
  end.
End get_instance.

(** ** Runtimes *)

(** [query_runtimes]: the replies to [load], the store of the new loads and the
    removal of the runtimes that did not answer *)
Definition query_runtimes (reply : RuntimeServiceClient → RpcResult (GenericResult Z)) (s : Scheduler)
    : Scheduler :=
  let answer rt := match reply (rt_client rt) with Ok (Ok l) => Some l | _ => None end in
  let to_drop := omap (λ kv, match answer kv.2 with Some _ => None | None => Some kv.1 end) (clients s) in
  let updated := (λ kv, (kv.1, match answer kv.2 with
                               | Some l => {| rt_client := rt_client kv.2; load := l |}
                               | None => kv.2
                               end)) <$> clients s in
  set_clients (λ _, if decide (0 < length to_drop)%nat
                    then foldl (λ cs rtid, bt_remove rtid cs) updated to_drop
                    else updated) s.

(** [discover_runtimes]: what connecting to each address and asking for its id gives *)
Definition discover_runtimes (connect : string → GenericResult RuntimeServiceClient)
    (rpc_id : RuntimeServiceClient → RpcResult RuntimeId) (s : Scheduler) : Scheduler :=
  let new_clients :=
    (λ addr, match connect addr with
             | Ok client => match rpc_id client with Ok id => Some (id, client) | Err _ => None end
             | Err _ => None
             end) <$> runtime_cluster (local_config s) in
  set_clients (λ cs, foldl (λ cs item,
      match item with
      | Some (id, client) =>
          if bt_contains_key id cs then cs else bt_insert id {| rt_client := client; load := 0 |} cs
      | None => cs
      end) cs new_clients) s.

(** ** Routes *)
Fixpoint first_prefix (path : string) (entries : list (string * AppId)) : option AppId :=
  match entries with
  | (k, v) :: rest => if starts_with path k then Some v else first_prefix path rest
  | [] => None
  end.

(** [submappings.iter().rev()] *)
Definition lookup_submappings (path : string) (submappings : list (string * AppId)) : option AppId :=
  first_prefix path (reverse submappings).

Definition route_map (m : list (string * string)) : list (string * AppId) :=
  bt_from_list ((λ kv, (kv.1, {| app_id := kv.2 |})) <$> m).

(** A read of the route cache, which marks the domain as recently used. *)
Definition cached_route (host path : string) (s : Scheduler) : option AppId * Scheduler :=
  let '(o, rc) := lru_get host (route_cache s) in
  (o ≫= lookup_submappings path, set_route_cache rc s).

Definition do_lookup_route_background (domain : string) (fs : faults) (t : tables) (s : Scheduler)
    : Scheduler * faults * tables :=
  let '(o, rc) := lru_get domain (route_cache s) in
  let s := set_route_cache rc s in
  match o with
  | Some _ => (s, fs, t)
  | None =>
      match route_mapping_list_for_domain domain fs t with
      | (Ok map, fs', t') => (set_route_cache (lru_insert domain (route_map map) (route_cache s)) s, fs', t')
      | (Err _, fs', t') => (s, fs', t')
      end
  end.

(** [route_cache_gc_task]: the work for one domain of the snapshot *)
Definition route_cache_gc_domain (domain : string) (fs : faults) (t : tables) (s : Scheduler)
    : Scheduler * faults * tables :=
  match route_mapping_list_for_domain domain fs t with
  | (Ok map, fs', t') =>
      let map := route_map map in
      (match lru_peek domain (route_cache s) with
       | Some entry => if decide (entry = map) then s
                       else set_route_cache (lru_remove domain (route_cache s)) s
       | None => s
       end, fs', t')
  | (Err _, fs', t') => (s, fs', t')
  end.

(** one round of the task, no other task running in between *)
Definition route_cache_gc_round (fs : faults) (t : tables) (s : Scheduler) : Scheduler * faults * tables :=
  foldl (λ st domain, let '(s, fs, t) := st in route_cache_gc_domain domain fs t s) (s, fs, t)
    (lru_iter (route_cache s)).*1.

(** ** Applications *)
Definition decode_kv_namespaces (namespaces : list KvNamespaceConfig) : list (string * string) :=
  bt_from_list ((λ x, (kv_name x, kv_id x)) <$> namespaces).

Definition cached_app (id : AppId) (s : Scheduler) : option AppState * Scheduler :=
  let '(o, ac) := lru_get id (app_cache s) in (o, set_app_cache ac s).

Definition target_config (wc : WorkerConfiguration) (config : AppConfig) : WorkerConfiguration :=
  {| executor := executor wc; fetch_service := fetch_service wc;
     env := app_env config; kv_namespaces := decode_kv_namespaces (app_kv_namespaces config) |}.

(** a new deque *)
Definition new_deque (s : Scheduler) : positive * Scheduler :=
  let l := fresh (dom (ready_store s)) in
  (l, set_pools (terminate_queue s) (<[l := []]> (ready_store s)) s).

Section apps.
(** [serde_json] on the columns of the [apps] table *)
Context (env_of_json : string → GenericResult (list (string * string)))
        (ns_of_json : string → GenericResult (list KvNamespaceConfig)).

Definition do_lookup_app_background (now : Z) (id : AppId) (fs : faults) (t : tables) (s : Scheduler)
    : Scheduler * faults * tables :=
  let '(o, s) := cached_app id s in
  match o with
  | Some _ => (s, fs, t)
  | None =>
      match app_metadata_get env_of_json ns_of_json (app_id id) fs t with
      | (Ok (Some config), fs, t) =>
          match app_bundle_get (bundle_id config) fs t with
          | (Ok (Some bundle), fs, t) =>
              let '(l, s) := new_deque s in
              let state := {| state_id := id;
                              state_config := target_config (worker_config s) config;
                              state_bundle_id := bundle_id config;
                              state_bundle := bundle;
                              ready_instances := l;
                              start_time := now |} in
              (set_app_cache (lru_insert id state (app_cache s)) s, fs, t)
          | (_, fs, t) => (s, fs, t)
          end
      | (_, fs, t) => (s, fs, t)
      end
  end.

(** the configuration of the cached app is not the one of the database any more *)
Definition app_changed (config : AppConfig) (bundle : string) (wc : WorkerConfiguration) : bool :=
  bool_decide (bundle_id config ≠ bundle) || bool_decide (app_env config ≠ env wc) ||
  bool_decide (decode_kv_namespaces (app_kv_namespaces config) ≠ kv_namespaces wc).

(** [apps_gc_task]: the work for one entry of the snapshot *)
Definition apps_gc_one (entry : AppId * (string * WorkerConfiguration)) (fs : faults) (t : tables)
    (s : Scheduler) : Scheduler * faults * tables :=
  let '(id, (bundle, wc)) := entry in
  match app_metadata_get env_of_json ns_of_json (app_id id) fs t with
  | (Ok (Some config), fs, t) =>
      (if app_changed config bundle wc then set_app_cache (lru_remove id (app_cache s)) s else s, fs, t)
  | (Ok None, fs, t) => (set_app_cache (lru_remove id (app_cache s)) s, fs, t)
  | (Err _, fs, t) => (s, fs, t)
  end.

(** one round of the task, no other task running in between *)
Definition apps_gc_round (fs : faults) (t : tables) (s : Scheduler) : Scheduler * faults * tables :=
  foldl (λ st entry, let '(s, fs, t) := st in apps_gc_one entry fs t s)
    (set_app_cache (lru_touch (app_cache s)) s, fs, t)
    ((λ kv, (kv.1, (state_bundle_id kv.2, state_config kv.2))) <$> lru_iter (app_cache s)).
End apps.
End scheduler.

Arguments Scheduler C : clear implicits.
