(* ===== verification/SchedFacts.v ===== *)
(** * Correctness of the scheduler

    Routing ([lookup_submappings] and the route cache against the database), the
    instance pools, the choice of a runtime, and the runtime and app tables. *)
From Stdlib Require Import ZArith Lia Ascii.
From S2P Require Import Prelude BTree Float64 Types Db DbFacts Lru Sched.
Local Open Scope Z_scope.

(** ** Longest prefix *)

(** [v] is mapped to by the longest key of [m] that is a prefix of [path]. *)
Definition longest_prefix {V} (path : string) (m : list (string * V)) (v : V) : Prop :=
  ∃ k, (k, v) ∈ m ∧ starts_with path k = true ∧
    ∀ k' v', (k', v') ∈ m → starts_with path k' = true → (String.length k' ≤ String.length k)%nat.

Definition no_prefix {V} (path : string) (m : list (string * V)) : Prop :=
  ∀ k v, (k, v) ∈ m → starts_with path k = false.

(** A map has at most one longest prefix. *)
Lemma longest_prefix_unique {V} path (m : list (string * V)) v1 v2 :
  NoDup m.*1 → longest_prefix path m v1 → longest_prefix path m v2 → v1 = v2.
Proof.
  intros Hnd (k1 & Hin1 & Hp1 & Hm1) (k2 & Hin2 & Hp2 & Hm2).
  assert (k1 = k2) as <-.
  { apply (starts_with_same_length path); [done..|].
    pose proof (Hm1 _ _ Hin2 Hp2). pose proof (Hm2 _ _ Hin1 Hp1). lia. }
  pose proof (bt_get_NoDup _ _ _ Hnd Hin1). pose proof (bt_get_NoDup _ _ _ Hnd Hin2). congruence.
Qed.

Lemma bt_sorted_snoc {K V} `{KeyOrd K} (m : list (K * V)) k v :
  bt_sorted (m ++ [(k, v)]) → bt_sorted m ∧ ∀ k', k' ∈ m.*1 → klt k' k.
Proof.
  induction m as [|[k1 v1] m IH]; simpl.
  { split; [apply bt_sorted_nil|]. by intros ? ?%elem_of_nil. }
  rewrite !bt_sorted_cons. intros [[Hs Hk]%IH Hlt]. split.
  - split; [done|]. intros k' Hin. apply Hlt. rewrite fmap_app. apply elem_of_app. by left.
  - intros k' [->|Hin]%elem_of_cons; [|by apply Hk]. apply Hlt. rewrite fmap_app.
    apply elem_of_app. right. apply list_elem_of_singleton. done.
Qed.

Lemma bt_sorted_nodup {K V} `{KeyOrd K} (m : list (K * V)) : bt_sorted m → NoDup m.*1.
Proof.
  induction m as [|[k v] m IH]; simpl; [constructor|].
  rewrite bt_sorted_cons, NoDup_cons. intros [Hs Hlt]. split; [|by apply IH].
  intros Hin. by eapply klt_irrefl, Hlt.
Qed.

Lemma lookup_submappings_snoc path m k v :
  lookup_submappings path (m ++ [(k, v)]) =
  if starts_with path k then Some v else lookup_submappings path m.
Proof. unfold lookup_submappings. by rewrite reverse_snoc. Qed.

(** Iterating a sorted map backwards and stopping at the first prefix finds the
    longest one: routing picks the most specific route. *)
Theorem lookup_submappings_longest path m :
  bt_sorted m →
  match lookup_submappings path m with
  | Some v => longest_prefix path m v
  | None => no_prefix path m
  end.
Proof.
  induction m as [|[k v] m IH] using rev_ind; [by intros _ k v ?%elem_of_nil|].
  intros [Hs Hlt]%bt_sorted_snoc. specialize (IH Hs). rewrite lookup_submappings_snoc.
  destruct (starts_with path k) eqn:Ek.
  - exists k. split; [apply elem_of_app; right; by left|]. split; [done|].
    intros k' v' [Hin|Heq%list_elem_of_singleton]%elem_of_app Hp; [|by simplify_eq].
    assert (Hk : klt k' k) by (apply Hlt, list_elem_of_fmap; by exists (k', v')).
    destruct (Nat.le_gt_cases (String.length k') (String.length k)) as [|Hgt]; [done|].
    assert (klt k k'); [|exfalso; by eapply (klt_irrefl k), klt_trans].
    apply prefix_klt; [apply (starts_with_weak_total path); [done..|lia]|]. intros ->. lia.
  - destruct (lookup_submappings path m) as [w|].
    + destruct IH as (k1 & Hin & Hp & Hmax). exists k1. split; [apply elem_of_app; by left|].
      split; [done|]. intros k' v' [Hin'|Heq%list_elem_of_singleton]%elem_of_app Hp'; simplify_eq; eauto.
      congruence.
    + intros k' v' [Hin|Heq%list_elem_of_singleton]%elem_of_app; simplify_eq; eauto.
Qed.

Example lookup_submappings_longest_holds :
  let m := bt_from_list [("/a/", {| app_id := "x" |}); ("/", {| app_id := "y" |})] in
  bt_sorted m ∧ longest_prefix "/a/b" m {| app_id := "x" |}.
Proof.
  intros m. assert (Hs : bt_sorted m) by apply bt_from_list_sorted.
  split; [exact Hs|]. exact (lookup_submappings_longest "/a/b" m Hs).
Defined.

(** ** The cached routes and the routes of the database *)

(** [LIKE] treats the path literally *)
Definition plain_char (c : ascii) : Prop := c ≠ "%"%char ∧ c ≠ "_"%char ∧ c ≠ "\"%char.
Definition plain (p : string) : Prop := Forall plain_char (String.list_ascii_of_string p).

Lemma like_bytes_percent s : like_bytes ["%"%char] s = true.
Proof.
  induction s as [|c s IH]; [done|].
  change (like_bytes ["%"%char] (c :: s)) with (like_bytes [] (c :: s) || like_bytes ["%"%char] s).
  by rewrite IH, orb_true_r.
Qed.

Lemma list_ascii_append a b :
  String.list_ascii_of_string (String.append a b) =
  String.list_ascii_of_string a ++ String.list_ascii_of_string b.
Proof. induction a as [|c a IH]; [done|]. rewrite append_cons. simpl. by rewrite IH. Qed.

Lemma like_plain s p : plain p → like s (String.append p "%") = starts_with s p.
Proof.
  unfold plain, like, starts_with. rewrite list_ascii_append. revert s.
  induction p as [|c p IH]; intros s Hp.
  { transitivity true; [apply like_bytes_percent|]. by destruct s. }
  apply Forall_cons in Hp as [(H1 & H2 & H3) Hp].
  destruct s as [|d s]; cbn [String.list_ascii_of_string app like_bytes String.prefix];
    rewrite !decide_False by done; [done|].
  rewrite IH by done. destruct (ascii_dec c d); [by rewrite bool_decide_eq_true_2|].
  by rewrite bool_decide_eq_false_2.
Qed.

Lemma longest_path_spec (items : list (string * string)) :
  match longest_path items with
  | Some b => b ∈ items ∧ ∀ x, x ∈ items → (String.length x.1 ≤ String.length b.1)%nat
  | None => items = []
  end.
Proof.
  induction items as [|x items IH]; simpl; [done|].
  destruct (longest_path items) as [b|].
  - destruct IH as [Hin Hmax]. case_decide.
    + split; [by left|]. intros y [->|Hy%Hmax]%elem_of_cons; lia.
    + split; [by right|]. intros y [->|Hy%Hmax]%elem_of_cons; lia.
  - subst. split; [by left|]. by intros y ->%list_elem_of_singleton.
Qed.

Lemma elem_of_routes_of domain t p a :
  (p, a) ∈ routes_of domain t ↔ ∃ ct, routes t !! (domain, p) = Some (a, ct).
Proof.
  unfold routes_of. rewrite list_elem_of_fmap. split.
  - intros ([[d p'] [a' ct]] & [= -> ->] & Hin). apply list_elem_of_filter in Hin as [Hd Hin].
    simpl in Hd. subst. apply elem_of_map_to_list in Hin. eauto.
  - intros [ct Hl]. exists ((domain, p), (a, ct)). split; [done|].
    apply list_elem_of_filter. split; [done|]. by apply elem_of_map_to_list.
Qed.

Lemma routes_of_nodup domain t : NoDup (routes_of domain t).*1.
Proof.
  assert (Hinj : ∀ l : list ((string * string) * (string * Z)),
    NoDup l.*1 → Forall (λ kv, kv.1.1 = domain) l →
    NoDup ((λ kv : (string * string) * (string * Z), (kv.1.2, kv.2.1)) <$> l).*1).
  { induction l as [|[[d p] [a ct]] l IH]; simpl; [constructor|].
    rewrite NoDup_cons, Forall_cons. simpl. intros [Hni Hnd] [-> Hall].
    apply NoDup_cons. split; [|by apply IH]. intros Hin. apply Hni.
    apply list_elem_of_fmap in Hin as ([p' a'] & [= <-] & Hin).
    apply list_elem_of_fmap in Hin as ([[d2 p2] [a2 ct2]] & [= -> ->] & Hin).
    apply list_elem_of_fmap. exists ((d2, p2), (a2, ct2)). split; [|done].
    rewrite Forall_forall in Hall. apply Hall in Hin. simpl in *. congruence. }
  apply Hinj.
  - eapply NoDup_fmap_fst; [|apply NoDup_filter, NoDup_map_to_list].
    intros dp r1 r2 [_ H1]%list_elem_of_filter [_ H2]%list_elem_of_filter.
    apply elem_of_map_to_list in H1, H2. congruence.
  - apply Forall_forall. by intros x [? _]%list_elem_of_filter.
Qed.

Lemma route_map_get (m : list (string * string)) k v :
  bt_sorted m → (k, v) ∈ route_map m ↔ ∃ a, v = {| app_id := a |} ∧ (k, a) ∈ m.
Proof.
  intros Hs. unfold route_map.
  assert (Hk : ((λ kv : string * string, (kv.1, {| app_id := kv.2 |})) <$> m).*1 = m.*1).
  { rewrite <-list_fmap_compose. by apply list_fmap_ext. }
  rewrite <-bt_get_elem_iff by apply bt_from_list_sorted.
  rewrite bt_from_list_NoDup by (rewrite Hk; by apply bt_sorted_nodup).
  rewrite list_elem_of_fmap. split.
  - intros ([k' a] & [= -> ->] & Hin). eauto.
  - intros (a & -> & Hin). by exists (k, a).
Qed.

(** The map that a lookup of [domain] leaves in the cache holds the domain's routes. *)
Lemma route_map_routes_of domain t k v :
  (k, v) ∈ route_map (bt_from_list (routes_of domain t)) ↔
  ∃ a ct, v = {| app_id := a |} ∧ routes t !! (domain, k) = Some (a, ct).
Proof.
  rewrite route_map_get by apply bt_from_list_sorted.
  setoid_rewrite <-(bt_get_elem_iff k); [|apply bt_from_list_sorted].
  setoid_rewrite bt_from_list_NoDup; [|apply routes_of_nodup].
  setoid_rewrite elem_of_routes_of. naive_solver.
Qed.

Section routing.
Context {C : Type → Type → Type} {HC : LruCache C}.

(** The longest of the paths stored for a domain that are a prefix of the path, with its app *)
Definition longest_route (t : tables) (domain path : string) (a : string) : Prop :=
  ∃ k ct, routes t !! (domain, k) = Some (a, ct) ∧ starts_with path k = true ∧
    ∀ k' r, routes t !! (domain, k') = Some r → starts_with path k' = true → (String.length k' ≤ String.length k)%nat.

Lemma cold_route_cached domain t (s s' : Scheduler C) fs' t' m :
  lru_peek domain (route_cache s) = None →
  do_lookup_route_background domain [] t s = (s', fs', t') →
  lru_peek domain (route_cache s') = Some m →
  m = route_map (bt_from_list (routes_of domain t)).
Proof.
  intros Hcold Hlookup Hm. unfold do_lookup_route_background in Hlookup.
  pose proof (lru_get_fst domain (route_cache s)) as Hfst. rewrite Hcold in Hfst.
  destruct (lru_get domain (route_cache s)) as [o rc]. simpl in Hfst. subst o.
  unfold route_mapping_list_for_domain in Hlookup. rewrite !DB_bind_eq in Hlookup.
  simpl in Hlookup. simplify_eq. simpl in Hm. by apply lru_peek_insert_eq in Hm.
Qed.

Lemma lookup_longest_route domain path t a :
  lookup_submappings path (route_map (bt_from_list (routes_of domain t))) = Some {| app_id := a |} ↔
  longest_route t domain path a.
Proof.
  set (m := route_map _). assert (Hsorted : bt_sorted m) by apply bt_from_list_sorted.
  pose proof (lookup_submappings_longest path m Hsorted) as Hl.
  assert (Hlong : longest_prefix path m {| app_id := a |} ↔ longest_route t domain path a).
  { unfold longest_prefix, longest_route, m. split.
    - intros (k & (a' & ct & [= <-] & Hk)%route_map_routes_of & Hp & Hmax). exists k, ct. split_and!; [done..|].
      intros k' [b ct'] Hk' Hp'. apply (Hmax k' {| app_id := b |}); [|done]. apply route_map_routes_of. by exists b, ct'.
    - intros (k & ct & Hk & Hp & Hmax). exists k. split; [apply route_map_routes_of; by exists a, ct|]. split; [done|].
      intros k' v (b & ct' & _ & Hk')%route_map_routes_of Hp'. by apply (Hmax k' (b, ct')). }
  rewrite <-Hlong. destruct (lookup_submappings path m) as [v|].
  - split; [by intros [= ->]|]. intros Ha. f_equal. by apply (longest_prefix_unique path m); [apply bt_sorted_nodup|..].
  - split; [done|]. intros (k & Hk & Hp & _). by rewrite (Hl _ _ Hk) in Hp.
Qed.

Lemma query_longest_route domain path t :
  (∀ p r, routes t !! (domain, p) = Some r → plain p) →
  ∃ o, route_mapping_lookup domain path [] t = (Ok o, [], t) ∧ ∀ a, o = Some a ↔ longest_route t domain path a.
Proof.
  intros Hplain. unfold route_mapping_lookup. db_cases. eexists. split; [done|]. intros a.
  set (matching := filter _ (routes_of domain t)).
  assert (Hin : ∀ k v, (k, v) ∈ matching ↔ starts_with path k = true ∧ ∃ ct, routes t !! (domain, k) = Some (v, ct)).
  { intros k v. unfold matching. rewrite list_elem_of_filter, elem_of_routes_of. simpl.
    split; intros [Hl [ct Hr]]; [rewrite like_plain in Hl by eauto|rewrite like_plain by eauto]; eauto. }
  rewrite <-lookup_longest_route. pose proof (longest_path_spec matching) as Hbest.
  rewrite lookup_longest_route. unfold longest_route. destruct (longest_path matching) as [[k b]|]; simpl.
  - destruct Hbest as [[Hp [ct Hk]]%Hin Hmax]. split.
    + intros [= ->]. exists k, ct. split_and!; [done..|]. intros k' [b' ct'] Hk' Hp'. apply (Hmax (k', b')), Hin. eauto.
    + intros (k' & ct' & Hk' & Hp' & Hmax'). f_equal. assert (k = k') as <-; [|congruence].
      apply (starts_with_same_length path); [done..|]. pose proof (Hmax' _ _ Hk Hp).
      assert ((k', a) ∈ matching) as Hk2%Hmax by (apply Hin; eauto). simpl in Hk2. lia.
  - split; [done|]. intros (k & ct & Hk & Hp & _). assert ((k, a) ∈ matching) as Hi by (apply Hin; eauto).
    rewrite Hbest in Hi. by apply elem_of_nil in Hi.
Qed.

(** C33. After the background lookup of a domain that was not cached, the proxy routes a path
    to the app of the longest path stored for the domain that is a prefix of it, and to none
    if there is no such path.  The database query [route_mapping_lookup] gives the same app
    when no path stored for the domain has a wildcard of [LIKE], percent, underscore or
    backslash, in it. *)
Theorem cold_route_agrees domain path t (s s' : Scheduler C) fs' t' m :
  lru_peek domain (route_cache s) = None →
  do_lookup_route_background domain [] t s = (s', fs', t') →
  lru_peek domain (route_cache s') = Some m →
  (∀ a, lookup_submappings path m = Some {| app_id := a |} ↔ longest_route t domain path a) ∧
  ((∀ p r, routes t !! (domain, p) = Some r → plain p) →
   Ok (app_id <$> lookup_submappings path m) = (route_mapping_lookup domain path [] t).1.1).
Proof.
  intros Hcold Hlookup Hm. rewrite (cold_route_cached _ _ _ _ _ _ _ Hcold Hlookup Hm).
  split; [intros a; apply lookup_longest_route|]. intros Hplain.
  destruct (query_longest_route domain path t Hplain) as (o & -> & Ho). simpl. f_equal. apply option_eq. intros a.
  rewrite Ho, <-lookup_longest_route. rewrite fmap_Some. split; [intros ([] & -> & ->); done|eauto].
Qed.
End routing.

Example cold_route_agrees_holds :
  let t := set_routes (λ _, {[ ("d", "/a") := ("x", 0); ("d", "/a/b") := ("y", 0) ]}) no_tables in
  let cfg := {| runtime_cluster := []; max_ready_instances_per_app := 1; ready_instance_expiration_ms := 1;
                request_timeout_ms := 1; max_request_body_size_bytes := 1; dropout_rate := f64_one;
                route_cache_size := 1; app_cache_size := 1 |} in
  let wc := {| executor := {| max_ab_memory_mb := 1; max_time_ms := 1; max_io_concurrency := 1;
                              max_io_per_request := 1 |};
               fetch_service := ""; env := []; kv_namespaces := [] |} in
  let m := [("/a", {| app_id := "x" |}); ("/a/b", {| app_id := "y" |})] in
  lookup_submappings "/a/b/c" m = Some {| app_id := "y" |} ∧ longest_route t "d" "/a/b/c" "y" ∧
  Ok (app_id <$> lookup_submappings "/a/b/c" m) = (route_mapping_lookup "d" "/a/b/c" [] t).1.1.
Proof.
  intros t cfg wc m.
  pose (s := Scheduler_new (C := LruList.cache) wc cfg).
  destruct (cold_route_agrees "d" "/a/b/c" t s (do_lookup_route_background "d" [] t s).1.1
           (do_lookup_route_background "d" [] t s).1.2 (do_lookup_route_background "d" [] t s).2 m) as [Hl Hq];
    [reflexivity|reflexivity|vm_compute; reflexivity|].
  split; [reflexivity|]. split; [by apply Hl|]. apply Hq.
  intros p r Hp. simpl in Hp.
  apply lookup_insert_Some in Hp as [[[= <-] _]|[_ Hp]];
    [|apply lookup_singleton_Some in Hp as [[= <-] _]]; repeat constructor; discriminate.
Defined.

(** ** Pools *)

Lemma try_send_spec x q :
  (length q ≤ terminate_queue_capacity)%nat →
  try_send x q = take terminate_queue_capacity (q ++ [x]).
Proof.
  intros Hq. unfold try_send. case_decide.
  - rewrite take_ge; [done|]. rewrite length_app. simpl. lia.
  - rewrite take_app_le by lia. by rewrite take_ge by lia.
Qed.

Lemma try_send_all l q :
  (length q ≤ terminate_queue_capacity)%nat →
  foldl (λ q x, try_send x q) q l = take terminate_queue_capacity (q ++ l).
Proof.
  revert q. induction l as [|x l IH]; intros q Hq; cbn [foldl].
  { rewrite app_nil_r. by rewrite take_ge. }
  rewrite (try_send_spec x q) by done. rewrite IH by (rewrite length_take; lia).
  replace (q ++ x :: l) with ((q ++ [x]) ++ l) by by rewrite <-app_assoc.
  destruct (Nat.le_gt_cases (length (q ++ [x])) terminate_queue_capacity).
  - by rewrite (take_ge (q ++ [x])) by done.
  - rewrite (take_app_le (q ++ [x]) l) by lia. rewrite take_app_le by (rewrite length_take; lia).
    by rewrite take_take, Nat.min_id.
Qed.

Lemma gc_excess_spec max ready q :
  gc_excess max ready q =
    (drop (length ready - max) ready,
     foldl (λ q x, try_send x q) q (take (length ready - max) ready)).
Proof.
  revert q. induction ready as [|x ready IH]; intros q; [done|]. cbn [gc_excess]. case_decide as Hlt.
  - rewrite IH. replace (length (x :: ready) - max)%nat with (S (length ready - max)); [done|].
    simpl in *. lia.
  - by replace (length (x :: ready) - max)%nat with 0%nat by lia.
Qed.

Lemma gc_expired_spec expiration clock ready q :
  ∃ old ready',
    ready = old ++ ready' ∧
    gc_expired expiration clock ready q = (ready', foldl (λ q x, try_send x q) q old) ∧
    (∀ i x, old !! i = Some x → is_usable expiration (clock i) x = false) ∧
    (∀ x, head ready' = Some x → is_usable expiration (clock (length old)) x = true).
Proof.
  revert clock q. induction ready as [|x ready IH]; intros clock q; simpl.
  { exists [], []. naive_solver. }
  destruct (is_usable expiration (clock 0%nat) x) eqn:Eu.
  { exists [], (x :: ready). split_and!; [done..|naive_solver]. }
  destruct (IH (λ i, clock (S i)) (try_send x q)) as (old & ready' & -> & Hgc & Hold & Hhead).
  exists (x :: old), ready'. split_and!; [done|done| |done].
  intros [|i] y; simpl; [naive_solver|apply Hold].
Qed.

(** Collecting a pool drops the surplus over the configured maximum and then the
    expired instances, oldest first; all of them go to the terminate queue, as far
    as it has room, and a kept instance at the front was usable when last looked at. *)
Theorem gc_lists_spec cfg clock ready q :
  (length q ≤ terminate_queue_capacity)%nat →
  ∃ surplus old ready',
    ready = surplus ++ old ++ ready' ∧
    gc_lists cfg clock ready q = (ready', take terminate_queue_capacity (q ++ surplus ++ old)) ∧
    length surplus = (length ready - max_ready_instances_per_app cfg)%nat ∧
    (length ready' ≤ max_ready_instances_per_app cfg)%nat ∧
    (∀ i x, old !! i = Some x → is_usable (ready_instance_expiration_ms cfg) (clock i) x = false) ∧
    (∀ x, head ready' = Some x →
       is_usable (ready_instance_expiration_ms cfg) (clock (length old)) x = true).
Proof.
  intros Hq. unfold gc_lists. rewrite gc_excess_spec.
  set (n := (length ready - max_ready_instances_per_app cfg)%nat).
  destruct (gc_expired_spec (ready_instance_expiration_ms cfg) clock (drop n ready)
              (foldl (λ q x, try_send x q) q (take n ready)))
    as (old & ready' & Hd & Hgc & Hold & Hhead).
  exists (take n ready), old, ready'. split_and!; [|..|done|done].
  - by rewrite <-Hd, take_drop.
  - rewrite Hgc, <-foldl_app, try_send_all by done. done.
  - rewrite length_take. lia.
  - apply (f_equal length) in Hd. rewrite length_drop, length_app in Hd. lia.
Qed.

Example gc_lists_spec_holds :
  let inst n := {| inst_rtid := {| runtime_id := "r" |}; last_active := n;
                   inst_handle := {| handle_id := "h" |}; inst_client := {| connection := 1 |} |} in
  let cfg := {| runtime_cluster := []; max_ready_instances_per_app := 2; ready_instance_expiration_ms := 1;
                request_timeout_ms := 1; max_request_body_size_bytes := 1; dropout_rate := f64_one;
                route_cache_size := 1; app_cache_size := 1 |} in
  let ready := [inst 0; inst 7; inst 1500000] in
  (length ([] : list ReadyInstance) ≤ terminate_queue_capacity)%nat ∧
  ∃ surplus old ready', ready = surplus ++ old ++ ready' ∧ length surplus = 1%nat ∧
    gc_lists cfg (λ _, 2000000) ready [] = (ready', surplus ++ old) ∧ old = [inst 7].
Proof.
  intros inst cfg ready.
  assert (H0 : (length ([] : list ReadyInstance) ≤ terminate_queue_capacity)%nat) by apply Nat.le_0_l.
  split; [exact H0|].
  destruct (gc_lists_spec cfg (λ _, 2000000) ready [] H0)
    as (surplus & old & ready' & Heq & Hgc & Hs & Hl & Hold & Hhead).
  exists surplus, old, ready'. split; [exact Heq|]. split; [exact Hs|].
  destruct surplus as [|a [|]]; try discriminate Hs. simpl in Heq. injection Heq as <- Heq.
  destruct old as [|b [|c old]]; simpl in Heq.
  - subst ready'. specialize (Hhead _ eq_refl). discriminate Hhead.
  - injection Heq as <- <-. split; [exact Hgc|reflexivity].
  - injection Heq as <- <- Heq. specialize (Hold 1%nat _ eq_refl). discriminate Hold.
Defined.

(** ** Choosing a runtime *)

Definition sum_list (l : list Z) : Z := foldr Z.add 0 l.

Lemma instance_weight_bounds rt : fits 16 (load rt) → 10000 <= instance_weight rt <= 75535.
Proof.
  unfold fits, instance_weight, umax. intros Hl.
  rewrite wrapping_sub_small by lia. rewrite wrapping_add_small by lia. lia.
Qed.

Lemma sum_weights_bound (cs : list (RuntimeId * RtState)) :
  Forall (λ kv, fits 16 (load kv.2)) cs →
  0 <= sum_list (instance_weight ∘ snd <$> cs) <= 75535 * Z.of_nat (length cs).
Proof.
  induction 1 as [|[k rt] cs Hl _ IH]; cbn [fmap list_fmap sum_list foldr length]; [lia|].
  pose proof (instance_weight_bounds rt Hl). unfold sum_list in IH. simpl in *. lia.
Qed.

Section choose.
Context {Distribution : Type} (weighted_index_new : list Z → option Distribution)
        (sample : Distribution → Z → nat).
(** [WeightedIndex::new] fails only on no weights, a negative one or a sum of zero;
    the sum is taken in the type of the weights, here [u32].  A sample is an index. *)
Context (weighted_index_total : ∀ ws, ws ≠ [] → Forall (λ w, 0 < w) ws → sum_list ws < 2 ^ 32 →
           is_Some (weighted_index_new ws))
        (sample_index : ∀ ws d rng, weighted_index_new ws = Some d → (sample d rng < length ws)%nat).

(** C39. With fewer than 56,861 runtimes the total weight fits its [u32]: choosing a
    runtime never panics, it fails only when there is none, and it yields one of the
    known runtimes. *)
Theorem choose_runtime_total rng cs :
  Forall (λ kv, fits 16 (load kv.2)) cs →
  Z.of_nat (length cs) < 56861 →
  match choose_runtime weighted_index_new sample rng cs with
  | Ok c => c ∈ cs
  | Err e => e = Sched NoAvailableInstance ∧ cs = []
  end.
Proof using Type*.
  intros Hfit Hlen. unfold choose_runtime. case_decide as Hz.
  { split; [done|]. by apply length_zero_iff_nil. }
  destruct (weighted_index_total (instance_weight ∘ snd <$> cs)) as [d Hd].
  - intros Heq%fmap_nil_inv. by subst.
  - apply Forall_fmap. eapply Forall_impl; [exact Hfit|]. intros [k rt] Hl.
    pose proof (instance_weight_bounds rt Hl). simpl in *. lia.
  - pose proof (sum_weights_bound cs Hfit). lia.
  - rewrite Hd. pose proof (sample_index _ _ rng Hd) as Hi. rewrite length_fmap in Hi.
    apply lookup_lt_is_Some in Hi as [c Hc]. rewrite Hc. simpl. by eapply list_elem_of_lookup_2.
Qed.
End choose.

Example choose_runtime_total_holds :
  let cs := [({| runtime_id := "r" |}, {| rt_client := {| connection := 1 |}; load := 65535 |})] in
  choose_runtime (λ ws, match ws with [] => None | _ => Some ws end) (λ _ _, 0%nat) 7 cs ≠ Err Panic.
Proof.
  intros cs He.
  pose proof (choose_runtime_total (λ ws, match ws with [] => None | _ => Some ws end) (λ _ _, 0%nat)
    ltac:(intros [|w ws]; [done|by eexists]) ltac:(intros [|w ws] d r; [done|]; intros _; simpl; lia)
    7 cs ltac:(repeat constructor; done) ltac:(simpl; lia)) as Hc.
  rewrite He in Hc. by destruct Hc as [? _].
Defined.

(** ** Runtimes *)
Section runtimes.
Context {C : Type → Type → Type} {HC : LruCache C}.
Implicit Types s : Scheduler C.

Lemma bt_get_foldl_remove {K V} `{KeyOrd K} (ks : list K) (m : list (K * V)) k :
  bt_sorted m →
  bt_sorted (foldl (λ m k, bt_remove k m) m ks) ∧
  bt_get k (foldl (λ m k, bt_remove k m) m ks) = if decide (k ∈ ks) then None else bt_get k m.
Proof.
  revert m. induction ks as [|k1 ks IH]; intros m Hs; cbn [foldl].
  { split; [done|]. by rewrite decide_False by apply not_elem_of_nil. }
  destruct (IH (bt_remove k1 m)) as [Hs' Hg]; [by apply bt_remove_sorted|].
  split; [done|]. rewrite Hg, bt_get_remove by done.
  repeat case_decide; set_solver.
Qed.

Lemma bt_get_fmap {K V W} `{KeyOrd K} (f : V → W) (m : list (K * V)) k :
  bt_get k ((λ kv, (kv.1, f kv.2)) <$> m) = f <$> bt_get k m.
Proof. induction m as [|[k1 v1] m IH]; simpl; [done|]. by case_decide. Qed.

Lemma bt_sorted_fmap {K V W} `{KeyOrd K} (f : V → W) (m : list (K * V)) :
  bt_sorted m → bt_sorted ((λ kv, (kv.1, f kv.2)) <$> m).
Proof. unfold bt_sorted. rewrite <-list_fmap_compose. done. Qed.

(** The health check stores the load that each runtime reports, drops exactly the
    runtimes that fail to report one, and adds none. *)
Theorem query_runtimes_spec reply s rtid :
  bt_sorted (clients s) →
  bt_sorted (clients (query_runtimes reply s)) ∧
  bt_get rtid (clients (query_runtimes reply s)) =
    rt ← bt_get rtid (clients s);
    match reply (rt_client rt) with
    | Ok (Ok l) => Some {| rt_client := rt_client rt; load := l |}
    | _ => None
    end.
Proof.
  intros Hs. unfold query_runtimes. cbn [clients set_clients].
  set (answer := λ rt, match reply (rt_client rt) with Ok (Ok l) => Some l | _ => None end).
  set (upd := λ rt, match answer rt with
                    | Some l => {| rt_client := rt_client rt; load := l |}
                    | None => rt
                    end).
  set (to_drop := omap _ (clients s)).
  change ((λ kv : RuntimeId * RtState, (kv.1, _)) <$> clients s)
    with ((λ kv : RuntimeId * RtState, (kv.1, upd kv.2)) <$> clients s).
  set (updated := _ <$> clients s).
  assert (Hu : bt_sorted updated) by by apply bt_sorted_fmap.
  assert (Heq : (if decide (0 < length to_drop)%nat
                 then foldl (λ cs rtid, bt_remove rtid cs) updated to_drop else updated)
              = foldl (λ cs rtid, bt_remove rtid cs) updated to_drop).
  { case_decide; [done|]. by destruct to_drop; [|simpl in *; lia]. }
  rewrite Heq. clear Heq. destruct (bt_get_foldl_remove to_drop updated rtid Hu) as [Hs' ->].
  split; [done|]. unfold updated. rewrite bt_get_fmap.
  assert (Hin : rtid ∈ to_drop ↔ ∃ rt, bt_get rtid (clients s) = Some rt ∧ answer rt = None).
  { unfold to_drop. rewrite list_elem_of_omap. split.
    - intros ([k rt] & Hin & Hk). change (match answer rt with Some _ => None | None => Some k end = Some rtid) in Hk.
      destruct (answer rt) eqn:Ea; simplify_eq. exists rt. split; [by apply bt_get_elem_iff|done].
    - intros (rt & Hg & Ha). exists (rtid, rt). split; [by apply bt_get_elem_iff|].
      change (match answer rt with Some _ => None | None => Some rtid end = Some rtid). by rewrite Ha. }
  destruct (bt_get rtid (clients s)) as [rt|] eqn:Eg; [|by case_decide]. cbn [fmap option_fmap option_map mbind option_bind].
  unfold upd. destruct (answer rt) as [l|] eqn:Ea.
  - rewrite decide_False by (intros (? & [= <-] & ?)%Hin; congruence).
    unfold answer in Ea. destruct (reply (rt_client rt)) as [[|]|]; by simplify_eq.
  - rewrite decide_True by (apply Hin; eauto).
    unfold answer in Ea. destruct (reply (rt_client rt)) as [[|]|]; by simplify_eq.
Qed.

(** the first address whose runtime answers with id [id] *)
Fixpoint first_client (id : RuntimeId) (found : list (option (RuntimeId * RuntimeServiceClient)))
    : option RuntimeServiceClient :=
  match found with
  | Some (id', c) :: rest => if decide (id = id') then Some c else first_client id rest
  | None :: rest => first_client id rest
  | [] => None
  end.

Definition probe (connect : string → GenericResult RuntimeServiceClient)
    (rpc_id : RuntimeServiceClient → RpcResult RuntimeId) (addr : string)
    : option (RuntimeId * RuntimeServiceClient) :=
  client ← ok (connect addr); id ← ok (rpc_id client); Some (id, client).

(** Discovery keeps every known runtime as it is and adds, with load 0, exactly the
    unknown ones that answer, over the first address that reaches them. *)
Theorem discover_runtimes_spec connect rpc_id s id :
  bt_sorted (clients s) →
  bt_sorted (clients (discover_runtimes connect rpc_id s)) ∧
  bt_get id (clients (discover_runtimes connect rpc_id s)) =
    match bt_get id (clients s) with
    | Some rt => Some rt
    | None => (λ c, {| rt_client := c; load := 0 |}) <$>
                first_client id (probe connect rpc_id <$> runtime_cluster (local_config s))
    end.
Proof.
  intros Hs. unfold discover_runtimes. cbn [clients set_clients].
  assert (Hp : (λ addr, match connect addr with
             | Ok client => match rpc_id client with Ok id => Some (id, client) | Err _ => None end
             | Err _ => None
             end) <$> runtime_cluster (local_config s) =
          probe connect rpc_id <$> runtime_cluster (local_config s)).
  { apply list_fmap_ext. intros i addr _. unfold probe.
    destruct (connect addr) as [c|]; simpl; [|done]. by destruct (rpc_id c). }
  rewrite Hp. generalize (probe connect rpc_id <$> runtime_cluster (local_config s)) as found.
  revert Hs. generalize (clients s) as cs. intros cs Hs found. revert cs Hs.
  induction found as [|[[id' c]|] found IH]; intros cs Hs; cbn [foldl first_client].
  - split; [done|]. by destruct (bt_get id cs).
  - destruct (bt_get id' cs) as [rt'|] eqn:Eid';
      [replace (bt_contains_key id' cs) with true by (unfold bt_contains_key; by rewrite Eid')
      |replace (bt_contains_key id' cs) with false by (unfold bt_contains_key; by rewrite Eid')].
    + destruct (IH cs Hs) as [? ->]. split; [done|]. destruct (decide (id = id')) as [->|]; [|done].
      by rewrite Eid'.
    + destruct (IH (bt_insert id' {| rt_client := c; load := 0 |} cs)) as [? ->];
        [by apply bt_insert_sorted|]. split; [done|]. rewrite bt_get_insert.
      repeat case_decide; try done; subst; by rewrite Eid'.
  - by apply IH.
Qed.
End runtimes.

(** ** The app cache *)
Section app_cache.
Context {C : Type → Type → Type} {HC : LruCache C}.
Context (env_of_json : string → GenericResult (list (string * string)))
        (ns_of_json : string → GenericResult (list KvNamespaceConfig)).
Implicit Types s : Scheduler C.

Lemma app_metadata_get_ok id t :
  ∃ r, app_metadata_get env_of_json ns_of_json id [] t = (r, [], t).
Proof.
  unfold app_metadata_get, mbind, DB_bind. simpl.
  destruct (apps t !! id) as [r|]; [|by eexists]. unfold lift. simpl.
  destruct (env_of_json (row_env r)); [|by eexists]. simpl.
  destruct (ns_of_json (row_kv_namespaces r)); by eexists.
Qed.

(** The database, when it answers, does not have this bundle and configuration for the app. *)
Definition stale (t : tables) (id : AppId) (bundle : string) (wc : WorkerConfiguration) : bool :=
  match (app_metadata_get env_of_json ns_of_json (app_id id) [] t).1.1 with
  | Ok (Some config) => app_changed config bundle wc
  | Ok None => true
  | Err _ => false
  end.

Lemma apps_gc_one_ok entry t s :
  apps_gc_one env_of_json ns_of_json entry [] t s =
  ((if stale t entry.1 entry.2.1 entry.2.2
    then set_app_cache (lru_remove entry.1 (app_cache s)) s else s), [], t).
Proof.
  destruct entry as [id [bundle wc]]. unfold apps_gc_one, stale. simpl.
  destruct (app_metadata_get_ok (app_id id) t) as [r ->]. simpl.
  destruct r as [[config|]|e]; [|done|done]. by destruct (app_changed config bundle wc).
Qed.

Lemma apps_gc_fold entries t s id :
  ∃ s', foldl (λ st entry, let '(s, fs, t) := st in apps_gc_one env_of_json ns_of_json entry fs t s)
          (s, [], t) entries = (s', [], t) ∧
    lru_peek id (app_cache s') =
      if existsb (λ e, bool_decide (id = e.1) && stale t e.1 e.2.1 e.2.2) entries
      then None else lru_peek id (app_cache s).
Proof.
  revert s. induction entries as [|e entries IH]; intros s; cbn [foldl existsb].
  { by exists s. }
  rewrite apps_gc_one_ok. edestruct IH as (s' & -> & Hp). exists s'. split; [done|]. rewrite Hp.
  destruct (stale t e.1 e.2.1 e.2.2); [|by rewrite andb_false_r].
  simpl. rewrite lru_peek_remove. rewrite andb_true_r.
  case_bool_decide; simpl; destruct (existsb _ entries); try done; by case_decide.
Qed.

(** One round of the garbage collector against a reachable database keeps exactly
    the cached apps whose bundle, environment and namespaces are the stored ones
    (and those whose stored metadata does not decode), as they were. *)
Theorem apps_gc_round_spec t s id :
  lru_peek id (app_cache (apps_gc_round env_of_json ns_of_json [] t s).1.1) =
    st ← lru_peek id (app_cache s);
    if stale t id (state_bundle_id st) (state_config st) then None else Some st.
Proof.
  unfold apps_gc_round.
  set (entries := (λ kv : AppId * AppState, (kv.1, (state_bundle_id kv.2, state_config kv.2))) <$>
                    lru_iter (app_cache s)).
  destruct (apps_gc_fold entries t (set_app_cache (lru_touch (app_cache s)) s) id) as (s' & -> & Hp).
  cbn [fst]. rewrite Hp. simpl. rewrite lru_peek_touch.
  assert (Hin : existsb (λ e, bool_decide (id = e.1) && stale t e.1 e.2.1 e.2.2) entries = true ↔
    ∃ st, lru_peek id (app_cache s) = Some st ∧ stale t id (state_bundle_id st) (state_config st) = true).
  { rewrite existsb_exists. setoid_rewrite <-lru_iter_peek. setoid_rewrite <-list_elem_of_In.
    unfold entries. split.
    - intros (e & ([k st] & -> & Hin)%list_elem_of_fmap & Hs). simpl in Hs.
      apply andb_true_iff in Hs as [<-%bool_decide_eq_true Hs]. eauto.
    - intros (st & Hin & Hs). exists (id, (state_bundle_id st, state_config st)). split.
      + apply list_elem_of_fmap. by exists (id, st).
      + simpl. by rewrite bool_decide_eq_true_2. }
  destruct (existsb _ entries) eqn:Ee.
  - destruct Hin as [(st & -> & Hs) _]; [done|]. simpl. by rewrite Hs.
  - destruct (lru_peek id (app_cache s)) as [st|]; [|done]. simpl.
    destruct (stale t id (state_bundle_id st) (state_config st)) eqn:Es; [|done].
    destruct Hin as [_ Hin]. discriminate Hin. eauto.
Qed.

(** The round touches nothing but the cache, which keeps its capacity. *)
Lemma apps_gc_round_frame t s :
  ∃ ac, apps_gc_round env_of_json ns_of_json [] t s = (set_app_cache ac s, [], t) ∧
        lru_capacity ac = lru_capacity (app_cache s).
Proof.
  unfold apps_gc_round. generalize ((λ kv : AppId * AppState, (kv.1, (state_bundle_id kv.2, state_config kv.2))) <$>
    lru_iter (app_cache s)) as entries. intros entries.
  assert (Hgen : ∀ ac, lru_capacity ac = lru_capacity (app_cache s) →
    ∃ ac', foldl (λ st entry, let '(s, fs, t) := st in apps_gc_one env_of_json ns_of_json entry fs t s)
             (set_app_cache ac s, [], t) entries = (set_app_cache ac' s, [], t) ∧
           lru_capacity ac' = lru_capacity (app_cache s)).
  { induction entries as [|e entries IH]; intros ac Hac; cbn [foldl]; [by exists ac|].
    rewrite apps_gc_one_ok. destruct (stale t e.1 e.2.1 e.2.2); [|by apply IH].
    apply (IH (lru_remove e.1 ac)). by rewrite lru_capacity_remove. }
  apply Hgen. by rewrite lru_capacity_touch.
Qed.

(** What a cached app runs with: its own id, the stored bundle and the worker
    configuration of the proxy with the app's environment and namespaces. *)
Definition app_of (wc : WorkerConfiguration) (t : tables) (id : AppId) (st : AppState) : Prop :=
  ∃ config, (app_metadata_get env_of_json ns_of_json (app_id id) [] t).1.1 = Ok (Some config) ∧
    (app_bundle_get (bundle_id config) [] t).1.1 = Ok (Some (state_bundle st)) ∧
    state_id st = id ∧ state_bundle_id st = bundle_id config ∧ state_config st = target_config wc config.

(** Loading an app that is not cached: whatever is in the cache for it afterwards
    was built from the database, has a deque of its own that is empty, and other
    apps keep their deques. *)
Theorem do_lookup_app_background_spec now id t s s' fs' t' st :
  lru_peek id (app_cache s) = None →
  do_lookup_app_background env_of_json ns_of_json now id [] t s = (s', fs', t') →
  lru_peek id (app_cache s') = Some st →
  app_of (worker_config s) t id st ∧
  ready_store s !! ready_instances st = None ∧ ready_of st s' = [] ∧
  ∀ l, l ≠ ready_instances st → ready_store s' !! l = ready_store s !! l.
Proof.
  intros Hnone Hlook Hst. unfold do_lookup_app_background, cached_app in Hlook.
  pose proof (lru_get_fst id (app_cache s)) as Hfst. rewrite Hnone in Hfst.
  pose proof (lru_get_snd id id (app_cache s)) as Hsnd. rewrite Hnone in Hsnd.
  destruct (lru_get id (app_cache s)) as [o ac]. simpl in Hfst, Hsnd. subst o.
  unfold app_of. destruct (app_metadata_get_ok (app_id id) t) as [r Hr]. rewrite Hr in *. simpl in *.
  destruct r as [[config|]|e]; simplify_eq; simpl in Hst; [|congruence..].
  destruct (bundles t !! bundle_id config) as [[b ct]|] eqn:Eb; simpl in Hlook; simplify_eq;
    simpl in Hst; [|congruence].
  apply lru_peek_insert_eq in Hst as ->. simpl. split; [|split; [|split]].
  - exists config. by rewrite Eb.
  - apply not_elem_of_dom, is_fresh.
  - unfold ready_of. simpl. by rewrite lookup_insert_eq.
  - intros l Hl. by rewrite lookup_insert_ne.
Qed.
End app_cache.

(** ** The route cache *)
Section route_cache.
Context {C : Type → Type → Type} {HC : LruCache C}.
Implicit Types s : Scheduler C.

(** the routes the proxy caches for a domain *)
Definition fresh_routes (t : tables) (domain : string) : list (string * AppId) :=
  route_map (bt_from_list (routes_of domain t)).

(** what the collector leaves of the cache after one domain *)
Definition purged (t : tables) (domain : string) (rc : C string (list (string * AppId))) :=
  match lru_peek domain rc with
  | Some entry => if decide (entry = fresh_routes t domain) then rc else lru_remove domain rc
  | None => rc
  end.

Lemma route_cache_gc_domain_ok d t s :
  route_cache_gc_domain d [] t s = (set_route_cache (purged t d (route_cache s)) s, [], t).
Proof.
  unfold route_cache_gc_domain, purged, fresh_routes. simpl.
  destruct (lru_peek d (route_cache s)); [case_decide|]; by destruct s.
Qed.

Lemma purged_capacity t d rc : lru_capacity (purged t d rc) = lru_capacity rc.
Proof. unfold purged. destruct (lru_peek d rc); [case_decide|]; by rewrite ?lru_capacity_remove. Qed.

Lemma purged_peek t d d' rc :
  lru_peek d' (purged t d rc) =
    m ← lru_peek d' rc; if decide (d' = d ∧ m ≠ fresh_routes t d') then None else Some m.
Proof.
  unfold purged. destruct (decide (d' = d)) as [->|Hne].
  - destruct (lru_peek d rc) as [m|] eqn:Em; [|by rewrite Em]. cbn [mbind option_bind].
    case_decide as Hm.
    + rewrite Em, decide_False by tauto. done.
    + rewrite lru_peek_remove, !decide_True by done. done.
  - assert (He : lru_peek d' rc = m ← lru_peek d' rc; if decide (d' = d ∧ m ≠ fresh_routes t d') then None else Some m).
    { destruct (lru_peek d' rc) as [m|]; [|done]. cbn [mbind option_bind]. by rewrite decide_False by tauto. }
    destruct (lru_peek d rc) as [e|]; [|exact He].
    destruct (decide (e = fresh_routes t d)); [exact He|]. by rewrite lru_peek_remove, decide_False.
Qed.

Lemma purged_fold t domain ds rc :
  let rc' := foldl (λ rc d, purged t d rc) rc ds in
  lru_capacity rc' = lru_capacity rc ∧
  lru_peek domain rc' =
    m ← lru_peek domain rc; if decide (domain ∈ ds ∧ m ≠ fresh_routes t domain) then None else Some m.
Proof.
  revert rc. induction ds as [|d ds IH]; intros rc; cbn [foldl].
  - split; [done|]. destruct (lru_peek domain rc) as [m|]; [|done]. cbn [mbind option_bind].
    rewrite decide_False; [done|]. by intros [?%elem_of_nil _].
  - destruct (IH (purged t d rc)) as [-> ->]. split; [apply purged_capacity|]. rewrite purged_peek.
    destruct (lru_peek domain rc) as [m|]; [|done]. cbn [mbind option_bind].
    destruct (decide (domain = d ∧ m ≠ fresh_routes t domain)); cbn [mbind option_bind];
      repeat case_decide; try done; set_solver.
Qed.

(** One round of the garbage collector against a reachable database keeps exactly the
    cached domains whose routes are the stored ones. *)
Theorem route_cache_gc_round_spec t s domain :
  ∃ rc, route_cache_gc_round [] t s = (set_route_cache rc s, [], t) ∧
    lru_capacity rc = lru_capacity (route_cache s) ∧
    lru_peek domain rc =
      m ← lru_peek domain (route_cache s); if decide (m = fresh_routes t domain) then Some m else None.
Proof.
  set (ds := (lru_iter (route_cache s)).*1).
  exists (foldl (λ rc d, purged t d rc) (route_cache s) ds).
  destruct (purged_fold t domain ds (route_cache s)) as [Hc Hp]. split; [|split; [exact Hc|]].
  - unfold route_cache_gc_round. fold ds. clear Hc Hp. generalize ds as l. clear ds. intros l.
    assert (Hgen : ∀ rc, foldl (λ st d, let '(s, fs, t) := st in route_cache_gc_domain d fs t s)
      (set_route_cache rc s, [], t) l = (set_route_cache (foldl (λ rc d, purged t d rc) rc l) s, [], t)).
    { induction l as [|d l IH]; intros rc; cbn [foldl]; [done|]. by rewrite route_cache_gc_domain_ok, <-IH. }
    rewrite <-Hgen. by destruct s.
  - rewrite Hp. destruct (lru_peek domain (route_cache s)) as [m|] eqn:Em; [|done]. cbn [mbind option_bind].
    assert (domain ∈ ds) by (apply list_elem_of_fmap; exists (domain, m); by rewrite lru_iter_peek).
    repeat case_decide; try done; tauto.
Qed.
End route_cache.

(** ** A concrete scheduler *)
Module SchedRun.
Definition cfg : LocalConfig :=
  {| runtime_cluster := ["a:1"; "b:1"; "c:1"]; max_ready_instances_per_app := 1;
     ready_instance_expiration_ms := 1; request_timeout_ms := 1; max_request_body_size_bytes := 1;
     dropout_rate := f64_one; route_cache_size := 1; app_cache_size := 1 |}.
Definition wc : WorkerConfiguration :=
  {| executor := {| max_ab_memory_mb := 1; max_time_ms := 1; max_io_concurrency := 1; max_io_per_request := 1 |};
     fetch_service := ""; env := []; kv_namespaces := [] |}.
Definition rt (c : positive) (l : Z) : RtState := {| rt_client := {| connection := c |}; load := l |}.
Definition rid (s : string) : RuntimeId := {| runtime_id := s |}.
Definition s0 : Scheduler LruList.cache :=
  set_clients (λ _, [(rid "r1", rt 1 5); (rid "r2", rt 2 6)]) (Scheduler_new wc cfg).

(** the first runtime answers, the second does not *)
Definition reply (c : RuntimeServiceClient) : RpcResult (GenericResult Z) :=
  if decide (connection c = 1%positive) then Ok (Ok 9) else Err "timeout".

(** two addresses reach the known [r1] and the new [r3], one is down *)
Definition connect (addr : string) : GenericResult RuntimeServiceClient :=
  if decide (addr = "b:1") then Err TryAgain
  else Ok {| connection := if decide (addr = "a:1") then 7 else 8 |}.
Definition rpc_id (c : RuntimeServiceClient) : RpcResult RuntimeId :=
  Ok (rid (if decide (connection c = 7%positive) then "r1" else "r3")).

Definition env_of_json (_ : string) : GenericResult (list (string * string)) := Ok [("K", "V")].
Definition ns_of_json (_ : string) : GenericResult (list KvNamespaceConfig) := Ok [].
Definition t : tables :=
  set_bundles (insert "b" ([Byte.x01], 0))
    (set_apps (insert "app" {| row_bundle_id := "b"; row_env := "{}"; row_kv_namespaces := "[]";
                               row_createtime := 0 |}) no_tables).
Definition app : AppId := {| app_id := "app" |}.
Definition loaded : Scheduler LruList.cache :=
  (do_lookup_app_background env_of_json ns_of_json 3 app [] t s0).1.1.
Definition state : AppState :=
  {| state_id := app;
     state_config := {| executor := executor wc; fetch_service := ""; env := [("K", "V")]; kv_namespaces := [] |};
     state_bundle_id := "b"; state_bundle := [Byte.x01];
     ready_instances := 1; start_time := 3 |}.

Lemma clients_sorted : bt_sorted (clients s0).
Proof. repeat constructor. Qed.
End SchedRun.

Example query_runtimes_spec_holds :
  bt_sorted (clients SchedRun.s0) ∧
  bt_get (SchedRun.rid "r1") (clients (query_runtimes SchedRun.reply SchedRun.s0)) = Some (SchedRun.rt 1 9) ∧
  bt_get (SchedRun.rid "r2") (clients (query_runtimes SchedRun.reply SchedRun.s0)) = None.
Proof.
  split; [exact SchedRun.clients_sorted|]. split.
  - rewrite (proj2 (query_runtimes_spec SchedRun.reply SchedRun.s0 (SchedRun.rid "r1") SchedRun.clients_sorted)).
    reflexivity.
  - rewrite (proj2 (query_runtimes_spec SchedRun.reply SchedRun.s0 (SchedRun.rid "r2") SchedRun.clients_sorted)).
    reflexivity.
Defined.

Example discover_runtimes_spec_holds :
  let s := discover_runtimes SchedRun.connect SchedRun.rpc_id SchedRun.s0 in
  bt_sorted (clients SchedRun.s0) ∧
  bt_get (SchedRun.rid "r1") (clients s) = Some (SchedRun.rt 1 5) ∧
  bt_get (SchedRun.rid "r3") (clients s) = Some (SchedRun.rt 8 0).
Proof.
  intros s. split; [exact SchedRun.clients_sorted|]. unfold s. split.
  - rewrite (proj2 (discover_runtimes_spec SchedRun.connect SchedRun.rpc_id SchedRun.s0 (SchedRun.rid "r1")
                      SchedRun.clients_sorted)). reflexivity.
  - rewrite (proj2 (discover_runtimes_spec SchedRun.connect SchedRun.rpc_id SchedRun.s0 (SchedRun.rid "r3")
                      SchedRun.clients_sorted)). reflexivity.
Defined.

Example do_lookup_app_background_spec_holds :
  lru_peek SchedRun.app (app_cache SchedRun.loaded) = Some SchedRun.state ∧
  app_of SchedRun.env_of_json SchedRun.ns_of_json SchedRun.wc SchedRun.t SchedRun.app SchedRun.state ∧
  ready_of SchedRun.state SchedRun.loaded = [].
Proof.
  assert (Hst : lru_peek SchedRun.app (app_cache SchedRun.loaded) = Some SchedRun.state) by reflexivity.
  assert (Hn : lru_peek SchedRun.app (app_cache SchedRun.s0) = None) by reflexivity.
  split; [exact Hst|].
  destruct (do_lookup_app_background_spec SchedRun.env_of_json SchedRun.ns_of_json 3 SchedRun.app SchedRun.t
              SchedRun.s0 SchedRun.loaded [] SchedRun.t SchedRun.state Hn) as (Happ & _ & Hready & _).
  - reflexivity.
  - exact Hst.
  - split; [exact Happ|exact Hready].
Defined.
