(* ===== verification/Cli.v ===== *)
(** * The operator's command line: the [App] commands of [rusty-workers-cli/src/main.rs]

    Each command runs on the data client [Db], so its effect on the tables is the
    composition of the calls it makes, and every [?] is an early return.  The files,
    the [toml], [tar] and [base64] crates and the random generator are parameters; what
    a command prints is a value ([println!] of its JSON).  The [Runtime] commands are in
    [RuntimeServer]. *)
From Stdlib Require Import ZArith Lia.
From S2P Require Import Prelude BTree Types Db DbFacts Lru Sched SchedFacts.
Local Open Scope Z_scope.

Inductive AppCmd :=
  | ListRoutes (domain : string)
  | AddRoute (domain path appid : string)
  | DeleteDomain (domain : string)
  | DeleteRoute (domain path : string)
  | LookupRoute (domain path : string)
  | AddApp (config bundle : string)
  | AddSingleFileApp (config js : string)
  | DeleteApp (appid : string)
  | GetApp (appid : string)
  | GetBundle (bundle : string)
  | ListWorkerData (namespace from : string) (limit : Z) (base64_key : bool)
  | GetWorkerData (namespace key : string) (base64_key base64_value : bool)
  | PutWorkerData (namespace key value : string) (base64_key base64_value : bool)
  | DeleteWorkerData (namespace key : string) (base64_key : bool).

(** What is printed: the text [OK], [null], or the JSON of a value *)
Inductive Printed :=
  | PrintOK
  | PrintNull
  | PrintRoutes (routes : list (string * string))
  | PrintAppId (appid : option string)
  | PrintApp (config : option AppConfig)
  | PrintBundle (bundle : option string)
  | PrintKeys (keys : list (option string))
  | PrintValue (value : string).

(** The sources of an [anyhow::Error] *)
Inductive CliError :=
  | DataClientError (e : GenericError)
  | FileError (path : string)
  | TomlError
  | TarError
  | Base64Error
  | Utf8Error
  | JsonError
  | ConnectError (e : GenericError)
  | RpcError (e : string).

(** ** The monad of commands: the data client's, with these errors *)
Definition Cli (A : Type) : Type := faults → tables → result CliError A * faults * tables.

#[export] Instance Cli_ret : MRet Cli := λ A a fs t, (Ok a, fs, t).
#[export] Instance Cli_bind : MBind Cli := λ A B f m fs t,
  match m fs t with
  | (Ok a, fs', t') => f a fs' t'
  | (Err e, fs', t') => (Err e, fs', t')
  end.

Definition client {A} (m : DB A) : Cli A := λ fs t,
  let '(r, fs', t') := m fs t in (map_err DataClientError r, fs', t').
Definition attempt {A} (r : result CliError A) : Cli A := λ fs t, (r, fs, t).

Section cli.
(** the file system; the crates *)
Context (open : string → option bytes)
        (toml_from_str : string → option AppConfig)
        (tar_single_file : string → bytes → option bytes)
        (base64_encode : bytes → string) (base64_decode : string → option bytes).
(** as in [Db] *)
Context (env_to_json : list (string * string) → GenericResult string)
        (env_of_json : string → GenericResult (list (string * string)))
        (ns_to_json : list KvNamespaceConfig → GenericResult string)
        (ns_of_json : string → GenericResult (list KvNamespaceConfig))
        (duplicate_key : GenericError) (row_order : list bytes → list bytes).
(** [Pool::from_url]; two readings of the clock; the bytes of [thread_rng] *)
Context (pool_from_url : string → GenericResult unit) (now1 now2 : Z) (rng : bytes).

Definition read_file_raw (path : string) : result CliError bytes := ok_or (open path) (FileError path).
Definition read_file (path : string) : result CliError string :=
  b ← read_file_raw path; ok_or (from_utf8 b) (FileError path).

(** A key or value of the command line *)
Definition decode_arg (base64 : bool) (s : string) : result CliError bytes :=
  if base64 then ok_or (base64_decode s) Base64Error else Ok (as_bytes s).

Definition do_add_app (config : AppConfig) (bundle : bytes) : Cli unit :=
  let bundle_id := base64_encode (take 16 rng) in
  client (app_bundle_put duplicate_key now1 bundle_id bundle) ;;
  client (app_metadata_put env_to_json ns_to_json now2
    {| app_config_id := app_config_id config; bundle_id := bundle_id; app_env := app_env config;
       app_kv_namespaces := app_kv_namespaces config |}).

Definition app_cmd (op : AppCmd) : Cli Printed :=
  match op with
  | ListRoutes domain =>
      routes ← client (route_mapping_list_for_domain domain); mret (PrintRoutes routes)
  | AddRoute domain path appid => client (route_mapping_insert now1 domain path appid) ;; mret PrintOK
  | DeleteDomain domain => client (route_mapping_delete_domain domain) ;; mret PrintOK
  | DeleteRoute domain path => client (route_mapping_delete domain path) ;; mret PrintOK
  | LookupRoute domain path => result ← client (route_mapping_lookup domain path); mret (PrintAppId result)
  | AddApp config bundle =>
      config ← attempt (read_file config);
      config ← attempt (ok_or (toml_from_str config) TomlError);
      bundle ← attempt (read_file_raw bundle);
      do_add_app config bundle ;; mret PrintOK
  | AddSingleFileApp config js =>
      config ← attempt (read_file config);
      config ← attempt (ok_or (toml_from_str config) TomlError);
      js ← attempt (read_file_raw js);
      archive ← attempt (ok_or (tar_single_file "./index.js" js) TarError);
      do_add_app config archive ;; mret PrintOK
  | DeleteApp appid => client (app_metadata_delete appid) ;; mret PrintOK
  | GetApp appid => result ← client (app_metadata_get env_of_json ns_of_json appid); mret (PrintApp result)
  | GetBundle bundle =>
      bundle ← client (app_bundle_get bundle); mret (PrintBundle (base64_encode <$> bundle))
  | ListWorkerData namespace from limit base64_key =>
      from ← attempt (decode_arg base64_key from);
      keys ← client (worker_data_scan_keys row_order now1 namespace from None limit);
      mret (PrintKeys ((λ k, if base64_key then Some (base64_encode k) else from_utf8 k) <$> keys))
  | GetWorkerData namespace key base64_key base64_value =>
      key ← attempt (decode_arg base64_key key);
      value ← client (worker_data_get now1 namespace key);
      match value with
      | Some v => if base64_value then mret (PrintValue (base64_encode v))
                  else s ← attempt (ok_or (from_utf8 v) Utf8Error); mret (PrintValue s)
      | None => mret PrintNull
      end
  | PutWorkerData namespace key value base64_key base64_value =>
      key ← attempt (decode_arg base64_key key);
      value ← attempt (decode_arg base64_value value);
      client (worker_data_put now1 now2 namespace key value false 0) ;; mret PrintOK
  | DeleteWorkerData namespace key base64_key =>
      key ← attempt (decode_arg base64_key key);
      client (worker_data_delete namespace key) ;; mret PrintOK
  end.

(** [main] with an [App] command *)
Definition main (db_url : string) (op : AppCmd) : Cli Printed :=
  attempt (map_err DataClientError (pool_from_url db_url)) ;; app_cmd op.
End cli.
