(* ===== verification/CliFacts.v ===== *)
(** * What the operator's commands do to the apps that the proxy serves

    The proxy loads an app from its metadata and the bundle that these name
    ([SchedFacts.app_of]) and resolves a request through the routes of its domain.  The
    theorems say what each is after a command, whatever call to the database fails. *)
From Stdlib Require Import ZArith Lia Ascii.
From S2P Require Import Prelude BTree Types Db DbFacts Lru Sched SchedFacts Cli.
Local Open Scope Z_scope.

(** ** Every app has its bundle *)
Definition bundles_present (t : tables) : Prop :=
  ∀ id r, apps t !! id = Some r → is_Some (bundles t !! row_bundle_id r).

Lemma bundles_present_same t t' :
  apps t' = apps t → bundles t' = bundles t → bundles_present t → bundles_present t'.
Proof. intros Ha Hb Ht id r. rewrite Ha, Hb. apply Ht. Qed.

Lemma bundles_present_insert id x t :
  bundles_present t → bundles_present (set_bundles (insert id x) t).
Proof.
  intros Ht i r Hr. simpl in *. destruct (decide (row_bundle_id r = id)) as [<-|Hne].
  - rewrite lookup_insert_eq. by eexists.
  - rewrite lookup_insert_ne by done. by eapply Ht.
Qed.

Lemma bundles_present_app id r t :
  is_Some (bundles t !! row_bundle_id r) → bundles_present t →
  bundles_present (set_apps (insert id r) t).
Proof.
  intros Hr Ht i r' Hi. simpl in *. apply lookup_insert_Some in Hi as [[_ <-]|[_ Hi]]; [done|by eapply Ht].
Qed.

Lemma bundles_present_delete id t : bundles_present t → bundles_present (set_apps (delete id) t).
Proof. intros Ht i r Hi. simpl in *. apply lookup_delete_Some in Hi as [_ Hi]. by eapply Ht. Qed.

(** ** What the proxy makes of the tables *)
Section served.
Context (env_of_json : string → GenericResult (list (string * string)))
        (ns_of_json : string → GenericResult (list KvNamespaceConfig)).
Local Abbreviation app_of := (app_of env_of_json ns_of_json).

Lemma app_of_row wc t id st :
  app_of wc t id st ↔
  ∃ r env nss b ct, apps t !! app_id id = Some r ∧ env_of_json (row_env r) = Ok env ∧
    ns_of_json (row_kv_namespaces r) = Ok nss ∧ bundles t !! row_bundle_id r = Some (b, ct) ∧
    state_id st = id ∧ state_bundle st = b ∧ state_bundle_id st = row_bundle_id r ∧
    state_config st = {| executor := executor wc; fetch_service := fetch_service wc; env := env;
                         kv_namespaces := decode_kv_namespaces nss |}.
Proof.
  unfold SchedFacts.app_of, app_metadata_get, app_bundle_get, mbind, DB_bind, query, lift. simpl.
  destruct (apps t !! app_id id) as [r|]; simpl;
    [|split; [by intros (? & ? & _)|by intros (? & ? & ? & ? & ? & ? & _)]].
  destruct (env_of_json (row_env r)) as [e|] eqn:Ee; simpl;
    [|split; [by intros (? & ? & _)|intros (? & ? & ? & ? & ? & [= <-] & ? & _); congruence]].
  destruct (ns_of_json (row_kv_namespaces r)) as [n|] eqn:En; simpl;
    [|split; [by intros (? & ? & _)|intros (? & ? & ? & ? & ? & [= <-] & _ & ? & _); congruence]].
  unfold target_config. split.
  - intros (config & [= <-] & Hb & Hst). simpl in *.
    destruct (bundles t !! row_bundle_id r) as [[b ct]|] eqn:Eb; [|done]. simpl in Hb.
    injection Hb as ->. exists r, e, n, (state_bundle st), ct. naive_solver.
  - intros (r' & e' & n' & b & ct & [= <-] & He & Hn & Hb & <- & <- & Hid & Hc).
    rewrite Ee in He. rewrite En in Hn. injection He as <-. injection Hn as <-.
    eexists. split; [done|]. simpl. rewrite Hb. split_and!; [done..|]. by rewrite Hc.
Qed.

(** An app is loaded alike from tables with the same row and the same bundle for it. *)
Lemma app_of_frame wc t t' id st :
  apps t' !! app_id id = apps t !! app_id id →
  (∀ r, apps t !! app_id id = Some r → bundles t' !! row_bundle_id r = bundles t !! row_bundle_id r) →
  app_of wc t' id st ↔ app_of wc t id st.
Proof.
  intros Ha Hb. rewrite !app_of_row. rewrite Ha.
  split; intros (r & e & n & b & ct & Hr & ? & ? & Hbr & Hst); exists r, e, n, b, ct;
    [rewrite <-Hb by done|rewrite Hb by done]; done.
Qed.
End served.

(** ** Routes *)

(** where a request goes once the routes of its domain are cached *)
Definition route_of (domain path : string) (t : tables) : option AppId :=
  lookup_submappings path (route_map (bt_from_list (routes_of domain t))).

(** A route is taken when no longer one matches. *)
Lemma route_of_longest d p a ct path t :
  routes t !! (d, p) = Some (a, ct) → starts_with path p = true →
  (∀ p' r, routes t !! (d, p') = Some r → starts_with path p' = true → (String.length p' ≤ String.length p)%nat) →
  route_of d path t = Some {| app_id := a |}.
Proof.
  intros Hr Hp Hmax. unfold route_of. set (m := route_map _).
  assert (Hs : bt_sorted m) by apply bt_from_list_sorted.
  assert (Hin : (p, {| app_id := a |}) ∈ m) by (apply route_map_routes_of; eauto).
  pose proof (lookup_submappings_longest path m Hs) as Hl.
  destruct (lookup_submappings path m) as [v|]; [|by rewrite (Hl _ _ Hin) in Hp].
  f_equal. apply (longest_prefix_unique path m); [by apply bt_sorted_nodup|done|].
  exists p. split_and!; [done..|]. intros k' v' Hk Hk'.
  apply route_map_routes_of in Hk as (a' & ct' & -> & Hk). by eapply Hmax.
Qed.

Lemma route_of_none d path t :
  (∀ p r, routes t !! (d, p) = Some r → starts_with path p = false) → route_of d path t = None.
Proof.
  intros Hno. unfold route_of. set (m := route_map _).
  assert (Hs : bt_sorted m) by apply bt_from_list_sorted.
  pose proof (lookup_submappings_longest path m Hs) as Hl.
  destruct (lookup_submappings path m) as [v|]; [|done]. destruct Hl as (k & Hk & Hp & _).
  apply route_map_routes_of in Hk as (a & ct & -> & Hk). by rewrite (Hno _ _ Hk) in Hp.
Qed.

(** The routes of other domains play no part. *)
Lemma route_of_same d path t t' :
  (∀ p, routes t' !! (d, p) = routes t !! (d, p)) → route_of d path t' = route_of d path t.
Proof.
  intros Hsame. unfold route_of. set (m := route_map _). set (m' := route_map _).
  assert (Hs : bt_sorted m) by apply bt_from_list_sorted.
  assert (Hs' : bt_sorted m') by apply bt_from_list_sorted.
  assert (Hin : ∀ k v, (k, v) ∈ m ↔ (k, v) ∈ m').
  { intros k v. unfold m, m'. rewrite !route_map_routes_of. by setoid_rewrite Hsame. }
  pose proof (lookup_submappings_longest path m Hs) as Hl.
  pose proof (lookup_submappings_longest path m' Hs') as Hl'.
  destruct (lookup_submappings path m) as [v|], (lookup_submappings path m') as [v'|]; try done.
  - f_equal. apply (longest_prefix_unique path m); [by apply bt_sorted_nodup|done|].
    destruct Hl' as (k & Hk & Hp & Hmax). exists k. rewrite Hin. split_and!; [done..|].
    intros k' w Hk'%Hin. by apply (Hmax k' w).
  - destruct Hl as (k & Hk%Hin & Hp & _). by rewrite (Hl' _ _ Hk) in Hp.
  - destruct Hl' as (k & Hk%Hin & Hp & _). by rewrite (Hl _ _ Hk) in Hp.
Qed.

Lemma route_of_insert_ne d d' p x path t :
  d' ≠ d → route_of d' path (set_routes (insert (d, p) x) t) = route_of d' path t.
Proof. intros Hd. apply route_of_same. intros p'. simpl. apply lookup_insert_ne. congruence. Qed.

(** ** The commands *)

(** Steps through a command, one case per fault of each call. *)
Ltac cli_cases :=
  unfold mbind, Cli_bind, client, attempt, mret, Cli_ret;
  db_cases; cbn [map_err].

Section commands.
Context (open : string → option bytes)
        (toml_from_str : string → option AppConfig)
        (tar_single_file : string → bytes → option bytes)
        (base64_encode : bytes → string) (base64_decode : string → option bytes).
Context (env_to_json : list (string * string) → GenericResult string)
        (env_of_json : string → GenericResult (list (string * string)))
        (ns_to_json : list KvNamespaceConfig → GenericResult string)
        (ns_of_json : string → GenericResult (list KvNamespaceConfig))
        (duplicate_key : GenericError) (row_order : list bytes → list bytes).
Context (now1 now2 : Z) (rng : bytes).

Local Abbreviation do_add_app :=
  (do_add_app base64_encode env_to_json ns_to_json duplicate_key now1 now2 rng).
Local Abbreviation app_cmd :=
  (app_cmd open toml_from_str tar_single_file base64_encode base64_decode env_to_json env_of_json
     ns_to_json ns_of_json duplicate_key row_order now1 now2 rng).

(** the tables after the first and after both calls of [do_add_app] *)
Definition with_bundle (bundle : bytes) : tables → tables :=
  set_bundles (insert (base64_encode (take 16 rng)) (bundle, now1)).
Definition with_app (config : AppConfig) (je jn : string) : tables → tables :=
  set_apps (λ m,
    <[app_id (app_config_id config) :=
        {| row_bundle_id := base64_encode (take 16 rng); row_env := je; row_kv_namespaces := jn;
           row_createtime := match m !! app_id (app_config_id config) with
                             | Some old => row_createtime old
                             | None => now2
                             end |}]> m).

Lemma do_add_app_cases config bundle fs t :
  match do_add_app config bundle fs t with
  | (Ok _, _, t') =>
      ∃ je jn, env_to_json (app_env config) = Ok je ∧ ns_to_json (app_kv_namespaces config) = Ok jn ∧
        bundles t !! base64_encode (take 16 rng) = None ∧ t' = with_app config je jn (with_bundle bundle t)
  | (Err _, _, t') =>
      t' = t ∨ (bundles t !! base64_encode (take 16 rng) = None ∧ t' = with_bundle bundle t)
  end.
Proof.
  unfold Cli.do_add_app, app_bundle_put, app_metadata_put. cli_cases; auto;
    (destruct (bundles t !! base64_encode (take 16 rng)) as [x|] eqn:Eb; simpl; [by left|]);
    cli_cases; auto;
    (destruct (env_to_json (app_env config)) as [je|e] eqn:Ee; simpl; [|by right]);
    (destruct (ns_to_json (app_kv_namespaces config)) as [jn|e] eqn:En; simpl; [|by right]);
    cli_cases; auto; by exists je, jn.
Qed.

Lemma do_add_app_present config bundle fs t :
  bundles_present t → bundles_present (do_add_app config bundle fs t).2.
Proof.
  intros Ht. pose proof (do_add_app_cases config bundle fs t) as Hc.
  destruct (do_add_app config bundle fs t) as [[[u|e] fs'] t']; simpl.
  - destruct Hc as (je & jn & _ & _ & _ & ->). apply bundles_present_app; [|by apply bundles_present_insert].
    simpl. rewrite lookup_insert_eq. by eexists.
  - destruct Hc as [->|[_ ->]]; [done|by apply bundles_present_insert].
Qed.

(** Commands preserve what the database calls they are made of preserve. *)
Definition cli_keeps (P : tables → tables → Prop) {A} (m : Cli A) : Prop := ∀ fs t, P t (m fs t).2.

Definition keeps_present (t t' : tables) : Prop := bundles_present t → bundles_present t'.

#[export] Instance keeps_present_preorder : PreOrder keeps_present.
Proof. split; unfold keeps_present; [by intros t|by intros t1 t2 t3 H1 H2 H%H1%H2]. Qed.

Section cli_keeps.
Context (P : tables → tables → Prop) `{!PreOrder P}.

Lemma cli_keeps_ret {A} (a : A) : cli_keeps P (mret a).
Proof. intros fs t. reflexivity. Qed.

Lemma cli_keeps_attempt {A} (r : result CliError A) : cli_keeps P (attempt r).
Proof. intros fs t. reflexivity. Qed.

Lemma cli_keeps_client {A} (m : DB A) : keeps P m → cli_keeps P (client m).
Proof. intros Hm fs t. specialize (Hm fs t). unfold client. by destruct (m fs t) as [[r fs'] t']. Qed.

Lemma cli_keeps_bind {A B} (m : Cli A) (f : A → Cli B) :
  cli_keeps P m → (∀ a, cli_keeps P (f a)) → cli_keeps P (m ≫= f).
Proof.
  intros Hm Hf fs t. unfold mbind, Cli_bind. specialize (Hm fs t).
  destruct (m fs t) as [[[a|e] fs'] t']; [|done]. etrans; [exact Hm|]. apply Hf.
Qed.
End cli_keeps.

(** a call that at most deletes or changes rows of other tables *)
Ltac keeps_call :=
  intros fs t Ht; unfold route_mapping_list_for_domain, route_mapping_insert, route_mapping_delete_domain,
    route_mapping_delete, route_mapping_lookup, app_metadata_delete, app_metadata_get, app_bundle_get,
    worker_data_scan_keys, worker_data_get, worker_data_put, worker_data_delete in *;
  db_cases; repeat (split_match; db_cases); try done;
  first [by apply bundles_present_delete|by eapply bundles_present_same].

(** Follows the structure of a command down to its calls. *)
Ltac keeps_command :=
  lazymatch goal with
  | |- cli_keeps _ (Cli.do_add_app _ _ _ _ _ _ _ _ _) => intros fs t Ht; by apply do_add_app_present
  | |- cli_keeps _ (mbind _ _) => apply (cli_keeps_bind _); [|intros]; keeps_command
  | |- cli_keeps _ (mret _) => apply (cli_keeps_ret _)
  | |- cli_keeps _ (attempt _) => apply (cli_keeps_attempt _)
  | |- cli_keeps _ (client _) => apply cli_keeps_client; keeps_call
  | |- cli_keeps _ (match ?x with _ => _ end) => destruct x; keeps_command
  end.

(** C26. Whatever the operator does and whichever call to the database fails, every app
    keeps a bundle: a new bundle is stored before the metadata name it, and no command
    removes one. *)
Theorem commands_keep_bundles op fs t : bundles_present t → bundles_present (app_cmd op fs t).2.
Proof.
  change (bundles_present t → bundles_present (app_cmd op fs t).2) with (keeps_present t (app_cmd op fs t).2).
  revert fs t. change (cli_keeps keeps_present (app_cmd op)).
  destruct op; simpl; keeps_command.
Qed.

Context (env_json : ∀ x s, env_to_json x = Ok s → env_of_json s = Ok x)
        (ns_json : ∀ x s, ns_to_json x = Ok s → ns_of_json s = Ok x).
Local Abbreviation app_of := (app_of env_of_json ns_of_json).

(** What the proxy serves for an app after its deployment *)
Definition deployed (wc : WorkerConfiguration) (config : AppConfig) (bundle : bytes) (st : AppState) : Prop :=
  state_id st = app_config_id config ∧ state_bundle st = bundle ∧
  state_bundle_id st = base64_encode (take 16 rng) ∧ state_config st = target_config wc config.

Lemma app_of_with_bundle wc bundle t id st :
  bundles_present t → bundles t !! base64_encode (take 16 rng) = None →
  app_of wc (with_bundle bundle t) id st ↔ app_of wc t id st.
Proof.
  intros Ht Hnone. apply app_of_frame; [done|]. intros r Hr. simpl. apply lookup_insert_ne.
  intros Heq. destruct (Ht _ _ Hr) as [x Hx]. congruence.
Qed.

Lemma app_of_deployed wc config bundle je jn t id st :
  bundles_present t → bundles t !! base64_encode (take 16 rng) = None →
  env_to_json (app_env config) = Ok je → ns_to_json (app_kv_namespaces config) = Ok jn →
  app_of wc (with_app config je jn (with_bundle bundle t)) id st ↔
  if decide (id = app_config_id config) then deployed wc config bundle st else app_of wc t id st.
Proof.
  intros Ht Hnone Hje%env_json Hjn%ns_json. case_decide as Hid.
  - subst id. rewrite app_of_row. simpl. rewrite lookup_insert_eq. split.
    + intros (r & e & n & b & ct & [= <-] & He & Hn & Hb & ? & ? & ? & Hst). simpl in *.
      rewrite lookup_insert_eq in Hb. rewrite Hje in He. rewrite Hjn in Hn. simplify_eq.
      by split_and!.
    + intros (? & ? & ? & ?). eexists _, (app_env config), (app_kv_namespaces config), bundle, now1.
      split; [reflexivity|]. simpl. rewrite lookup_insert_eq. by split_and!.
  - rewrite <-(app_of_with_bundle wc bundle t id st) by done. apply app_of_frame; [|done].
    simpl. rewrite lookup_insert_ne; [done|]. destruct id, (app_config_id config). simpl in *. congruence.
Qed.

(** C25. Deploying an app switches it over as a whole: when [add-app] succeeds the proxy loads
    the new bundle with the configured environment and namespaces, and every other app
    as before; when it fails, at whichever call, all apps are as before. *)
Theorem add_app_switches config_path bundle_path text config bundle fs t :
  bundles_present t →
  read_file open config_path = Ok text → toml_from_str text = Some config →
  open bundle_path = Some bundle →
  match app_cmd (AddApp config_path bundle_path) fs t with
  | (Ok _, _, t') => ∀ wc id st, app_of wc t' id st ↔
      if decide (id = app_config_id config) then deployed wc config bundle st else app_of wc t id st
  | (Err _, _, t') => ∀ wc id st, app_of wc t' id st ↔ app_of wc t id st
  end.
Proof using env_json ns_json.
  intros Ht Hc Hp Hb. cbn [Cli.app_cmd]. unfold read_file_raw. rewrite Hc, Hb.
  unfold mbind, Cli_bind, attempt. rewrite Hp. cbn [ok_or].
  pose proof (do_add_app_cases config bundle fs t) as Hcases.
  destruct (do_add_app config bundle fs t) as [[[u|e] fs'] t']; cbn [mret Cli_ret].
  - destruct Hcases as (je & jn & ? & ? & ? & ->). intros. by apply app_of_deployed.
  - destruct Hcases as [->|[? ->]]; [done|]. intros. by apply app_of_with_bundle.
Qed.

(** A route that was added is the one requests take, unless a longer prefix matches;
    other domains are not affected, and a route that was not added changes nothing. *)
Theorem add_route_routes d p a fs t :
  match app_cmd (AddRoute d p a) fs t with
  | (Ok _, _, t') =>
      (∀ path, starts_with path p = true →
        (∀ p' r, routes t !! (d, p') = Some r → starts_with path p' = true →
                 (String.length p' ≤ String.length p)%nat) →
        route_of d path t' = Some {| app_id := a |}) ∧
      (∀ d' path, d' ≠ d → route_of d' path t' = route_of d' path t)
  | (Err _, _, t') => t' = t
  end.
Proof.
  simpl. unfold route_mapping_insert. cli_cases; try done; (split;
    [intros path Hp Hmax; eapply (route_of_longest d p a now1); simpl;
       [by rewrite lookup_insert_eq|done|];
     intros p' r Hr Hp'; apply lookup_insert_Some in Hr as [[[= <-] _]|[_ Hr]]; [done|by eapply Hmax]
    |intros d' path Hd; by apply route_of_insert_ne]).
Qed.
End commands.

(** ** A deployment *)
Module CliRun.
Definition kv : list (string * string) := [("K", "V")].
Definition env_to_json (x : list (string * string)) : GenericResult string :=
  if decide (x = kv) then Ok "env" else Err Conversion.
Definition env_of_json (s : string) : GenericResult (list (string * string)) :=
  if decide (s = "env") then Ok kv else Ok [].
Definition ns_to_json (x : list KvNamespaceConfig) : GenericResult string :=
  if decide (x = []) then Ok "ns" else Err Conversion.
Definition ns_of_json (s : string) : GenericResult (list KvNamespaceConfig) := Ok [].

Lemma env_json x s : env_to_json x = Ok s → env_of_json s = Ok x.
Proof. unfold env_to_json. case_decide as Hx; [|done]. intros [= <-]. by rewrite Hx. Qed.
Lemma ns_json x s : ns_to_json x = Ok s → ns_of_json s = Ok x.
Proof. unfold ns_to_json. by case_decide as Hx; [rewrite Hx|]. Qed.

Definition app (s : string) : AppId := {| app_id := s |}.
Definition config (b : string) : AppConfig :=
  {| app_config_id := app "x"; bundle_id := b; app_env := kv; app_kv_namespaces := [] |}.
Definition old_row : app_row := {| row_bundle_id := "old"; row_env := ""; row_kv_namespaces := ""; row_createtime := 1 |}.
Definition open (path : string) : option bytes :=
  if decide (path = "app.toml") then Some (as_bytes "id")
  else if decide (path = "app.tar") then Some [Byte.x01] else None.
Definition toml (s : string) : option AppConfig := Some (config "").
Definition rng : bytes := as_bytes "0123456789abcdefghi".
(** [x] is deployed already, [y] too *)
Definition t : tables :=
  set_routes (insert ("d", "/") ("y", 0))
    (set_bundles (insert "old" ([Byte.x02], 0))
       (set_apps (insert "y" old_row) (set_apps (insert "x" old_row) no_tables))).
Definition cmd (op : AppCmd) : Cli Printed :=
  app_cmd open toml (λ _, Some) of_bytes (λ s, Some (as_bytes s)) env_to_json env_of_json ns_to_json ns_of_json
    (Database "duplicate") id 5 6 rng op.
Definition wc : WorkerConfiguration :=
  {| executor := {| max_ab_memory_mb := 1; max_time_ms := 1; max_io_concurrency := 1; max_io_per_request := 1 |};
     fetch_service := "f"; env := []; kv_namespaces := [] |}.
Definition new_state : AppState :=
  {| state_id := app "x"; state_config := target_config wc (config ""); state_bundle_id := "0123456789abcdef";
     state_bundle := [Byte.x01]; ready_instances := 1; start_time := 0 |}.

Lemma present : bundles_present t.
Proof.
  intros i r Hi. simpl in Hi.
  assert (Hr : row_bundle_id r = "old").
  { apply lookup_insert_Some in Hi as [[_ <-]|[_ Hi]]; [done|].
    apply lookup_insert_Some in Hi as [[_ <-]|[_ Hi]]; [done|]. by rewrite lookup_empty in Hi. }
  rewrite Hr. by eexists.
Qed.
End CliRun.

Example commands_keep_bundles_holds :
  bundles_present CliRun.t ∧ bundles_present (CliRun.cmd (AddApp "app.toml" "app.tar") [] CliRun.t).2.
Proof.
  split; [exact CliRun.present|].
  exact (commands_keep_bundles CliRun.open CliRun.toml (λ _, Some) of_bytes (λ s, Some (as_bytes s))
           CliRun.env_to_json CliRun.env_of_json CliRun.ns_to_json CliRun.ns_of_json (Database "duplicate") id 5 6
           CliRun.rng (AddApp "app.toml" "app.tar") [] CliRun.t CliRun.present).
Defined.

(** The deployment goes through; with a fault at the metadata the old app stays. *)
Example add_app_switches_holds :
  let load t := app_of CliRun.env_of_json CliRun.ns_of_json CliRun.wc t (CliRun.app "x") CliRun.new_state in
  let run fs := CliRun.cmd (AddApp "app.toml" "app.tar") fs CliRun.t in
  (run []).1.1 = Ok PrintOK ∧ load (run []).2 ∧
  (run [None; None; None; Some TryAgain]).1.1 = Err (DataClientError TryAgain) ∧
  ¬ load (run [None; None; None; Some TryAgain]).2.
Proof.
  intros load run.
  assert (Hs : ∀ fs, match run fs with
                     | (Ok _, _, t') => load t' ↔ deployed of_bytes CliRun.rng CliRun.wc (CliRun.config "") [Byte.x01]
                                                    CliRun.new_state
                     | (Err _, _, t') => load t' ↔ load CliRun.t
                     end).
  { intros fs.
    pose proof (add_app_switches CliRun.open CliRun.toml (λ _, Some) of_bytes (λ s, Some (as_bytes s))
      CliRun.env_to_json CliRun.env_of_json CliRun.ns_to_json CliRun.ns_of_json (Database "duplicate") id 5 6
      CliRun.rng CliRun.env_json CliRun.ns_json "app.toml" "app.tar" "id" (CliRun.config "") [Byte.x01] fs CliRun.t
      CliRun.present eq_refl eq_refl eq_refl) as Hadd.
    change (app_cmd _ _ _ _ _ _ _ _ _ _ _ _ _ _ _ fs CliRun.t) with (run fs) in Hadd.
    destruct (run fs) as [[[p|e] fs'] t']; apply (Hadd CliRun.wc (CliRun.app "x") CliRun.new_state). }
  split; [reflexivity|]. split; [|split; [reflexivity|]].
  - assert (Hr : (run []).1.1 = Ok PrintOK) by reflexivity. specialize (Hs []).
    destruct (run []) as [[[p|e] fs'] t']; [|discriminate Hr]. apply Hs. by split_and!.
  - assert (Hr : (run [None; None; None; Some TryAgain]).1.1 = Err (DataClientError TryAgain)) by reflexivity.
    specialize (Hs [None; None; None; Some TryAgain]).
    destruct (run [None; None; None; Some TryAgain]) as [[[p|e] fs'] t']; [discriminate Hr|].
    intros (r & en & n & b & ct & Hrow & _ & _ & _ & _ & _ & Hid & _)%Hs%app_of_row.
    vm_compute in Hrow. injection Hrow as <-. vm_compute in Hid. discriminate.
Defined.
