(* ===== verification/ControlPlane.v ===== *)
(** * The control plane: [rusty-workers-cp/src/main.rs], [types.rs]

    An HTTP service for the route table.  A handler reads the whole body, decodes it and
    makes one call of the data client; what fails is answered by the service function
    with status 500.  [serde_json] and the [Debug] text of an error are parameters. *)
From Stdlib Require Import ZArith Lia.
From S2P Require Import Prelude BTree Types Db DbFacts Cli CliFacts.
Local Open Scope Z_scope.

Definition MAX_REQUEST_BODY_SIZE : Z := 8 * 1024 * 1024.

Record ListRoutesOpt := { list_domain : string }.
Record AddRouteOpt := { add_domain : string; add_path : string; add_appid : string }.
Record DeleteDomainOpt := { delete_domain : string }.
Record DeleteRouteOpt := { route_domain : string; route_path : string }.

(** The sources of the [anyhow::Error] of a request *)
Inductive CpError :=
  | RequestBodyTooLarge
  | BodyError (e : string)
  | BadJson
  | CpDataClientError (e : GenericError).

Record CpRequest := { cp_path : string; cp_body : list (result string bytes) }.
Record CpResponse := { cp_status : Z; content_type : option string; cp_response_body : string }.

(** ** The body of a request *)

(** the closure given to [for_each] *)
Definition body_chunk (st : bytes * result CpError unit) (chunk : result string bytes)
    : bytes * result CpError unit :=
  let '(full_body, body_error) := st in
  match chunk with
  | Ok x =>
      if decide (MAX_REQUEST_BODY_SIZE < Z.of_nat (length full_body) + Z.of_nat (length x))
      then (full_body, Err RequestBodyTooLarge)
      else (full_body ++ x, body_error)
  | Err e => (full_body, Err (BodyError e))
  end.

Definition read_request_body (chunks : list (result string bytes)) : result CpError bytes :=
  let '(full_body, body_error) := foldl body_chunk ([], Ok tt) chunks in
  body_error ;; Ok full_body.

(** ** The handlers *)
Definition Cp (A : Type) : Type := faults → tables → result CpError A * faults * tables.

#[export] Instance Cp_ret : MRet Cp := λ A a fs t, (Ok a, fs, t).
#[export] Instance Cp_bind : MBind Cp := λ A B f m fs t,
  match m fs t with
  | (Ok a, fs', t') => f a fs' t'
  | (Err e, fs', t') => (Err e, fs', t')
  end.

Definition kv {A} (m : DB A) : Cp A := λ fs t,
  let '(r, fs', t') := m fs t in (map_err CpDataClientError r, fs', t').
Definition cp_try {A} (r : result CpError A) : Cp A := λ fs t, (r, fs, t).

Section cp.
Context (decode_list : bytes → option ListRoutesOpt) (decode_add : bytes → option AddRouteOpt)
        (decode_delete_domain : bytes → option DeleteDomainOpt)
        (decode_delete_route : bytes → option DeleteRouteOpt).
Context (routes_to_json : list (string * string) → string) (unit_to_json : string).
Context (debug : CpError → string) (now : Z).

Definition mk_json_response (body : string) : CpResponse :=
  {| cp_status := 200; content_type := Some "application/json"; cp_response_body := body |}.

Definition handle (request : CpRequest) : Cp CpResponse :=
  req_body ← cp_try (read_request_body (cp_body request));
  if decide (cp_path request = "/v1/list_routes") then
    opt ← cp_try (ok_or (decode_list req_body) BadJson);
    routes ← kv (route_mapping_list_for_domain (list_domain opt));
    mret (mk_json_response (routes_to_json routes))
  else if decide (cp_path request = "/v1/add_route") then
    opt ← cp_try (ok_or (decode_add req_body) BadJson);
    kv (route_mapping_insert now (add_domain opt) (add_path opt) (add_appid opt)) ;;
    mret (mk_json_response unit_to_json)
  else if decide (cp_path request = "/v1/delete_domain") then
    opt ← cp_try (ok_or (decode_delete_domain req_body) BadJson);
    kv (route_mapping_delete_domain (delete_domain opt)) ;;
    mret (mk_json_response unit_to_json)
  else if decide (cp_path request = "/v1/delete_route") then
    opt ← cp_try (ok_or (decode_delete_route req_body) BadJson);
    kv (route_mapping_delete (route_domain opt) (route_path opt)) ;;
    mret (mk_json_response unit_to_json)
  else mret {| cp_status := 404; content_type := None; cp_response_body := "not found" |}.

(** The service function of [main] *)
Definition service (request : CpRequest) (fs : faults) (t : tables) : CpResponse * faults * tables :=
  match handle request fs t with
  | (Ok res, fs, t) => (res, fs, t)
  | (Err e, fs, t) => ({| cp_status := 500; content_type := None; cp_response_body := debug e |}, fs, t)
  end.
End cp.

(** ** Bodies *)
Lemma body_chunk_bound chunks st :
  Z.of_nat (length st.1) <= MAX_REQUEST_BODY_SIZE →
  Z.of_nat (length (foldl body_chunk st chunks).1) <= MAX_REQUEST_BODY_SIZE.
Proof.
  revert st. induction chunks as [|[x|e] chunks IH]; intros [b r] Hb; simpl in *; [done| |by apply IH].
  case_decide; apply IH; simpl; [done|rewrite length_app; lia].
Qed.

(** An error stays, whatever comes after it. *)
Lemma body_chunk_error chunks st : is_ok st.2 = false → is_ok (foldl body_chunk st chunks).2 = false.
Proof.
  revert st. induction chunks as [|[x|e] chunks IH]; intros [b r] Hr; simpl in *; [done| |by apply IH].
  case_decide; by apply IH.
Qed.

Lemma body_chunks_Ok chunks b b' :
  Z.of_nat (length b) <= MAX_REQUEST_BODY_SIZE →
  foldl body_chunk (b, Ok tt) chunks = (b', Ok tt) ↔
  ∃ xs, chunks = Ok <$> xs ∧ b' = b ++ concat xs ∧ Z.of_nat (length b') <= MAX_REQUEST_BODY_SIZE.
Proof.
  revert b. induction chunks as [|[x|e] chunks IH]; intros b Hb; simpl.
  - split; [intros [= <-]; exists []; simpl; rewrite app_nil_r; by split_and!|].
    intros ([|] & Hxs & -> & _); simpl; [by rewrite app_nil_r|done].
  - case_decide as Hlt.
    + split.
      * intros He. pose proof (body_chunk_error chunks (b, Err RequestBodyTooLarge) eq_refl) as Hf.
        by rewrite He in Hf.
      * intros ([|y xs] & Hxs & -> & Hlen); [done|]. injection Hxs as -> ->.
        simpl in Hlen. rewrite !length_app in Hlen. lia.
    + rewrite IH by (rewrite length_app; lia). split.
      * intros (xs & -> & -> & Hlen). exists (x :: xs). simpl.
        rewrite app_assoc. by split_and!.
      * intros ([|y xs] & Hxs & -> & Hlen); [done|]. injection Hxs as -> ->. exists xs.
        simpl in *. rewrite app_assoc in *. by split_and!.
  - split; [|by intros ([|] & ? & _)]. intros He.
    pose proof (body_chunk_error chunks (b, Err (BodyError e)) eq_refl) as Hf. by rewrite He in Hf.
Qed.

(** A body is accepted exactly when all its chunks arrive and fit the limit together;
    the buffer never outgrows it, although reading goes on after an error. *)
Theorem read_request_body_spec chunks b :
  (read_request_body chunks = Ok b ↔
     ∃ xs, chunks = Ok <$> xs ∧ b = concat xs ∧ Z.of_nat (length b) <= MAX_REQUEST_BODY_SIZE) ∧
  ∀ n, Z.of_nat (length (foldl body_chunk ([], Ok tt) (take n chunks)).1) <= MAX_REQUEST_BODY_SIZE.
Proof.
  split; [|intros n; by apply body_chunk_bound].
  pose proof (body_chunks_Ok chunks [] b) as Hb. simpl in Hb. rewrite <-Hb by done.
  unfold read_request_body. destruct (foldl _ _ chunks) as [b' [[]|e]]; simpl; [|by split].
  split; intros; by simplify_eq.
Qed.

(** ** The two ways to manage routes agree *)

(** A handler and a command with the same effect, where [200] stands for success *)
Definition agrees (x : result CpError CpResponse * faults * tables) (y : result CliError Printed * faults * tables)
    : Prop :=
  x.1.2 = y.1.2 ∧ x.2 = y.2 ∧
  match x.1.1 with
  | Ok res => cp_status res = 200 ∧ is_ok y.1.1 = true
  | Err _ => is_ok y.1.1 = false
  end.

Lemma cp_try_bind {A B} (r : result CpError A) (f : A → Cp B) fs t :
  (cp_try r ≫= f) fs t = match r with Ok a => f a fs t | Err e => (Err e, fs, t) end.
Proof. by destruct r. Qed.

Lemma kv_agrees {A} (m : DB A) (f : A → CpResponse) (g : A → Printed) fs t :
  (∀ a, cp_status (f a) = 200) →
  agrees ((kv m ≫= λ a, mret (f a)) fs t) ((client m ≫= λ a, mret (g a)) fs t).
Proof.
  intros Hf. unfold agrees, mbind, Cp_bind, Cli_bind, kv, client.
  by destruct (m fs t) as [[[a|e] fs'] t']; simpl; auto.
Qed.

Section agreement.
Context (decode_list : bytes → option ListRoutesOpt) (decode_add : bytes → option AddRouteOpt)
        (decode_delete_domain : bytes → option DeleteDomainOpt)
        (decode_delete_route : bytes → option DeleteRouteOpt).
Context (routes_to_json : list (string * string) → string) (unit_to_json : string).
Context (debug : CpError → string) (now : Z).
(** the rest of the command line's world *)
Context (open : string → option bytes)
        (toml_from_str : string → option AppConfig)
        (tar_single_file : string → bytes → option bytes)
        (base64_encode : bytes → string) (base64_decode : string → option bytes)
        (env_to_json : list (string * string) → GenericResult string)
        (env_of_json : string → GenericResult (list (string * string)))
        (ns_to_json : list KvNamespaceConfig → GenericResult string)
        (ns_of_json : string → GenericResult (list KvNamespaceConfig))
        (duplicate_key : GenericError) (row_order : list bytes → list bytes) (now2 : Z) (rng : bytes).

Local Abbreviation service :=
  (service decode_list decode_add decode_delete_domain decode_delete_route routes_to_json unit_to_json debug now).
Local Abbreviation app_cmd :=
  (app_cmd open toml_from_str tar_single_file base64_encode base64_decode env_to_json env_of_json
     ns_to_json ns_of_json duplicate_key row_order now now2 rng).

(** The command a request stands for, if its path is known and its body decodes *)
Definition command (request : CpRequest) : option AppCmd :=
  b ← ok (read_request_body (cp_body request));
  if decide (cp_path request = "/v1/list_routes") then
    o ← decode_list b; Some (ListRoutes (list_domain o))
  else if decide (cp_path request = "/v1/add_route") then
    o ← decode_add b; Some (AddRoute (add_domain o) (add_path o) (add_appid o))
  else if decide (cp_path request = "/v1/delete_domain") then
    o ← decode_delete_domain b; Some (DeleteDomain (delete_domain o))
  else if decide (cp_path request = "/v1/delete_route") then
    o ← decode_delete_route b; Some (DeleteRoute (route_domain o) (route_path o))
  else None.

Local Abbreviation handle :=
  (handle decode_list decode_add decode_delete_domain decode_delete_route routes_to_json unit_to_json now).

Lemma handle_command request fs t :
  match command request with
  | Some op => agrees (handle request fs t) (app_cmd op fs t)
  | None => (handle request fs t).1.2 = fs ∧ (handle request fs t).2 = t ∧
            ∀ res, (handle request fs t).1.1 = Ok res → cp_status res = 404
  end.
Proof.
  unfold ControlPlane.handle, command. rewrite cp_try_bind.
  destruct (read_request_body (cp_body request)) as [b|e]; simpl; [|done].
  repeat case_decide; rewrite ?cp_try_bind; simpl; [..|by split_and!; [..|intros ? [= <-]]].
  1: destruct (decode_list b) as [o|]; simpl; [|done].
  2: destruct (decode_add b) as [o|]; simpl; [|done].
  3: destruct (decode_delete_domain b) as [o|]; simpl; [|done].
  4: destruct (decode_delete_route b) as [o|]; simpl; [|done].
  all: by apply kv_agrees.
Qed.

(** C27. The control plane and the command line are the same interface to the routes: a
    request has exactly the effect of its command and succeeds with it, on every
    outcome of the database; a request that is no command changes nothing and is not
    answered with success. *)
Theorem service_agrees_with_cli request fs t :
  let '(res, fs', t') := service request fs t in
  match command request with
  | Some op =>
      let '(r, fsc, tc) := app_cmd op fs t in
      fs' = fsc ∧ t' = tc ∧ cp_status res = if is_ok r then 200 else 500
  | None => fs' = fs ∧ t' = t ∧ cp_status res ≠ 200
  end.
Proof.
  pose proof (handle_command request fs t) as Hc. unfold ControlPlane.service.
  destruct (handle request fs t) as [[r fs1] t1].
  destruct (command request) as [op|].
  - destruct (app_cmd op fs t) as [[r' fs2] t2], Hc as (H1 & H2 & H3). simpl in *.
    destruct r as [res|e]; simpl; [destruct H3 as [-> ->]|rewrite H3]; done.
  - destruct Hc as (H1 & H2 & H3). simpl in *. destruct r as [res|e]; simpl; [|done].
    rewrite (H3 res eq_refl). done.
Qed.
End agreement.
