(* ===== verification/Playground.v ===== *)
(** * The playground API: [rusty-workers-playground-api/src/main.rs], [types.rs]

    Routes, apps, namespaces and logs over HTTP, for callers with a token.  The file is
    written for a data client of an earlier commit, whose methods the client of [Db] does
    not have or has with other types, so nothing is assumed about it: the model is the
    sequence of calls that a request makes, whatever is answered to each.  [serde_json],
    base64 and the comparison of [ring] are parameters. *)
From Stdlib Require Import ZArith Lia.
From S2P Require Import Prelude BTree Types ControlPlane.
Local Open Scope Z_scope.

(** ** The calls to the data client *)

(** The methods the handlers call, with what they give to them *)
Inductive KvCall :=
  | RouteMappingListForDomain (domain : string)
  | RouteMappingInsert (domain path appid : string)
  | RouteMappingDeleteDomain (domain : string)
  | RouteMappingDelete (domain path : string)
  | AppMetadataGet (id : string)
  | AppMetadataPut (config : AppConfig)
  | AppMetadataDelete (id : string)
  | AppBundlePut (id value : bytes)
  | AppBundleDelete (id : bytes)
  | WorkerDataScanKeys (namespace start : bytes) (end_ : option bytes) (limit : Z)
  | WorkerDataDelete (namespace key : bytes)
  | LogRange (topic : string) (since until : Z).

(** What the handlers take from the answers.  [LogRange] gives the entries of the range in
    the order in which the callback gets them. *)
Definition answer (c : KvCall) : Type :=
  match c with
  | RouteMappingListForDomain _ | LogRange _ _ _ => list (string * string)
  | AppMetadataGet _ => option bytes
  | WorkerDataScanKeys _ _ _ _ => list bytes
  | _ => unit
  end.

(** The data client: its answer to a call, which may depend on all calls before. *)
Definition KvClient : Type := list KvCall → ∀ c, GenericResult (answer c).

(** ** Requests *)
Record AddAppOpt := { add_config : AppConfig; bundle_b64 : string }.
Record DeleteAppOpt := { delete_appid : string }.
Record LogsOpt := { logs_appid : string; since_secs : Z; limit : Z }.
Record DeleteNamespaceOpt := { nsid : string; batch_size : Z }.

Record PlaygroundRequest := { req_path : string; x_token : option bytes; req_body : list (result string bytes) }.

(** The sources of the [anyhow::Error] of a request; a panic ends its task. *)
Inductive PlaygroundError :=
  | BadAuthToken
  | BadId128
  | NotText
  | BadBody (e : ControlPlane.CpError)
  | BadJson
  | BadBase64
  | ClientError (e : GenericError)
  | Panic.

Definition with_bundle (config : AppConfig) (id : string) : AppConfig :=
  {| app_config_id := app_config_id config; bundle_id := id; app_env := app_env config;
     app_kv_namespaces := app_kv_namespaces config |}.

(** [SystemTime] less a number of seconds, in nanoseconds; the seconds are an [i64]. *)
Definition time_sub (now secs : Z) : option Z :=
  if decide (secs < 2 ^ 63 ∧ - 2 ^ 63 <= now / 1000000000 - secs) then Some (now - secs * 1000000000) else None.

(** The callback of [log_range], run until it says stop *)
Fixpoint collect_items (limit : Z) (items entries : list (string * string)) : list (string * string) :=
  match entries with
  | [] => items
  | entry :: entries =>
      let items := items ++ [entry] in
      if decide (limit <= Z.of_nat (length items)) then items else collect_items limit items entries
  end.

(** ** The monad of a request: the client and the calls made so far *)
Definition Pg (A : Type) : Type := KvClient → list KvCall → result PlaygroundError A * list KvCall.
#[export] Instance Pg_ret : MRet Pg := λ A a K made, (Ok a, made).
#[export] Instance Pg_bind : MBind Pg := λ A B f m K made,
  match m K made with (Ok a, made') => f a K made' | (Err e, made') => (Err e, made') end.
Definition pg_try {A} (r : result PlaygroundError A) : Pg A := λ K made, (r, made).
Definition call (c : KvCall) : Pg (answer c) := λ K made, (map_err ClientError (K made c), made ++ [c]).

Lemma Pg_bind_eq {A B} (m : Pg A) (f : A → Pg B) K made :
  (m ≫= f) K made = match m K made with (Ok a, made') => f a K made' | (Err e, made') => (Err e, made') end.
Proof. done. Qed.

(** ** A program makes its calls in order and stops at the first that fails. *)
Fixpoint all_ok (K : KvClient) (made calls : list KvCall) : Prop :=
  match calls with
  | [] => True
  | c :: calls => is_ok (K made c) = true ∧ all_ok K (made ++ [c]) calls
  end.

(** After [made]: the calls made are a beginning of [plan], all of it on success, and only
    the last one may have failed, which is then the result. *)
Record runs {A} (K : KvClient) (made plan : list KvCall) (out : result PlaygroundError A * list KvCall) : Prop := {
  runs_calls : ∃ calls, out.2 = made ++ calls ∧ calls `prefix_of` plan ∧
    (is_ok out.1 = true → calls = plan ∧ all_ok K made calls) ∧
    (all_ok K made calls ∨ ∃ before c e, calls = before ++ [c] ∧ all_ok K made before ∧
       K (made ++ before) c = Err e ∧ out.1 = Err (ClientError e));
}.

Lemma all_ok_app K made l k : all_ok K made l → all_ok K (made ++ l) k → all_ok K made (l ++ k).
Proof.
  revert made. induction l as [|c l IH]; intros made; simpl; [by rewrite app_nil_r|].
  intros [Hc Hl] Hk. split; [done|]. apply IH; [done|]. by rewrite <-app_assoc.
Qed.

Lemma all_ok_failed K made before c after :
  is_ok (K (made ++ before) c) = false → ¬ all_ok K made (before ++ c :: after).
Proof.
  revert made. induction before as [|x before IH]; intros made Hc; simpl.
  - rewrite app_nil_r in Hc. intros [Hok _]. by rewrite Hc in Hok.
  - intros [_ Hok]. eapply (IH (made ++ [x])); [|exact Hok]. by rewrite <-app_assoc.
Qed.

Lemma runs_failed {A} K plan (out : result PlaygroundError A * list KvCall) before c after :
  runs K [] plan out → out.2 = before ++ c :: after → is_ok (K before c) = false →
  after = [] ∧ ∃ e, out.1 = Err (ClientError e).
Proof.
  intros [(calls & -> & _ & _ & Hf)] Hcalls Hc. simpl in Hcalls. subst calls.
  destruct Hf as [Hok|(b & c' & e & Heq & Hok & He & Hr)]; [by apply all_ok_failed in Hok|].
  destruct after as [|x after _] using rev_ind; [split; [done|by exists e]|].
  rewrite app_comm_cons, app_assoc in Heq. apply app_inj_tail in Heq as [<- _]. by apply all_ok_failed in Hok.
Qed.

Lemma runs_ret {A} K made (a : A) : runs K made [] ((mret a : Pg A) K made).
Proof. split. exists []. rewrite app_nil_r. naive_solver. Qed.

Lemma runs_err {A} K made plan (e : PlaygroundError) : runs (A := A) K made plan (Err e, made).
Proof. split. exists []. rewrite app_nil_r. split_and!; [done|apply prefix_nil|done|by left]. Qed.

Lemma runs_call K made c : runs K made [c] (call c K made).
Proof.
  split. exists [c]. split; [done|]. split; [done|]. unfold call. simpl. destruct (K made c) as [a|e] eqn:E; simpl.
  - split; [done|]. by left.
  - split; [done|]. right. exists [], c, e. by rewrite app_nil_r.
Qed.

Lemma runs_bind {A B} K made plan1 plan2 (m : Pg A) (f : A → Pg B) :
  runs K made plan1 (m K made) →
  (∀ a made', m K made = (Ok a, made') → runs K made' plan2 (f a K made')) →
  runs K made (plan1 ++ plan2) ((m ≫= f) K made).
Proof.
  intros [(l & Hm & Hp & Hok & Hfail)] Hf. rewrite Pg_bind_eq. destruct (m K made) as [[a|e] made'] eqn:E; simpl in *; subst made'.
  - destruct (Hok eq_refl) as [-> Hall]. destruct (Hf a _ eq_refl) as [(k & Hk & Hkp & Hkok & Hkf)].
    destruct (f a K (made ++ plan1)) as [r made']; simpl in *; subst made'.
    split. exists (plan1 ++ k). split; [by rewrite app_assoc|]. split; [by apply prefix_app|]. split.
    + intros Hr. destruct (Hkok Hr) as [-> Hk']. split; [done|]. by apply all_ok_app.
    + destruct Hkf as [Hk'|(before & c & e & -> & Hb & He & Hr)]; [left; by apply all_ok_app|right].
      exists (plan1 ++ before), c, e. rewrite <-app_assoc, (app_assoc made). split_and!; [done|by apply all_ok_app|done..].
  - split. exists l. split; [done|]. split; [by apply prefix_app_r|]. split; [done|].
    destruct Hfail as [?|(before & c & e' & ? & ? & ? & ?)]; [by left|right]. simplify_eq. by exists before, c, e'.
Qed.

Lemma runs_try {A B} K made plan (o : option A) e (f : A → Pg B) :
  (∀ a, o = Some a → runs K made plan (f a K made)) → runs K made plan ((pg_try (ok_or o e) ≫= f : Pg B) K made).
Proof. intros Hf. rewrite Pg_bind_eq. destruct o; simpl; [by apply Hf|apply runs_err]. Qed.

Ltac runs_call := lazymatch goal with |- runs ?K ?m [?c] _ => exact (runs_call K m c) end.
Ltac runs_last :=
  lazymatch goal with |- runs ?K ?m [?c] _ =>
    apply (runs_bind K m [c] []); [runs_call|intros; apply runs_ret] end.

(** ** The handlers *)
Section playground.
Context (base64_encode : bytes → string) (base64_decode : string → option bytes).
Context (config_from_json : bytes → option AppConfig).
Context (decode_list : bytes → option ListRoutesOpt) (decode_add : bytes → option AddRouteOpt)
        (decode_delete_domain : bytes → option DeleteDomainOpt) (decode_delete_route : bytes → option DeleteRouteOpt)
        (decode_add_app : bytes → option AddAppOpt) (decode_delete_app : bytes → option DeleteAppOpt)
        (decode_delete_namespace : bytes → option DeleteNamespaceOpt) (decode_logs : bytes → option LogsOpt).
Context (routes_to_json : list (string * string) → string) (unit_to_json : string) (len_to_json : nat → string)
        (items_to_json : list (string * string) → string).
(** [HeaderValue::to_str], the comparison of tokens, the text of an error, the clock and
    the bytes of [thread_rng] *)
Context (to_str : bytes → option string) (slices_are_equal : bytes → bytes → bool).
Context (debug : PlaygroundError → string) (now : Z) (rng : bytes).
Context (auth_token : bytes).

Local Abbreviation decode_id128 := (decode_id128 base64_decode).

Definition cleanup_previous_app (appid : string) : Pg unit :=
  prev_md ← call (AppMetadataGet appid);
  match prev_md ≫= config_from_json with
  | Some prev_config =>
      id ← pg_try (ok_or (decode_id128 (bundle_id prev_config)) BadId128);
      call (AppBundleDelete id)
  | None => mret tt
  end.

Definition list_routes (body : bytes) : Pg CpResponse :=
  opt ← pg_try (ok_or (decode_list body) BadJson);
  routes ← call (RouteMappingListForDomain (list_domain opt));
  mret (mk_json_response (routes_to_json routes)).

Definition add_route (body : bytes) : Pg CpResponse :=
  opt ← pg_try (ok_or (decode_add body) BadJson);
  call (RouteMappingInsert (add_domain opt) (add_path opt) (add_appid opt)) ;;
  mret (mk_json_response unit_to_json).

Definition delete_domain (body : bytes) : Pg CpResponse :=
  opt ← pg_try (ok_or (decode_delete_domain body) BadJson);
  call (RouteMappingDeleteDomain (ControlPlane.delete_domain opt)) ;;
  mret (mk_json_response unit_to_json).

Definition delete_route (body : bytes) : Pg CpResponse :=
  opt ← pg_try (ok_or (decode_delete_route body) BadJson);
  call (RouteMappingDelete (ControlPlane.route_domain opt) (route_path opt)) ;;
  mret (mk_json_response unit_to_json).

Definition add_app (body : bytes) : Pg CpResponse :=
  opt ← pg_try (ok_or (decode_add_app body) BadJson);
  let config := add_config opt in
  bundle ← pg_try (ok_or (base64_decode (bundle_b64 opt)) BadBase64);
  cleanup_previous_app (app_id (app_config_id config)) ;;
  let id := take 16 rng in
  call (AppBundlePut id bundle) ;;
  let config := with_bundle config (encode_id128 base64_encode id) in
  call (AppMetadataPut config) ;;
  mret (mk_json_response unit_to_json).

Definition delete_app (body : bytes) : Pg CpResponse :=
  opt ← pg_try (ok_or (decode_delete_app body) BadJson);
  cleanup_previous_app (delete_appid opt) ;;
  call (AppMetadataDelete (delete_appid opt)) ;;
  mret (mk_json_response unit_to_json).

Fixpoint delete_keys (namespace : bytes) (keys : list bytes) : Pg unit :=
  match keys with
  | [] => mret tt
  | k :: keys => call (WorkerDataDelete namespace k) ;; delete_keys namespace keys
  end.

Definition delete_namespace (body : bytes) : Pg CpResponse :=
  opt ← pg_try (ok_or (decode_delete_namespace body) BadJson);
  namespace ← pg_try (ok_or (decode_id128 (nsid opt)) BadId128);
  keys ← call (WorkerDataScanKeys namespace [] None (batch_size opt));
  delete_keys namespace keys ;;
  mret (mk_json_response (len_to_json (length keys))).

Definition logs (body : bytes) : Pg CpResponse :=
  opt ← pg_try (ok_or (decode_logs body) BadJson);
  since ← pg_try (ok_or (time_sub now (since_secs opt)) Panic);
  entries ← call (LogRange (String.append "app-" (logs_appid opt)) since now);
  mret (mk_json_response (items_to_json (collect_items (limit opt) [] entries))).

(** The check of the token *)
Definition authorize (request : PlaygroundRequest) : result PlaygroundError unit :=
  header ← ok_or (x_token request) BadAuthToken;
  text ← ok_or (to_str header) NotText;
  token ← ok_or (decode_id128 text) BadId128;
  if slices_are_equal token auth_token then Ok tt else Err BadAuthToken.

Definition handle (request : PlaygroundRequest) : Pg CpResponse :=
  pg_try (authorize request) ;;
  body ← pg_try (map_err BadBody (read_request_body (req_body request)));
  if decide (req_path request = "/v1/list_routes") then list_routes body
  else if decide (req_path request = "/v1/add_route") then add_route body
  else if decide (req_path request = "/v1/delete_domain") then delete_domain body
  else if decide (req_path request = "/v1/delete_route") then delete_route body
  else if decide (req_path request = "/v1/add_app") then add_app body
  else if decide (req_path request = "/v1/delete_app") then delete_app body
  else if decide (req_path request = "/v1/delete_namespace") then delete_namespace body
  else if decide (req_path request = "/v1/logs") then logs body
  else mret {| cp_status := 404; content_type := None; cp_response_body := "not found" |}.

(** The service function of [main]: no answer when the task has panicked.  The calls are
    all that the request does. *)
Definition reply (r : result PlaygroundError CpResponse) : option CpResponse :=
  match r with
  | Ok res => Some res
  | Err Panic => None
  | Err e => Some {| cp_status := 500; content_type := None; cp_response_body := debug e |}
  end.
Definition service (K : KvClient) (request : PlaygroundRequest) : option CpResponse * list KvCall :=
  let '(r, made) := handle request K [] in (reply r, made).

(** ** The calls of a request

    All calls that a request makes when none of them fails *)
Definition cleanup_calls (K : KvClient) (a : string) : list KvCall :=
  AppMetadataGet a ::
  match K [] (AppMetadataGet a) with
  | Ok prev_md =>
      match prev_md ≫= config_from_json with
      | Some prev => match decode_id128 (bundle_id prev) with Some b => [AppBundleDelete b] | None => [] end
      | None => []
      end
  | Err _ => []
  end.

Definition planned (K : KvClient) (path : string) (body : bytes) : list KvCall :=
  default [] (
    if decide (path = "/v1/list_routes") then
      opt ← decode_list body; Some [RouteMappingListForDomain (list_domain opt)]
    else if decide (path = "/v1/add_route") then
      opt ← decode_add body; Some [RouteMappingInsert (add_domain opt) (add_path opt) (add_appid opt)]
    else if decide (path = "/v1/delete_domain") then
      opt ← decode_delete_domain body; Some [RouteMappingDeleteDomain (ControlPlane.delete_domain opt)]
    else if decide (path = "/v1/delete_route") then
      opt ← decode_delete_route body; Some [RouteMappingDelete (ControlPlane.route_domain opt) (route_path opt)]
    else if decide (path = "/v1/add_app") then
      opt ← decode_add_app body;
      bundle ← base64_decode (bundle_b64 opt);
      Some (cleanup_calls K (app_id (app_config_id (add_config opt))) ++
            [AppBundlePut (take 16 rng) bundle;
             AppMetadataPut (with_bundle (add_config opt) (encode_id128 base64_encode (take 16 rng)))])
    else if decide (path = "/v1/delete_app") then
      opt ← decode_delete_app body;
      Some (cleanup_calls K (delete_appid opt) ++ [AppMetadataDelete (delete_appid opt)])
    else if decide (path = "/v1/delete_namespace") then
      opt ← decode_delete_namespace body;
      namespace ← decode_id128 (nsid opt);
      let scan := WorkerDataScanKeys namespace [] None (batch_size opt) in
      Some (scan :: match K [] scan with Ok keys => WorkerDataDelete namespace <$> keys | Err _ => [] end)
    else if decide (path = "/v1/logs") then
      opt ← decode_logs body;
      since ← time_sub now (since_secs opt);
      Some [LogRange (String.append "app-" (logs_appid opt)) since now]
    else None).

Lemma runs_cleanup K a : runs K [] (cleanup_calls K a) (cleanup_previous_app a K []).
Proof.
  unfold cleanup_previous_app, cleanup_calls. apply (runs_bind K [] [_]); [runs_call|].
  intros prev made'. unfold call. destruct (K [] (AppMetadataGet a)) as [md|e]; [|done]. intros [= <- <-].
  destruct (md ≫= config_from_json) as [config|]; [|apply runs_ret].
  apply runs_try. intros b ->. runs_call.
Qed.

Lemma runs_delete_keys K made ns keys : runs K made (WorkerDataDelete ns <$> keys) (delete_keys ns keys K made).
Proof.
  revert made. induction keys as [|k keys IH]; intros made; simpl; [apply runs_ret|].
  apply (runs_bind K made [_]); [runs_call|]. intros. apply IH.
Qed.

Lemma runs_handle K request body :
  authorize request = Ok tt → read_request_body (req_body request) = Ok body →
  runs K [] (planned K (req_path request) body) (handle request K []).
Proof.
  intros Ha Hb. unfold handle. rewrite Pg_bind_eq, Ha. simpl. rewrite Pg_bind_eq, Hb. simpl. unfold planned.
  repeat case_decide; try apply runs_ret;
    (match goal with |- runs _ _ (default [] (?d ≫= _)) (?h _ _ _) => unfold h; destruct d as [opt|]; [|apply runs_err] end);
    rewrite Pg_bind_eq; simpl; try runs_last.
  - apply runs_try. intros bundle ->. simpl. apply (runs_bind K [] (cleanup_calls K _)); [apply runs_cleanup|]. intros [] made' _.
    apply (runs_bind K made' [_] [_]); [runs_call|]. intros. runs_last.
  - apply (runs_bind K [] (cleanup_calls K _)); [apply runs_cleanup|]. intros [] made' _. runs_last.
  - apply runs_try. intros ns ->. simpl. apply (runs_bind K [] [_]); [runs_call|]. intros keys made'. unfold call.
    destruct (K [] _) as [keys'|e]; [|done]. intros [= <- <-].
    rewrite <-(app_nil_r (_ <$> _)). apply runs_bind; [apply runs_delete_keys|]. intros. apply runs_ret.
  - apply runs_try. intros since ->. simpl. runs_last.
Qed.

(** [ring] compares for equality. *)
Context (slices_are_equal_spec : ∀ a b, slices_are_equal a b = true ↔ a = b).

(** The header of the request spells the token of the server. *)
Definition has_token (request : PlaygroundRequest) : Prop :=
  ∃ header text, x_token request = Some header ∧ to_str header = Some text ∧ decode_id128 text = Some auth_token.

Lemma authorize_ok request : authorize request = Ok tt ↔ has_token request.
Proof.
  unfold authorize, has_token. destruct (x_token request) as [h|]; simpl; [|naive_solver].
  destruct (to_str h) as [s|] eqn:Et; simpl; [|naive_solver].
  destruct (decode_id128 s) as [tok|] eqn:Ed; simpl; [|naive_solver].
  destruct (slices_are_equal tok auth_token) eqn:Es.
  - apply slices_are_equal_spec in Es as ->. naive_solver.
  - split; [done|]. intros (h' & s' & [= <-] & Hs & Hd). rewrite Et in Hs. injection Hs as <-.
    rewrite Ed in Hd. injection Hd as ->. by rewrite (proj2 (slices_are_equal_spec _ _) eq_refl) in Es.
Qed.

(** The errors of [authorize] are answered. *)
Lemma authorize_no_panic request : authorize request ≠ Err Panic.
Proof.
  unfold authorize. destruct (x_token request) as [h|]; simpl; [|done]. destruct (to_str h) as [s|]; simpl; [|done].
  destruct (decode_id128 s) as [tok|]; simpl; [|done]. by destruct (slices_are_equal tok auth_token).
Qed.

(** A request that is not read makes no call. *)
Lemma handle_refused K request e :
  authorize request = Err e ∨ authorize request = Ok tt ∧ (∃ e', read_request_body (req_body request) = Err e' ∧ e = BadBody e') →
  handle request K [] = (Err e, []).
Proof.
  unfold handle. rewrite Pg_bind_eq. unfold pg_try at 1. intros [->|(-> & e' & He & ->)]; [done|].
  by rewrite Pg_bind_eq, He.
Qed.

(** C28. A request without the token of the server is answered with 500 and makes no call
    to the data client.  For the others, whatever the data client answers: the calls that
    are made are a beginning of those the request asks for, in order; a call that fails is
    the last one, and the answer is 500 (so the metadata of an app is not stored when
    storing its bundle has failed); and a request that was answered with success has made
    all of them. *)
Theorem playground_requests K request :
  let '(res, calls) := service K request in
  (¬ has_token request → calls = [] ∧ (cp_status <$> res) = Some 500) ∧
  (∀ before c after, calls = before ++ c :: after → is_ok (K before c) = false →
     after = [] ∧ (cp_status <$> res) = Some 500) ∧
  ∀ body, read_request_body (req_body request) = Ok body →
    calls `prefix_of` planned K (req_path request) body ∧
    ((cp_status <$> res) = Some 200 → calls = planned K (req_path request) body).
Proof.
  pose proof (runs_handle K request) as Hruns. pose proof (handle_refused K request) as Href. unfold service.
  destruct (handle request K []) as [r calls] eqn:Eh. split_and!.
  - intros Ha. rewrite <-authorize_ok in Ha. pose proof (authorize_no_panic request) as Hp.
    destruct (authorize request) as [[]|e]; [done|]. injection (Href e (or_introl eq_refl)) as -> ->. split; [done|].
    by destruct e.
  - intros before c after Hcalls Hc.
    destruct (authorize request) as [[]|e] eqn:Ea; [destruct (read_request_body (req_body request)) as [body|e] eqn:Eb|].
    + destruct (runs_failed _ _ _ _ _ _ (Hruns body eq_refl eq_refl) Hcalls Hc) as (-> & e & Hr). simpl in Hr. by subst r.
    + injection (Href (BadBody e) ltac:(right; by eauto)) as _ ->. by destruct before.
    + injection (Href e (or_introl eq_refl)) as _ ->. by destruct before.
  - intros body Hb. destruct (authorize request) as [[]|e] eqn:Ea.
    + destruct (Hruns body eq_refl Hb) as [(k & Hk & Hp & Hok & _)]. simpl in *. subst k. split; [done|].
      destruct r as [res|e]; [by intros _; apply Hok|]. by destruct e.
    + injection (Href e (or_introl eq_refl)) as -> ->. split; [apply prefix_nil|]. by destruct e.
Qed.
End playground.

(** A request for logs gets the first entries, and at least one whatever its limit *)
Lemma collect_items_take limit items entries :
  Z.of_nat (length items) < limit ∨ items = [] →
  collect_items limit items entries = items ++ take (Nat.max (Z.to_nat limit) 1 - length items) entries.
Proof.
  revert items. induction entries as [|e entries IH]; intros items Hl; simpl; [by rewrite take_nil, app_nil_r|].
  case_decide as Hc; rewrite length_app in Hc; simpl in Hc.
  - destruct Hl as [Hl| ->].
    + replace (Nat.max (Z.to_nat limit) 1 - length items)%nat with 1%nat by lia. done.
    + simpl in *. by replace (Nat.max (Z.to_nat limit) 1 - 0)%nat with 1%nat by lia.
  - rewrite IH by (left; rewrite length_app; simpl; lia). rewrite length_app, <-app_assoc. simpl.
    replace (Nat.max (Z.to_nat limit) 1 - length items)%nat with (S (Nat.max (Z.to_nat limit) 1 - (length items + 1))) by lia.
    done.
Qed.

(** ** Two requests, against a client some of whose calls fail *)
Module PlaygroundRun.
Definition config (b : string) : AppConfig :=
  {| app_config_id := {| app_id := "a" |}; bundle_id := b; app_env := []; app_kv_namespaces := [] |}.
Definition token : string := "0123456789abcdef".
Definition old : string := "the old bundle 1".
Definition fresh : bytes := as_bytes "the new bundle 2".

(** the app is there already; the calls whose number is in [fails] fail *)
Definition client (fails : list nat) : KvClient := λ made c,
  if decide (length made ∈ fails) then Err (Other "down") else Ok
    match c return answer c with
    | AppMetadataGet _ => Some (as_bytes old)
    | RouteMappingListForDomain _ | LogRange _ _ _ => []
    | WorkerDataScanKeys _ _ _ _ => []
    | _ => tt
    end.
Definition request (t : string) : PlaygroundRequest :=
  {| req_path := "/v1/add_app"; x_token := Some (as_bytes t); req_body := [Ok [Byte.x07]] |}.
Definition decode_add_app (b : bytes) : option AddAppOpt := Some {| add_config := config ""; bundle_b64 := of_bytes b |}.
Definition to_str (b : bytes) : option string := Some (of_bytes b).
Definition same (a b : bytes) : bool := bool_decide (a = b).
Definition serve : KvClient → PlaygroundRequest → option CpResponse * list KvCall :=
  service of_bytes (λ s, Some (as_bytes s)) (λ b, Some (config (of_bytes b))) (λ _, None) (λ _, None) (λ _, None)
    (λ _, None) decode_add_app (λ _, None) (λ _, None) (λ _, None) (λ _, "") "null" (λ _, "") (λ _, "") to_str same
    (λ _, "error") 0 fresh (as_bytes token).
End PlaygroundRun.

Example playground_requests_holds :
  let '(res, calls) := PlaygroundRun.serve (PlaygroundRun.client []) (PlaygroundRun.request PlaygroundRun.token) in
  (cp_status <$> res) = Some 200 ∧
  calls = [AppMetadataGet "a"; AppBundleDelete (as_bytes PlaygroundRun.old);
           AppBundlePut PlaygroundRun.fresh [Byte.x07]; AppMetadataPut (PlaygroundRun.config "the new bundle 2")].
Proof.
  pose proof (playground_requests of_bytes (λ s, Some (as_bytes s)) (λ b, Some (PlaygroundRun.config (of_bytes b)))
    (λ _, None) (λ _, None) (λ _, None) (λ _, None) PlaygroundRun.decode_add_app (λ _, None) (λ _, None) (λ _, None)
    (λ _, "") "null" (λ _, "") (λ _, "") PlaygroundRun.to_str PlaygroundRun.same (λ _, "error") 0 PlaygroundRun.fresh
    (as_bytes PlaygroundRun.token) (λ a b, bool_decide_eq_true (a = b)) (PlaygroundRun.client [])
    (PlaygroundRun.request PlaygroundRun.token)) as Hp.
  unfold PlaygroundRun.serve. destruct (service _ _ _ _ _ _ _ _ _ _ _ _ _ _ _ _ _ _ _ _ _ _ _) as [res calls] eqn:Es.
  assert (Hr : (cp_status <$> res) = Some 200).
  { change res with (fst (res, calls)). rewrite <-Es. vm_compute. reflexivity. }
  split; [exact Hr|]. destruct Hp as (_ & _ & Hadd). exact (proj2 (Hadd [Byte.x07] eq_refl) Hr).
Defined.

(** The previous bundle is deleted before the new one is stored: when storing it fails, the
    metadata still names the deleted one. *)
Example failed_add_app_loses_bundle :
  let '(res, calls) := PlaygroundRun.serve (PlaygroundRun.client [2%nat]) (PlaygroundRun.request PlaygroundRun.token) in
  (cp_status <$> res) = Some 500 ∧
  calls = [AppMetadataGet "a"; AppBundleDelete (as_bytes PlaygroundRun.old); AppBundlePut PlaygroundRun.fresh [Byte.x07]].
Proof. vm_compute. done. Qed.
