(* ===== verification/Proxy.v ===== *)
(** * The request path of the proxy: [Scheduler::handle_request] and the service
    function of [rusty-workers-proxy/src/main.rs]

    The HTTP types ([hyper], [http]) are a library: the class [Http] has the
    operations the source calls.  One request runs here without other tasks in
    between (the interleavings are in [Ownership]); what the environment answers
    along the way is the record [Environment], indexed by the attempt, and
    [handle_request] also returns the sequence of [fetch] calls it made. *)
From Stdlib Require Import ZArith Lia Ascii.
From S2P Require Import Prelude BTree Float64 Types Db Lru Sched.
Local Open Scope Z_scope.

Class Http := {
  HeaderMap : Type;
  hm_empty : HeaderMap;
  hm_get : string → HeaderMap → option bytes;
  hm_insert : string → bytes → HeaderMap → HeaderMap;
  hm_append : string → bytes → HeaderMap → HeaderMap;
  hm_iter : HeaderMap → list (string * bytes);
  to_str : bytes → option string;                 (* HeaderValue::to_str *)
  value_from_bytes : bytes → option bytes;        (* HeaderValue::from_bytes *)
  name_from_bytes : bytes → option string;        (* HeaderName::from_bytes *)
  status_from_u16 : Z → option Z;                 (* StatusCode::from_u16 *)
  canonical_reason : Z → option string;
  (** [insert] replaces the values of the name *)
  hm_get_insert k v m : hm_get k (hm_insert k v m) = Some v;
}.

Section proxy.
Context {HH : Http} {C : Type → Type → Type} {HC : LruCache C}.

Record Request := {
  method : string;
  uri : string;                            (* Display of the [Uri] *)
  uri_path : string;
  headers : HeaderMap;
  body : list (result string bytes);       (* the chunks of the stream *)
}.

Record Response := {
  status : Z;
  response_headers : HeaderMap;
  response_body : bytes;
}.

(** ** Errors as responses *)
Definition response_new (b : bytes) : Response :=
  {| status := 200; response_headers := hm_empty; response_body := b |}.

Definition sched_error_status (e : SchedError) : Z :=
  match e with
  | NoAvailableInstance => 503
  | NoRouteMapping => 502
  | RequestBodyTooLarge => 413
  | RequestFailedAfterRetries => 503
  end.

Definition build_response (e : SchedError) : Response :=
  let st := sched_error_status e in
  let res := response_new (as_bytes (default "unknown error" (canonical_reason st))) in
  {| status := st;
     response_headers := hm_insert "server" (as_bytes "rworkers") (response_headers res);
     response_body := response_body res |}.

(** The service function of [main]; a panic unwinds through it, without a response. *)
Definition respond (r : result ProxyError Response) : option Response :=
  match r with
  | Ok x => Some x
  | Err (Sched e) => Some (build_response e)
  | Err Panic => None
  | Err _ =>
      let res := response_new (as_bytes "internal server error") in
      Some {| status := 500; response_headers := response_headers res;
              response_body := response_body res |}
  end.

(** ** Reading the request *)

(** [s.split(":").nth(0).unwrap()] *)
Fixpoint before_colon (s : string) : string :=
  match s with
  | String c rest => if decide (c = ":"%char) then "" else String c (before_colon rest)
  | EmptyString => ""
  end.

Definition request_host (req : Request) : string :=
  before_colon (default "" (hm_get "host" (headers req) ≫= to_str)).

(** The loop over [req.headers()] *)
Fixpoint collect_headers (items : list (string * bytes)) (acc : list (string * list string))
    : result ProxyError (list (string * list string)) :=
  match items with
  | (k, v) :: rest =>
      s ← ok_or (to_str v) (Hyper "header value");
      collect_headers rest (bt_insert k (default [] (bt_get k acc) ++ [s]) acc)
  | [] => Ok acc
  end.

(** The closure of [for_each], on the buffer and the last error *)
Definition body_step (max : Z) (st : bytes * result ProxyError unit) (chunk : result string bytes)
    : bytes * result ProxyError unit :=
  let '(full_body, body_error) := st in
  match chunk with
  | Ok x =>
      if decide (max < Z.of_nat (length full_body) + Z.of_nat (length x))
      then (full_body, Err (Sched RequestBodyTooLarge))
      else (full_body ++ x, body_error)
  | Err e => (full_body, Err (Hyper e))
  end.

Definition read_body (max : Z) (chunks : list (result string bytes)) : result ProxyError bytes :=
  let '(full_body, body_error) := foldl (body_step max) ([], Ok tt) chunks in
  body_error ;; Ok full_body.

(** the request for the backend, once the route is known *)
Definition target_request (max : Z) (host : string) (hs : HeaderMap) (req : Request)
    : result ProxyError RequestObject :=
  let url := String.append "https://" (String.append (before_colon host) (uri req)) in
  hdrs ← collect_headers (hm_iter hs) [];
  full_body ← read_body max (body req);
  Ok {| req_headers := hdrs; req_method := method req; req_url := url; req_body := Binary full_body |}.

(** ** Building the reply *)
Fixpoint append_headers (items : list (string * string)) (hm : HeaderMap) : result ProxyError HeaderMap :=
  match items with
  | (k, v) :: rest =>
      n ← ok_or (name_from_bytes (as_bytes k)) (Hyper "header name");
      b ← ok_or (value_from_bytes (as_bytes v)) (Hyper "header value");
      append_headers rest (hm_append n b hm)
  | [] => Ok hm
  end.

Definition header_items (h : list (string * list string)) : list (string * string) :=
  kvs ← h; (λ v, (kvs.1, v)) <$> kvs.2.

Definition build_reply (r : ResponseObject) : result ProxyError Response :=
  st ← ok_or (status_from_u16 (res_status r)) (Hyper "status");
  hm ← append_headers (header_items (res_headers r)) hm_empty;
  Ok {| status := st;
        response_headers := hm_insert "server" (as_bytes "rworkers") hm;
        response_body := match res_body r with Binary bs => bs end |}.

(** ** The environment of a request *)
Context {Distribution : Type} (weighted_index_new : list Z → option Distribution)
        (sample : Distribution → Z → nat).
Context (env_of_json : string → GenericResult (list (string * string)))
        (ns_of_json : string → GenericResult (list KvNamespaceConfig)).

Record Environment := {
  lookup_route_sent : bool;     (* the lookup queues accept the message *)
  lookup_app_sent : bool;
  app_loaded_at : Z;
  get_clock : nat → nat → Z;    (* readings of the clock, per attempt *)
  pool_clock : nat → nat → Z;
  now : nat → Z;
  rng : nat → Z;
  open01 : nat → f32;
  spawn_worker : nat → RuntimeServiceClient → string → WorkerConfiguration → bytes →
                 RpcResult (GenericResult WorkerHandle);
  fetch : nat → ReadyInstance → RequestObject → RpcResult (ExecutionResult ResponseObject);
}.

Context (E : Environment).

(** ** Routing *)
Definition resolve_route (host path : string) (fs : faults) (t : tables) (s : Scheduler C)
    : option AppId * (Scheduler C * faults * tables) :=
  let '(appid, s) := cached_route host path s in
  match appid with
  | Some a => (Some a, (s, fs, t))
  | None =>
      if lookup_route_sent E then
        let '(s, fs, t) := do_lookup_route_background host fs t s in
        let '(appid, s) := cached_route host path s in (appid, (s, fs, t))
      else (None, (s, fs, t))
  end.

Definition resolve_app (id : AppId) (fs : faults) (t : tables) (s : Scheduler C)
    : option AppState * (Scheduler C * faults * tables) :=
  let '(app, s) := cached_app id s in
  match app with
  | Some a => (Some a, (s, fs, t))
  | None =>
      if lookup_app_sent E then
        let '(s, fs, t) :=
          do_lookup_app_background env_of_json ns_of_json (app_loaded_at E) id fs t s in
        let '(app, s) := cached_app id s in (app, (s, fs, t))
      else (None, (s, fs, t))
  end.

(** ** The attempts: [for _ in 0..3usize], attempt [i] first *)
Abbreviation fetches := (list (ReadyInstance * RequestObject)).

Definition pool (i : nat) (app : AppState) (inst : ReadyInstance) (s : Scheduler C) : Scheduler C :=
  pool_instance (open01 E i) (pool_clock E i) app inst s.

Fixpoint attempts (n i : nat) (app : AppState) (target : RequestObject) (s : Scheduler C)
    : result ProxyError Response * Scheduler C * fetches :=
  match n with
  | O => (Err (Sched RequestFailedAfterRetries), s, [])
  | S n =>
      match get_instance weighted_index_new sample (spawn_worker E i) (get_clock E i) (now E i)
              (rng E i) app s with
      | (Err e, s) => (Err e, s, [])
      | (Ok inst, s) =>
          let call := (inst, target) in
          match fetch E i inst target with
          | Err _ =>
              let s := set_clients (bt_remove (inst_rtid inst)) s in
              let '(r, s, tr) := attempts n (S i) app target s in (r, s, call :: tr)
          | Ok (Err NoSuchWorker) =>
              let '(r, s, tr) := attempts n (S i) app target s in (r, s, call :: tr)
          | Ok (Err e) =>
              let s := if terminates_worker e then s else pool i app inst s in
              (Err (Sched RequestFailedAfterRetries), s, [call])
          | Ok (Ok res) => (build_reply res, pool i app inst s, [call])
          end
      end
  end.

Definition max_attempts : nat := 3.

(** ** The handler *)
Definition handle_request (req : Request) (fs : faults) (t : tables) (s : Scheduler C)
    : result ProxyError Response * (Scheduler C * faults * tables) * fetches :=
  let host := request_host req in
  match value_from_bytes (as_bytes host) with
  | None => (Err (Hyper "host"), (s, fs, t), [])
  | Some v =>
      let hs := hm_insert "host" v (headers req) in
      let '(appid, (s, fs, t)) := resolve_route host (uri_path req) fs t s in
      match appid with
      | None => (Err (Sched NoRouteMapping), (s, fs, t), [])
      | Some appid =>
          match target_request (max_request_body_size_bytes (local_config s)) host hs req with
          | Err e => (Err e, (s, fs, t), [])
          | Ok target =>
              let '(app, (s, fs, t)) := resolve_app appid fs t s in
              match app with
              | None => (Err (Sched NoRouteMapping), (s, fs, t), [])
              | Some app =>
                  let '(r, s, tr) := attempts max_attempts 0 app target s in (r, (s, fs, t), tr)
              end
          end
      end
  end.

End proxy.

(** ** A header map for concrete runs: an association list whose values pass unchecked *)
Module HttpList.

#[export] Program Instance http_list : Http := {|
  HeaderMap := list (string * bytes);
  hm_empty := [];
  hm_get k m := snd <$> head (filter (λ kv, kv.1 = k) m);
  hm_insert k v m := (k, v) :: filter (λ kv, kv.1 ≠ k) m;
  hm_append k v m := m ++ [(k, v)];
  hm_iter m := m;
  to_str b := Some (of_bytes b);
  value_from_bytes b := Some b;
  name_from_bytes b := Some (of_bytes b);
  status_from_u16 c := if decide (100 <= c < 1000) then Some c else None;
  canonical_reason _ := None;
|}.
Next Obligation. intros k v m. simpl. unfold filter. simpl. by destruct (decide (k = k)). Qed.

End HttpList.
