(* ===== verification/ProxyFacts.v ===== *)
(** * Correctness of the request path

    The body limit, the retry loop and what the backend is asked. *)
From Stdlib Require Import ZArith Lia Ascii.
From S2P Require Import Prelude BTree Float64 Types Db Lru Sched Proxy.
Local Open Scope Z_scope.

(** ** The body *)

Lemma body_step_bound max chunks st :
  Z.of_nat (length st.1) <= max → Z.of_nat (length (foldl (body_step max) st chunks).1) <= max.
Proof.
  revert st. induction chunks as [|c chunks IH]; intros [b e] Hb; simpl; [done|].
  apply IH. destruct c as [x|]; simpl; [|done]. case_decide; simpl in *; [done|].
  rewrite length_app. lia.
Qed.

Lemma body_step_error max chunks b e :
  (∃ e', (foldl (body_step max) (b, Err e) chunks).2 = Err e').
Proof.
  revert b e. induction chunks as [|c chunks IH]; intros b e; simpl; [by exists e|].
  destruct c as [x|]; simpl; [|apply IH]. case_decide; apply IH.
Qed.

Lemma body_all_ok max chunks b b' :
  foldl (body_step max) (b, Ok tt) chunks = (b', Ok tt) →
  ∃ xs, chunks = Ok <$> xs ∧ b' = b ++ concat xs.
Proof.
  revert b. induction chunks as [|c chunks IH]; intros b; cbn [foldl].
  { intros [= <-]. exists []. by rewrite app_nil_r. }
  destruct c as [x|e]; cbn [body_step]; [case_decide|].
  - destruct (body_step_error max chunks b (Sched RequestBodyTooLarge)) as [e' He'].
    intros Heq. by rewrite Heq in He'.
  - intros (xs & -> & ->)%IH. exists (x :: xs). simpl. by rewrite app_assoc.
  - destruct (body_step_error max chunks b (Hyper e)) as [e' He']. intros Heq. by rewrite Heq in He'.
Qed.

(** While the chunks are fine and fit, the buffer is their concatenation. *)
Lemma body_fits max chunks b b' :
  0 <= max → Z.of_nat (length b) <= max →
  foldl (body_step max) (b, Ok tt) chunks = (b', Ok tt) ↔
  ∃ xs, chunks = Ok <$> xs ∧ b' = b ++ concat xs ∧ Z.of_nat (length b') <= max.
Proof.
  intros Hmax. revert b. induction chunks as [|c chunks IH]; intros b Hb; cbn [foldl].
  { split.
    - intros [= <-]. exists []. by rewrite app_nil_r.
    - intros ([|] & ? & -> & ?); [|done]. by rewrite app_nil_r. }
  destruct c as [x|e]; cbn [body_step].
  - case_decide as Hlt.
    + destruct (body_step_error max chunks b (Sched RequestBodyTooLarge)) as [e' He'].
      split; [intros Heq; by rewrite Heq in He'|].
      intros ([|y ys] & Hc & -> & Hl); [done|]. simpl in *. simplify_eq.
      rewrite !length_app in Hl. lia.
    + rewrite IH by (rewrite length_app; lia). split.
      * intros (xs & -> & -> & Hl). exists (x :: xs). simpl. by rewrite app_assoc.
      * intros ([|y ys] & Hc & -> & Hl); [done|]. simpl in *. simplify_eq. exists ys.
        by rewrite app_assoc in Hl |- *.
  - destruct (body_step_error max chunks b (Hyper e)) as [e' He'].
    split; [intros Heq; by rewrite Heq in He'|]. by intros ([|y ys] & Hc & _).
Qed.

Lemma body_too_large max xs b :
  Z.of_nat (length b) <= max → max < Z.of_nat (length (b ++ concat xs)) →
  (foldl (body_step max) (b, Ok tt) (Ok <$> xs)).2 = Err (Sched RequestBodyTooLarge).
Proof.
  assert (Hstay : ∀ ys b, (foldl (body_step max) (b, Err (Sched RequestBodyTooLarge)) (Ok <$> ys)).2
                          = Err (Sched RequestBodyTooLarge)).
  { induction ys as [|y ys IH]; intros c; simpl; [done|]. case_decide; apply IH. }
  revert b. induction xs as [|x xs IH]; intros b Hb Hlt; simpl in *.
  { rewrite app_nil_r in Hlt. lia. }
  case_decide; [apply Hstay|]. apply IH; [rewrite length_app; lia|].
  by rewrite <-app_assoc.
Qed.

Lemma read_body_Ok max chunks b :
  read_body max chunks = Ok b →
  ∃ xs, chunks = Ok <$> xs ∧ b = concat xs ∧ (0 <= max → Z.of_nat (length b) <= max).
Proof.
  unfold read_body. destruct (foldl _ _ _) as [b' [[]|e]] eqn:Ef; simpl; [|done].
  intros [= <-]. pose proof (body_step_bound max chunks ([], Ok tt)) as Hb. rewrite Ef in Hb.
  apply body_all_ok in Ef as (xs & -> & ->). exists xs. split_and!; [done|done|]. apply Hb.
Qed.

(** C38. The body limit: the body is accepted exactly when no chunk fails and the chunks
    together are at most [max] bytes, and then it is their concatenation; a stream of
    good chunks over the limit is refused as too large; and whatever the stream
    does, the buffer never holds more than [max] bytes. *)
Theorem read_body_spec max chunks :
  0 <= max →
  (∀ b, read_body max chunks = Ok b ↔
     ∃ xs, chunks = Ok <$> xs ∧ b = concat xs ∧ Z.of_nat (length b) <= max) ∧
  (∀ xs, chunks = Ok <$> xs → max < Z.of_nat (length (concat xs)) →
     read_body max chunks = Err (Sched RequestBodyTooLarge)) ∧
  (∀ n, Z.of_nat (length (foldl (body_step max) ([], Ok tt) (take n chunks)).1) <= max).
Proof.
  intros Hmax. unfold read_body. split; [|split].
  - intros b. pose proof (body_fits max chunks [] b Hmax Hmax) as Hfit. simpl in Hfit. rewrite <-Hfit.
    destruct (foldl _ _ chunks) as [b' [[]|e]]; simpl; [|by split].
    split; intros; by simplify_eq.
  - intros xs -> Hlt. pose proof (body_too_large max xs [] Hmax Hlt) as He.
    destruct (foldl _ _ _) as [b' e]. simpl in He. by subst e.
  - intros n. by apply body_step_bound.
Qed.

Example read_body_spec_holds :
  0 <= 3 ∧ read_body 3 [Ok [Byte.x01; Byte.x02]; Ok [Byte.x03]] = Ok [Byte.x01; Byte.x02; Byte.x03] ∧
  read_body 3 [Ok [Byte.x01; Byte.x02; Byte.x03]; Ok [Byte.x04]] = Err (Sched RequestBodyTooLarge).
Proof.
  assert (H3 : 0 <= 3) by lia. split; [exact H3|]. split.
  - apply (proj1 (read_body_spec 3 _ H3)). by exists [[Byte.x01; Byte.x02]; [Byte.x03]].
  - by apply (proj1 (proj2 (read_body_spec 3 _ H3)) [[Byte.x01; Byte.x02; Byte.x03]; [Byte.x04]]).
Defined.

(** ** The retry loop *)
Section attempts.
Context {HH : Http} {C : Type → Type → Type} {HC : LruCache C}.
Context {Distribution : Type} (weighted_index_new : list Z → option Distribution)
        (sample : Distribution → Z → nat).
Context (env_of_json : string → GenericResult (list (string * string)))
        (ns_of_json : string → GenericResult (list KvNamespaceConfig)).
Context (E : Environment).

(** network errors and [NoSuchWorker] make the loop select another instance *)
Definition retryable (r : RpcResult (ExecutionResult ResponseObject)) : bool :=
  match r with
  | Err _ | Ok (Err NoSuchWorker) => true
  | _ => false
  end.

(** what the call [k] of the sequence got *)
Definition outcome (i : nat) (tr : list (ReadyInstance * RequestObject)) (k : nat)
    : option (RpcResult (ExecutionResult ResponseObject)) :=
  c ← tr !! k; Some (fetch E (i + k) c.1 c.2).

Definition all_retryable (i : nat) (tr : list (ReadyInstance * RequestObject)) : Prop :=
  ∀ k r, outcome i tr k = Some r → retryable r = true.

Lemma all_retryable_cons i c tr :
  retryable (fetch E i c.1 c.2) = true → all_retryable (S i) tr → all_retryable i (c :: tr).
Proof.
  intros Hc Htr [|k] r; unfold outcome; simpl.
  - rewrite Nat.add_0_r. by intros [= <-].
  - intros Hr. apply (Htr k). unfold outcome. by rewrite Nat.add_succ_comm.
Qed.

(** the errors of selecting or spawning an instance *)
Definition no_instance_error (e : ProxyError) : Prop :=
  match e with
  | Sched NoAvailableInstance | Rpc _ | Spawn _ | Panic => True
  | _ => False
  end.

Lemma get_instance_error spawn clock now rng app (s s' : Scheduler C) e :
  get_instance weighted_index_new sample spawn clock now rng app s = (Err e, s') →
  no_instance_error e.
Proof.
  unfold get_instance, choose_runtime.
  destruct (pop_ready _ _ _) as [[inst s1]|]; [done|].
  case_decide; [by intros [= <- <-]|].
  destruct (weighted_index_new _) as [d|]; [|by intros [= <- <-]].
  destruct (clients _ !! sample d rng) as [[rtid rt]|]; simpl; [|by intros [= <- <-]].
  destruct (spawn _ _ _ _) as [[h|]|]; simpl; intros; by simplify_eq.
Qed.

(** How a run of at most [n] attempts can have ended. *)
Inductive ended (n i : nat) (tr : list (ReadyInstance * RequestObject)) : result ProxyError Response → Prop :=
  | ended_exhausted :
      all_retryable i tr → length tr = n → ended n i tr (Err (Sched RequestFailedAfterRetries))
  | ended_no_instance e :
      all_retryable i tr → (length tr < n)%nat → no_instance_error e → ended n i tr (Err e)
  | ended_execution_error tr0 c e :
      tr = tr0 ++ [c] → all_retryable i tr0 → (length tr ≤ n)%nat →
      fetch E (i + length tr0) c.1 c.2 = Ok (Err e) → e ≠ NoSuchWorker →
      ended n i tr (Err (Sched RequestFailedAfterRetries))
  | ended_reply tr0 c res :
      tr = tr0 ++ [c] → all_retryable i tr0 → (length tr ≤ n)%nat →
      fetch E (i + length tr0) c.1 c.2 = Ok (Ok res) →
      ended n i tr (build_reply res).

Lemma ended_cons n i c tr r :
  retryable (fetch E i c.1 c.2) = true → ended n (S i) tr r → ended (S n) i (c :: tr) r.
Proof.
  intros Hc. destruct 1 as [Ha Hl|e Ha Hl He|tr0 d e -> Ha Hl Hf Hne|tr0 d res -> Ha Hl Hf].
  - apply ended_exhausted; [by apply all_retryable_cons|]. simpl. by rewrite Hl.
  - apply ended_no_instance; [by apply all_retryable_cons|simpl; lia|done].
  - apply (ended_execution_error _ _ _ (c :: tr0) d e); [done|by apply all_retryable_cons|..|done].
    + simpl. lia.
    + by rewrite <-Hf, Nat.add_succ_comm.
  - apply (ended_reply _ _ _ (c :: tr0) d res); [done|by apply all_retryable_cons|..].
    + simpl. lia.
    + by rewrite <-Hf, Nat.add_succ_comm.
Qed.

Lemma all_retryable_nil i : all_retryable i [].
Proof. intros k r. unfold outcome. by rewrite lookup_nil. Qed.

Lemma ended_one_error n i c e :
  fetch E i c.1 c.2 = Ok (Err e) → e ≠ NoSuchWorker →
  ended (S n) i [c] (Err (Sched RequestFailedAfterRetries)).
Proof.
  intros Hf Hne. apply (ended_execution_error _ _ _ [] c e); [done|apply all_retryable_nil|simpl; lia| |done].
  by rewrite Nat.add_0_r.
Qed.

Lemma ended_one_reply n i c res :
  fetch E i c.1 c.2 = Ok (Ok res) → ended (S n) i [c] (build_reply res).
Proof.
  intros Hf. apply (ended_reply _ _ _ [] c res); [done|apply all_retryable_nil|simpl; lia|].
  by rewrite Nat.add_0_r.
Qed.

(** The retry loop makes at most [n] calls, all with the same request; it goes on
    only after a network error or a vanished worker, and what it returns is the last
    call's reply, or the error its end calls for. *)
Lemma attempts_ended n i app target (s : Scheduler C) :
  let '(r, s', tr) := attempts weighted_index_new sample E n i app target s in
  ended n i tr r ∧ Forall (λ c, c.2 = target) tr.
Proof.
  revert i s. induction n as [|n IH]; intros i s; cbn [attempts].
  { split; [|done]. by apply ended_exhausted; [apply all_retryable_nil|]. }
  destruct (get_instance _ _ _ _ _ _ _ _) as [[inst|e] s1] eqn:Eg.
  2: { split; [|done]. apply get_instance_error in Eg.
       apply ended_no_instance; [apply all_retryable_nil|simpl; lia|done]. }
  assert (Hgo : retryable (fetch E i inst target) = true → ∀ s2 : Scheduler C,
    let '(r, s', tr) := attempts weighted_index_new sample E n (S i) app target s2 in
    ended (S n) i ((inst, target) :: tr) r ∧ Forall (λ c, c.2 = target) ((inst, target) :: tr)).
  { intros Hr s2. specialize (IH (S i) s2).
    destruct (attempts _ _ _ n (S i) app target s2) as [[r s'] tr]. destruct IH as [He Hall].
    split; [by apply ended_cons|by constructor]. }
  destruct (fetch E i inst target) as [[res|e]|e] eqn:Ef.
  { split; [by apply ended_one_reply|by constructor]. }
  2: { specialize (Hgo eq_refl (set_clients (bt_remove (inst_rtid inst)) s1)).
       by destruct (attempts (C := C) _ _ _ n (S i) app target _) as [[r s'] tr]. }
  destruct (decide (e = NoSuchWorker)) as [->|Hne].
  { specialize (Hgo eq_refl s1). by destruct (attempts (C := C) _ _ _ n (S i) app target _) as [[r s'] tr]. }
  destruct e; try done; (split; [by eapply ended_one_error|by constructor]).
Qed.

Lemma ended_length n i tr r : ended n i tr r → (length tr ≤ n)%nat.
Proof. destruct 1; lia. Qed.

Lemma before_colon_idemp h : before_colon (before_colon h) = before_colon h.
Proof.
  induction h as [|c h IH]; [done|]. cbn [before_colon]. case_decide; [done|].
  cbn [before_colon]. rewrite decide_False by done. by rewrite IH.
Qed.

Lemma target_request_Ok max req hs target :
  target_request max (request_host req) hs req = Ok target →
  ∃ xs, req_method target = method req ∧
    req_url target = String.append "https://" (String.append (request_host req) (uri req)) ∧
    body req = Ok <$> xs ∧ req_body target = Binary (concat xs) ∧
    (0 <= max → Z.of_nat (length (concat xs)) <= max).
Proof.
  unfold target_request. destruct (collect_headers _ _) as [hdrs|]; simpl; [|done].
  destruct (read_body _ _) as [b|] eqn:Eb; simpl; [|done]. intros [= <-]. simpl.
  apply read_body_Ok in Eb as (xs & -> & -> & Hl). exists xs.
  unfold request_host. by rewrite before_colon_idemp.
Qed.

Lemma resolve_route_config host path fs t (s : Scheduler C) o s' fs' t' :
  resolve_route E host path fs t s = (o, (s', fs', t')) → local_config s' = local_config s.
Proof.
  unfold resolve_route, cached_route, do_lookup_route_background.
  destruct (lru_get host (route_cache s)) as [o1 rc].
  destruct (o1 ≫= lookup_submappings path); simpl; [by intros [= _ <- _ _]|].
  destruct (lookup_route_sent E); simpl; [|by intros [= _ <- _ _]].
  destruct (lru_get host rc) as [[r2|] rc2]; simpl.
  - destruct (lru_get host rc2). simpl. by intros [= _ <- _ _].
  - destruct (route_mapping_list_for_domain host fs t) as [[[m|] fs1] t1]; simpl;
      destruct (lru_get host _) as [? ?]; simpl; by intros [= _ <- _ _].
Qed.

(** C10. Serving a request: at most three calls to workers, each with the request the
    client made (the url on https with the port stripped from the host, the body
    whole and within the limit), another one only after a network error or a
    vanished worker; the client gets the answer of the last call, and no call is
    made for a request without a route or with a body that is refused. *)
Theorem handle_request_spec req fs t (s : Scheduler C) :
  let '(r, _, tr) := handle_request weighted_index_new sample env_of_json ns_of_json E req fs t s in
  tr = [] ∧ is_ok r = false ∨
  (length tr ≤ 3)%nat ∧ ended 3 0 tr r ∧
  ∃ target xs,
    Forall (λ c, c.2 = target) tr ∧
    req_method target = method req ∧
    req_url target = String.append "https://" (String.append (request_host req) (uri req)) ∧
    body req = Ok <$> xs ∧ req_body target = Binary (concat xs) ∧
    (0 <= max_request_body_size_bytes (local_config s) →
     Z.of_nat (length (concat xs)) <= max_request_body_size_bytes (local_config s)).
Proof.
  unfold handle_request.
  destruct (value_from_bytes _) as [v|]; [|by left].
  destruct (resolve_route E _ _ fs t s) as [o [[s1 fs1] t1]] eqn:Er.
  destruct o as [appid|]; [|by left].
  destruct (target_request _ _ _ _) as [target|e] eqn:Et; [|by left].
  destruct (resolve_app _ _ E appid fs1 t1 s1) as [oapp [[s2 fs2] t2]].
  destruct oapp as [app|]; [|by left].
  pose proof (attempts_ended max_attempts 0 app target s2) as Ha.
  destruct (attempts _ _ _ max_attempts 0 app target s2) as [[r s3] tr].
  destruct Ha as [He Hall]. right. split; [by eapply ended_length|]. split; [done|].
  apply target_request_Ok in Et as (xs & Hm & Hu & Hb & Hbody & Hlen).
  apply resolve_route_config in Er. rewrite Er in Hlen.
  exists target, xs. by split_and!.
Qed.
(** *** A pool of workers that the runtime no longer has *)
Lemma gc_lists_keep cfg clock (ready q : list ReadyInstance) :
  (length ready ≤ max_ready_instances_per_app cfg)%nat →
  (∀ x, head ready = Some x → is_usable (ready_instance_expiration_ms cfg) (clock O) x = true) →
  gc_lists cfg clock ready q = (ready, q).
Proof.
  intros Hlen Hu. unfold gc_lists. destruct ready as [|x ready]; [done|].
  cbn [gc_excess]. rewrite decide_False by lia. cbn [gc_expired]. by rewrite Hu.
Qed.

(** At attempt [i] the instance [x] is still taken to be usable, but its worker is gone. *)
Definition gone (i : nat) (app : AppState) (target : RequestObject) (s : Scheduler C) (x : ReadyInstance) : Prop :=
  is_usable (ready_instance_expiration_ms (local_config s)) (get_clock E i O) x = true ∧
  fetch E i (update_last_active (now E i) x) target = Ok (Err NoSuchWorker).

(** An attempt with such an instance takes it out of the pool and changes nothing else. *)
Lemma attempts_gone n i app target (s : Scheduler C) x rest :
  ready_of app s = x :: rest → (length (ready_of app s) ≤ max_ready_instances_per_app (local_config s))%nat →
  gone i app target s x →
  ∃ s', attempts weighted_index_new sample E (S n) i app target s =
          (let '(r, s2, tr) := attempts weighted_index_new sample E n (S i) app target s' in
           (r, s2, (update_last_active (now E i) x, target) :: tr)) ∧
        ready_of app s' = rest ∧ clients s' = clients s ∧ local_config s' = local_config s.
Proof.
  intros Hr Hlen [Hu Hf]. cbn [attempts]. unfold get_instance, gc_ready_instances.
  rewrite gc_lists_keep by (try done; rewrite Hr; by intros ? [= <-]).
  unfold pop_ready. set (s1 := set_pools _ _ s).
  assert (H1 : ready_of app s1 = x :: rest) by (unfold ready_of; simpl; by rewrite lookup_insert_eq).
  rewrite H1. rewrite Hf. eexists. split; [reflexivity|].
  split; [|done]. unfold ready_of. simpl. by rewrite lookup_insert_eq.
Qed.

(** An attempt with an empty pool spawns a worker; it is the last one if that answers. *)
Lemma attempts_spawn n i app target (s : Scheduler C) rtid rt handle res :
  ready_of app s = [] →
  choose_runtime weighted_index_new sample (rng E i) (clients s) = Ok (rtid, rt) →
  spawn_worker E i (rt_client rt) (app_id (state_id app)) (state_config app) (state_bundle app) = Ok (Ok handle) →
  let inst := {| inst_rtid := rtid; last_active := now E i; inst_handle := handle; inst_client := rt_client rt |} in
  fetch E i inst target = Ok (Ok res) →
  ∃ s', attempts weighted_index_new sample E (S n) i app target s = (build_reply res, s', [(inst, target)]).
Proof.
  intros Hready Hrt Hspawn inst Hfetch. cbn [attempts]. unfold get_instance, gc_ready_instances, gc_lists.
  rewrite Hready. cbn [gc_excess gc_expired]. unfold pop_ready, ready_of. simpl. rewrite lookup_insert_eq.
  simpl. rewrite Hrt. simpl. rewrite Hspawn. simpl. fold inst. rewrite Hfetch. by eexists.
Qed.

Lemma attempts_gone_prefix m n i app target (s : Scheduler C) :
  (m ≤ length (ready_of app s))%nat →
  (length (ready_of app s) ≤ max_ready_instances_per_app (local_config s))%nat →
  (∀ j x, x ∈ ready_of app s → gone j app target s x) →
  ∃ s' tr, ready_of app s' = drop m (ready_of app s) ∧ clients s' = clients s ∧
    attempts weighted_index_new sample E (m + n) i app target s =
      (let '(r, s2, tr2) := attempts weighted_index_new sample E n (i + m) app target s' in (r, s2, tr ++ tr2)).
Proof.
  revert i s. induction m as [|m IH]; intros i s Hm Hlen Hgone.
  { exists s, []. split_and!; [by rewrite drop_0|done|]. rewrite Nat.add_0_r. simpl.
    by destruct (attempts _ _ _ n i app target s) as [[r s2] tr2]. }
  destruct (ready_of app s) as [|x rest] eqn:Er; [simpl in Hm; lia|].
  destruct (attempts_gone (m + n) i app target s x rest) as (s1 & Heq & Hr1 & Hc1 & Hl1);
    [done|by rewrite Er|apply Hgone; by left|].
  destruct (IH (S i) s1) as (s2 & tr & Hr2 & Hc2 & Heq2); rewrite ?Hr1, ?Hl1; simpl in *; [lia..| |].
  { intros j y Hy. destruct (Hgone j y) as [Hu Hf]; [by right|]. split; [by rewrite Hl1|done]. }
  exists s2, ((update_last_active (now E i) x, target) :: tr).
  split; [by rewrite Hr2, Hr1|]. split; [congruence|]. rewrite Heq, Heq2, Nat.add_succ_r.
  by destruct (attempts _ _ _ n (S (i + m)) app target s2) as [[r s3] tr2].
Qed.

(** Retrying takes the next instance of the pool, so it only helps when fewer than
    three of them are gone; a longer run of such instances fails requests, three
    instances each, although the runtimes could spawn a worker. *)
Theorem gone_pool_attempts app target (s : Scheduler C) :
  (length (ready_of app s) ≤ max_ready_instances_per_app (local_config s))%nat →
  (∀ i x, x ∈ ready_of app s → gone i app target s x) →
  let k := length (ready_of app s) in
  let '(r, s', tr) := attempts weighted_index_new sample E max_attempts 0 app target s in
  ((k < 3)%nat → ∀ rtid rt handle res,
     choose_runtime weighted_index_new sample (rng E k) (clients s) = Ok (rtid, rt) →
     spawn_worker E k (rt_client rt) (app_id (state_id app)) (state_config app) (state_bundle app) = Ok (Ok handle) →
     fetch E k {| inst_rtid := rtid; last_active := now E k; inst_handle := handle; inst_client := rt_client rt |}
       target = Ok (Ok res) →
     r = build_reply res) ∧
  ((3 ≤ k)%nat → r = Err (Sched RequestFailedAfterRetries) ∧ ready_of app s' = drop 3 (ready_of app s)).
Proof.
  intros Hlen Hgone k. destruct (attempts _ _ _ max_attempts 0 app target s) as [[r s'] tr] eqn:Ea. split.
  - intros Hk rtid rt handle res Hrt Hspawn Hf.
    destruct (attempts_gone_prefix k (3 - k) 0 app target s) as (s1 & tr1 & Hr1 & Hc1 & Heq); [done..|].
    replace (k + (3 - k))%nat with max_attempts in Heq by (unfold max_attempts; lia).
    replace (3 - k)%nat with (S (2 - k)) in Heq by lia. rewrite Nat.add_0_l in Heq.
    destruct (attempts_spawn (2 - k) k app target s1 rtid rt handle res) as [s2 Hs2];
      [rewrite Hr1; apply drop_all|by rewrite Hc1|done..|].
    rewrite Hs2, Ea in Heq. by injection Heq.
  - intros Hk. destruct (attempts_gone_prefix 3 0 0 app target s) as (s1 & tr1 & Hr1 & _ & Heq); [done..|].
    change (3 + 0)%nat with max_attempts in Heq. rewrite Ea in Heq. cbn [attempts] in Heq.
    injection Heq as -> -> _. by rewrite <-Hr1.
Qed.
End attempts.
