(* ===== verification/Deploy.v ===== *)
(** * From deployment to the client: [Cli], [Db], [Sched] and [Proxy] together

    The operator stores an app and a route; the collectors of a proxy that has been
    running for any time do one round; then a request for the route reaches a worker of
    exactly this app, although the proxy may have cached other routes and an earlier
    version of it. *)
From Stdlib Require Import ZArith Lia Ascii.
From S2P Require Import Prelude BTree Float64 Types Db DbFacts Lru Sched SchedFacts Cli CliFacts Proxy ProxyFacts.
Local Open Scope Z_scope.

Section deploy.
Context {HH : Http} {C : Type → Type → Type} {HC : LruCache C}.
(** the operator's side *)
Context (open : string → option bytes)
        (toml_from_str : string → option AppConfig)
        (tar_single_file : string → bytes → option bytes)
        (base64_encode : bytes → string) (base64_decode : string → option bytes).
Context (env_to_json : list (string * string) → GenericResult string)
        (env_of_json : string → GenericResult (list (string * string)))
        (ns_to_json : list KvNamespaceConfig → GenericResult string)
        (ns_of_json : string → GenericResult (list KvNamespaceConfig))
        (duplicate_key : GenericError) (row_order : list bytes → list bytes).
Context (now1 now2 : Z) (rng_bytes : bytes).
(** [serde_json] reads back what it wrote. *)
Context (env_json : ∀ x s, env_to_json x = Ok s → env_of_json s = Ok x)
        (ns_json : ∀ x s, ns_to_json x = Ok s → ns_of_json s = Ok x).
Local Abbreviation app_cmd :=
  (app_cmd open toml_from_str tar_single_file base64_encode base64_decode env_to_json env_of_json
     ns_to_json ns_of_json duplicate_key row_order now1 now2 rng_bytes).
Local Abbreviation deployed := (deployed base64_encode rng_bytes).
(** the proxy's side *)
Context {Distribution : Type} (weighted_index_new : list Z → option Distribution)
        (sample : Distribution → Z → nat).
Context (E : Environment).
Local Abbreviation handle_request :=
  (handle_request weighted_index_new sample env_of_json ns_of_json E).
Local Abbreviation app_of := (app_of env_of_json ns_of_json).
Implicit Types s : Scheduler C.

(** ** Resolving against a cache that agrees with the database *)

(** one round of both collectors *)
Definition gc_round (t : tables) (s : Scheduler C) : Scheduler C :=
  let '(s, _, _) := route_cache_gc_round [] t s in
  (apps_gc_round env_of_json ns_of_json [] t s).1.1.

Lemma cached_route_eq host path s :
  ∃ rc, cached_route host path s =
          (lru_peek host (route_cache s) ≫= lookup_submappings path, set_route_cache rc s) ∧
        rc = (lru_get host (route_cache s)).2.
Proof.
  unfold cached_route. pose proof (lru_get_fst host (route_cache s)) as Hf.
  destruct (lru_get host (route_cache s)) as [o rc]. simpl in *. subst o. by exists rc.
Qed.

(** When what is cached for the domain agrees with the database, and the database
    answers, a request is routed as the database says. *)
Lemma resolve_route_fresh host path a t s :
  lookup_route_sent E = true → (0 < lru_capacity (route_cache s))%nat →
  (∀ m, lru_peek host (route_cache s) = Some m → m = fresh_routes t host) →
  route_of host path t = Some a →
  ∃ rc, resolve_route E host path [] t s = (Some a, (set_route_cache rc s, [], t)).
Proof.
  intros Hsent Hroom Hagree Hr. unfold resolve_route.
  destruct (cached_route_eq host path s) as (rc & -> & Hrc).
  destruct (lru_peek host (route_cache s)) as [m|] eqn:Em; simpl.
  - rewrite (Hagree m eq_refl). change (lookup_submappings path (fresh_routes t host)) with (route_of host path t).
    rewrite Hr. by exists rc.
  - rewrite Hsent. unfold do_lookup_route_background. simpl.
    assert (Hcap : lru_capacity rc = lru_capacity (route_cache s)) by (subst rc; apply lru_capacity_get).
    assert (Hnone : lru_peek host rc = None) by (subst rc; by rewrite lru_get_snd).
    pose proof (lru_get_fst host rc) as Hf. rewrite Hnone in Hf.
    pose proof (lru_capacity_get host rc) as Hcap2.
    destruct (lru_get host rc) as [o rc2] eqn:E2. simpl in *. subst o. fold (fresh_routes t host).
    destruct (cached_route_eq host path (set_route_cache (lru_insert host (fresh_routes t host) rc2)
      (set_route_cache rc2 (set_route_cache rc s)))) as (rc3 & -> & _). simpl.
    rewrite lru_peek_insert_room by congruence. simpl.
    change (lookup_submappings path (fresh_routes t host)) with (route_of host path t). rewrite Hr. by exists rc3.
Qed.

Lemma cached_app_eq id s :
  cached_app id s = (lru_peek id (app_cache s), set_app_cache (lru_get id (app_cache s)).2 s).
Proof.
  unfold cached_app. rewrite <-(lru_get_fst id (app_cache s)). by destruct (lru_get id (app_cache s)).
Qed.

(** An app that is not cached is loaded from the database, with no instances. *)
Lemma resolve_app_fresh id t s st0 :
  lookup_app_sent E = true → (0 < lru_capacity (app_cache s))%nat →
  lru_peek id (app_cache s) = None → app_of (worker_config s) t id st0 →
  ∃ st s', resolve_app env_of_json ns_of_json E id [] t s = (Some st, (s', [], t)) ∧
    app_of (worker_config s) t id st ∧ ready_of st s' = [] ∧
    clients s' = clients s ∧ local_config s' = local_config s.
Proof.
  intros Hsent Hroom Hnone (config & Hm & Hb & _). unfold resolve_app. rewrite cached_app_eq, Hnone, Hsent.
  set (s1 := set_app_cache _ s).
  assert (Hnone1 : lru_peek id (app_cache s1) = None) by (simpl; by rewrite lru_get_snd).
  destruct (do_lookup_app_background env_of_json ns_of_json (app_loaded_at E) id [] t s1) as [[s2 fs2] t2] eqn:El.
  assert (Hload : ∃ st ac l, s2 = set_app_cache ac (new_deque l).2 ∧ clients l = clients s ∧
    local_config l = local_config s ∧ fs2 = [] ∧ t2 = t ∧ lru_peek id ac = Some st).
  { unfold do_lookup_app_background in El. rewrite cached_app_eq, Hnone1 in El.
    destruct (app_metadata_get_ok env_of_json ns_of_json (app_id id) t) as [r Hr].
    rewrite Hr in Hm, El. simpl in Hm. subst r. simpl in El, Hb.
    destruct (bundles t !! bundle_id config) as [[b ct]|]; [|done]. simpl in El.
    injection El as <- <- <-. eexists _, _, (set_app_cache (lru_get id (lru_get id (app_cache s)).2).2 s1).
    split; [reflexivity|]. split_and!; [done..|]. apply lru_peek_insert_room. by rewrite !lru_capacity_get. }
  destruct Hload as (st & ac & l & -> & Hcl & Hlc & -> & -> & Hst).
  destruct (do_lookup_app_background_spec env_of_json ns_of_json (app_loaded_at E) id t s1 _ _ _ st Hnone1 El)
    as (Hof & _ & Hready & _); [exact Hst|].
  rewrite cached_app_eq. simpl. rewrite Hst. eexists st, _. split; [reflexivity|]. by split_and!.
Qed.

(** ** What the two commands leave in the database *)
Lemma deployed_tables config_path bundle_path text config bundle d p fs fs1 fs2 t t1 t2 :
  bundles_present t →
  read_file open config_path = Ok text → toml_from_str text = Some config → open bundle_path = Some bundle →
  app_cmd (AddApp config_path bundle_path) fs t = (Ok PrintOK, fs1, t1) →
  app_cmd (AddRoute d p (app_id (app_config_id config))) fs1 t1 = (Ok PrintOK, fs2, t2) →
  (∀ wc st, app_of wc t2 (app_config_id config) st ↔ deployed wc config bundle st) ∧
  (∀ path, starts_with path p = true →
     (∀ p' r, routes t !! (d, p') = Some r → starts_with path p' = true →
              (String.length p' ≤ String.length p)%nat) →
     route_of d path t2 = Some (app_config_id config)).
Proof using env_json ns_json.
  intros Ht Hread Htoml Hopen Hadd Hroute.
  assert (Htabs : ∃ je jn, env_to_json (app_env config) = Ok je ∧ ns_to_json (app_kv_namespaces config) = Ok jn ∧
            bundles t !! base64_encode (take 16 rng_bytes) = None ∧
            t1 = with_app base64_encode now2 rng_bytes config je jn (with_bundle base64_encode now1 rng_bytes bundle t)).
  { cbn [Cli.app_cmd] in Hadd. unfold read_file_raw in Hadd. rewrite Hread, Hopen in Hadd.
    unfold mbind, Cli_bind, attempt in Hadd. rewrite Htoml in Hadd. cbn [ok_or] in Hadd.
    pose proof (do_add_app_cases base64_encode env_to_json ns_to_json duplicate_key now1 now2 rng_bytes
      config bundle fs t) as Hcases.
    destruct (do_add_app _ _ _ _ _ _ _ config bundle fs t) as [[[u|e] fs'] t']; [|done].
    cbn [mret Cli_ret] in Hadd. injection Hadd as _ <-. exact Hcases. }
  destruct Htabs as (je & jn & Hje & Hjn & Hnone & ->). clear Hadd Hread Htoml Hopen.
  set (t1 := with_app _ _ _ _ _ _ _) in *.
  pose proof (add_route_routes open toml_from_str tar_single_file base64_encode base64_decode env_to_json env_of_json
    ns_to_json ns_of_json duplicate_key row_order now1 now2 rng_bytes d p (app_id (app_config_id config)) fs1 t1) as Hr.
  assert (H2 : apps t2 = apps t1 ∧ bundles t2 = bundles t1).
  { revert Hroute. simpl. unfold route_mapping_insert. cli_cases; try done; by intros [= _ <-]. }
  rewrite Hroute in Hr. destruct Hr as [Hr _]. destruct H2 as [Ha Hb]. split.
  - intros wc st. rewrite (app_of_frame env_of_json ns_of_json wc t1 t2) by (by rewrite ?Ha, ?Hb).
    unfold t1. rewrite app_of_deployed by done. by rewrite decide_True.
  - intros path Hp Hmax. rewrite Hr; [by destruct (app_config_id config)|done|]. exact Hmax.
Qed.

(** Of an earlier version of the app the collector sees that it is stale. *)
Lemma deployed_stale config bundle t wc :
  (∀ wc st, app_of wc t (app_config_id config) st ↔ deployed wc config bundle st) →
  ∃ st0, app_of wc t (app_config_id config) st0 ∧
    ∀ b wc', b ≠ base64_encode (take 16 rng_bytes) → stale env_of_json ns_of_json t (app_config_id config) b wc' = true.
Proof.
  intros Happ.
  set (st0 := {| state_id := app_config_id config; state_config := target_config wc config;
                 state_bundle_id := base64_encode (take 16 rng_bytes); state_bundle := bundle;
                 ready_instances := 1; start_time := 0 |}).
  assert (H0 : app_of wc t (app_config_id config) st0) by by apply Happ.
  exists st0. split; [done|]. destruct H0 as (config' & Hm & _ & _ & Hid & _). intros b wc' Hb.
  unfold stale. rewrite Hm. unfold app_changed. rewrite bool_decide_eq_true_2; [done|]. simpl in Hid. congruence.
Qed.

(** ** The theorem *)

(** C7. An operator's [add-app] and [add-route] take effect as a whole: once the
    collectors of a proxy have done a round, whatever it had cached before, a request
    under the new route is served by a new worker, spawned on a chosen runtime with
    exactly the deployed bundle, environment and namespaces; the worker gets the
    client's request, and the client gets the worker's answer. *)
Theorem deployed_app_serves config_path bundle_path text config bundle d p fs fs1 fs2 t t1 t2 s
    req v target rtid rt handle res :
  bundles_present t →
  read_file open config_path = Ok text → toml_from_str text = Some config → open bundle_path = Some bundle →
  app_cmd (AddApp config_path bundle_path) fs t = (Ok PrintOK, fs1, t1) →
  app_cmd (AddRoute d p (app_id (app_config_id config))) fs1 t1 = (Ok PrintOK, fs2, t2) →
  (0 < lru_capacity (route_cache s))%nat → (0 < lru_capacity (app_cache s))%nat →
  (∀ st, lru_peek (app_config_id config) (app_cache s) = Some st →
         state_bundle_id st ≠ base64_encode (take 16 rng_bytes)) →
  request_host req = d → value_from_bytes (as_bytes d) = Some v →
  starts_with (uri_path req) p = true →
  (∀ p' r, routes t !! (d, p') = Some r → starts_with (uri_path req) p' = true →
           (String.length p' ≤ String.length p)%nat) →
  target_request (max_request_body_size_bytes (local_config s)) d (hm_insert "host" v (headers req)) req = Ok target →
  lookup_route_sent E = true → lookup_app_sent E = true →
  choose_runtime weighted_index_new sample (rng E 0) (clients s) = Ok (rtid, rt) →
  spawn_worker E 0 (rt_client rt) (app_id (app_config_id config)) (target_config (worker_config s) config) bundle
    = Ok (Ok handle) →
  let inst := {| inst_rtid := rtid; last_active := now E 0; inst_handle := handle; inst_client := rt_client rt |} in
  fetch E 0 inst target = Ok (Ok res) →
  ∃ s', handle_request req [] t2 (gc_round t2 s) = (build_reply res, (s', [], t2), [(inst, target)]).
Proof using env_json ns_json.
  intros Ht Hread Htoml Hopen Hadd Hroute Hrcap Hacap Hnew Hhost Hv Hp Hmax Htarget Hls Has Hrt Hspawn inst Hfetch.
  destruct (deployed_tables config_path bundle_path text config bundle d p fs fs1 fs2 t t1 t2) as [Happ Hrt2]; [done..|].
  specialize (Hrt2 (uri_path req) Hp Hmax).
  (* the caches after the round *)
  unfold gc_round. destruct (route_cache_gc_round_spec t2 s d) as (rc & -> & Hrc & Hpeek).
  set (s1 := set_route_cache rc s).
  destruct (apps_gc_round_frame env_of_json ns_of_json t2 s1) as (ac & Hgc & Hac).
  pose proof (apps_gc_round_spec env_of_json ns_of_json t2 s1 (app_config_id config)) as Hapeek.
  rewrite Hgc in *. cbn [fst] in *. set (s2 := set_app_cache ac s1) in *.
  destruct (deployed_stale config bundle t2 (worker_config s) Happ) as (st0 & Hst0 & Hstale).
  assert (Hfresh : lru_peek (app_config_id config) (app_cache s2) = None).
  { rewrite Hapeek.
    change (app_cache s1) with (app_cache s).
    destruct (lru_peek (app_config_id config) (app_cache s)) as [st|] eqn:Est; [|done]. cbn [mbind option_bind].
    by rewrite Hstale by by apply Hnew. }
  (* the request *)
  unfold Proxy.handle_request. rewrite Hhost, Hv.
  destruct (resolve_route_fresh d (uri_path req) (app_config_id config) t2 s2) as [rc' ->]; [done|..].
  { change (route_cache s2) with rc. by rewrite Hrc. }
  { intros m Hm. change (route_cache s2) with rc in Hm. rewrite Hpeek in Hm.
    destruct (lru_peek d (route_cache s)); [|done]. cbn [mbind option_bind] in Hm. by case_decide; simplify_eq. }
  { done. }
  cbn [local_config set_route_cache]. change (local_config s2) with (local_config s). rewrite Htarget.
  destruct (resolve_app_fresh (app_config_id config) t2 (set_route_cache rc' s2) st0)
    as (st & s' & -> & Hof & Hready & Hcl & _); [done| |done|exact Hst0|].
  { change (app_cache (set_route_cache rc' s2)) with ac. by rewrite Hac. }
  apply Happ in Hof as (Hid & Hb & _ & Hc).
  change max_attempts with 3%nat.
  destruct (attempts_spawn weighted_index_new sample E 2 0 st target s' rtid rt handle res) as [s'' ->]; [done|by rewrite Hcl| |done|by exists s''].
  by rewrite Hid, Hb, Hc.
Qed.
End deploy.

(** ** A deployment over an older version *)
Module DeployRun.
Import HttpList.
Definition t1 : tables := (CliRun.cmd (AddApp "app.toml" "app.tar") [] CliRun.t).2.
Definition t2 : tables := (CliRun.cmd (AddRoute "d" "/x" "x") [] t1).2.

(** a proxy that has cached the routes of [d] and the app [x] as they were before *)
Definition old_state : AppState :=
  {| state_id := CliRun.app "x"; state_config := CliRun.wc; state_bundle_id := "old"; state_bundle := [Byte.x02];
     ready_instances := 1; start_time := 0 |}.
Definition runtime : RtState := {| rt_client := {| connection := 4 |}; load := 0 |}.
Definition cfg : LocalConfig :=
  {| runtime_cluster := []; max_ready_instances_per_app := 1; ready_instance_expiration_ms := 1;
     request_timeout_ms := 1; max_request_body_size_bytes := 10; dropout_rate := f64_one; route_cache_size := 2;
     app_cache_size := 2 |}.
Definition s : Scheduler LruList.cache :=
  set_clients (λ _, [({| runtime_id := "r" |}, runtime)])
    (set_app_cache (lru_insert (CliRun.app "x") old_state (lru_empty 2))
      (set_route_cache (lru_insert "d" [("/", CliRun.app "y")] (lru_empty 2)) (Scheduler_new CliRun.wc cfg))).

Definition req : Request (HH := http_list) :=
  {| method := "GET"; uri := "/x/1"; uri_path := "/x/1"; headers := [("host", as_bytes "d:80")]; body := [Ok [Byte.x07]] |}.
Definition target : RequestObject :=
  {| req_headers := [("host", ["d"])]; req_method := "GET"; req_url := "https://d/x/1"; req_body := Binary [Byte.x07] |}.
Definition handle : WorkerHandle := {| handle_id := "h" |}.
Definition res : ResponseObject := {| res_headers := []; res_status := 200; res_body := Binary [Byte.x09] |}.

(** The runtime takes the new bundle with its environment and nothing else. *)
Definition E : Environment :=
  {| lookup_route_sent := true; lookup_app_sent := true; app_loaded_at := 0; get_clock _ _ := 0; pool_clock _ _ := 0;
     now _ := 5; Proxy.rng _ := 0; open01 _ := f64_one;
     spawn_worker _ _ app wc b :=
       if decide (app = "x" ∧ b = [Byte.x01] ∧ env wc = CliRun.kv) then Ok (Ok handle)
       else Ok (Err (ScriptInitException "wrong app"));
     fetch _ _ _ := Ok (Ok res) |}.
Definition inst : ReadyInstance :=
  {| inst_rtid := {| runtime_id := "r" |}; last_active := 5; inst_handle := handle; inst_client := {| connection := 4 |} |}.
End DeployRun.

Example deployed_app_serves_holds :
  ∃ s', handle_request (λ _, Some tt) (λ _ _, 0%nat) CliRun.env_of_json CliRun.ns_of_json DeployRun.E DeployRun.req []
          DeployRun.t2 (gc_round CliRun.env_of_json CliRun.ns_of_json DeployRun.t2 DeployRun.s)
    = (build_reply DeployRun.res, (s', [], DeployRun.t2), [(DeployRun.inst, DeployRun.target)]).
Proof.
  apply (deployed_app_serves CliRun.open CliRun.toml (λ _, Some) of_bytes (λ s, Some (as_bytes s))
    CliRun.env_to_json CliRun.env_of_json CliRun.ns_to_json CliRun.ns_of_json (Database "duplicate") id 5 6
    CliRun.rng CliRun.env_json CliRun.ns_json (λ _, Some tt) (λ _ _, 0%nat) DeployRun.E
    "app.toml" "app.tar" "id" (CliRun.config "") [Byte.x01] "d" "/x" [] [] [] CliRun.t DeployRun.t1 DeployRun.t2
    DeployRun.s DeployRun.req (as_bytes "d") DeployRun.target {| runtime_id := "r" |} DeployRun.runtime
    DeployRun.handle DeployRun.res); try reflexivity; try (simpl; lia).
  - exact CliRun.present.
  - intros st Hst. vm_compute in Hst. injection Hst as <-. vm_compute. discriminate.
  - intros p' r Hr _. simpl in Hr. apply lookup_insert_Some in Hr as [[[= <-] _]|[_ Hr]]; [simpl; lia|].
    by rewrite lookup_empty in Hr.
Defined.
