(* ===== verification/ProxyMain.v ===== *)
(** * The proxy process: [main] of [rusty-workers-proxy/src/main.rs]

    How the options become the configuration of the scheduler, and the task that keeps
    the table of runtimes.  Name resolution and the data client are parameters.  The
    metrics of the process are in [Exporter], its HTTP service in [Proxy]. *)
From Stdlib Require Import ZArith Lia Ascii.
From S2P Require Import Prelude BTree Float64 Types Db Lru Sched SchedFacts Proxy.
Local Open Scope Z_scope.

(** ** Options *)
Record Opt := {
  http_listen : string;
  fetch_service : string;
  runtimes : string;
  max_ab_memory_mb : Z;
  max_time_ms : Z;
  max_io_concurrency : Z;
  max_io_per_request : Z;
  max_ready_instances_per_app : nat;
  ready_instance_expiration_ms : Z;
  request_timeout_ms : Z;
  max_request_body_size_bytes : Z;
  dropout_rate : f32;
  route_cache_size : nat;
  db_url : string;
  app_cache_size : nat;
}.

(** How [main] ends before it serves: with an error, or by a panic *)
Inductive StartupError :=
  | LookupFailed (e : string)
  | Unresolved (name : string)
  | NoDataClient (e : GenericError).

Section main.
Context {C : Type → Type → Type} {HC : LruCache C}.
(** [lookup_host], and [DataClient::new] *)
Context (lookup_host : string → result string (list string)) (data_client_new : string → GenericResult unit).

(** The first address of a name: no address is a panic. *)
Definition lookup_one (name : string) : result StartupError string :=
  addrs ← map_err LookupFailed (lookup_host name);
  ok_or (head addrs) (Unresolved name).

Fixpoint lookup_all (names : list string) : result StartupError (list string) :=
  match names with
  | [] => Ok []
  | elem :: names =>
      runtime_addr ← lookup_one elem;
      runtime_cluster ← lookup_all names;
      Ok (runtime_addr :: runtime_cluster)
  end.

Definition worker_configuration (opt : Opt) (fetch_addr : string) : WorkerConfiguration :=
  {| executor := {| Types.max_ab_memory_mb := max_ab_memory_mb opt; Types.max_time_ms := max_time_ms opt;
                    Types.max_io_concurrency := max_io_concurrency opt;
                    Types.max_io_per_request := max_io_per_request opt |};
     Types.fetch_service := fetch_addr; env := []; kv_namespaces := [] |}.

Definition local_configuration (opt : Opt) (runtime_cluster : list string) : LocalConfig :=
  {| Types.runtime_cluster := runtime_cluster;
     Types.max_ready_instances_per_app := max_ready_instances_per_app opt;
     Types.ready_instance_expiration_ms := ready_instance_expiration_ms opt;
     Types.request_timeout_ms := request_timeout_ms opt;
     Types.max_request_body_size_bytes := max_request_body_size_bytes opt;
     Types.dropout_rate := dropout_rate opt;
     Types.route_cache_size := route_cache_size opt;
     Types.app_cache_size := app_cache_size opt |}.

(** [main] up to [SCHEDULER.set] *)
Definition startup (opt : Opt) : result StartupError (Scheduler C) :=
  runtime_cluster ← lookup_all (split_on "," (runtimes opt));
  map_err NoDataClient (data_client_new (db_url opt)) ;;
  fetch_addr ← lookup_one (fetch_service opt);
  Ok (Scheduler_new (worker_configuration opt fetch_addr) (local_configuration opt runtime_cluster)).

(** ** The table of runtimes: one turn of the loop that discovers and queries them *)
Context (connect : string → GenericResult RuntimeServiceClient) (rpc_id : RuntimeServiceClient → RpcResult RuntimeId)
        (reply : RuntimeServiceClient → RpcResult (GenericResult Z)).

Definition runtimes_turn (s : Scheduler C) : Scheduler C :=
  query_runtimes reply (discover_runtimes connect rpc_id s).

(** ** What the start gives *)
Lemma split_on_before_colon s : head (split_on ":" s) = Some (before_colon s).
Proof.
  induction s as [|c s IH]; simpl; [done|]. destruct (decide (c = ":"%char)); [done|].
  destruct (split_on ":" s); simpl in *; congruence.
Qed.

Lemma lookup_all_Ok names addrs :
  lookup_all names = Ok addrs ↔ Forall2 (λ name addr, ∃ l, lookup_host name = Ok (addr :: l)) names addrs.
Proof.
  assert (Hone : ∀ name addr, lookup_one name = Ok addr ↔ ∃ l, lookup_host name = Ok (addr :: l)).
  { intros name addr. unfold lookup_one. destruct (lookup_host name) as [[|a l]|e]; simpl; [naive_solver|..|naive_solver].
    split; [intros [= <-]; by exists l|]. by intros (l' & [= -> ->]). }
  revert addrs. induction names as [|name names IH]; intros addrs; simpl.
  - split; [by intros [= <-]|]. by inversion 1.
  - split.
    + intros (a & Ha & (as' & Has & [= <-])%result_bind_Ok)%result_bind_Ok. constructor; [by apply Hone|by apply IH].
    + inversion 1 as [|? a ? as' Ha Has]; subst. apply Hone in Ha as ->. apply IH in Has. simpl. by rewrite Has.
Qed.

(** The proxy starts exactly when every runtime name and the fetch service resolve and
    the data client connects; it then knows the first address of each name, no runtime
    yet, and has empty caches. *)
Theorem startup_spec opt s :
  startup opt = Ok s ↔
  ∃ cluster fetch_addr l,
    Forall2 (λ name addr, ∃ l, lookup_host name = Ok (addr :: l)) (split_on "," (runtimes opt)) cluster ∧
    data_client_new (db_url opt) = Ok tt ∧ lookup_host (fetch_service opt) = Ok (fetch_addr :: l) ∧
    s = Scheduler_new (worker_configuration opt fetch_addr) (local_configuration opt cluster).
Proof.
  unfold startup. split.
  - intros (cluster & Hc & ([] & Hd & (f & Hf & [= <-])%result_bind_Ok)%result_bind_Ok)%result_bind_Ok.
    apply lookup_all_Ok in Hc. unfold lookup_one in Hf.
    destruct (data_client_new (db_url opt)) as [[]|]; [|done].
    destruct (lookup_host (fetch_service opt)) as [[|a l]|]; simpl in Hf; simplify_eq. by exists cluster, f, l.
  - intros (cluster & f & l & Hc & Hd & Hf & ->). apply lookup_all_Ok in Hc as ->. simpl. rewrite Hd. simpl.
    unfold lookup_one. by rewrite Hf.
Qed.

(** One turn of the loop leaves exactly the runtimes that have just reported their load:
    those known before, and of the unknown ones those that an address of the cluster
    leads to, the first address winning; a known runtime keeps its connection. *)
Theorem runtimes_turn_spec s id :
  bt_sorted (clients s) →
  bt_sorted (clients (runtimes_turn s)) ∧
  bt_get id (clients (runtimes_turn s)) =
    c ← match bt_get id (clients s) with
        | Some rt => Some (rt_client rt)
        | None => first_client id (probe connect rpc_id <$> runtime_cluster (local_config s))
        end;
    match reply c with Ok (Ok l) => Some {| rt_client := c; load := l |} | _ => None end.
Proof.
  intros Hs. destruct (discover_runtimes_spec connect rpc_id s id Hs) as [Hd Hg].
  destruct (query_runtimes_spec reply (discover_runtimes connect rpc_id s) id Hd) as [Hq Hr].
  split; [exact Hq|]. unfold runtimes_turn. rewrite Hr, Hg.
  destruct (bt_get id (clients s)) as [rt|]; [done|]. by destruct (first_client id _).
Qed.
End main.

Example runtimes_turn_spec_holds :
  let s := runtimes_turn SchedRun.connect SchedRun.rpc_id
             (λ c, if decide (connection c = 2%positive) then Err "timeout" else Ok (Ok 9)) SchedRun.s0 in
  bt_sorted (clients SchedRun.s0) ∧
  bt_get (SchedRun.rid "r1") (clients s) = Some (SchedRun.rt 1 9) ∧
  bt_get (SchedRun.rid "r2") (clients s) = None ∧
  bt_get (SchedRun.rid "r3") (clients s) = Some (SchedRun.rt 8 9).
Proof.
  intros s. split; [exact SchedRun.clients_sorted|]. unfold s.
  split_and!; (rewrite (proj2 (runtimes_turn_spec SchedRun.connect SchedRun.rpc_id _ SchedRun.s0 _ SchedRun.clients_sorted));
    vm_compute; reflexivity).
Defined.
