(* ===== verification/Ownership.v ===== *)
(** * Who holds a worker instance

    Requests, garbage collection, the terminate task and the app loader run
    concurrently; each takes the locks of [Sched] one at a time, so an execution is a
    sequence of the atomic steps below.  A worker spawned for an app never serves
    another app, and never two requests at the same time. *)
From Stdlib Require Import ZArith Lia.
From S2P Require Import Prelude BTree Float64 Types Db Lru Sched Proxy.

Section ownership.
Context {C : Type → Type → Type} {HC : LruCache C}.

(** The scheduler, the app states ever loaded, the instances requests are using and,
    for every handle the runtimes gave out, the app it was spawned for. *)
Record system := {
  sched : Scheduler C;
  known : list AppState;
  held : list (AppState * ReadyInstance);
  origin : gmap WorkerHandle AppState;
}.

Definition with_sched (s : Scheduler C) (sys : system) : system :=
  {| sched := s; known := known sys; held := held sys; origin := origin sys |}.

(** Runtimes draw a handle from 128 random bits; a handle is taken to be new. *)
Inductive step (sys : system) : system → Prop :=
  | step_gc clock app :
      app ∈ known sys → step sys (with_sched (gc_ready_instances clock app (sched sys)) sys)
  | step_pop now app inst s' :
      app ∈ known sys → pop_ready now app (sched sys) = Some (inst, s') →
      step sys {| sched := s'; known := known sys; held := (app, inst) :: held sys; origin := origin sys |}
  | step_spawn app inst :
      app ∈ known sys → origin sys !! inst_handle inst = None →
      step sys {| sched := sched sys; known := known sys; held := (app, inst) :: held sys;
                  origin := <[inst_handle inst := app]> (origin sys) |}
  | step_push app inst l1 l2 :
      held sys = l1 ++ (app, inst) :: l2 →
      step sys {| sched := push_ready app inst (sched sys); known := known sys;
                  held := l1 ++ l2; origin := origin sys |}
  | step_drop_out app inst l1 l2 :
      held sys = l1 ++ (app, inst) :: l2 →
      step sys {| sched := set_pools (try_send inst (terminate_queue (sched sys)))
                             (ready_store (sched sys)) (sched sys);
                  known := known sys; held := l1 ++ l2; origin := origin sys |}
  | step_abandon app inst l1 l2 :
      held sys = l1 ++ (app, inst) :: l2 →
      step sys {| sched := sched sys; known := known sys; held := l1 ++ l2; origin := origin sys |}
  | step_terminate inst s' :
      terminate_next (sched sys) = Some (inst, s') → step sys (with_sched s' sys)
  | step_load app s' :
      new_deque (sched sys) = (ready_instances app, s') →
      step sys {| sched := s'; known := app :: known sys; held := held sys; origin := origin sys |}
  | step_tables s' :
      ready_store s' = ready_store (sched sys) → terminate_queue s' = terminate_queue (sched sys) →
      step sys (with_sched s' sys).

Definition initial (sys : system) : Prop :=
  ready_store (sched sys) = ∅ ∧ terminate_queue (sched sys) = [] ∧
  known sys = [] ∧ held sys = [] ∧ origin sys = ∅.

(** ** The invariant *)

(** the instances of all pools *)
Definition pooled (m : gmap positive (list ReadyInstance)) : list ReadyInstance :=
  concat (map_to_list m).*2.

(** all instances a task or a pool can reach *)
Definition reach (sys : system) : list ReadyInstance :=
  pooled (ready_store (sched sys)) ++ (held sys).*2 ++ terminate_queue (sched sys).

Record owned (sys : system) : Prop := {
  owned_nodup : NoDup (inst_handle <$> reach sys);
  owned_issued inst : inst ∈ reach sys → is_Some (origin sys !! inst_handle inst);
  owned_locations : NoDup (ready_instances <$> known sys);
  owned_allocated app : app ∈ known sys → is_Some (ready_store (sched sys) !! ready_instances app);
  owned_pool l insts inst :
    ready_store (sched sys) !! l = Some insts → inst ∈ insts →
    ∃ app, app ∈ known sys ∧ ready_instances app = l ∧ origin sys !! inst_handle inst = Some app;
  owned_held app inst :
    (app, inst) ∈ held sys → app ∈ known sys ∧ origin sys !! inst_handle inst = Some app;
}.

Lemma pooled_split m l :
  pooled m ≡ₚ default [] (m !! l) ++ pooled (delete l m).
Proof.
  unfold pooled. destruct (m !! l) as [insts|] eqn:E; simpl.
  - by rewrite <-(map_to_list_delete m l insts) by done.
  - by rewrite delete_id.
Qed.

Lemma pooled_insert m l insts :
  pooled (<[l := insts]> m) ≡ₚ insts ++ pooled (delete l m).
Proof. rewrite (pooled_split _ l), lookup_insert_eq, delete_insert_eq. done. Qed.

(** What a step may do to the reachable handles, seen as a multiset. *)
Lemma nodup_handles (l l' : list ReadyInstance) :
  inst_handle <$> l' ⊆+ inst_handle <$> l →
  NoDup (inst_handle <$> l) → NoDup (inst_handle <$> l').
Proof. intros Hsub Hnd. by eapply submseteq_NoDup. Qed.

Lemma issued_handles (o : gmap WorkerHandle AppState) (l l' : list ReadyInstance) :
  inst_handle <$> l' ⊆+ inst_handle <$> l →
  (∀ inst, inst ∈ l → is_Some (o !! inst_handle inst)) →
  ∀ inst, inst ∈ l' → is_Some (o !! inst_handle inst).
Proof.
  intros Hsub Hl inst Hin.
  assert (Hh : inst_handle inst ∈ inst_handle <$> l).
  { eapply elem_of_submseteq; [|exact Hsub]. by apply list_elem_of_fmap_2. }
  apply list_elem_of_fmap in Hh as (inst' & -> & Hin'). by apply Hl.
Qed.

(** An app is determined by the location of its deque. *)
Lemma known_injective sys app app' :
  owned sys → app ∈ known sys → app' ∈ known sys →
  ready_instances app = ready_instances app' → app = app'.
Proof.
  intros Ho Ha Ha' Heq. pose proof (owned_locations _ Ho) as Hnd.
  apply list_elem_of_lookup in Ha as [i Hi], Ha' as [j Hj].
  assert (i = j) as ->; [|congruence].
  eapply (NoDup_lookup _ i j); [exact Hnd|rewrite list_lookup_fmap, Hi; done|].
  rewrite list_lookup_fmap, Hj. simpl. by rewrite Heq.
Qed.

(** ** Collecting a pool only moves instances to the queue or loses them *)
Lemma try_send_sub x q : try_send x q ⊆+ x :: q.
Proof.
  unfold try_send. case_decide.
  - by rewrite Permutation_app_comm.
  - by apply submseteq_cons.
Qed.

Lemma gc_excess_sub max ready q ready' q' :
  gc_excess max ready q = (ready', q') → ready' ++ q' ⊆+ ready ++ q ∧ ready' ⊆+ ready.
Proof.
  revert q. induction ready as [|x ready IH]; intros q; cbn [gc_excess].
  { by intros [= <- <-]. }
  case_decide; [|by intros [= <- <-]]. intros [Hs Hr]%IH. split; [|by apply submseteq_cons].
  rewrite Hs. simpl. rewrite (try_send_sub x q). by rewrite Permutation_middle.
Qed.

Lemma gc_expired_sub e clock ready q ready' q' :
  gc_expired e clock ready q = (ready', q') → ready' ++ q' ⊆+ ready ++ q ∧ ready' ⊆+ ready.
Proof.
  revert clock q. induction ready as [|x ready IH]; intros clock q; cbn [gc_expired].
  { by intros [= <- <-]. }
  destruct (is_usable _ _ _); [by intros [= <- <-]|].
  intros [Hs Hr]%IH. split; [|by apply submseteq_cons].
  rewrite Hs. simpl. rewrite (try_send_sub x q). by rewrite Permutation_middle.
Qed.

Lemma gc_lists_sub cfg clock ready q ready' q' :
  gc_lists cfg clock ready q = (ready', q') → ready' ++ q' ⊆+ ready ++ q ∧ ready' ⊆+ ready.
Proof.
  unfold gc_lists. destruct (gc_excess _ ready q) as [r1 q1] eqn:E1.
  apply gc_excess_sub in E1 as [H1 G1]. intros [H2 G2]%gc_expired_sub.
  split; [by rewrite H2|by rewrite G2].
Qed.
(** ** Preservation *)
Definition handles (sys : system) : list WorkerHandle := inst_handle <$> reach sys.

(** Steps that create no worker and no app keep the invariant when they only move
    instances between a pool and its app's requests, or drop them. *)
Lemma owned_moves sys sys' :
  owned sys → known sys' = known sys → origin sys' = origin sys →
  handles sys' ⊆+ handles sys →
  (∀ l, is_Some (ready_store (sched sys) !! l) → is_Some (ready_store (sched sys') !! l)) →
  (∀ l insts inst, ready_store (sched sys') !! l = Some insts → inst ∈ insts →
     (∃ insts0, ready_store (sched sys) !! l = Some insts0 ∧ inst ∈ insts0) ∨
     (∃ app, (app, inst) ∈ held sys ∧ ready_instances app = l)) →
  (∀ app inst, (app, inst) ∈ held sys' → (app, inst) ∈ held sys ∨
     app ∈ known sys ∧ ∃ inst0, inst0 ∈ ready_of app (sched sys) ∧ inst_handle inst0 = inst_handle inst) →
  owned sys'.
Proof.
  intros Ho Hk Hor Hh Halloc Hpool Hheld. split.
  - eapply nodup_handles; [exact Hh|apply Ho].
  - rewrite Hor. eapply issued_handles; [exact Hh|apply Ho].
  - rewrite Hk. apply Ho.
  - rewrite Hk. intros app Happ. by apply Halloc, Ho.
  - rewrite Hk, Hor. intros l insts inst Hl Hin.
    destruct (Hpool l insts inst Hl Hin) as [(insts0 & Hl0 & Hin0)|(app & Happ & <-)].
    + by eapply (owned_pool sys).
    + exists app. destruct (owned_held sys Ho _ _ Happ). done.
  - rewrite Hk, Hor. intros app inst [Hin|(Happ & inst0 & Hin & <-)]%Hheld; [by apply Ho|].
    split; [done|]. unfold ready_of in Hin.
    destruct (ready_store (sched sys) !! ready_instances app) as [insts|] eqn:El;
      [|by apply elem_of_nil in Hin].
    destruct (owned_pool sys Ho _ _ _ El Hin) as (app' & Happ' & Hloc & Horig).
    by rewrite (known_injective sys app app').
Qed.

(** Replacing the deque of an app and the terminate queue. *)
Lemma handles_pools (s : Scheduler C) k h o l insts q :
  handles {| sched := set_pools q (<[l := insts]> (ready_store s)) s; known := k; held := h; origin := o |}
  ≡ₚ (inst_handle <$> insts ++ h.*2 ++ q) ++ (inst_handle <$> pooled (delete l (ready_store s))).
Proof.
  unfold handles, reach. simpl. rewrite <-fmap_app. apply fmap_Permutation.
  rewrite pooled_insert. solve_Permutation.
Qed.

Lemma handles_split sys l :
  handles sys ≡ₚ (inst_handle <$> default [] (ready_store (sched sys) !! l) ++ (held sys).*2 ++
                    terminate_queue (sched sys)) ++
                 (inst_handle <$> pooled (delete l (ready_store (sched sys)))).
Proof.
  unfold handles, reach. rewrite <-fmap_app. apply fmap_Permutation.
  rewrite (pooled_split _ l). solve_Permutation.
Qed.

Lemma alloc_insert (m : gmap positive (list ReadyInstance)) l x l' :
  is_Some (m !! l') → is_Some (<[l := x]> m !! l').
Proof. intros. destruct (decide (l = l')) as [->|]; [rewrite lookup_insert_eq|rewrite lookup_insert_ne]; eauto. Qed.

Lemma held_without sys app inst l1 l2 :
  held sys = l1 ++ (app, inst) :: l2 →
  (app, inst) ∈ held sys ∧ (∀ x, x ∈ l1 ++ l2 → x ∈ held sys) ∧
  (held sys).*2 ≡ₚ inst :: (l1 ++ l2).*2.
Proof.
  intros ->. split_and!.
  - apply elem_of_app. right. by left.
  - intros x Hx. apply elem_of_app. apply elem_of_app in Hx as [|]; [by left|right; by right].
  - rewrite !fmap_app, fmap_cons. simpl. by rewrite <-Permutation_middle.
Qed.

Lemma gc_owned sys clock app :
  app ∈ known sys → owned sys → owned (with_sched (gc_ready_instances clock app (sched sys)) sys).
Proof.
  intros Happ Ho. unfold gc_ready_instances, with_sched, ready_of.
  destruct (gc_lists _ _ _ _) as [ready' q'] eqn:Eg. apply gc_lists_sub in Eg as [Hsub Hr].
  apply (owned_moves sys); try done.
  - rewrite handles_pools, (handles_split sys (ready_instances app)).
    apply submseteq_skips_r. apply fmap_submseteq. etrans; [|etrans; [apply submseteq_skips_l, Hsub|]].
    + instantiate (1 := (held sys).*2). solve_submseteq.
    + solve_submseteq.
  - intros l Hl. by apply alloc_insert.
  - intros l insts inst Hl Hin. left. simpl in Hl.
    apply lookup_insert_Some in Hl as [[<- <-]|[_ Hl]]; [|by exists insts].
    assert (Hin0 : inst ∈ default [] (ready_store (sched sys) !! ready_instances app))
      by (by eapply elem_of_submseteq).
    destruct (ready_store (sched sys) !! ready_instances app); [by eexists|by apply elem_of_nil in Hin0].
  - intros. by left.
Qed.

Lemma pop_owned sys now app inst s' :
  app ∈ known sys → pop_ready now app (sched sys) = Some (inst, s') → owned sys →
  owned {| sched := s'; known := known sys; held := (app, inst) :: held sys; origin := origin sys |}.
Proof.
  intros Happ Hpop Ho. unfold pop_ready in Hpop.
  destruct (ready_of app (sched sys)) as [|x rest] eqn:Er; [done|]. injection Hpop as <- <-.
  apply (owned_moves sys); try done.
  - rewrite handles_pools, (handles_split sys (ready_instances app)).
    unfold ready_of in Er. rewrite Er. apply submseteq_skips_r.
    rewrite !fmap_app, !fmap_cons. cbn [snd update_last_active inst_handle].
    solve_submseteq.
  - intros l Hl. by apply alloc_insert.
  - intros l insts inst Hl Hin. left. simpl in Hl.
    apply lookup_insert_Some in Hl as [[<- <-]|[_ Hl]]; [|by exists insts].
    unfold ready_of in Er. destruct (ready_store (sched sys) !! ready_instances app) as [insts|]; [|done].
    simpl in Er. subst. exists (x :: rest). split; [done|by right].
  - intros app' inst' [[= -> ->]|Hin]%elem_of_cons; [right|by left].
    split; [done|]. exists x. rewrite Er. split; [by left|done].
Qed.

Lemma push_owned sys app inst l1 l2 :
  held sys = l1 ++ (app, inst) :: l2 → owned sys →
  owned {| sched := push_ready app inst (sched sys); known := known sys;
           held := l1 ++ l2; origin := origin sys |}.
Proof.
  intros Hh Ho. destruct (held_without _ _ _ _ _ Hh) as (Hin & Hsub & Hperm).
  apply (owned_moves sys); try done.
  - unfold push_ready. rewrite handles_pools, (handles_split sys (ready_instances app)).
    apply submseteq_skips_r, fmap_submseteq, Permutation_submseteq.
    unfold ready_of. rewrite Hperm. solve_Permutation.
  - intros l Hl. by apply alloc_insert.
  - intros l insts inst' Hl Hin'. simpl in Hl.
    apply lookup_insert_Some in Hl as [[<- <-]|[_ Hl]]; [|left; by exists insts].
    apply elem_of_app in Hin' as [Hin'|Heq%list_elem_of_singleton]; [left|right; subst; by exists app].
    unfold ready_of in Hin'.
    destruct (ready_store (sched sys) !! ready_instances app); [by eexists|by apply elem_of_nil in Hin'].
  - intros app' inst' Hin'. left. by apply Hsub.
Qed.

(** Giving up an instance, to the queue or altogether. *)
Lemma release_owned sys app inst l1 l2 q :
  held sys = l1 ++ (app, inst) :: l2 → q ⊆+ inst :: terminate_queue (sched sys) → owned sys →
  owned {| sched := set_pools q (ready_store (sched sys)) (sched sys); known := known sys;
           held := l1 ++ l2; origin := origin sys |}.
Proof.
  intros Hh Hq Ho. destruct (held_without _ _ _ _ _ Hh) as (Hin & Hsub & Hperm).
  apply (owned_moves sys); try done.
  - apply fmap_submseteq. unfold reach. simpl. apply submseteq_skips_l. rewrite Hperm, Hq.
    solve_submseteq.
  - intros l insts inst' Hl Hin'. left. by exists insts.
  - intros app' inst' Hin'. left. by apply Hsub.
Qed.

Lemma terminate_owned sys inst s' :
  terminate_next (sched sys) = Some (inst, s') → owned sys → owned (with_sched s' sys).
Proof.
  unfold terminate_next. destruct (terminate_queue (sched sys)) as [|x q] eqn:Eq; [done|].
  intros [= <- <-] Ho. apply (owned_moves sys); try done.
  - apply fmap_submseteq. unfold reach. simpl. rewrite Eq. solve_submseteq.
  - intros l insts inst' Hl Hin'. left. by exists insts.
  - intros. by left.
Qed.

Lemma tables_owned sys s' :
  ready_store s' = ready_store (sched sys) → terminate_queue s' = terminate_queue (sched sys) →
  owned sys → owned (with_sched s' sys).
Proof.
  intros Hr Hq Ho. apply (owned_moves sys); try done; simpl; rewrite ?Hr; try done.
  - apply fmap_submseteq. unfold reach. simpl. by rewrite Hr, Hq.
  - intros l insts inst' Hl Hin'. left. by exists insts.
  - intros. by left.
Qed.

Lemma spawn_owned sys app inst :
  app ∈ known sys → origin sys !! inst_handle inst = None → owned sys →
  owned {| sched := sched sys; known := known sys; held := (app, inst) :: held sys;
           origin := <[inst_handle inst := app]> (origin sys) |}.
Proof.
  intros Happ Hnew Ho.
  assert (Hne : ∀ inst', is_Some (origin sys !! inst_handle inst') → inst_handle inst ≠ inst_handle inst').
  { intros inst' [x Hx] Heq. rewrite Heq in Hnew. congruence. }
  set (sys' := {| sched := sched sys; known := known sys; held := (app, inst) :: held sys;
                  origin := <[inst_handle inst := app]> (origin sys) |}).
  assert (Hreach : reach sys' ≡ₚ inst :: reach sys).
  { unfold reach. simpl. by rewrite <-Permutation_middle. }
  split; simpl.
  - rewrite Hreach, fmap_cons. apply NoDup_cons. split; [|apply Ho].
    intros (inst' & Heq & Hin)%list_elem_of_fmap. by apply (Hne inst'); [apply Ho|].
  - intros inst'. rewrite Hreach. intros [->|Hin]%elem_of_cons; [rewrite lookup_insert_eq; eauto|].
    pose proof (owned_issued _ Ho _ Hin) as Hs. by rewrite lookup_insert_ne by auto.
  - apply Ho.
  - apply Ho.
  - intros l insts inst' Hl Hin. destruct (owned_pool _ Ho _ _ _ Hl Hin) as (app' & ? & ? & Hor).
    exists app'. by rewrite lookup_insert_ne by eauto.
  - intros app' inst' [[= -> ->]|Hin]%elem_of_cons; [by rewrite lookup_insert_eq|].
    destruct (owned_held _ Ho _ _ Hin) as [? Hor]. by rewrite lookup_insert_ne by eauto.
Qed.

Lemma load_owned sys app s' :
  new_deque (sched sys) = (ready_instances app, s') → owned sys →
  owned {| sched := s'; known := app :: known sys; held := held sys; origin := origin sys |}.
Proof.
  unfold new_deque. intros [= Hloc <-] Ho.
  pose proof (is_fresh (dom (ready_store (sched sys)))) as Hf. rewrite Hloc in *.
  apply not_elem_of_dom in Hf.
  set (sys' := {| sched := _; known := _; held := _; origin := _ |}).
  assert (Hh : handles sys' ≡ₚ handles sys).
  { unfold sys'. rewrite handles_pools, (handles_split sys (ready_instances app)), Hf. done. }
  assert (Hsub : handles sys' ⊆+ handles sys) by by rewrite Hh.
  split; simpl.
  - eapply nodup_handles; [exact Hsub|apply Ho].
  - eapply issued_handles; [exact Hsub|apply Ho].
  - apply NoDup_cons. split; [|apply Ho].
    intros (app' & Heq & [x Hx]%(owned_allocated _ Ho))%list_elem_of_fmap. congruence.
  - intros app' [->|Hin]%elem_of_cons; [rewrite lookup_insert_eq; eauto|]. by apply alloc_insert, Ho.
  - intros l insts inst Hl Hin.
    apply lookup_insert_Some in Hl as [[<- <-]|[_ Hl]]; [by apply elem_of_nil in Hin|].
    destruct (owned_pool _ Ho _ _ _ Hl Hin) as (app' & ? & ? & ?). exists app'. split; [by right|done].
  - intros app' inst Hin. destruct (owned_held _ Ho _ _ Hin). split; [by right|done].
Qed.

Lemma set_pools_same (s : Scheduler C) : set_pools (terminate_queue s) (ready_store s) s = s.
Proof. by destruct s. Qed.

Lemma step_owned sys sys' : step sys sys' → owned sys → owned sys'.
Proof.
  destruct 1 as [clock app Happ|now app inst s' Happ Hpop|app inst Happ Hnew|app inst l1 l2 Hh
                |app inst l1 l2 Hh|app inst l1 l2 Hh|inst s' Ht|app s' Hnew|s' Hr Hq].
  - by apply gc_owned.
  - by eapply pop_owned.
  - by apply spawn_owned.
  - by apply push_owned.
  - eapply release_owned; [done|apply try_send_sub].
  - rewrite <-(set_pools_same (sched sys)). eapply release_owned; [done|by apply submseteq_cons].
  - by eapply terminate_owned.
  - by apply load_owned.
  - by apply tables_owned.
Qed.

Lemma initial_owned sys : initial sys → owned sys.
Proof.
  intros (Hr & Hq & Hk & Hh & Ho). split; unfold reach; rewrite ?Hr, ?Hq, ?Hk, ?Hh, ?Ho.
  - constructor.
  - intros inst ?%elem_of_nil. done.
  - constructor.
  - intros app ?%elem_of_nil. done.
  - intros l insts inst. by rewrite lookup_empty.
  - intros app inst ?%elem_of_nil. done.
Qed.

(** C2. However requests, garbage collections, the terminate task and the app loader
    interleave: the workers that requests are using are distinct, each was spawned
    for the app whose request uses it, and none of them is at the same time in a
    pool or waiting to be terminated. *)
Theorem workers_never_shared sys0 sys :
  initial sys0 → rtc step sys0 sys →
  NoDup (inst_handle <$> (held sys).*2) ∧
  ∀ app inst, (app, inst) ∈ held sys →
    origin sys !! inst_handle inst = Some app ∧
    (∀ l insts inst', ready_store (sched sys) !! l = Some insts → inst' ∈ insts →
       inst_handle inst' ≠ inst_handle inst) ∧
    (∀ inst', inst' ∈ terminate_queue (sched sys) → inst_handle inst' ≠ inst_handle inst).
Proof.
  intros Hinit Hsteps.
  assert (Ho : owned sys) by (eapply rtc_invariant; [exact step_owned|done|by apply initial_owned]).
  pose proof (owned_nodup _ Ho) as Hnd. unfold reach in Hnd. rewrite !fmap_app in Hnd.
  apply NoDup_app in Hnd as (_ & Hdisj & Hnd). apply NoDup_app in Hnd as (Hnd & Hdisj' & _).
  split; [done|]. intros app inst Hin.
  assert (Hheld : inst_handle inst ∈ inst_handle <$> (held sys).*2).
  { apply list_elem_of_fmap_2, list_elem_of_fmap. by exists (app, inst). }
  split_and!.
  - by eapply owned_held.
  - intros l insts inst' Hl Hin' Heq. apply (Hdisj (inst_handle inst)).
    + rewrite <-Heq. apply list_elem_of_fmap_2. unfold pooled. apply list_elem_of_In, in_concat.
      exists insts. split; apply list_elem_of_In; [|done]. apply list_elem_of_fmap.
      exists (l, insts). split; [done|]. by apply elem_of_map_to_list.
    + apply elem_of_app. by left.
  - intros inst' Hin' Heq. apply (Hdisj' (inst_handle inst)); [done|]. rewrite <-Heq.
    by apply list_elem_of_fmap_2.
Qed.

(** ** The handlers are made of these steps *)
Section handlers.
Context {HH : Http} {Distribution : Type} (weighted_index_new : list Z → option Distribution)
        (sample : Distribution → Z → nat).

Lemma with_sched_same sys : with_sched (sched sys) sys = sys.
Proof. by destruct sys. Qed.

Lemma get_instance_steps spawn clock now rng app sys r s' :
  app ∈ known sys →
  (∀ client id cfg b h, spawn client id cfg b = Ok (Ok h) → origin sys !! h = None) →
  get_instance weighted_index_new sample spawn clock now rng app (sched sys) = (r, s') →
  match r with
  | Ok inst => ∃ o,
      rtc step sys {| sched := s'; known := known sys; held := (app, inst) :: held sys; origin := o |} ∧
      (o = origin sys ∨ o = <[inst_handle inst := app]> (origin sys) ∧
         ∃ client id cfg b, spawn client id cfg b = Ok (Ok (inst_handle inst)))
  | Err _ => rtc step sys (with_sched s' sys)
  end.
Proof.
  intros Happ Hfresh. unfold get_instance.
  pose proof (step_gc sys clock app Happ) as Hgc.
  set (s1 := gc_ready_instances clock app (sched sys)) in *.
  destruct (pop_ready now app s1) as [[inst s2]|] eqn:Ep.
  { intros [= <- <-]. exists (origin sys). split; [|by left].
    eapply rtc_l; [exact Hgc|]. apply rtc_once.
    exact (step_pop (with_sched s1 sys) now app inst s2 Happ Ep). }
  intros [= <- <-].
  destruct (choose_runtime _ _ _ _) as [[rtid rt]|]; simpl; [|by apply rtc_once].
  destruct (spawn _ _ _ _) as [[h|]|] eqn:Es; simpl; [|by apply rtc_once..].
  eexists. split.
  - eapply rtc_l; [exact Hgc|]. apply rtc_once.
    exact (step_spawn (with_sched s1 sys) app
             {| inst_rtid := rtid; last_active := now; inst_handle := h; inst_client := rt_client rt |}
             Happ (Hfresh _ _ _ _ _ Es)).
  - right. split; [done|]. eauto 6.
Qed.

Lemma pool_instance_steps smp clock app inst sys h :
  app ∈ known sys → held sys = (app, inst) :: h →
  rtc step sys {| sched := pool_instance smp clock app inst (sched sys); known := known sys;
                  held := h; origin := origin sys |}.
Proof.
  intros Happ Hh. unfold pool_instance. destruct (f64_gt _ _).
  - eapply rtc_l; [exact (step_push sys app inst [] h Hh)|]. apply rtc_once.
    by apply (step_gc {| sched := push_ready app inst (sched sys); known := known sys; held := h;
                         origin := origin sys |}).
  - eapply rtc_l; [exact (step_drop_out sys app inst [] h Hh)|]. apply rtc_once.
    by apply (step_gc {| sched := set_pools (try_send inst (terminate_queue (sched sys)))
                                    (ready_store (sched sys)) (sched sys);
                         known := known sys; held := h; origin := origin sys |}).
Qed.

(** The retry loop of [handle_request] is a sequence of the steps above that gives
    back every instance it took, whatever runtimes and workers answer, as long as
    spawning yields new handles. *)
Theorem attempts_steps E n i app target sys r s' tr :
  app ∈ known sys →
  (∀ j client id cfg b h, i ≤ j → spawn_worker E j client id cfg b = Ok (Ok h) → origin sys !! h = None) →
  (∀ j j' c c' d d' g g' b b' h, j ≠ j' → spawn_worker E j c d g b = Ok (Ok h) →
     spawn_worker E j' c' d' g' b' = Ok (Ok h) → False) →
  attempts weighted_index_new sample E n i app target (sched sys) = (r, s', tr) →
  ∃ o, rtc step sys {| sched := s'; known := known sys; held := held sys; origin := o |}.
Proof.
  intros Happ Hfresh Hinj. revert i sys Happ Hfresh r s' tr.
  induction n as [|n IH]; intros i sys Happ Hfresh r s' tr; cbn [attempts].
  { intros [= <- <- <-]. exists (origin sys). by destruct sys. }
  destruct (get_instance _ _ _ _ _ _ _ _) as [[inst|e] s1] eqn:Eg;
    pose proof (get_instance_steps _ _ _ _ _ _ _ _ Happ (λ c d g b h, Hfresh i c d g b h (le_n i)) Eg) as Hget.
  2: { intros [= <- <- <-]. by exists (origin sys). }
  destruct Hget as (o & Hget & Ho).
  set (sys1 := {| sched := s1; known := known sys; held := (app, inst) :: held sys; origin := o |}) in *.
  assert (Hnext : ∀ s2, ready_store s2 = ready_store s1 → terminate_queue s2 = terminate_queue s1 →
    let '(r, s', tr) := attempts weighted_index_new sample E n (S i) app target s2 in
    ∃ o, rtc step sys {| sched := s'; known := known sys; held := held sys; origin := o |}).
  { intros s2 Hr Hq.
    set (sys2 := {| sched := s2; known := known sys; held := held sys; origin := o |}).
    destruct (attempts weighted_index_new sample E n (S i) app target s2) as [[r2 s3] tr2] eqn:Ea.
    destruct (IH (S i) sys2 Happ) with (r := r2) (s' := s3) (tr := tr2) as [o' Ho']; [|exact Ea|].
    - intros j c d g b h Hj Hs. simpl. destruct Ho as [->|(-> & c' & d' & g' & b' & Hs')].
      + eapply Hfresh; [|exact Hs]. lia.
      + rewrite lookup_insert_ne; [eapply Hfresh; [|exact Hs]; lia|]. intros <-.
        eapply (Hinj i j); [lia|exact Hs'|exact Hs].
    - exists o'. etrans; [exact Hget|]. eapply rtc_l; [exact (step_abandon sys1 app inst [] (held sys) eq_refl)|].
      eapply rtc_l; [|exact Ho'].
      by apply (step_tables {| sched := s1; known := known sys; held := held sys; origin := o |} s2). }
  destruct (fetch E i inst target) as [[res|e]|e].
  - intros [= <- <- <-]. exists o. etrans; [exact Hget|].
    exact (pool_instance_steps _ _ app inst sys1 (held sys) Happ eq_refl).
  - specialize (Hnext s1 eq_refl eq_refl).
    assert (Hend : ∀ b : bool, ∃ o, rtc step sys {| sched := if b then s1 else pool E i app inst s1;
                    known := known sys; held := held sys; origin := o |}).
    { intros b. exists o. etrans; [exact Hget|]. destruct b.
      - apply rtc_once. exact (step_abandon sys1 app inst [] (held sys) eq_refl).
      - exact (pool_instance_steps _ _ app inst sys1 (held sys) Happ eq_refl). }
    destruct e; try (intros [= <- <- <-]; first [exact (Hend true)|exact (Hend false)]).
    destruct (attempts _ _ _ n (S i) app target s1) as [[r2 s3] tr2]. by intros [= <- <- <-].
  - specialize (Hnext (set_clients (bt_remove (inst_rtid inst)) s1) eq_refl eq_refl).
    destruct (attempts _ _ _ n (S i) app target _) as [[r2 s3] tr2]. by intros [= <- <- <-].
Qed.
End handlers.

End ownership.

(** ** A run: an app is loaded, a worker spawned, pooled and taken again *)
Module Run.
Import HttpList.

Definition wc : WorkerConfiguration :=
  {| executor := {| max_ab_memory_mb := 1; max_time_ms := 1; max_io_concurrency := 1; max_io_per_request := 1 |};
     fetch_service := ""; env := []; kv_namespaces := [] |}.
Definition cfg : LocalConfig :=
  {| runtime_cluster := []; max_ready_instances_per_app := 5; ready_instance_expiration_ms := 1000;
     request_timeout_ms := 1; max_request_body_size_bytes := 10; dropout_rate := f64_one;
     route_cache_size := 5; app_cache_size := 5 |}.
Definition rt : RtState := {| rt_client := {| connection := 1 |}; load := 0 |}.
Definition app : AppState :=
  {| state_id := {| app_id := "a" |}; state_config := wc; state_bundle_id := "b"; state_bundle := [];
     ready_instances := 1; start_time := 0 |}.
Definition inst (t : Z) : ReadyInstance :=
  {| inst_rtid := {| runtime_id := "r" |}; last_active := t; inst_handle := {| handle_id := "w" |};
     inst_client := rt_client rt |}.
Definition s0 : Scheduler LruList.cache :=
  set_clients (λ _, [({| runtime_id := "r" |}, rt)]) (Scheduler_new wc cfg).
Definition sys0 : system := {| sched := s0; known := []; held := []; origin := ∅ |}.
Definition sys1 : system :=
  {| sched := (new_deque s0).2; known := [app]; held := []; origin := ∅ |}.
Definition sys2 : system :=
  {| sched := sched sys1; known := [app]; held := [(app, inst 0)];
     origin := <[inst_handle (inst 0) := app]> ∅ |}.
Definition sys3 : system :=
  {| sched := push_ready app (inst 0) (sched sys2); known := [app]; held := []; origin := origin sys2 |}.
Definition sys4 : system :=
  {| sched := set_pools [] (<[1%positive := []]> (ready_store (sched sys3))) (sched sys3);
     known := [app]; held := [(app, inst 7)]; origin := origin sys2 |}.

Lemma sys0_sys1 : step sys0 sys1.
Proof. by apply (step_load sys0 app). Qed.

Lemma run : rtc step sys0 sys4.
Proof.
  eapply rtc_l; [apply sys0_sys1|].
  eapply rtc_l; [apply (step_spawn sys1 app (inst 0)); [by left|done]|].
  eapply rtc_l; [by apply (step_push sys2 app (inst 0) [] [])|].
  apply rtc_once, (step_pop sys3 7 app (inst 7)); [by left|done].
Qed.

Definition E : Environment :=
  {| lookup_route_sent := true; lookup_app_sent := true; app_loaded_at := 0;
     get_clock _ _ := 0%Z; pool_clock _ _ := 0%Z; now _ := 0%Z; rng _ := 0%Z; open01 _ := f64_one;
     spawn_worker j _ _ _ _ := match j with O => Ok (Ok {| handle_id := "w" |}) | _ => Err "down" end;
     fetch _ _ _ := Ok (Ok {| res_headers := []; res_status := 200; res_body := Binary [Byte.x01] |}) |}.
End Run.

Example workers_never_shared_holds :
  initial Run.sys0 ∧ rtc step Run.sys0 Run.sys4 ∧
  origin Run.sys4 !! {| handle_id := "w" |} = Some Run.app.
Proof.
  assert (Hi : initial Run.sys0) by done.
  split; [exact Hi|]. split; [exact Run.run|].
  apply (proj2 (workers_never_shared Run.sys0 Run.sys4 Hi Run.run) Run.app (Run.inst 7)). by left.
Defined.

Example attempts_steps_holds :
  let r := attempts (HH := HttpList.http_list) (λ ws, Some ws) (λ _ _, 0) Run.E 3 0 Run.app
             RequestObject_default (sched Run.sys1) in
  is_ok r.1.1 = true ∧ ∃ o, rtc step Run.sys1
    {| sched := r.1.2; known := known Run.sys1; held := held Run.sys1; origin := o |}.
Proof.
  intros r. split; [vm_compute; reflexivity|].
  apply (attempts_steps (HH := HttpList.http_list) (λ ws, Some ws) (λ _ _, 0) Run.E 3 0 Run.app
           RequestObject_default Run.sys1 r.1.1 r.1.2 r.2).
  - by left.
  - done.
  - intros [|j] [|j'] c c' d d' g g' b b' h Hne; simpl; [done|discriminate..].
  - unfold r. by destruct (attempts _ _ _ _ _ _ _ _) as [[? ?] ?].
Defined.
