(* ===== verification/Mm.v ===== *)
(** * Memory and CPU budgets of the runtime: [rusty-workers-runtime/src/mm.rs],
    [semaphore.rs]

    The ArrayBuffer pool is an atomic counter of the bytes left, a [usize] of 64
    bits; its allocator callbacks hand out byte strings.  Threads race on the
    counter, so the compare-exchange loop is also given step by step.  The CPU
    semaphore is a channel of tokens. *)
From Stdlib Require Import ZArith Lia.
From S2P Require Import Prelude Types.
Local Open Scope Z_scope.

(** ** The pool *)
Record MemoryPool := { remaining_bytes : Z }.

Definition MemoryPool_new (n : Z) : MemoryPool := {| remaining_bytes := n |}.

Definition acquire_precheck (p : MemoryPool) (n : Z) : bool :=
  if decide (remaining_bytes p < n) then false else true.

Definition reset (n : Z) (p : MemoryPool) : MemoryPool := {| remaining_bytes := n |}.

(** [AtomicUsize::compare_exchange]: the new state on success *)
Definition compare_exchange (current new : Z) (p : MemoryPool) : option MemoryPool :=
  if decide (remaining_bytes p = current) then Some {| remaining_bytes := new |} else None.

(** One round of the loop of [acquire_bytes] after it loaded [current]: the value
    it returns, or [None] to go round again *)
Definition acquire_round (current n : Z) (p : MemoryPool) : option bool * MemoryPool :=
  if decide (current < n) then (Some false, p)
  else match compare_exchange current (wrapping_sub 64 current n) p with
       | Some p' => (Some true, p')
       | None => (None, p)
       end.

(** [acquire_bytes] when no other thread interferes: the first round returns *)
Definition acquire_bytes (n : Z) (p : MemoryPool) : bool * MemoryPool :=
  match acquire_round (remaining_bytes p) n p with
  | (Some b, p') => (b, p')
  | (None, p') => (false, p')
  end.

Definition release_bytes (n : Z) (p : MemoryPool) : MemoryPool :=
  {| remaining_bytes := wrapping_add 64 (remaining_bytes p) n |}.

(** ** The allocator callbacks; [None] is the null pointer *)
Definition allocate (n : nat) (p : MemoryPool) : option bytes * MemoryPool :=
  let '(ok, p) := acquire_bytes (Z.of_nat n) p in
  if ok then (Some (replicate n Byte.x00), p) else (None, p).

(** [garbage]: what the uninitialised memory happens to hold *)
Definition allocate_uninitialized (garbage : nat → bytes) (n : nat) (p : MemoryPool)
    : option bytes * MemoryPool :=
  let '(ok, p) := acquire_bytes (Z.of_nat n) p in
  if ok then (Some (garbage n), p) else (None, p).

Definition free (data : bytes) (p : MemoryPool) : MemoryPool := release_bytes (Z.of_nat (length data)) p.

(** [Vec::resize] *)
Definition resize (n : nat) (x : byte) (l : bytes) : bytes := take n l ++ replicate (n - length l) x.

Definition reallocate (prev : bytes) (newlen : nat) (p : MemoryPool) : option bytes * MemoryPool :=
  let oldlen := length prev in
  let finish p :=
    let copy_len := Nat.min oldlen newlen in
    (Some (resize newlen Byte.x00 (take copy_len prev)), p) in
  if decide (newlen ≤ oldlen)%nat then finish (release_bytes (Z.of_nat (oldlen - newlen)) p)
  else let '(ok, p) := acquire_bytes (Z.of_nat (newlen - oldlen)) p in
       if ok then finish p else (None, p).

(** ** Buffers for JavaScript *)
Definition acquire_arraybuffer_precheck (p : MemoryPool) (n : Z) : GenericResult unit :=
  if acquire_precheck p n then Ok tt else Err (Execution MemoryLimitExceeded).

(** [slice_to_arraybuffer]: V8 asks the allocator for the buffer and dies when it
    gets none, which is [None]. *)
Definition slice_to_arraybuffer (data : bytes) (p : MemoryPool) : option (GenericResult bytes * MemoryPool) :=
  match acquire_arraybuffer_precheck p (Z.of_nat (length data)) with
  | Err e => Some (Err e, p)
  | Ok _ =>
      match allocate (length data) p with
      | (Some backing, p) => Some (Ok (foldl (λ b ix, <[ix.1 := ix.2]> b) backing (imap pair data)), p)
      | (None, _) => None
      end
  end.

(** ** Properties of the sequential operations *)
Lemma acquire_bytes_spec n p :
  0 <= n → fits 64 (remaining_bytes p) →
  acquire_bytes n p =
    if decide (n <= remaining_bytes p) then (true, {| remaining_bytes := remaining_bytes p - n |})
    else (false, p).
Proof.
  intros Hn [Hp0 Hp]. unfold acquire_bytes, acquire_round, compare_exchange.
  destruct (decide (remaining_bytes p < n)) as [Hlt|Hge].
  - by rewrite decide_False by lia.
  - rewrite decide_True by done. rewrite decide_True by lia.
    by rewrite wrapping_sub_small by lia.
Qed.

Lemma length_resize n x l : length (resize n x l) = n.
Proof. unfold resize. rewrite length_app, length_take, length_replicate. lia. Qed.

(** Reallocation: the new block has the new length, the old bytes as far as they
    fit and zeros after them, and the pool is charged exactly the difference; a
    refused one leaves the pool as it was and only a growth beyond the bytes left
    is refused. *)
Theorem reallocate_spec prev newlen p :
  fits 64 (remaining_bytes p) →
  remaining_bytes p + Z.of_nat (length prev) < 2 ^ 64 →
  match reallocate prev newlen p with
  | (Some new, p') =>
      length new = newlen ∧
      (∀ i, (i < newlen)%nat → new !! i = Some (default Byte.x00 (prev !! i))) ∧
      remaining_bytes p' + Z.of_nat newlen = remaining_bytes p + Z.of_nat (length prev)
  | (None, p') =>
      p' = p ∧ remaining_bytes p + Z.of_nat (length prev) < Z.of_nat newlen
  end.
Proof.
  intros Hp Hsum. unfold reallocate.
  assert (Hnew : ∀ i, (i < newlen)%nat →
    resize newlen Byte.x00 (take (Nat.min (length prev) newlen) prev) !! i =
      Some (default Byte.x00 (prev !! i))).
  { intros i Hi. unfold resize. rewrite take_take, length_take.
    destruct (decide (i < length prev)%nat) as [Hlt|Hge].
    - rewrite lookup_app_l by (rewrite length_take; lia). rewrite lookup_take_lt by lia.
      destruct (lookup_lt_is_Some_2 prev i Hlt) as [x ->]. done.
    - rewrite lookup_app_r by (rewrite length_take; lia). rewrite length_take.
      rewrite lookup_replicate_2 by lia. by rewrite (lookup_ge_None_2 prev) by lia. }
  case_decide as Hle.
  - split_and!; [apply length_resize|done|]. simpl.
    destruct Hp. rewrite wrapping_add_small by lia. lia.
  - rewrite acquire_bytes_spec by (done || lia). case_decide.
    + split_and!; [apply length_resize|done|simpl; lia].
    + split; [done|lia].
Qed.

Example reallocate_spec_holds :
  let p := {| remaining_bytes := 1 |} in
  (fits 64 (remaining_bytes p) ∧ remaining_bytes p + 2 < 2 ^ 64) ∧
  (reallocate [Byte.x01; Byte.x02] 4 p).1 = None ∧
  ∃ p', reallocate [Byte.x01; Byte.x02] 3 p = (Some [Byte.x01; Byte.x02; Byte.x00], p') ∧
        remaining_bytes p' + 3 = 1 + 2.
Proof.
  intros p. assert (Hf : fits 64 (remaining_bytes p)) by (unfold fits; simpl; lia).
  split; [split; [exact Hf|simpl; lia]|]. split; [reflexivity|].
  pose proof (reallocate_spec [Byte.x01; Byte.x02] 3 p Hf ltac:(simpl; lia)) as (_ & _ & Hr).
  eexists. split; [reflexivity|exact Hr].
Defined.

(** After a successful precheck V8 gets its buffer: a worker over its budget sees
    an error and never brings the process down. *)
Theorem slice_to_arraybuffer_spec data p :
  fits 64 (remaining_bytes p) →
  slice_to_arraybuffer data p =
    Some (if decide (Z.of_nat (length data) <= remaining_bytes p)
          then (Ok data, {| remaining_bytes := remaining_bytes p - Z.of_nat (length data) |})
          else (Err (Execution MemoryLimitExceeded), p)).
Proof.
  intros Hp. unfold slice_to_arraybuffer, acquire_arraybuffer_precheck, acquire_precheck, allocate.
  rewrite acquire_bytes_spec by (done || lia).
  destruct (decide (remaining_bytes p < Z.of_nat (length data))) as [Hlt|Hge].
  - by rewrite decide_False by lia.
  - rewrite !decide_True by lia. do 4 f_equal.
    assert (Hcopy : ∀ (d pre b : bytes), length b = length d →
      foldl (λ b ix, <[ix.1 := ix.2]> b) (pre ++ b) (imap (λ i x, (length pre + i, x)%nat) d) = pre ++ d).
    { induction d as [|x d IH]; intros pre [|y b]; try done.
      intros Hl. rewrite imap_cons. cbn [foldl fst snd]. rewrite insert_app_r. cbn [insert list_insert].
      simpl in Hl. specialize (IH (pre ++ [x]) b ltac:(lia)). rewrite <-!app_assoc in IH. cbn [app] in IH.
      rewrite <-IH. f_equal. apply imap_ext. intros i z _. rewrite length_app. simpl. f_equal. lia. }
    specialize (Hcopy data [] (replicate (length data) Byte.x00) ltac:(by rewrite length_replicate)).
    exact Hcopy.
Qed.

Example slice_to_arraybuffer_spec_holds :
  fits 64 1 ∧ slice_to_arraybuffer [Byte.x07] {| remaining_bytes := 1 |} =
    Some (Ok [Byte.x07], {| remaining_bytes := 0 |}).
Proof.
  assert (Hf : fits 64 1) by (unfold fits; lia). split; [exact Hf|].
  exact (slice_to_arraybuffer_spec [Byte.x07] {| remaining_bytes := 1 |} Hf).
Defined.

(** ** Threads racing on the pool

    A thread in [acquire_bytes] has loaded a value and is about to compare and exchange it.
    Ghosts: the bytes handed out so far and not released, the budget that was set last, and
    how many bytes were handed out when it was set. *)
Inductive phase := Idle | Loaded (current n : Z).

Record shared := { pool : MemoryPool; threads : nat → phase; outstanding : Z; budget : Z; stale : Z }.

Definition set_thread (tid : nat) (ph : phase) (th : nat → phase) : nat → phase :=
  λ i, if decide (i = tid) then ph else th i.

Inductive mm_step (s : shared) : shared → Prop :=
  | mm_load tid n :
      threads s tid = Idle → 0 <= n →
      mm_step s {| pool := pool s; outstanding := outstanding s; budget := budget s; stale := stale s;
                   threads := set_thread tid (Loaded (remaining_bytes (pool s)) n) (threads s) |}
  | mm_acquired tid current n p' :
      threads s tid = Loaded current n → acquire_round current n (pool s) = (Some true, p') →
      mm_step s {| pool := p'; outstanding := outstanding s + n; budget := budget s; stale := stale s;
                   threads := set_thread tid Idle (threads s) |}
  | mm_refused tid current n p' :
      threads s tid = Loaded current n → acquire_round current n (pool s) = (Some false, p') →
      mm_step s {| pool := p'; outstanding := outstanding s; budget := budget s; stale := stale s;
                   threads := set_thread tid Idle (threads s) |}
  | mm_retry tid current n p' :
      threads s tid = Loaded current n → acquire_round current n (pool s) = (None, p') →
      mm_step s {| pool := p'; outstanding := outstanding s; budget := budget s; stale := stale s;
                   threads := set_thread tid (Loaded (remaining_bytes p') n) (threads s) |}
  | mm_release n :
      0 <= n <= outstanding s →
      mm_step s {| pool := release_bytes n (pool s); outstanding := outstanding s - n; budget := budget s;
                   stale := stale s; threads := threads s |}
  | mm_reset n :
      fits 64 n →
      mm_step s {| pool := reset n (pool s); outstanding := outstanding s; budget := n; stale := outstanding s;
                   threads := threads s |}.

Definition mm_init (n : Z) : shared :=
  {| pool := MemoryPool_new n; threads := λ _, Idle; outstanding := 0; budget := n; stale := 0 |}.

(** What the budget says since it was set, as long as the counter can hold it; the
    counter and what threads loaded of it fit the width. *)
Record conserved (s : shared) : Prop := {
  conserved_sum : budget s + stale s < 2 ^ 64 → remaining_bytes (pool s) + outstanding s = budget s + stale s;
  conserved_remaining : fits 64 (remaining_bytes (pool s));
  conserved_outstanding : 0 <= outstanding s;
  conserved_loaded tid current n : threads s tid = Loaded current n → fits 64 current ∧ 0 <= n;
}.

Lemma conserved_set_thread s tid ph :
  (∀ tid current n, threads s tid = Loaded current n → fits 64 current ∧ 0 <= n) →
  (∀ current n, ph = Loaded current n → fits 64 current ∧ 0 <= n) →
  ∀ tid' current n, set_thread tid ph (threads s) tid' = Loaded current n → fits 64 current ∧ 0 <= n.
Proof. intros Hs Hph tid' current n. unfold set_thread. case_decide; eauto. Qed.

Lemma acquire_round_cases current n p :
  fits 64 current → 0 <= n →
  match acquire_round current n p with
  | (Some true, p') => n <= remaining_bytes p ∧ remaining_bytes p' = remaining_bytes p - n
  | (_, p') => p' = p
  end.
Proof.
  intros [Hc0 Hc] Hn. unfold acquire_round, compare_exchange.
  case_decide; [done|]. case_decide as Heq; [|done]. simpl. split; [lia|].
  rewrite wrapping_sub_small by lia. lia.
Qed.

Lemma mm_step_conserved a b : mm_step a b → conserved a → conserved b.
Proof.
  intros Hstep [Hsum Hrem Hout Hld].
  destruct Hstep as [tid n Hth Hn|tid current n p' Hth Hr|tid current n p' Hth Hr|tid current n p' Hth Hr|n Hn|n Hn].
  2, 3, 4: destruct (Hld _ _ _ Hth) as [Hc Hn]; pose proof (acquire_round_cases current n (pool a) Hc Hn) as Hcase;
    rewrite Hr in Hcase; try subst p'.
  - split; simpl; try done. apply conserved_set_thread; [done|]. by intros ? ? [= <- <-].
  - destruct Hcase as [Hle Heq]. unfold fits in *. split; simpl; unfold fits; try lia. by apply conserved_set_thread.
  - split; simpl; try done. by apply conserved_set_thread.
  - split; simpl; try done. apply conserved_set_thread; [done|]. by intros ? ? [= <- <-].
  - split; simpl; try done; try lia.
    + intros Hlt. specialize (Hsum Hlt). unfold fits in Hrem. rewrite wrapping_add_small by lia. lia.
    + apply wrap_fits. lia.
  - split; simpl; try done.
Qed.

(** C24. However threads interleave their loads, exchanges and releases, and whenever the
    budget is set anew: the bytes left and the bytes handed out add up to the budget that
    was set last and the bytes that were handed out at that moment, so no more than that
    is ever out and the counter never wraps around; with nothing handed out when it was
    set, exactly the budget is shared.  (Both together have to fit the counter.) *)
Theorem pool_conserved n s :
  fits 64 n → rtc mm_step (mm_init n) s → budget s + stale s < 2 ^ 64 →
  remaining_bytes (pool s) + outstanding s = budget s + stale s ∧
  0 <= outstanding s <= budget s + stale s ∧ 0 <= remaining_bytes (pool s).
Proof.
  intros Hn Hsteps Hlt.
  assert (Hc : conserved s).
  { eapply (rtc_invariant mm_step); [apply mm_step_conserved|exact Hsteps|]. split; simpl; try done. }
  destruct Hc as [Hsum [Hr _] Ho _]. specialize (Hsum Hlt). lia.
Qed.

(** A pool as an isolate uses it: made empty, then given 10 bytes; 4 of them are still out
    when it is given 16. *)
Example pool_conserved_holds :
  ∃ s, (fits 64 0 ∧ rtc mm_step (mm_init 0) s ∧ budget s + stale s < 2 ^ 64) ∧
       outstanding s = 4 ∧ budget s = 16 ∧ remaining_bytes (pool s) + outstanding s = 16 + 4.
Proof.
  pose (s1 := {| pool := reset 10 (MemoryPool_new 0); outstanding := 0; budget := 10; stale := 0; threads := λ _, Idle |}).
  pose (s2 := {| pool := pool s1; outstanding := 0; budget := 10; stale := 0;
                 threads := set_thread 0 (Loaded 10 4) (threads s1) |}).
  pose (s3 := {| pool := {| remaining_bytes := 6 |}; outstanding := 0 + 4; budget := 10; stale := 0;
                 threads := set_thread 0 Idle (threads s2) |}).
  pose (s4 := {| pool := reset 16 (pool s3); outstanding := 0 + 4; budget := 16; stale := 0 + 4; threads := threads s3 |}).
  assert (Hf : ∀ k, 0 <= k < 17 → fits 64 k) by (unfold fits; lia).
  assert (Hrun : rtc mm_step (mm_init 0) s4).
  { eapply rtc_l; [apply (mm_reset (mm_init 0) 10), Hf; lia|].
    eapply rtc_l; [apply (mm_load s1 0%nat 4); [done|lia]|].
    eapply rtc_l; [by apply (mm_acquired s2 0%nat 10 4)|].
    apply rtc_once, (mm_reset s3 16), Hf. lia. }
  assert (Hlt : budget s4 + stale s4 < 2 ^ 64) by (simpl; lia).
  exists s4. split; [split; [apply Hf; lia|split; [exact Hrun|exact Hlt]]|]. split; [reflexivity|]. split; [reflexivity|].
  exact (proj1 (pool_conserved 0 s4 (Hf 0 ltac:(lia)) Hrun Hlt)).
Defined.

(** [reset] forgets the bytes that are still handed out: releasing them afterwards
    raises the budget above the new one. *)
Lemma reset_ignores_outstanding p n k :
  0 < k → 0 <= n → n + k < 2 ^ 64 → remaining_bytes (release_bytes k (reset n p)) = n + k.
Proof. intros Hk Hn Hlt. unfold release_bytes, reset, wrapping_add, wrap. simpl. rewrite Z.mod_small; lia. Qed.


(** ** The CPU semaphore *)
Record Semaphore := { tokens : nat }.

(** [unbounded()] channel filled with [n] tokens *)
Definition Semaphore_new (n : nat) : Semaphore := {| tokens := foldl (λ k _, S k) 0%nat (seq 0 n) |}.

(** [recv_timeout]: a token, or nothing once the time is over *)
Definition acquire_timeout (s : Semaphore) : bool * Semaphore :=
  match tokens s with
  | O => (false, s)
  | S k => (true, {| tokens := k |})
  end.

(** dropping a [Permit] or an [OwnedPermit] *)
Definition permit_drop (s : Semaphore) : Semaphore := {| tokens := S (tokens s) |}.

Inductive sem_step : Semaphore * nat → Semaphore * nat → Prop :=
  | sem_acquire s s' k : acquire_timeout s = (true, s') → sem_step (s, k) (s', S k)
  | sem_timeout s s' k : acquire_timeout s = (false, s') → sem_step (s, k) (s', k)
  | sem_drop s k : sem_step (s, S k) (permit_drop s, k).

Lemma Semaphore_new_tokens n : tokens (Semaphore_new n) = n.
Proof.
  unfold Semaphore_new. cbn [tokens]. assert (Hf : ∀ l k, foldl (λ k (_ : nat), S k) k l = (k + length l)%nat).
  { induction l as [|x l IH]; intros k; simpl; [lia|]. rewrite IH. lia. }
  by rewrite Hf, length_seq.
Qed.

(** At most [n] permits are out at any time, and while fewer are, acquiring succeeds. *)
Theorem semaphore_bound n s k :
  rtc sem_step (Semaphore_new n, 0%nat) (s, k) →
  (tokens s + k = n)%nat ∧ ((k < n)%nat → (acquire_timeout s).1 = true).
Proof.
  intros Hsteps.
  assert (Hsum : (tokens s + k = n)%nat).
  { apply (rtc_invariant sem_step (λ x, (tokens x.1 + x.2 = n)%nat) _ _) in Hsteps; [done| |].
    - intros a b Hab Ha. destruct Hab as [s0 s' j Ha0|s0 s' j Ha0|s0 j]; simpl in *;
        unfold acquire_timeout in *; try (destruct (tokens s0) eqn:Et; simplify_eq); simpl in *; lia.
    - cbn [fst snd]. rewrite Semaphore_new_tokens. lia. }
  split; [done|]. intros Hlt. unfold acquire_timeout. destruct (tokens s) eqn:Et; [lia|done].
Qed.

Example semaphore_bound_holds :
  rtc sem_step (Semaphore_new 1, 0%nat) ({| tokens := 0 |}, 1%nat) ∧ (0 + 1 = 1)%nat.
Proof.
  assert (Hr : rtc sem_step (Semaphore_new 1, 0%nat) ({| tokens := 0 |}, 1%nat)).
  { apply rtc_once. by apply (sem_acquire (Semaphore_new 1)). }
  split; [exact Hr|]. exact (proj1 (semaphore_bound 1 {| tokens := 0 |} 1 Hr)).
Defined.
