(* ===== verification/Interface.v ===== *)
(** * The boundary between scripts and the host:
    [rusty-workers-runtime/src/interface.rs], [error.rs], [buffer.rs], [crypto.rs]

    A JavaScript value that reaches the host is an ArrayBuffer, a view of one or
    something else; the digests of [ring] are parameters. *)
From Stdlib Require Import ZArith Lia.
From S2P Require Import Prelude Types Mm.
Local Open Scope Z_scope.

(** ** JavaScript errors *)
Inductive JsErrorKind := KError | KTypeError | KReferenceError.
Record JsError := { kind : JsErrorKind; message : option string }.
Abbreviation JsResult := (result JsError).

#[export] Instance JsErrorKind_eq_dec : EqDecision JsErrorKind.
Proof. solve_decision. Defined.
#[export] Instance JsError_eq_dec : EqDecision JsError.
Proof. solve_decision. Defined.

Definition JsError_error (m : string) : JsError := {| kind := KError; message := Some m |}.

(** [From<GenericError>] *)
Definition js_of_generic (other : GenericError) : JsError :=
  match other with
  | Conversion => {| kind := KTypeError; message := Some "conversion error" |}
  | Typeck expected =>
      {| kind := KTypeError; message := Some (String.append "typeck error: expected " expected) |}
  | Execution MemoryLimitExceeded => {| kind := KError; message := Some "memory limit exceeded" |}
  | _ => {| kind := KError; message := Some "generic error" |}
  end.

(** [v8::DataError] and its conversion *)
Inductive DataError := BadType (actual expected : string) | NoData (expected : string).

Definition js_of_data (other : DataError) : JsError :=
  match other with
  | BadType actual expected =>
      {| kind := KTypeError;
         message := Some (String.append "expected " (String.append expected
                            (String.append ", got " actual))) |}
  | NoData expected => {| kind := KReferenceError; message := Some (String.append "expected " expected) |}
  end.

(** [build]: the exception a script sees; no message is the empty one *)
Definition build_exception (e : JsError) : JsErrorKind * string :=
  (kind e, match message e with Some x => x | None => "" end).

(** ** Buffers *)
Inductive JsValue :=
  | VArrayBuffer (backing : bytes)
  | VArrayBufferView (buffer : option bytes) (byte_offset byte_length : nat)
  | VOther.

Record JsArrayBufferViewRef := { backing : bytes; range : nat * nat }.

Definition JsArrayBufferViewRef_new (other : JsValue) : JsResult JsArrayBufferViewRef :=
  match other with
  | VArrayBuffer b => Ok {| backing := b; range := (0, length b)%nat |}
  | VArrayBufferView (Some b) off len => Ok {| backing := b; range := (off, off + len)%nat |}
  | VArrayBufferView None _ _ =>
      Err {| kind := KTypeError; message := Some "cannot get backing ArrayBuffer" |}
  | VOther =>
      Err {| kind := KTypeError;
             message := Some "value cannot be converted to JsArrayBufferViewRef" |}
  end.

(** [Deref]: the slice of the range; Rust panics when it does not lie in the backing *)
Definition deref (v : JsArrayBufferViewRef) : bytes :=
  take ((range v).2 - (range v).1) (drop (range v).1 (backing v)).

Definition read_to_vec (v : JsArrayBufferViewRef) (max_length : Z) : option bytes :=
  if decide (max_length < Z.of_nat (length (deref v))) then None else Some (deref v).

Lemma read_to_vec_Some v n b :
  read_to_vec v n = Some b ↔ b = deref v ∧ Z.of_nat (length b) <= n.
Proof. unfold read_to_vec. case_decide; naive_solver lia. Qed.

(** ** [Read] for a slice of cells: what is copied and what is left *)
Definition cell_read (buf_len : nat) (slice : bytes) : bytes * bytes :=
  let read_len := Nat.min buf_len (length slice) in (take read_len slice, drop read_len slice).

(** A reader calls [read] until it returns nothing. *)
Fixpoint read_all (sizes : list nat) (slice : bytes) : bytes * bytes :=
  match sizes with
  | n :: rest => let '(x, slice) := cell_read n slice in
                 let '(xs, slice) := read_all rest slice in (x ++ xs, slice)
  | [] => ([], slice)
  end.

(** ** Service calls *)
Inductive DigestAlgorithm := Sha1 | Sha256 | Sha384 | Sha512.
Inductive CryptoCall := Digest (alg : DigestAlgorithm).

Inductive SyncCall :=
  | Log (s : string)
  | Done
  | SendFetchResponse (res : ResponseObject)
  | GetRandomValues
  | GetFile (name : string)
  | Crypto (inner : CryptoCall).

Inductive AsyncCallV :=
  | SetTimeout (n : Z)
  | Fetch (req : RequestObject)
  | KvGet (namespace : string)
  | KvPut (namespace : string) (if_not_exists : bool) (ttl_ms : Z)
  | KvDelete (namespace : string)
  | KvScan (namespace : string) (limit : Z)
  | KvCmpUpdate (namespace : string) (num_assertions num_writes ttl_ms : Z).

Inductive ServiceCall := Sync (call : SyncCall) | Async (call : AsyncCallV).

Record AsyncCall := { v : AsyncCallV; buffers : list JsArrayBufferViewRef }.

(** [Task::make_event] *)
Inductive ServiceEvent := FetchEvent (request : RequestObject).

(** ** Digests *)
Section crypto.
(** The streaming interface of [ring::digest]: a fresh context, [update] with a byte
    string, [finish]. *)
Context {Ctx : Type} (digest_new : DigestAlgorithm → Ctx) (digest_update : bytes → Ctx → Ctx)
        (digest_finish : Ctx → bytes).

Definition crypto_run (call : CryptoCall) (bufs : list JsArrayBufferViewRef) (p : MemoryPool)
    : option (JsResult (option bytes) * MemoryPool) :=
  match call with
  | Digest alg =>
      match bufs with
      | [] => Some (Err (JsError_error "crypto: missing buffer"), p)
      | buf :: _ =>
          let ctx := foldl (λ c b, digest_update [b] c) (digest_new alg) (deref buf) in
          match slice_to_arraybuffer (digest_finish ctx) p with
          | Some (r, p) => Some (Some <$> map_err js_of_generic r, p)
          | None => None
          end
      end
  end.

(** [update] is a streaming operation: two updates are one with the concatenation,
    and an empty one changes nothing. *)
Context (digest_update_app : ∀ a b c, digest_update b (digest_update a c) = digest_update (a ++ b) c)
        (digest_update_nil : ∀ c, digest_update [] c = c).

Lemma digest_bytewise bs c : foldl (λ c b, digest_update [b] c) c bs = digest_update bs c.
Proof using digest_update_app digest_update_nil.
  revert c. induction bs as [|b bs IH]; intros c; simpl; [done|].
  by rewrite IH, digest_update_app.
Qed.

(** Feeding the digest byte by byte gives the digest of the view's bytes, charged to
    the worker's buffer budget; without room for the result the script sees an error. *)
Theorem crypto_digest_spec alg buf rest p :
  fits 64 (remaining_bytes p) →
  let out := digest_finish (digest_update (deref buf) (digest_new alg)) in
  crypto_run (Digest alg) (buf :: rest) p =
    Some (if decide (Z.of_nat (length out) <= remaining_bytes p)
          then (Ok (Some out), {| remaining_bytes := remaining_bytes p - Z.of_nat (length out) |})
          else (Err (js_of_generic (Execution MemoryLimitExceeded)), p)).
Proof using digest_update_app digest_update_nil.
  intros Hp out. unfold crypto_run. rewrite digest_bytewise. fold out.
  rewrite slice_to_arraybuffer_spec by done. by case_decide.
Qed.
End crypto.

Example crypto_digest_spec_holds :
  let buf := {| backing := [Byte.x01; Byte.x02; Byte.x03]; range := (1, 3)%nat |} in
  fits 64 8 ∧
  crypto_run (λ _, []) (λ b c, c ++ b) id (Digest Sha1) [buf] {| remaining_bytes := 8 |} =
    Some (Ok (Some [Byte.x02; Byte.x03]), {| remaining_bytes := 6 |}).
Proof.
  intros buf. assert (Hf : fits 64 8) by (unfold fits; lia). split; [exact Hf|].
  exact (crypto_digest_spec (λ _, []) (λ b c, c ++ b) id
           (λ a b c, eq_sym (app_assoc c a b)) (λ c, app_nil_r c) Sha1 buf [] {| remaining_bytes := 8 |} Hf).
Defined.

(** Reading in pieces of any sizes yields a prefix, and all of it when the sizes suffice. *)
Lemma read_all_spec sizes slice :
  read_all sizes slice = (take (foldr Nat.add 0 sizes)%nat slice, drop (foldr Nat.add 0 sizes)%nat slice).
Proof.
  revert slice. induction sizes as [|n sizes IH]; intros slice; [done|]. cbn [read_all foldr]. unfold cell_read.
  rewrite IH. destruct (Nat.le_ge_cases n (length slice)) as [Hle|Hge].
  - rewrite Nat.min_l by done. f_equal.
    + by rewrite take_take_drop.
    + by rewrite drop_drop.
  - rewrite Nat.min_r by done.
    rewrite take_ge by done. rewrite drop_ge by done. rewrite take_nil, drop_nil, app_nil_r.
    by rewrite take_ge, drop_ge by lia.
Qed.
