(* ===== verification/Io.v ===== *)
(** * Asynchronous calls of scripts: [rusty-workers-runtime/src/io.rs],
    [remote_buffer.rs]

    [handle_task] runs in the database monad of [Db]; the buffers of a call are taken as
    they are when it reads them; a reply is the JSON text and
    the buffers that go back to the script.  [serde_json], the fetch service and
    the allocation of a buffer on the V8 thread are parameters.  An early
    [return Ok(mk_user_error(..)?)] is an [early] value. *)
From Stdlib Require Import ZArith Lia.
From S2P Require Import Prelude BTree Types Db DbFacts Mm Interface.
Local Open Scope Z_scope.

Definition MAX_KV_KEY_SIZE : Z := 2048.
Definition MAX_KV_VALUE_SIZE : Z := 4 * 1024 * 1024.
Definition MAX_FETCH_REQUEST_BODY_SIZE : Z := 2 * 1024 * 1024.
Definition MAX_KV_SCAN_LIMIT : Z := 100.

Abbreviation Reply := (string * list bytes)%type.

(** What [mk_user_ok] and [mk_user_error] serialise *)
Inductive UserValue :=
  | UUnit
  | UBool (b : bool)
  | UString (s : string)
  | UResponse (r : ResponseObject).

Inductive early := UserError (s : string) | Hard (e : GenericError).

(** ** The handler of one call *)
Section handle_task.
Context (to_json : result UserValue UserValue → GenericResult string).
Context (row_order : list bytes → list bytes).

(** The outcomes of what a task waits for. *)
Record TaskEnv := {
  now1 : Z; now2 : Z;                                      (* readings of the clock *)
  allocate_arraybuffer : nat → nat → GenericResult unit;   (* the n-th allocation, of a size *)
  fetch_client : bool;                                     (* a client is cached *)
  connect : GenericResult unit;
  rpc_fetch : RequestObject → result string (GenericResult (result string ResponseObject));
}.
Context (E : TaskEnv) (conf : WorkerConfiguration).

Definition mk_user_ok_with_buffers (value : UserValue) (bufs : list bytes) : GenericResult Reply :=
  s ← to_json (Ok value); Ok (s, bufs).
Definition mk_user_ok (value : UserValue) : GenericResult Reply := mk_user_ok_with_buffers value [].
Definition mk_user_error (s : string) : GenericResult Reply :=
  t ← to_json (Err (UString s)); Ok (t, []).

(** [allocate_arraybuffer_with_data]: the buffer has the size of the data *)
Definition allocate_arraybuffer_with_data (i : nat) (data : bytes) : GenericResult bytes :=
  allocate_arraybuffer E i (length data) ;; Ok data.

(** [task.buffers.get(i).ok_or_else(missing)?.read_to_vec(max)] *)
Definition arg (bufs : list JsArrayBufferViewRef) (i : nat) (missing : string) (max : Z)
    (too_large : string) : result early bytes :=
  b ← ok_or (bufs !! i) (Hard (Other missing));
  ok_or (read_to_vec b max) (UserError too_large).

Definition namespace_id (namespace : string) : result early string :=
  ok_or (bt_get namespace (kv_namespaces conf)) (UserError "namespace does not exist").

(** Runs the database part of a call on its decoded arguments. *)
Definition with_args {A} (r : result early A) (k : A → DB Reply) : DB Reply :=
  match r with
  | Ok a => k a
  | Err (UserError s) => lift (mk_user_error s)
  | Err (Hard e) => lift (Err e)
  end.

(** The loop of [KvCmpUpdate] from round [i] on, over the remaining buffers *)
Fixpoint collect (bufs : list JsArrayBufferViewRef) (i total num_assertions : Z)
    (assertions writes : list (bytes * bytes))
    : result early (list (bytes * bytes) * list (bytes * bytes)) :=
  if decide (total <= i) then Ok (assertions, writes) else
  match bufs with
  | [] => Err (Hard (Other "missing key"))
  | kb :: bufs =>
      match read_to_vec kb MAX_KV_KEY_SIZE with
      | None => Err (UserError "key too large")
      | Some key =>
          match bufs with
          | [] => Err (Hard (Other "missing value"))
          | vb :: bufs =>
              match read_to_vec vb MAX_KV_VALUE_SIZE with
              | None => Err (UserError "value too large")
              | Some value =>
                  if decide (i < num_assertions)
                  then collect bufs (i + 1) total num_assertions (assertions ++ [(key, value)]) writes
                  else collect bufs (i + 1) total num_assertions assertions (writes ++ [(key, value)])
              end
          end
      end
  end.

(** The client for the fetch service: connected on first use; the flag says whether the
    shared state has one afterwards. *)
Definition get_fetch_client : GenericResult unit * bool :=
  if fetch_client E then (Ok tt, true)
  else match connect E with
       | Ok _ => (Ok tt, true)
       | Err e => (Err e, false)
       end.

Definition handle_fetch (req : RequestObject) (bufs : list JsArrayBufferViewRef) : DB Reply :=
  with_args (arg bufs 0 "missing body" MAX_FETCH_REQUEST_BODY_SIZE "fetch request body too large")
    (λ body,
      let req := {| req_headers := req_headers req; req_method := req_method req;
                    req_url := req_url req; req_body := Binary body |} in
      lift (
        get_fetch_client.1 ;;
        reply ← map_err Io (rpc_fetch E req);
        fetch_result ← reply;
        match fetch_result with
        | Ok res =>
            let 'Binary b := res_body res in
            buf ← allocate_arraybuffer_with_data 0 b;
            s ← to_json (Ok (UResponse {| res_headers := res_headers res; res_status := res_status res;
                                          res_body := Binary [] |}));
            Ok (s, [buf])
        | Err e => s ← to_json (Err (UString e)); Ok (s, [])
        end)).

Definition handle_kv_scan (namespace : string) (limit : Z) (bufs : list JsArrayBufferViewRef) : DB Reply :=
  with_args (start_key ← arg bufs 0 "missing start key" MAX_KV_KEY_SIZE "start_key too large";
             end_key ← match bufs !! 1%nat with
                       | Some b => Some <$> ok_or (read_to_vec b MAX_KV_KEY_SIZE)
                                              (UserError "end_key too large")
                       | None => Ok None
                       end;
             ns ← namespace_id namespace;
             if decide (MAX_KV_SCAN_LIMIT < limit)
             then Err (UserError "limit is greater than MAX_KV_SCAN_LIMIT")
             else Ok (start_key, end_key, ns))
    (λ '(start_key, end_key, ns),
      keys ← worker_data_scan_keys row_order (now1 E) ns start_key end_key limit;
      lift (foldr (λ ik acc, buf ← allocate_arraybuffer_with_data ik.1 ik.2; rest ← acc; Ok (buf :: rest))
              (Ok []) (imap pair keys) ≫= mk_user_ok_with_buffers UUnit)).

Definition handle_kv_cmpupdate (namespace : string) (num_assertions num_writes ttl_ms : Z)
    (bufs : list JsArrayBufferViewRef) : DB Reply :=
  with_args (ns ← namespace_id namespace;
             aw ← collect bufs 0 (wrapping_add 32 num_assertions num_writes) num_assertions [] [];
             Ok (ns, aw))
    (λ '(ns, (assertions, writes)),
      success ← worker_data_cmpupdate (now1 E) ns assertions writes ttl_ms;
      lift (mk_user_ok (UBool success))).

Definition handle_task (task : AsyncCall) : DB Reply :=
  let bufs := buffers task in
  match v task with
  | SetTimeout _ => mret ("null", [])
  | Fetch req => handle_fetch req bufs
  | KvGet namespace =>
      with_args (key ← arg bufs 0 "missing key" MAX_KV_KEY_SIZE "key too large";
                 ns ← namespace_id namespace; Ok (key, ns))
        (λ '(key, ns),
          result ← worker_data_get (now1 E) ns key;
          lift (match result with
                | Some r => buf ← allocate_arraybuffer_with_data 0 r;
                            mk_user_ok_with_buffers (UBool true) [buf]
                | None => mk_user_ok (UBool false)
                end))
  | KvPut namespace if_not_exists ttl_ms =>
      with_args (key ← arg bufs 0 "missing key" MAX_KV_KEY_SIZE "key too large";
                 value ← arg bufs 1 "missing value" MAX_KV_VALUE_SIZE "value too large";
                 ns ← namespace_id namespace; Ok (key, value, ns))
        (λ '(key, value, ns),
          worker_data_put (now1 E) (now2 E) ns key value if_not_exists ttl_ms ;;
          lift (mk_user_ok UUnit))
  | KvDelete namespace =>
      with_args (key ← arg bufs 0 "missing key" MAX_KV_KEY_SIZE "key too large";
                 ns ← namespace_id namespace; Ok (key, ns))
        (λ '(key, ns), worker_data_delete ns key ;; lift (mk_user_ok UUnit))
  | KvScan namespace limit => handle_kv_scan namespace limit bufs
  | KvCmpUpdate namespace num_assertions num_writes ttl_ms =>
      handle_kv_cmpupdate namespace num_assertions num_writes ttl_ms bufs
  end.

(** What the task spawned by [IoProcessor::run] sends back *)
Definition task_reply (r : GenericResult Reply) : Reply :=
  match r with
  | Ok (x, bufs) => (String.append "{" (String.append (String.String (Ascii.ascii_of_nat 34) "Ok")
                       (String.append (String.String (Ascii.ascii_of_nat 34) ":") (String.append x "}"))), bufs)
  | Err _ => (String.append "{" (String.append (String.String (Ascii.ascii_of_nat 34) "Err")
                (String.append (String.String (Ascii.ascii_of_nat 34) ":")
                   (String.append (String.String (Ascii.ascii_of_nat 34) "io error")
                      (String.String (Ascii.ascii_of_nat 34) "}")))), [])
  end.
End handle_task.

(** ** The executor's side: [IoWaiter] *)
Section waiter.
(** a JavaScript callback *)
Context {Callback : Type}.

(** [Slab]: [insert] takes a vacant key *)
Record IoWaiter := { remaining_budget : Z; inflight : gmap nat Callback }.

Definition IoWaiter_new (conf : WorkerConfiguration) : IoWaiter :=
  {| remaining_budget := max_io_per_request (executor conf); inflight := ∅ |}.

(** [task_queued]: the processor still receives tasks.  The result is the index the
    call was queued under. *)
Definition issue (count_budget task_queued : bool) (cb : Callback) (w : IoWaiter)
    : GenericResult nat * IoWaiter :=
  if count_budget && bool_decide (remaining_budget w = 0) then (Err IoLimitExceeded, w) else
  let budget := if count_budget then remaining_budget w - 1 else remaining_budget w in
  let index := fresh (dom (inflight w)) in
  let w := {| remaining_budget := budget; inflight := <[index := cb]> (inflight w) |} in
  if task_queued then (Ok index, w)
  else (Err (Other "io worker exited"),
        {| remaining_budget := budget; inflight := delete index (inflight w) |}).

(** A received result: [Slab::remove] panics, [None], on an index that is not occupied. *)
Definition wait_result (index : nat) (w : IoWaiter) : option (Callback * IoWaiter) :=
  cb ← inflight w !! index;
  Some (cb, {| remaining_budget := remaining_budget w; inflight := delete index (inflight w) |}).
End waiter.
Arguments IoWaiter : clear implicits.

(** ** Remote buffers

    A buffer is strongly held by the set and weakly by the task that fills it: the
    weak references, by the address of the buffer, are a count in the store. *)
Record RemoteBufferSet := { rb_buffers : list (Z * bytes) }.

Definition rb_allocate (addr : Z) (len : nat) (p : MemoryPool) (s : RemoteBufferSet)
    : option (option Z * RemoteBufferSet * MemoryPool) :=
  match acquire_arraybuffer_precheck p (Z.of_nat len) with
  | Err _ => Some (None, s, p)
  | Ok _ =>
      match allocate len p with
      | (Some buf, p) => Some (Some addr, {| rb_buffers := (addr, buf) :: rb_buffers s |}, p)
      | (None, _) => None
      end
  end.

(** [gc]: drops the buffers without a weak reference *)
Definition rb_gc (weak_count : Z → nat) (s : RemoteBufferSet) : RemoteBufferSet :=
  let to_remove := omap (λ kv, if decide (weak_count kv.1 = 0%nat) then Some kv.1 else None) (rb_buffers s) in
  {| rb_buffers := foldl (λ l k, filter (λ kv, kv.1 ≠ k) l) (rb_buffers s) to_remove |}.
