(* ===== verification/IoFacts.v ===== *)
(** * Correctness of asynchronous calls

    Isolation and size limits of the key-value calls, their meaning for a script,
    and the bookkeeping of callbacks. *)
From Stdlib Require Import ZArith Lia.
From S2P Require Import Prelude BTree Types Db DbFacts Mm Interface Io.
Local Open Scope Z_scope.

(** ** Database calls preserve *)
Section keeps.
Context (P : tables → tables → Prop) `{!PreOrder P}.

Lemma keeps_with_args to_json {A} (r : result early A) (k : A → DB Reply) :
  (∀ a, r = Ok a → keeps P (k a)) → keeps P (with_args to_json r k).
Proof.
  intros Hk. destruct r as [a|[s|e]]; simpl; [by apply Hk|apply (keeps_lift P)..].
Qed.
End keeps.

(** ** Limits on what is stored *)
Definition kv_bounded (t : tables) : Prop :=
  ∀ ns k r, appkv t !! (ns, k) = Some r →
    Z.of_nat (length k) <= MAX_KV_KEY_SIZE ∧ Z.of_nat (length (appvalue r)) <= MAX_KV_VALUE_SIZE.

Definition keeps_bounded (t t' : tables) : Prop := kv_bounded t → kv_bounded t'.

#[export] Instance keeps_bounded_preorder : PreOrder keeps_bounded.
Proof. split; unfold keeps_bounded; [by intros t|by intros t1 t2 t3 H1 H2 H%H1%H2]. Qed.

#[export] Instance same_outside_preorder ns : PreOrder (same_outside ns).
Proof. split; apply _. Qed.

Lemma bounded_insert ns k r t :
  Z.of_nat (length k) <= MAX_KV_KEY_SIZE → Z.of_nat (length (appvalue r)) <= MAX_KV_VALUE_SIZE →
  keeps_bounded t (set_appkv (insert (ns, k) r) t).
Proof.
  intros Hk Hv Ht ns' k' r' Hl. simpl in Hl.
  apply lookup_insert_Some in Hl as [[[= <- <-] <-]|[_ Hl]]; [done|by eapply Ht].
Qed.

Lemma bounded_delete ns k t : keeps_bounded t (set_appkv (delete (ns, k)) t).
Proof. intros Ht ns' k' r' Hl. simpl in Hl. apply lookup_delete_Some in Hl as [_ Hl]. by eapply Ht. Qed.

Definition pair_bounded (kv : bytes * bytes) : Prop :=
  Z.of_nat (length kv.1) <= MAX_KV_KEY_SIZE ∧ Z.of_nat (length kv.2) <= MAX_KV_VALUE_SIZE.

Lemma bounded_write_batch ns writes e t :
  Forall pair_bounded writes → keeps_bounded t (set_appkv (write_batch ns writes e) t).
Proof.
  unfold write_batch. intros Hw. revert t.
  induction Hw as [|[k v] writes [Hk Hv] _ IH]; intros t Ht; simpl; [by destruct t|].
  apply (IH (set_appkv (upsert_kv ns k v [] e) t)). by apply bounded_insert.
Qed.

Lemma put_bounded now1 now2 ns key value ine ttl :
  pair_bounded (key, value) → keeps keeps_bounded (worker_data_put now1 now2 ns key value ine ttl).
Proof.
  intros [Hk Hv] fs t. unfold worker_data_put.
  destruct (expiration_of now1 ttl) as [e|err], ine; db_cases; try done; simpl;
    try (destruct (appkv t !! (ns, key)) as [r|]; [destruct (live now2 r)|]); try done;
    by apply bounded_insert.
Qed.

Lemma delete_bounded ns key : keeps keeps_bounded (worker_data_delete ns key).
Proof. intros fs t. unfold worker_data_delete. db_cases; try done; apply bounded_delete. Qed.

Lemma cmpupdate_bounded now ns assertions writes ttl :
  Forall pair_bounded writes → keeps keeps_bounded (worker_data_cmpupdate now ns assertions writes ttl).
Proof.
  intros Hw fs t.
  destruct (cmpupdate_unfold now ns assertions writes ttl fs t)
    as [(err & fs' & ->)|(e & fs0 & He & ->)]; [done|].
  pose proof (cmpupdate_body_spec now ns assertions writes e fs0 t) as Hb.
  destruct (cmpupdate_body now ns assertions writes e fs0 t) as [[[[]|] ?] t'].
  - destruct Hb as [_ ->]. by apply bounded_write_batch.
  - by destruct Hb as [-> _].
  - simpl in *. by rewrite Hb.
Qed.

(** ** Decoding arguments *)
Lemma arg_Ok bufs i missing max too_large b :
  arg bufs i missing max too_large = Ok b ↔
  ∃ buf, bufs !! i = Some buf ∧ b = deref buf ∧ Z.of_nat (length b) <= max.
Proof.
  unfold arg. destruct (bufs !! i) as [buf|]; simpl; [|naive_solver].
  rewrite ok_or_Ok, read_to_vec_Some. naive_solver.
Qed.

Lemma collect_bounded bufs i total na a w a' w' :
  collect bufs i total na a w = Ok (a', w') →
  Forall pair_bounded a → Forall pair_bounded w → Forall pair_bounded a' ∧ Forall pair_bounded w'.
Proof.
  revert i a w. induction bufs as [bufs IH] using (well_founded_induction (well_founded_ltof _ length)).
  intros i a w. destruct bufs as [|kb [|vb bufs]]; cbn [collect]; case_decide; try done.
  - by intros [= <- <-].
  - by intros [= <- <-].
  - by destruct (read_to_vec kb MAX_KV_KEY_SIZE).
  - by intros [= <- <-].
  - destruct (read_to_vec kb MAX_KV_KEY_SIZE) as [key|] eqn:Ek; [|done].
    destruct (read_to_vec vb MAX_KV_VALUE_SIZE) as [value|] eqn:Ev; [|done].
    apply read_to_vec_Some in Ek as [_ Ek], Ev as [_ Ev].
    intros Hc Ha Hw. assert (Hlt : ltof _ length bufs (kb :: vb :: bufs)) by (unfold ltof; simpl; lia).
    case_decide; (eapply (IH bufs Hlt); [exact Hc|..]; try done;
      apply Forall_app; split; [done|by repeat constructor]).
Qed.

(** ** Isolation and limits *)
Section handle_task.
Context (to_json : result UserValue UserValue → GenericResult string) (row_order : list bytes → list bytes).
Context (E : TaskEnv) (conf : WorkerConfiguration).

(** the namespaces the worker is configured with *)
Definition allowed (ns : string) : Prop := ∃ name, bt_get name (kv_namespaces conf) = Some ns.

Lemma namespace_id_Ok name ns : namespace_id conf name = Ok ns → allowed ns.
Proof. unfold namespace_id. rewrite ok_or_Ok. by exists name. Qed.

Lemma keeps_query_get P `{!PreOrder P} now ns key : keeps P (worker_data_get now ns key).
Proof. intros fs t. by rewrite worker_data_get_unchanged. Qed.

Lemma keeps_query_scan P `{!PreOrder P} now ns s e limit :
  keeps P (worker_data_scan_keys row_order now ns s e limit).
Proof. intros fs t. by rewrite worker_data_scan_keys_unchanged. Qed.

(** A relation kept by the three writing operations, on the namespaces of the worker
    and within the size limits, is kept by every call. *)
Lemma handle_task_keeps P `{!PreOrder P} task :
  (∀ now1 now2 ns key value ine ttl, allowed ns → pair_bounded (key, value) →
     keeps P (worker_data_put now1 now2 ns key value ine ttl)) →
  (∀ ns key, allowed ns → keeps P (worker_data_delete ns key)) →
  (∀ now ns a w ttl, allowed ns → Forall pair_bounded w → keeps P (worker_data_cmpupdate now ns a w ttl)) →
  keeps P (handle_task to_json row_order E conf task).
Proof.
  intros Hput Hdel Hcmp. unfold handle_task, handle_fetch, handle_kv_scan, handle_kv_cmpupdate.
  destruct (v task) as [n|req|ns|ns ine ttl|ns|ns limit|ns na nw ttl].
  - by apply db_keeps_ret.
  - apply keeps_with_args; [done|]. intros body _. by apply keeps_lift.
  - apply keeps_with_args; [done|]. intros [key id] _. apply db_keeps_bind; [done|by apply keeps_query_get|].
    intros r. by apply keeps_lift.
  - apply keeps_with_args; [done|]. intros [[key value] id] Hr.
    apply result_bind_Ok in Hr as (k & Hk & Hr). apply result_bind_Ok in Hr as (w & Hw & Hr).
    apply result_bind_Ok in Hr as (i & Hi & [= <- <- <-]).
    apply arg_Ok in Hk as (? & ? & ? & ?), Hw as (? & ? & ? & ?). apply namespace_id_Ok in Hi.
    apply db_keeps_bind; [done|by apply Hput|]. intros _. by apply keeps_lift.
  - apply keeps_with_args; [done|]. intros [key id] Hr.
    apply result_bind_Ok in Hr as (k & _ & Hr). apply result_bind_Ok in Hr as (i & Hi & [= <- <-]).
    apply namespace_id_Ok in Hi. apply db_keeps_bind; [done|by apply Hdel|]. intros _. by apply keeps_lift.
  - apply keeps_with_args; [done|]. intros [[s e] id] _.
    apply db_keeps_bind; [done|by apply keeps_query_scan|]. intros keys. by apply keeps_lift.
  - apply keeps_with_args; [done|]. intros [id [a w]] Hr.
    apply result_bind_Ok in Hr as (i & Hi & Hr). apply result_bind_Ok in Hr as ([a' w'] & Hc & [= <- <- <-]).
    apply namespace_id_Ok in Hi. destruct (collect_bounded _ _ _ _ _ _ _ _ Hc) as [_ Hw]; [done..|].
    apply db_keeps_bind; [done|by apply Hcmp|]. intros success. by apply keeps_lift.
Qed.

(** The worker data of the other namespaces and the other tables are untouched. *)
Definition isolated (t t' : tables) : Prop :=
  (∀ ns k, ¬ allowed ns → appkv t' !! (ns, k) = appkv t !! (ns, k)) ∧
  routes t' = routes t ∧ apps t' = apps t ∧ bundles t' = bundles t ∧ applog t' = applog t.

#[export] Instance isolated_preorder : PreOrder isolated.
Proof.
  split; [by repeat split|].
  intros t1 t2 t3 (H1 & H2 & H3 & H4 & H5) (G1 & G2 & G3 & G4 & G5).
  split; [|split_and!; congruence]. intros ns k Hne. by rewrite G1, H1.
Qed.

Lemma same_outside_isolated ns t t' : allowed ns → same_outside ns t t' → isolated t t'.
Proof. intros Ha [H1 H2]. split; [|done]. intros ns' k Hn. apply H1. by intros ->. Qed.

Lemma handle_task_outside task : keeps isolated (handle_task to_json row_order E conf task).
Proof.
  apply (handle_task_keeps isolated); intros; intros fs t; (eapply same_outside_isolated; [done|]).
  - apply worker_data_put_outside.
  - apply worker_data_delete_outside.
  - apply worker_data_cmpupdate_outside.
Qed.

(** C15. Isolation: whatever calls a script makes, with whatever buffers, and however the
    database fails underway, a worker changes nothing but the data of the namespaces
    its app is configured with, and keys and values stay within the size limits. *)
Theorem handle_task_isolated task fs t :
  let t' := (handle_task to_json row_order E conf task fs t).2 in
  isolated t t' ∧ (kv_bounded t → kv_bounded t').
Proof.
  split.
  - apply handle_task_outside.
  - apply (handle_task_keeps keeps_bounded); intros.
    + by apply put_bounded.
    + apply delete_bounded.
    + by apply cmpupdate_bounded.
Qed.

(** ** Meaning for a script *)

(** A put followed by a get of the same key, before the time to live is over and
    with nothing failing, gives the script back the value. *)
Theorem kv_put_get kb vb ns ttl t id :
  bt_get ns (kv_namespaces conf) = Some id →
  Z.of_nat (length (deref kb)) <= MAX_KV_KEY_SIZE → Z.of_nat (length (deref vb)) <= MAX_KV_VALUE_SIZE →
  0 <= now1 E → 0 <= ttl → (ttl ≠ 0 → now1 E + ttl < 2 ^ 64) →
  (∀ i n, allocate_arraybuffer E i n = Ok tt) →
  let put := {| v := KvPut ns false ttl; buffers := [kb; vb] |} in
  let get := {| v := KvGet ns; buffers := [kb] |} in
  let t1 := (handle_task to_json row_order E conf put [] t).2 in
  (handle_task to_json row_order E conf get [] t1).1.1 =
    mk_user_ok_with_buffers to_json (UBool true) [deref vb].
Proof.
  intros Hns Hk Hv Hn Ht Hfit Halloc put get t1.
  assert (Hka : ∀ m, arg [kb] 0 m MAX_KV_KEY_SIZE "key too large" = Ok (deref kb) ∧
                     arg [kb; vb] 0 m MAX_KV_KEY_SIZE "key too large" = Ok (deref kb)).
  { intros m. split; apply arg_Ok; by exists kb. }
  assert (Hva : arg [kb; vb] 1 "missing value" MAX_KV_VALUE_SIZE "value too large" = Ok (deref vb)).
  { apply arg_Ok. by exists vb. }
  assert (Ht1 : t1 = (worker_data_put (now1 E) (now2 E) id (deref kb) (deref vb) false ttl [] t).2).
  { unfold t1, handle_task, namespace_id. simpl. rewrite (proj2 (Hka _)), Hva. simpl. rewrite Hns. simpl.
    rewrite DB_bind_eq. by destruct (worker_data_put _ _ _ _ _ _ _ _ _) as [[[|] ?] ?]. }
  pose proof (worker_data_put_spec (now1 E) (now2 E) id (deref kb) (deref vb) false ttl [] t Hn Ht) as Hput.
  assert (Hok : ∃ t', worker_data_put (now1 E) (now2 E) id (deref kb) (deref vb) false ttl [] t = (Ok tt, [], t')).
  { clear Hput. unfold worker_data_put, expiration_of. db_cases. case_decide; [eexists; reflexivity|].
    unfold checked_add. rewrite decide_True by auto. eexists. reflexivity. }
  destruct Hok as [t' Hok]. rewrite Hok in *. simpl in Ht1. subst t'. destruct Hput as (_ & _ & Hget).
  unfold handle_task, namespace_id. simpl. rewrite (proj1 (Hka _)). simpl. rewrite Hns. simpl.
  unfold worker_data_get. db_cases. specialize (Hget (now1 E)). unfold kv_lookup in Hget.
  rewrite Hget. simpl. rewrite decide_True by lia.
  unfold allocate_arraybuffer_with_data. by rewrite Halloc.
Qed.

(** The calls of [KvCmpUpdate] are counted in [u32] without an overflow check: with
    2^32 of them the loop does not run, so assertions that do not hold (or were not
    even passed) are not checked, nothing is written and the script is told that
    the update succeeded. *)
Theorem cmpupdate_count_overflow ns id ttl t num_assertions :
  bt_get ns (kv_namespaces conf) = Some id → ttl = 0 → 1 <= num_assertions < 2 ^ 32 →
  let call := {| v := KvCmpUpdate ns num_assertions (2 ^ 32 - num_assertions) ttl; buffers := [] |} in
  handle_task to_json row_order E conf call [] t = (mk_user_ok to_json (UBool true), [], t).
Proof.
  intros Hns -> Hna call. unfold handle_task, handle_kv_cmpupdate, namespace_id. cbn [v buffers call]. rewrite Hns. simpl.
  assert (Hw : wrapping_add 32 num_assertions (2 ^ 32 - num_assertions) = 0).
  { unfold wrapping_add, wrap. replace (num_assertions + _) with (2 ^ 32) by lia. done. }
  rewrite Hw. simpl. unfold worker_data_cmpupdate, expiration_of. rewrite decide_True by done.
  db_cases. simpl. db_cases. simpl. unfold lift, mret, DB_ret. f_equal. by destruct t.
Qed.
End handle_task.

(** A coder for concrete runs. *)
Definition sample_json (x : result UserValue UserValue) : GenericResult string :=
  match x with
  | Ok (UBool true) => Ok "true"
  | Ok _ => Ok "ok"
  | Err _ => Ok "err"
  end.
Definition sample_env : TaskEnv :=
  {| now1 := 5; now2 := 5; allocate_arraybuffer _ _ := Ok tt; fetch_client := true; connect := Ok tt;
     rpc_fetch _ := Err "down" |}.
Definition sample_conf : WorkerConfiguration :=
  {| executor := {| max_ab_memory_mb := 1; max_time_ms := 1; max_io_concurrency := 1; max_io_per_request := 1 |};
     fetch_service := ""; env := []; kv_namespaces := [("NS", "id")] |}.

Example kv_put_get_holds :
  let b x := {| backing := [x]; range := (0, 1)%nat |} in
  let put := {| v := KvPut "NS" false 10; buffers := [b Byte.x01; b Byte.x02] |} in
  let get := {| v := KvGet "NS"; buffers := [b Byte.x01] |} in
  let t1 := (handle_task sample_json id sample_env sample_conf put [] no_tables).2 in
  (handle_task sample_json id sample_env sample_conf get [] t1).1.1 = Ok ("true", [[Byte.x02]]).
Proof.
  intros b.
  apply (kv_put_get sample_json id sample_env sample_conf (b Byte.x01) (b Byte.x02) "NS" 10 no_tables "id");
    [reflexivity|vm_compute; discriminate|vm_compute; discriminate|vm_compute; discriminate|lia
    |vm_compute; reflexivity|reflexivity].
Defined.

Example cmpupdate_count_overflow_holds :
  let call := {| v := KvCmpUpdate "NS" (2 ^ 32 - 1) 1 0; buffers := [] |} in
  1 <= 2 ^ 32 - 1 < 2 ^ 32 ∧
  handle_task sample_json id sample_env sample_conf call [] no_tables = (Ok ("true", []), [], no_tables).
Proof.
  intros call. split; [lia|].
  apply (cmpupdate_count_overflow sample_json id sample_env sample_conf "NS" "id" 0 no_tables (2 ^ 32 - 1));
    [reflexivity|reflexivity|lia].
Defined.

(** ** Callbacks *)
Section waiter.
Context {Callback : Type}.

(** The waiter and the calls whose result has not arrived: queued, being processed or
    sent back, each with the callback it was issued with. *)
Record calls := { waiter : IoWaiter Callback; pending : list (nat * Callback) }.

Inductive call_step (s : calls) : calls → Prop :=
  | call_issued count cb index w' :
      issue count true cb (waiter s) = (Ok index, w') →
      call_step s {| waiter := w'; pending := (index, cb) :: pending s |}
  | call_refused count queued cb e w' :
      issue count queued cb (waiter s) = (Err e, w') →
      call_step s {| waiter := w'; pending := pending s |}
  | call_answered index cb cb' w' l1 l2 :
      pending s = l1 ++ (index, cb) :: l2 → wait_result index (waiter s) = Some (cb', w') →
      call_step s {| waiter := w'; pending := l1 ++ l2 |}.

Definition registered (s : calls) : Prop :=
  NoDup (pending s).*1 ∧ ∀ index cb, (index, cb) ∈ pending s → inflight (waiter s) !! index = Some cb.

Lemma issue_Ok count queued cb (w w' : IoWaiter Callback) index :
  issue count queued cb w = (Ok index, w') →
  inflight w !! index = None ∧ inflight w' = <[index := cb]> (inflight w).
Proof.
  unfold issue. destruct (count && _); [done|]. destruct queued; [|done]. intros [= <- <-]. simpl.
  split; [|done]. apply not_elem_of_dom, is_fresh.
Qed.

Lemma issue_Err count queued cb (w w' : IoWaiter Callback) e :
  issue count queued cb w = (Err e, w') → inflight w' = inflight w.
Proof.
  unfold issue. destruct (count && _); [by intros [= _ <-]|]. destruct queued; [done|].
  intros [= _ <-]. simpl. apply delete_insert_id, not_elem_of_dom, is_fresh.
Qed.

Lemma call_step_registered a b : call_step a b → registered a → registered b.
Proof.
  intros Hstep [Hnd Hreg].
  destruct Hstep as [count cb index w' Hi|count queued cb e w' Hi|index cb cb' w' l1 l2 Hp Hw].
  - apply issue_Ok in Hi as [Hnone Hi]. split; simpl.
    + apply NoDup_cons. split; [|done]. intros ([i c] & -> & Hin)%list_elem_of_fmap.
      apply Hreg in Hin. simpl in *. congruence.
    + intros i c [[= -> ->]|Hin]%elem_of_cons; rewrite Hi; [by rewrite lookup_insert_eq|].
      apply Hreg in Hin. rewrite lookup_insert_ne; [done|]. intros ->. congruence.
  - apply issue_Err in Hi. split; simpl; [done|]. by rewrite Hi.
  - rewrite Hp in Hnd, Hreg. rewrite fmap_app in Hnd. simpl in Hnd.
    assert (Hni : index ∉ (l1 ++ l2).*1 ∧ NoDup (l1 ++ l2).*1).
    { rewrite fmap_app. rewrite <-Permutation_middle in Hnd. by apply NoDup_cons in Hnd. }
    destruct Hni as [Hni Hnd']. split; simpl; [done|]. intros i c Hin.
    unfold wait_result in Hw. destruct (inflight (waiter a) !! index); simplify_option_eq. simpl.
    rewrite lookup_delete_ne; [apply Hreg; apply elem_of_app in Hin as [|]; apply elem_of_app; [by left|right; by right]|].
    intros <-. apply Hni, list_elem_of_fmap. by exists (index, c).
Qed.

(** However calls are issued, refused and answered: an arriving result always finds
    the callback of the very call it answers, so the executor neither panics in
    [Slab::remove] nor runs another call's callback. *)
Theorem result_finds_callback conf (s : calls) index cb l1 l2 :
  rtc call_step {| waiter := IoWaiter_new conf; pending := [] |} s →
  pending s = l1 ++ (index, cb) :: l2 →
  ∃ w', wait_result index (waiter s) = Some (cb, w').
Proof.
  intros Hsteps Hp.
  assert (Hr : registered s).
  { eapply (rtc_invariant call_step); [apply call_step_registered|done|]. split; simpl; [constructor|].
    by intros i c ?%elem_of_nil. }
  destruct Hr as [_ Hreg]. assert (Hin : (index, cb) ∈ pending s).
  { rewrite Hp. apply elem_of_app. right. by left. }
  unfold wait_result. rewrite (Hreg _ _ Hin). by eexists.
Qed.
End waiter.

Example result_finds_callback_holds :
  let w1 := (issue false true "f" (IoWaiter_new sample_conf)).2 in
  ∃ index w', rtc call_step {| waiter := IoWaiter_new sample_conf; pending := [] |}
                 {| waiter := w1; pending := [(index, "f")] |} ∧
              wait_result index w1 = Some ("f", w').
Proof.
  intros w1. pose (i := fresh (dom (∅ : gmap nat string))).
  assert (Hr : rtc call_step {| waiter := IoWaiter_new sample_conf; pending := [] |}
                 {| waiter := w1; pending := [(i, "f")] |}).
  { apply rtc_once. by apply (call_issued {| waiter := IoWaiter_new sample_conf; pending := [] |} false "f" i). }
  destruct (result_finds_callback sample_conf _ i "f" [] [] Hr eq_refl) as [w' Hw].
  exists i, w'. split; [exact Hr|exact Hw].
Defined.
