(* ===== verification/IoProc.v ===== *)
(** * The I/O processor of a request: [IoProcessor::run], [IoWaiter::wait] and the
    channels between them ([rusty-workers-runtime/src/io.rs])

    One request has an executor, which issues calls and waits for results, and a
    processor, which hands each call to a task of its own.  They share the backlog of
    calls, the channel of results and the semaphore that limits the tasks.  The step
    relation interleaves them freely; what [handle_task] can answer to a call is a
    parameter, instantiated with [Io.handle_task] in the witnesses. *)
From Stdlib Require Import ZArith Lia Wellfounded Relation_Operators.
From S2P Require Import Prelude BTree Types Db Mm Interface Io.

(** ** State *)

(** A callback of the script, with the call it was given for (which only the proofs use) *)
Abbreviation Pending := (nat * AsyncCall)%type.

(** A spawned task: the buffers it is still going to ask the executor for, and how many
    it has asked for and waits for ([rx.await] of [allocate_arraybuffer]); a scan asks for
    all of them before it waits *)
Record SpawnedTask := { index : nat; call : AsyncCall; allocs : list nat; awaiting : nat }.

Inductive BackToExecutorItem :=
  | TaskResult (index : nat) (reply : Reply)
  | BufferCreation (index : nat) (size : nat).

(** Where the loop of [run] is: in its [select!], waiting for a permit for a call, or out *)
Inductive LoopState := Selecting | Holding (index : nat) (call : AsyncCall) | Exited.

Record IoSystem := {
  waiter : option (IoWaiter Pending);      (* [None] when the executor has dropped it *)
  backlog : list (nat * AsyncCall);        (* the channel [task] *)
  loop : LoopState;
  permits : nat;                           (* [inflight_sem] *)
  running : list SpawnedTask;
  results : list BackToExecutorItem;       (* the channel [result] *)
  scope_alive : bool;                      (* the [IoScope] of the request *)
}.

(** [tokio::sync::mpsc::channel(max_io_per_request + 200)] *)
Definition backlog_capacity (conf : WorkerConfiguration) : nat :=
  Z.to_nat (max_io_per_request (executor conf)) + 200.

(** [IoWaiter::new] and the [tokio::spawn] of the processor *)
Definition IoSystem_new (conf : WorkerConfiguration) : IoSystem :=
  {| waiter := Some (IoWaiter_new conf); backlog := []; loop := Selecting;
     permits := Z.to_nat (max_io_concurrency (executor conf)); running := []; results := [];
     scope_alive := true |}.

(** A send on the channel of results reaches it as long as the receiver exists. *)
Definition respond (item : BackToExecutorItem) (s : IoSystem) : list BackToExecutorItem :=
  match waiter s with Some _ => results s ++ [item] | None => results s end.

(** What a task gets for a buffer: on failure it only has its error to report. *)
Definition resume (granted : bool) (t : SpawnedTask) : SpawnedTask :=
  {| index := index t; call := call t; allocs := if granted then allocs t else [];
     awaiting := if granted then pred (awaiting t) else 0 |}.

Definition resume_at (i : nat) (granted : bool) (ts : list SpawnedTask) : list SpawnedTask :=
  (λ t, if decide (index t = i) then resume granted t else t) <$> ts.

(** [self.result.recv()]: it fails when the channel is empty and all of its senders are
    gone, of which the loop and every task have one; else it blocks while it is empty. *)
Inductive Received := Item (item : BackToExecutorItem) | Disconnected | Blocked.

Definition senders (s : IoSystem) : nat :=
  match loop s with Exited => 0 | _ => 1 end + length (running s).

Definition recv (s : IoSystem) : Received :=
  match results s with
  | item :: _ => Item item
  | [] => if decide (senders s = 0) then Disconnected else Blocked
  end.

(** ** Steps *)
Section processor.
Context (conf : WorkerConfiguration).
(** the outcomes of [handle_task] on a call *)
Context (answers : AsyncCall → GenericResult Reply → Prop).

(** The processor and its tasks *)
Inductive processor_step : IoSystem → IoSystem → Prop :=
  (** [x = self.next()] *)
  | step_next s i c rest :
      loop s = Selecting → backlog s = (i, c) :: rest →
      processor_step s {| waiter := waiter s; backlog := rest; loop := Holding i c; permits := permits s;
                          running := running s; results := results s; scope_alive := scope_alive s |}
  (** a permit for the call: [tokio::spawn] *)
  | step_spawn s i c n allocs :
      loop s = Holding i c → permits s = S n →
      processor_step s {| waiter := waiter s; backlog := backlog s; loop := Selecting; permits := n;
                          running := running s ++ [{| index := i; call := c; allocs := allocs; awaiting := 0 |}];
                          results := results s; scope_alive := scope_alive s |}
  (** [_ = &mut scope.kill]: the receiver of the backlog is dropped *)
  | step_kill s :
      loop s = Selecting → scope_alive s = false →
      processor_step s {| waiter := waiter s; backlog := []; loop := Exited; permits := permits s;
                          running := running s; results := results s; scope_alive := scope_alive s |}
  (** [next] is [None] *)
  | step_closed s :
      loop s = Selecting → waiter s = None → backlog s = [] →
      processor_step s {| waiter := None; backlog := []; loop := Exited; permits := permits s;
                          running := running s; results := results s; scope_alive := scope_alive s |}
  (** a task asks for a buffer *)
  | step_alloc s l t r size rest :
      running s = l ++ t :: r → allocs t = size :: rest → waiter s ≠ None →
      processor_step s {| waiter := waiter s; backlog := backlog s; loop := loop s; permits := permits s;
                          running := l ++ {| index := index t; call := call t; allocs := rest;
                                           awaiting := S (awaiting t) |} :: r;
                          results := respond (BufferCreation (index t) size) s; scope_alive := scope_alive s |}
  (** a task is over; without the executor its allocations fail at once *)
  | step_finish s l t r res :
      running s = l ++ t :: r → (awaiting t = 0 ∧ allocs t = []) ∨ waiter s = None → answers (call t) res →
      processor_step s {| waiter := waiter s; backlog := backlog s; loop := loop s; permits := S (permits s);
                          running := l ++ r; results := respond (TaskResult (index t) (task_reply res)) s;
                          scope_alive := scope_alive s |}
  (** [kill_rx.changed()]: the loop is over and has dropped the sender *)
  | step_cancel s l t r :
      running s = l ++ t :: r → loop s = Exited →
      processor_step s {| waiter := waiter s; backlog := backlog s; loop := loop s; permits := S (permits s);
                          running := l ++ r; results := results s; scope_alive := scope_alive s |}.

(** The executor in [IoWaiter::wait] *)
Inductive wait_step : IoSystem → IoSystem → Prop :=
  | step_buffer s w i size granted rest :
      waiter s = Some w → results s = BufferCreation i size :: rest →
      wait_step s {| waiter := Some w; backlog := backlog s; loop := loop s; permits := permits s;
                     running := resume_at i granted (running s); results := rest; scope_alive := scope_alive s |}
  | step_result s w i reply rest cb w' :
      waiter s = Some w → results s = TaskResult i reply :: rest → wait_result i w = Some (cb, w') →
      wait_step s {| waiter := Some w'; backlog := backlog s; loop := loop s; permits := permits s;
                     running := running s; results := rest; scope_alive := scope_alive s |}.

(** The executor running the script, and the end of the request *)
Inductive outer_step : IoSystem → IoSystem → Prop :=
  | step_issue s w cb i w' :
      waiter s = Some w → loop s ≠ Exited → length (backlog s) < backlog_capacity conf →
      issue false true cb w = (Ok i, w') →
      outer_step s {| waiter := Some w'; backlog := backlog s ++ [(i, cb.2)]; loop := loop s; permits := permits s;
                      running := running s; results := results s; scope_alive := scope_alive s |}
  | step_issue_failed s w cb e w' :
      waiter s = Some w → loop s = Exited → issue false false cb w = (Err e, w') →
      outer_step s {| waiter := Some w'; backlog := backlog s; loop := loop s; permits := permits s;
                      running := running s; results := results s; scope_alive := scope_alive s |}
  | step_drop_scope s :
      outer_step s {| waiter := waiter s; backlog := backlog s; loop := loop s; permits := permits s;
                      running := running s; results := results s; scope_alive := false |}
  | step_drop_waiter s :
      outer_step s {| waiter := None; backlog := backlog s; loop := loop s; permits := permits s;
                      running := running s; results := []; scope_alive := scope_alive s |}.

Definition inner_step : relation IoSystem := λ s s', processor_step s s' ∨ wait_step s s'.
Definition io_step : relation IoSystem := λ s s', inner_step s s' ∨ outer_step s s'.

(** ** Calls and results that are under way *)
Definition result_indices (rs : list BackToExecutorItem) : list nat :=
  omap (λ item, match item with TaskResult i _ => Some i | BufferCreation _ _ => None end) rs.

Definition held (l : LoopState) : list (nat * AsyncCall) :=
  match l with Holding i c => [(i, c)] | _ => [] end.

Definition calls (s : IoSystem) : list (nat * AsyncCall) :=
  backlog s ++ held (loop s) ++ ((λ t, (index t, call t)) <$> running s).

(** Every call and every result is registered under an index of its own; a result is an
    answer to the call registered there. *)
Record tracked (w : IoWaiter Pending) (cs : list (nat * AsyncCall)) (rs : list BackToExecutorItem) : Prop := {
  tracked_NoDup : NoDup (cs.*1 ++ result_indices rs);
  tracked_calls i c : (i, c) ∈ cs → ∃ k, inflight w !! i = Some (k, c);
  tracked_results i reply : TaskResult i reply ∈ rs →
    ∃ k c res, inflight w !! i = Some (k, c) ∧ answers c res ∧ reply = task_reply res;
}.

Lemma result_indices_app a b : result_indices (a ++ b) = result_indices a ++ result_indices b.
Proof. unfold result_indices. by rewrite omap_app. Qed.

Lemma elem_result_indices i rs : i ∈ result_indices rs ↔ ∃ reply, TaskResult i reply ∈ rs.
Proof.
  unfold result_indices. rewrite list_elem_of_omap. split.
  - intros ([j reply|j n] & Hin & [= ->]). by exists reply.
  - intros [reply Hin]. by exists (TaskResult i reply).
Qed.

Lemma tracked_sub w cs cs' rs : cs' ⊆+ cs → tracked w cs rs → tracked w cs' rs.
Proof.
  intros Hsub [Hnd Hc Hr]. split; [|intros i c Hin; apply Hc; by eapply elem_of_submseteq|done].
  eapply submseteq_NoDup; [|exact Hnd]. apply submseteq_skips_r. by apply fmap_submseteq.
Qed.

Lemma tracked_finish w i c cs rs res :
  tracked w ((i, c) :: cs) rs → answers c res → tracked w cs (rs ++ [TaskResult i (task_reply res)]).
Proof.
  intros [Hnd Hc Hr] Ha. split.
  - rewrite result_indices_app, app_assoc. by rewrite (Permutation_app_comm _ [i]).
  - intros j d Hin. apply Hc. by right.
  - intros j reply [Hin|Hin%list_elem_of_singleton]%elem_of_app; [by apply Hr|]. simplify_eq.
    destruct (Hc i c) as [k Hk]; [by left|]. by exists k, c, res.
Qed.

Lemma tracked_ask w cs rs i n : tracked w cs (rs ++ [BufferCreation i n]) ↔ tracked w cs rs.
Proof.
  assert (Hi : ∀ j reply, TaskResult j reply ∈ rs ++ [BufferCreation i n] ↔ TaskResult j reply ∈ rs).
  { intros j reply. rewrite elem_of_app, list_elem_of_singleton. naive_solver. }
  split; intros [Hnd Hc Hr]; split; try done; try (intros j reply Hin; apply Hr; by apply Hi);
    rewrite ?result_indices_app, ?app_nil_r in *; simpl in *; rewrite ?app_nil_r in *; done.
Qed.

Lemma tracked_buffer w cs rs i n : tracked w cs (BufferCreation i n :: rs) → tracked w cs rs.
Proof. intros [Hnd Hc Hr]. split; [done..|]. intros j reply Hin. apply Hr. by right. Qed.

Lemma tracked_result w cs rs i reply :
  tracked w cs (TaskResult i reply :: rs) →
  ∃ k c res w', wait_result i w = Some ((k, c), w') ∧ answers c res ∧ reply = task_reply res ∧
    tracked w' cs rs.
Proof.
  intros [Hnd Hc Hr]. destruct (Hr i reply) as (k & c & res & Hk & Ha & ->); [by left|].
  unfold wait_result. rewrite Hk. simpl. eexists k, c, res, _. split_and!; [done..|].
  simpl in Hnd. rewrite <-Permutation_middle in Hnd. apply NoDup_cons in Hnd as [Hni Hnd].
  assert (Hne : ∀ j, j ∈ cs.*1 ∨ j ∈ result_indices rs → i ≠ j).
  { intros j Hj ->. apply Hni. by apply elem_of_app. }
  split; simpl; [done|..].
  - intros j d Hin. rewrite lookup_delete_ne; [by apply Hc|].
    apply Hne. left. apply list_elem_of_fmap. by exists (j, d).
  - intros j reply' Hin. rewrite lookup_delete_ne; [by eapply Hr; right|].
    apply Hne. right. apply elem_result_indices. by exists reply'.
Qed.

Lemma tracked_issue w cs rs cb i w' :
  tracked w cs rs → issue false true cb w = (Ok i, w') → tracked w' (cs ++ [(i, cb.2)]) rs.
Proof.
  intros [Hnd Hc Hr] Hi. unfold issue in Hi. simpl in Hi. injection Hi as <- <-.
  set (j := fresh (dom (inflight w))).
  assert (Hj : inflight w !! j = None) by (apply not_elem_of_dom, is_fresh).
  assert (Hne : ∀ i x, inflight w !! i = Some x → j ≠ i) by congruence.
  split; simpl.
  - rewrite fmap_app, <-app_assoc. simpl. rewrite <-Permutation_middle. apply NoDup_cons. split; [|done].
    rewrite elem_of_app, elem_result_indices, list_elem_of_fmap. intros [([j' c] & Heq & Hin)|[reply Hin]].
    + simpl in Heq. subst j'. destruct (Hc _ _ Hin) as [k Hk]. by apply Hne in Hk.
    + destruct (Hr _ _ Hin) as (k & c & res & Hk & _). by apply Hne in Hk.
  - intros i c [Hin|[= -> ->]%list_elem_of_singleton]%elem_of_app.
    + destruct (Hc i c Hin) as [k Hk]. exists k. by rewrite lookup_insert_ne by eauto.
    + exists cb.1. rewrite lookup_insert_eq. by destruct cb.
  - intros i reply Hin. destruct (Hr i reply Hin) as (k & c & res & Hk & Ha & Hrep).
    exists k, c, res. by rewrite lookup_insert_ne by eauto.
Qed.

(** ** The invariant *)
Record io_inv (s : IoSystem) : Prop := {
  inv_permits : permits s + length (running s) = Z.to_nat (max_io_concurrency (executor conf));
  inv_backlog : length (backlog s) ≤ backlog_capacity conf;
  inv_exited : loop s = Exited → backlog s = [];
  inv_tracked w : waiter s = Some w → tracked w (calls s) (results s);
}.

Lemma io_inv_init : io_inv (IoSystem_new conf).
Proof.
  split; unfold IoSystem_new, calls; simpl; [lia..|done|].
  intros w [= <-]. split; simpl; [by constructor|by intros i c ?%elem_of_nil|by intros i r ?%elem_of_nil].
Qed.

(** Bookkeeping of the calls, up to their order *)
Lemma calls_running l t r :
  (λ t, (index t, call t)) <$> l ++ t :: r ≡ₚ (index t, call t) :: ((λ t, (index t, call t)) <$> l ++ r).
Proof. by rewrite !fmap_app, fmap_cons, <-Permutation_middle. Qed.

Lemma calls_resume i granted ts :
  (λ t, (index t, call t)) <$> resume_at i granted ts = (λ t, (index t, call t)) <$> ts.
Proof.
  unfold resume_at. rewrite <-list_fmap_compose. apply list_fmap_ext. intros _ t _. simpl. by case_decide.
Qed.

Lemma processor_step_inv s s' : processor_step s s' → io_inv s → io_inv s'.
Proof.
  destruct 1 as [s i c rest Hl Hb|s i c n al Hl Hp|s Hl Ha|s Hl Hw Hb|s l t r size rest Hr Hal Hw|
                 s l t r res Hr Hok Hans|s l t r Hr Hl]; intros [Hp' Hb' He' Ht'];
    (split; simpl in *; [try rewrite Hr in Hp'; rewrite ?length_app in *; simpl in *; lia
                        |rewrite ?Hb in *; simpl in *; lia|try done; try congruence|]);
    intros w Hw'; try discriminate Hw'; specialize (Ht' w Hw'); unfold calls in *; simpl in *.
  - rewrite Hl, Hb in Ht'. simpl in *. revert Ht'. apply tracked_sub. by rewrite Permutation_middle.
  - rewrite Hl in Ht'. revert Ht'. apply tracked_sub. rewrite fmap_app. simpl.
    apply submseteq_skips_l. by rewrite Permutation_app_comm.
  - revert Ht'. apply tracked_sub. by apply submseteq_inserts_l, submseteq_inserts_l.
  - unfold respond. rewrite Hw'. apply tracked_ask. revert Ht'. apply tracked_sub.
    rewrite Hr, !fmap_app. done.
  - unfold respond. rewrite Hw'. apply tracked_finish with (call t); [|done]. revert Ht'. apply tracked_sub.
    rewrite Hr, calls_running. by rewrite !Permutation_middle.
  - revert Ht'. apply tracked_sub. rewrite Hr, calls_running.
    by do 2 apply submseteq_skips_l; apply submseteq_cons.
Qed.

Lemma wait_step_inv s s' : wait_step s s' → io_inv s → io_inv s'.
Proof.
  destruct 1 as [s w i size granted rest Hw Hr|s w i reply rest cb w' Hw Hr Hres]; intros [Hp Hb He Ht];
    specialize (Ht w Hw); rewrite Hr in Ht; split; simpl in *; try done.
  - unfold resume_at. by rewrite length_fmap.
  - intros w' [= <-]. unfold calls. simpl. rewrite calls_resume. by apply tracked_buffer in Ht.
  - intros w2 [= <-]. destruct (tracked_result _ _ _ _ _ Ht) as (k & c & res & w3 & Heq & _ & _ & Ht3).
    rewrite Hres in Heq. by injection Heq as _ <-.
Qed.

Lemma outer_step_inv s s' : outer_step s s' → io_inv s → io_inv s'.
Proof.
  destruct 1 as [s w cb i w' Hw Hl Hlen Hi|s w cb e w' Hw Hl Hi|s|s]; intros [Hp Hb He Ht];
    split; simpl in *; rewrite ?length_app; simpl; try done; try lia.
  - intros w2 [= <-]. apply (tracked_issue _ _ _ _ _ _ (Ht w Hw)) in Hi. revert Hi. apply tracked_sub.
    unfold calls. simpl. rewrite <-!app_assoc. by rewrite (Permutation_app_comm [_]), <-!app_assoc.
  - intros w2 [= <-]. unfold issue in Hi. simpl in Hi. injection Hi as _ <-. specialize (Ht w Hw).
    by rewrite delete_insert_id by apply not_elem_of_dom, is_fresh; destruct w.
Qed.

Lemma io_step_inv s s' : io_step s s' → io_inv s → io_inv s'.
Proof.
  intros [[H|H]|H]; [by apply processor_step_inv|by apply wait_step_inv|by apply outer_step_inv].
Qed.

Lemma io_reachable_inv s : rtc io_step (IoSystem_new conf) s → io_inv s.
Proof. intros Hs. eapply rtc_invariant; [exact io_step_inv|exact Hs|exact io_inv_init]. Qed.

(** ** Replies and limits *)

(** C16. However the processor, its tasks and the script interleave, a result that the
    executor receives is registered with its [IoWaiter] (so [Slab::remove] does not
    panic), and the callback that it gets it back with belongs to a call which this
    result answers. *)
Theorem io_replies_match s w i reply rest :
  rtc io_step (IoSystem_new conf) s → waiter s = Some w → results s = TaskResult i reply :: rest →
  ∃ k c res w', wait_result i w = Some ((k, c), w') ∧ answers c res ∧ reply = task_reply res.
Proof.
  intros Hs Hw Hr. apply io_reachable_inv in Hs. pose proof (inv_tracked _ Hs w Hw) as Ht. rewrite Hr in Ht.
  destruct (tracked_result _ _ _ _ _ Ht) as (k & c & res & w' & ? & ? & ? & _). by exists k, c, res, w'.
Qed.

(** A request never has more than [max_io_concurrency] I/O tasks at work nor more
    calls in its backlog than the channel holds. *)
Theorem io_concurrency_bounded s :
  rtc io_step (IoSystem_new conf) s →
  length (running s) ≤ Z.to_nat (max_io_concurrency (executor conf)) ∧
  length (backlog s) ≤ Z.to_nat (max_io_per_request (executor conf)) + 200.
Proof. intros Hs. apply io_reachable_inv in Hs. destruct Hs as [Hp Hb _ _]. split; [lia|exact Hb]. Qed.

(** ** Termination

    The calls that are not spawned yet come first in the measure, since a new task may
    ask for any number of buffers; then the work of the tasks and the results. *)
Definition unspawned (s : IoSystem) : nat :=
  2 * length (backlog s) + match loop s with Exited => 0 | Selecting => 1 | Holding _ _ => 2 end.
Definition task_work (t : SpawnedTask) : nat := 2 + 3 * length (allocs t).
Definition pending_work (s : IoSystem) : nat := sum_list_with task_work (running s) + length (results s).
Definition inner_lt : relation (nat * nat) := slexprod nat nat lt lt.

Lemma inner_lt_wf : well_founded inner_lt.
Proof. apply wf_slexprod; apply lt_wf. Qed.

Lemma inner_lt_r a b b' : b' < b → inner_lt (a, b') (a, b).
Proof. by apply right_slex. Qed.

Lemma sum_list_with_app_cons l t r :
  sum_list_with task_work (l ++ t :: r) = task_work t + sum_list_with task_work (l ++ r).
Proof. rewrite !sum_list_with_app. simpl. lia. Qed.

Lemma respond_length item s : length (respond item s) ≤ S (length (results s)).
Proof. unfold respond. destruct (waiter s); rewrite ?length_app; simpl; lia. Qed.

Lemma task_work_resume granted t : task_work (resume granted t) ≤ task_work t.
Proof. unfold task_work. destruct granted; simpl; lia. Qed.

Lemma resume_work i granted ts :
  sum_list_with task_work (resume_at i granted ts) ≤ sum_list_with task_work ts.
Proof.
  induction ts as [|t ts IH]; [done|]. unfold resume_at in *. rewrite fmap_cons. cbn [sum_list_with].
  pose proof (task_work_resume granted t). case_decide; lia.
Qed.

Lemma inner_step_lt s s' :
  inner_step s s' → inner_lt (unspawned s', pending_work s') (unspawned s, pending_work s).
Proof.
  intros [H|H].
  - destruct H as [s i c rest Hl Hb|s i c n al Hl Hp|s Hl Ha|s Hl Hw Hb|s l t r size rest Hr Hal Hw|
                   s l t r res Hr Hok Hans|s l t r Hr Hl].
    1-4: apply left_slex; unfold unspawned; simpl; rewrite ?Hl, ?Hb; simpl; lia.
    all: unfold unspawned; simpl; apply inner_lt_r; unfold pending_work; simpl;
      rewrite Hr, !sum_list_with_app_cons.
    + pose proof (respond_length (BufferCreation (index t) size) s). unfold task_work; simpl; rewrite Hal; simpl; lia.
    + pose proof (respond_length (TaskResult (index t) (task_reply res)) s). unfold task_work; simpl; lia.
    + unfold task_work; simpl; lia.
  - destruct H as [s w i size granted rest Hw Hr|s w i reply rest cb w' Hw Hr Hres];
      unfold unspawned; simpl; apply inner_lt_r; unfold pending_work; simpl; rewrite Hr; simpl; [|lia].
    pose proof (resume_work i granted (running s)). lia.
Qed.

Lemma inner_step_wf : well_founded (flip inner_step).
Proof.
  apply (wf_incl _ _ (λ s' s, inner_lt (unspawned s', pending_work s') (unspawned s, pending_work s))).
  - intros s' s. apply inner_step_lt.
  - apply wf_inverse_image, inner_lt_wf.
Qed.

(** C18. Left to themselves, the I/O processor and an executor that waits for it come to
    rest: no infinite sequence of their steps exists, from any state. *)
Theorem io_terminates : well_founded (flip inner_step).
Proof. exact inner_step_wf. Qed.

(** *** The end of a request *)
Lemma exited_stays s s' : inner_step s s' → loop s = Exited → loop s' = Exited.
Proof. intros [[]|[]]; simpl; congruence. Qed.

Lemma waiter_stays s s' : inner_step s s' → waiter s ≠ None → waiter s' ≠ None.
Proof. intros [[]|[]]; simpl; congruence. Qed.

Lemma exited_rest_or_step s :
  io_inv s → loop s = Exited → waiter s ≠ None →
  (running s = [] ∧ results s = []) ∨ ∃ s', inner_step s s'.
Proof.
  intros Hinv Hl Hw. destruct (running s) as [|t ts] eqn:Hr; [|right; eexists; left; by apply (step_cancel s [] t ts)].
  destruct (waiter s) as [w|] eqn:Ew; [|done]. destruct (results s) as [|[i reply|i n] rest] eqn:Hres; [by left|right..].
  - pose proof (inv_tracked _ Hinv w Ew) as Ht. rewrite Hres in Ht.
    destruct (tracked_result _ _ _ _ _ Ht) as (k & c & res & w' & Hwait & _).
    eexists. right. by eapply step_result.
  - eexists. right. by eapply (step_buffer s w i n false).
Qed.

Lemma exited_at_rest s :
  io_inv s → loop s = Exited → waiter s ≠ None → (∀ s', ¬ inner_step s s') →
  running s = [] ∧ results s = [] ∧ recv s = Disconnected.
Proof.
  intros Hs Hl Hw Hrest. destruct (exited_rest_or_step s Hs Hl Hw) as [[Hr Hres]|[s' H]]; [|by destruct (Hrest s')].
  split_and!; [done..|]. unfold recv, senders. by rewrite Hres, Hl, Hr.
Qed.

(** C17. Once the processor has left its loop, waiting for I/O ends.  Every sequence of
    steps of the tasks and the waiting executor is finite; and where it can go no further
    all tasks are over (finished or cancelled), all results have been taken, and [recv]
    fails, which is how the executor learns that the request is over.  Before that, some
    step is possible, so [recv] does not block for ever. *)
Theorem exited_request_drains s :
  rtc io_step (IoSystem_new conf) s → loop s = Exited → waiter s ≠ None →
  Acc (flip inner_step) s ∧
  (∀ s', rtc inner_step s s' →
     (running s' = [] ∧ results s' = [] ∧ recv s' = Disconnected ∧ ∀ s'', ¬ inner_step s' s'') ∨
     ∃ s'', inner_step s' s'').
Proof.
  intros Hs%io_reachable_inv Hl Hw. split; [apply inner_step_wf|]. intros s' Hss.
  assert (H' : io_inv s' ∧ loop s' = Exited ∧ waiter s' ≠ None).
  { apply (rtc_invariant inner_step (λ x, io_inv x ∧ loop x = Exited ∧ waiter x ≠ None) s s'); [|exact Hss|done].
    intros a b Hab (Ha & Hla & Hwa). split_and!; [|by eapply exited_stays|by eapply waiter_stays].
    eapply io_step_inv; [by left|done]. }
  destruct H' as (Hs' & Hl' & Hw'). destruct (exited_rest_or_step s' Hs' Hl' Hw') as [[Hr Hres]|Hstep]; [left|by right].
  assert (Hno : ∀ s'', ¬ inner_step s' s'').
  { intros s'' [H|H]; inversion H; subst; try congruence;
      match goal with E : running s' = ?l ++ _ |- _ => rewrite Hr in E; by destruct l end. }
  destruct (exited_at_rest s' Hs' Hl' Hw' Hno) as (_ & _ & Hrecv). done.
Qed.

(** *** A request that is not cancelled *)

(** The loop waits for a permit outside of its [select!]: whatever happens, the end of
    the request included, it stays there and none of its tasks is cancelled as long as
    none of them is answered. *)
Theorem kill_waits_for_permit s s' i c :
  loop s = Holding i c → permits s = 0 → (∀ t res, t ∈ running s → ¬ answers (call t) res) →
  rtc io_step s s' →
  loop s' = Holding i c ∧ call <$> running s' = call <$> running s.
Proof.
  intros Hl Hp Hun Hs.
  assert (Hinv : loop s' = Holding i c ∧ permits s' = 0 ∧ call <$> running s' = call <$> running s);
    [|naive_solver].
  apply (rtc_invariant io_step (λ x, loop x = Holding i c ∧ permits x = 0 ∧
           call <$> running x = call <$> running s) s s'); [|exact Hs|done]. clear s' Hs.
  intros a b Hab (Hla & Hpa & Hra).
  destruct Hab as [[H|H]|H];
    [destruct H as [| | | |? l t r ? ? Hr|? l t r res Hr ? Hans|]|destruct H|destruct H]; simpl;
    try congruence; try done.
  - rewrite Hr in Hra. by rewrite !fmap_app, !fmap_cons in *.
  - exfalso. assert (Hin : call t ∈ call <$> running s).
    { rewrite <-Hra, Hr. apply list_elem_of_fmap_2, elem_of_app. right. by left. }
    apply list_elem_of_fmap in Hin as (t' & Heq & Hin). apply (Hun t' res Hin). by rewrite <-Heq.
  - split_and!; [done..|]. rewrite <-Hra. unfold resume_at. rewrite <-list_fmap_compose.
    apply list_fmap_ext. intros _ t _. simpl. by case_decide.
Qed.
End processor.

(** ** Runs *)
Module IoRun.
Definition conf : WorkerConfiguration :=
  {| executor := {| max_ab_memory_mb := 1; max_time_ms := 100; max_io_concurrency := 1; max_io_per_request := 2 |};
     fetch_service := ""; env := []; kv_namespaces := [] |}.
Definition to_json (r : result UserValue UserValue) : GenericResult string := Ok "true".
Definition E : TaskEnv :=
  {| now1 := 0; now2 := 0; allocate_arraybuffer := λ _ _, Ok tt; fetch_client := false; connect := Err TryAgain;
     rpc_fetch := λ _, Err "" |}.

(** what the handler of the calls gives, on any tables *)
Definition answers (c : AsyncCall) (r : GenericResult Reply) : Prop :=
  ∃ fs t, (handle_task to_json (λ l, l) E conf c fs t).1.1 = r.

(** no timer has expired yet *)
Definition answers_later (c : AsyncCall) (r : GenericResult Reply) : Prop :=
  match v c with SetTimeout _ => False | _ => True end.

Definition timer : AsyncCall := {| v := SetTimeout 1000; buffers := [] |}.
Definition s0 : IoSystem := IoSystem_new conf.
Definition w1 : IoWaiter Pending := (issue false true (7, timer) (IoWaiter_new conf)).2.
Definition w2 : IoWaiter Pending := (issue false true (8, timer) w1).2.
Definition st (w : IoWaiter Pending) b l p r res alive : IoSystem :=
  {| waiter := Some w; backlog := b; loop := l; permits := p; running := r; results := res; scope_alive := alive |}.
Definition task (i : nat) : SpawnedTask := {| index := i; call := timer; allocs := []; awaiting := 0 |}.

(** two timers with one permit *)
Definition s1 := st w1 [(0, timer)] Selecting 1 [] [] true.
Definition s2 := st w2 [(0, timer); (1, timer)] Selecting 1 [] [] true.
Definition s3 := st w2 [(1, timer)] (Holding 0 timer) 1 [] [] true.
Definition s4 := st w2 [(1, timer)] Selecting 0 [task 0] [] true.
Definition s5 := st w2 [] (Holding 1 timer) 0 [task 0] [] true.
Definition s6 := st w2 [] (Holding 1 timer) 0 [task 0] [] false.

Lemma run_s5 ans : rtc (io_step conf ans) s0 s5.
Proof.
  eapply rtc_l; [right; by apply (step_issue conf s0 (IoWaiter_new conf) (7, timer) 0 w1); vm_compute; try lia|].
  change (rtc (io_step conf ans) s1 s5).
  eapply rtc_l; [right; by apply (step_issue conf s1 w1 (8, timer) 1 w2); vm_compute; try lia|].
  change (rtc (io_step conf ans) s2 s5).
  eapply rtc_l; [left; left; by apply (step_next ans s2 0 timer [(1, timer)])|].
  eapply rtc_l; [left; left; by apply (step_spawn ans s3 0 timer 0 [])|].
  apply rtc_once. left. left. by apply (step_next ans s4 1 timer []).
Qed.
End IoRun.

(** The first timer goes off; the executor takes its result. *)
Module IoReplies.
Import IoRun.
Definition reply : Reply := task_reply (Ok ("null", [])).
Definition s6' := st w2 [] (Holding 1 timer) 1 [] [TaskResult 0 reply] true.

Lemma run_s6' : rtc (io_step conf answers) s0 s6'.
Proof.
  eapply rtc_r; [exact (run_s5 answers)|]. left. left.
  apply (step_finish answers s5 [] (task 0) [] (Ok ("null", []))); [done|by left; split|].
  by exists [], no_tables.
Qed.

(** The request ends with one timer running and one waiting. *)
Definition s7 := st w2 [] (Holding 1 timer) 1 [] [TaskResult 0 reply] false.
Definition s8 := st w2 [] Selecting 0 [task 1] [TaskResult 0 reply] false.
Definition s9 := st w2 [] Exited 0 [task 1] [TaskResult 0 reply] false.

Definition w3 : IoWaiter Pending := {| remaining_budget := remaining_budget w2; inflight := delete 0 (inflight w2) |}.
Definition s10 := st w3 [] Exited 0 [task 1] [] false.
Definition s11 := st w3 [] Exited 1 [] [] false.

Lemma run_s9 : rtc (io_step conf answers) s0 s9.
Proof.
  etrans; [exact run_s6'|].
  eapply rtc_l; [right; apply (step_drop_scope conf s6')|].
  eapply rtc_l; [left; left; by apply (step_spawn answers s7 1 timer 0 [])|].
  apply rtc_once. left. left. by apply (step_kill answers s8).
Qed.
End IoReplies.

Example io_replies_match_holds :
  results IoReplies.s6' = [TaskResult 0 IoReplies.reply] ∧
  ∃ k c w', wait_result 0 IoRun.w2 = Some ((k, c), w') ∧ k = 7 ∧ c = IoRun.timer.
Proof.
  split; [done|].
  destruct (io_replies_match IoRun.conf IoRun.answers IoReplies.s6' IoRun.w2 0 IoReplies.reply []
              IoReplies.run_s6' eq_refl eq_refl) as (k & c & res & w' & Hw & _).
  exists k, c, w'. split; [exact Hw|]. vm_compute in Hw. by simplify_eq.
Defined.

Example io_concurrency_bounded_holds :
  rtc (io_step IoRun.conf IoRun.answers) (IoSystem_new IoRun.conf) IoRun.s5 ∧ length (running IoRun.s5) = 1 ∧
  length (running IoRun.s5) ≤ 1.
Proof.
  split; [exact (IoRun.run_s5 IoRun.answers)|]. split; [done|].
  exact (proj1 (io_concurrency_bounded IoRun.conf IoRun.answers IoRun.s5 (IoRun.run_s5 IoRun.answers))).
Defined.

Example exited_request_drains_holds :
  loop IoReplies.s9 = Exited ∧ length (running IoReplies.s9) = 1 ∧ recv IoReplies.s9 ≠ Disconnected ∧
  ∃ s', rtc (inner_step IoRun.answers) IoReplies.s9 s' ∧ recv s' = Disconnected.
Proof.
  split; [done|]. split; [done|]. split; [done|].
  destruct (exited_request_drains IoRun.conf IoRun.answers IoReplies.s9 IoReplies.run_s9 eq_refl) as [_ Hmax];
    [discriminate|].
  assert (Hrun : rtc (inner_step IoRun.answers) IoReplies.s9 IoReplies.s11).
  { eapply rtc_l; [right; by apply (step_result IoReplies.s9 IoRun.w2 0 IoReplies.reply [] (7, IoRun.timer) IoReplies.w3)|].
    apply rtc_once. left. by apply (step_cancel IoRun.answers IoReplies.s10 [] (IoRun.task 1) []). }
  exists IoReplies.s11. split; [exact Hrun|].
  destruct (Hmax IoReplies.s11 Hrun) as [(_ & _ & Hd & _)|[s'' [H|H]]]; [exact Hd| |]; inversion H; subst; try discriminate;
    match goal with E : running _ = ?l ++ _ |- _ => by destruct l end.
Defined.

(** One permit, two timers, and a dropped scope: the second call is held, and the first
    timer runs on. *)
Example kill_waits_for_permit_holds :
  rtc (io_step IoRun.conf IoRun.answers_later) IoRun.s0 IoRun.s6 ∧ scope_alive IoRun.s6 = false ∧
  ∀ s', rtc (io_step IoRun.conf IoRun.answers_later) IoRun.s6 s' → call <$> running s' = [IoRun.timer].
Proof.
  split.
  { eapply rtc_r; [exact (IoRun.run_s5 IoRun.answers_later)|]. right. apply (step_drop_scope IoRun.conf IoRun.s5). }
  split; [done|]. intros s' Hs.
  apply (kill_waits_for_permit IoRun.conf IoRun.answers_later IoRun.s6 s' 1 IoRun.timer); [done|done| |exact Hs].
  intros t res ->%list_elem_of_singleton Ha. exact Ha.
Defined.
