(* ===== verification/Tenants.v ===== *)
(** * Apps that share a database

    The workers of all apps keep their data in one table.  What an app's calls are
    answered does not depend on what the other apps do there, and the other way round:
    non-interference, for any interleaving of calls and any failures of the database.
    The rows of a scan come in any order, a different one each time, so the calls have
    several outcomes and the property is about all of them. *)
From Stdlib Require Import ZArith Lia.
From S2P Require Import Prelude BTree Types Db DbFacts Lru Sched Mm Interface Io IoFacts.
Local Open Scope Z_scope.

(** ** What can be seen of some namespaces *)
Section view.
Context (N : string → Prop).

Definition view (t t' : tables) : Prop := ∀ ns k, N ns → appkv t !! (ns, k) = appkv t' !! (ns, k).

#[export] Instance view_equivalence : Equivalence view.
Proof.
  split.
  - by intros t ns k _.
  - intros t t' H ns k Hn. by rewrite H.
  - intros t1 t2 t3 H H' ns k Hn. by rewrite H, H'.
Qed.

(** A computation that sees nothing else and changes what is seen in a way that depends
    on nothing else *)
Definition blind {A} (m : DB A) : Prop :=
  ∀ fs t t', view t t' → (m fs t).1 = (m fs t').1 ∧ view (m fs t).2 (m fs t').2.

Lemma blind_ret {A} (a : A) : blind (mret a).
Proof. by intros fs t t' H. Qed.

Lemma blind_lift {A} (r : GenericResult A) : blind (lift r).
Proof. by intros fs t t' H. Qed.

Lemma blind_await : blind await.
Proof. intros [|[e|] fs] t t' H; done. Qed.

Lemma blind_query {A} (f : tables → A) : (∀ t t', view t t' → f t = f t') → blind (query f).
Proof. intros Hf fs t t' H. split; [|done]. simpl. by rewrite (Hf t t'). Qed.

Lemma blind_update f : (∀ t t', view t t' → view (f t) (f t')) → blind (update f).
Proof. intros Hf fs t t' H. split; [done|]. by apply Hf. Qed.

Lemma blind_bind {A B} (m : DB A) (k : A → DB B) : blind m → (∀ a, blind (k a)) → blind (m ≫= k).
Proof.
  intros Hm Hk fs t t' H. rewrite !DB_bind_eq. destruct (Hm fs t t' H) as [Hr Hv].
  destruct (m fs t) as [[r f1] t1], (m fs t') as [[r' f1'] t1']. simpl in *. simplify_eq.
  destruct r' as [a|e]; [by apply Hk|done].
Qed.

Lemma blind_with_args to_json {A} (r : result early A) (k : A → DB Reply) :
  (∀ a, r = Ok a → blind (k a)) → blind (with_args to_json r k).
Proof. intros Hk. destruct r as [a|[s|e]]; simpl; [by apply Hk|apply blind_lift..]. Qed.

Lemma view_set_appkv f t t' :
  (∀ m m', (∀ ns k, N ns → m !! (ns, k) = m' !! (ns, k)) → ∀ ns k, N ns → f m !! (ns, k) = f m' !! (ns, k)) →
  view t t' → view (set_appkv f t) (set_appkv f t').
Proof. intros Hf H ns k. apply (Hf (appkv t) (appkv t') H). Qed.

Lemma view_insert x r t t' : view t t' → view (set_appkv (insert x r) t) (set_appkv (insert x r) t').
Proof.
  apply view_set_appkv. intros m m' H ns k Hn. destruct (decide (x = (ns, k))) as [->|Hne].
  - by rewrite !lookup_insert_eq.
  - rewrite !lookup_insert_ne by done. by apply H.
Qed.

Lemma view_delete x t t' : view t t' → view (set_appkv (delete x) t) (set_appkv (delete x) t').
Proof.
  apply view_set_appkv. intros m m' H ns k Hn. destruct (decide (x = (ns, k))) as [->|Hne].
  - by rewrite !lookup_delete_eq.
  - rewrite !lookup_delete_ne by done. by apply H.
Qed.

Lemma view_upsert ns k v md e t t' :
  N ns → view t t' → view (set_appkv (upsert_kv ns k v md e) t) (set_appkv (upsert_kv ns k v md e) t').
Proof.
  intros Hn H. pose proof (view_insert (ns, k) {| appvalue := v;
    appmetadata := match appkv t !! (ns, k) with Some old => appmetadata old | None => md end;
    appexpiration := e |} t t' H) as Hi. intros ns' k' Hn'. specialize (Hi ns' k' Hn').
  simpl in *. unfold upsert_kv. by rewrite <-(H ns k Hn).
Qed.

Lemma view_write_batch ns writes e t t' :
  N ns → view t t' → view (set_appkv (write_batch ns writes e) t) (set_appkv (write_batch ns writes e) t').
Proof.
  intros Hn. unfold write_batch. revert t t'. induction writes as [|[k v] writes IH]; intros t t' H; [by destruct t, t'|].
  apply (IH (set_appkv (upsert_kv ns k v [] e) t) (set_appkv (upsert_kv ns k v [] e) t')). by apply view_upsert.
Qed.

(** *** The operations of the data client on a namespace of [N] *)
Section operations.
Context (ns : string) (Hns : N ns).

Lemma blind_get now key : blind (worker_data_get now ns key).
Proof.
  apply blind_bind; [apply blind_await|intros _]. apply blind_bind; [apply blind_await|intros _].
  apply blind_query. intros t t' H. by rewrite (H ns key Hns).
Qed.

Lemma scan_matches_view now start end_ t t' :
  view t t' → scan_matches now ns start end_ t ≡ₚ scan_matches now ns start end_ t'.
Proof.
  intros H. apply fmap_Permutation, fmap_Permutation, NoDup_Permutation; [apply NoDup_filter, NoDup_map_to_list..|].
  intros [[ns' k] r]. rewrite !list_elem_of_filter, !elem_of_map_to_list.
  split; intros [(Hx & Hy) Hl]; simpl in *; subst; (split; [done|]); [by rewrite <-H|by rewrite H].
Qed.

(** Whatever order the rows of a scan come in, they can come in that order as well when
    the tables differ elsewhere. *)
Lemma scan_any_order row_order now start end_ limit t t' :
  (∀ l, row_order l ≡ₚ l) → view t t' →
  ∃ row_order', (∀ l, row_order' l ≡ₚ l) ∧
    ∀ fs, (worker_data_scan_keys row_order now ns start end_ limit fs t).1 =
            (worker_data_scan_keys row_order' now ns start end_ limit fs t').1 ∧
          (worker_data_scan_keys row_order now ns start end_ limit fs t).2 = t ∧
          (worker_data_scan_keys row_order' now ns start end_ limit fs t').2 = t'.
Proof.
  intros Hperm H. pose proof (scan_matches_view now start end_ t t' H) as Hm.
  exists (λ l, if decide (l = scan_matches now ns start end_ t') then row_order (scan_matches now ns start end_ t) else l).
  split; [intros l; case_decide; [subst l; by rewrite Hperm|done]|].
  intros [|[e|] [|[e'|] fs]]; unfold worker_data_scan_keys; rewrite !DB_bind_eq; simpl;
    rewrite ?decide_True by done; done.
Qed.

Lemma blind_put now1 now2 key value ine ttl : blind (worker_data_put now1 now2 ns key value ine ttl).
Proof.
  apply blind_bind; [apply blind_await|intros _]. apply blind_bind; [apply blind_lift|intros e].
  destruct ine; (apply blind_bind; [apply blind_await|intros _]); apply blind_update; intros t t' H.
  - rewrite (H ns key Hns). destruct (appkv t' !! (ns, key)) as [r|]; [destruct (live now2 r); [done|]|]; by apply view_insert.
  - by apply view_upsert.
Qed.

Lemma blind_delete key : blind (worker_data_delete ns key).
Proof.
  apply blind_bind; [apply blind_await|intros _]. apply blind_bind; [apply blind_await|intros _].
  apply blind_update. intros t t'. apply view_delete.
Qed.

Lemma blind_check_assertions now assertions : blind (check_assertions now ns assertions).
Proof.
  induction assertions as [|[k v] assertions IH]; [apply blind_ret|].
  apply blind_bind; [apply blind_await|intros _]. apply blind_bind.
  - apply blind_query. intros t t' H. by rewrite (H ns k Hns).
  - intros []; [done|apply blind_ret].
Qed.

Lemma blind_cmpupdate now assertions writes ttl : blind (worker_data_cmpupdate now ns assertions writes ttl).
Proof.
  apply blind_bind; [apply blind_lift|intros e]. apply blind_bind; [apply blind_await|intros _].
  apply blind_bind; [apply blind_await|intros _]. apply blind_bind; [apply blind_check_assertions|].
  intros []; [|apply blind_ret]. apply blind_bind; [apply blind_await|intros _].
  apply blind_bind; [apply blind_await|intros _]. apply blind_bind; [|intros; apply blind_ret].
  apply blind_update. intros t t' H. by apply view_write_batch.
Qed.
End operations.
End view.

(** ** The calls of all workers *)
Section tenants.
Context (to_json : result UserValue UserValue → GenericResult string).
Context (wc : WorkerConfiguration).

(** A call made by a worker of [call_app], which runs with the configuration the proxy
    makes of the app's; the faults are what the database does to it *)
Record tenant_call := {
  call_app : AppConfig;
  call_env : TaskEnv;
  call_task : AsyncCall;
  call_faults : faults;
}.

Definition serve_call (row_order : list bytes → list bytes) (c : tenant_call) (t : tables)
    : GenericResult Reply * tables :=
  let '(r, _, t) := handle_task to_json row_order (call_env c) (target_config wc (call_app c))
                      (call_task c) (call_faults c) t in (r, t).

(** The calls with their replies, in the order in which the database serves them: each has
    one statement or one transaction, at which it takes effect.  The scan of a call gets
    its rows in any order. *)
Inductive serves : list tenant_call → tables → list (tenant_call * GenericResult Reply) → tables → Prop :=
  | serves_nil t : serves [] t [] t
  | serves_cons row_order c cs t rs t' :
      (∀ l, row_order l ≡ₚ l) →
      serves cs (serve_call row_order c t).2 rs t' →
      serves (c :: cs) t ((c, (serve_call row_order c t).1) :: rs) t'.

(** One run: every scan gets its rows in the order [row_order] *)
Fixpoint serve (row_order : list bytes → list bytes) (cs : list tenant_call) (t : tables)
    : list (tenant_call * GenericResult Reply) * tables :=
  match cs with
  | [] => ([], t)
  | c :: cs =>
      let '(r, t) := serve_call row_order c t in
      let '(rs, t) := serve row_order cs t in
      ((c, r) :: rs, t)
  end.

Lemma serve_serves row_order cs t :
  (∀ l, row_order l ≡ₚ l) → serves cs t (serve row_order cs t).1 (serve row_order cs t).2.
Proof.
  intros Ho. revert t. induction cs as [|c cs IH]; intros t; simpl; [constructor|].
  pose proof (serves_cons row_order c cs t) as Hcons. destruct (serve_call row_order c t) as [r t1].
  specialize (IH t1). destruct (serve row_order cs t1) as [rs t2]. by apply Hcons.
Qed.

Definition has_namespace (app : AppConfig) (ns : string) : Prop := ns ∈ kv_id <$> app_kv_namespaces app.

Lemma allowed_has_namespace app ns : allowed (target_config wc app) ns → has_namespace app ns.
Proof.
  intros [name H]. unfold target_config, decode_kv_namespaces in H. simpl in H.
  rewrite bt_get_from_list in H.
  apply bt_get_Some_elem, elem_of_reverse, list_elem_of_fmap in H as (n & [= -> ->] & Hn).
  by apply list_elem_of_fmap_2.
Qed.

Lemma blind_handle_task N row_order E conf task :
  (∀ ns, allowed conf ns → N ns) → (∀ ns limit, v task ≠ KvScan ns limit) →
  blind N (handle_task to_json row_order E conf task).
Proof.
  intros HN Hscan. unfold handle_task, handle_fetch, handle_kv_cmpupdate.
  destruct (v task) as [n|req|ns|ns ine ttl|ns|ns limit|ns na nw ttl]; [apply blind_ret|..|by destruct (Hscan ns limit)|];
    apply blind_with_args.
  - intros body _. apply blind_lift.
  - intros [key id] Hr. apply result_bind_Ok in Hr as (k & _ & (i & Hi & [= <- <-])%result_bind_Ok).
    apply blind_bind; [|intros; apply blind_lift]. by eapply blind_get, HN, namespace_id_Ok.
  - intros [[key value] id] Hr.
    apply result_bind_Ok in Hr as (k & _ & (w & _ & (i & Hi & [= <- <- <-])%result_bind_Ok)%result_bind_Ok).
    apply blind_bind; [|intros; apply blind_lift]. by eapply blind_put, HN, namespace_id_Ok.
  - intros [key id] Hr. apply result_bind_Ok in Hr as (k & _ & (i & Hi & [= <- <-])%result_bind_Ok).
    apply blind_bind; [|intros; apply blind_lift]. apply blind_delete.
  - intros [id [a w]] Hr. apply result_bind_Ok in Hr as (i & Hi & ([a' w'] & _ & [= <- <- <-])%result_bind_Ok).
    apply blind_bind; [|intros; apply blind_lift]. by eapply blind_cmpupdate, HN, namespace_id_Ok.
Qed.

Lemma scan_task_any_order N row_order E conf task fs t t' :
  (∀ ns, allowed conf ns → N ns) → (∀ l, row_order l ≡ₚ l) → view N t t' →
  ∃ row_order', (∀ l, row_order' l ≡ₚ l) ∧
    (handle_task to_json row_order E conf task fs t).1 = (handle_task to_json row_order' E conf task fs t').1 ∧
    view N (handle_task to_json row_order E conf task fs t).2 (handle_task to_json row_order' E conf task fs t').2.
Proof.
  intros HN Hperm H.
  assert ((∃ ns limit, v task = KvScan ns limit) ∨ ∀ ns limit, v task ≠ KvScan ns limit) as [(ns & limit & Ht)|Hno].
  { destruct (v task); eauto. }
  2: { exists row_order. split; [done|]. by apply blind_handle_task. }
  unfold handle_task, handle_kv_scan. rewrite Ht.
  match goal with |- context [with_args to_json ?r _] => destruct r as [[[s e] id]|[msg|err]] eqn:Hr end; simpl.
  - apply result_bind_Ok in Hr as (k & _ & (w & _ & (i & Hi & Hr)%result_bind_Ok)%result_bind_Ok).
    case_decide; [done|]. injection Hr as <- <- <-.
    destruct (scan_any_order N i (HN i (namespace_id_Ok _ _ _ Hi)) row_order (now1 E) k w limit t t' Hperm H) as (o & Ho & Heq).
    exists o. split; [done|]. rewrite !DB_bind_eq. destruct (Heq fs) as (H1 & H2 & H3).
    destruct (worker_data_scan_keys row_order _ _ _ _ _ _ t) as [[r f] t1],
             (worker_data_scan_keys o _ _ _ _ _ _ t') as [[r' f'] t1']; simpl in *; simplify_eq.
    by destruct r' as [keys|err].
  - exists row_order. split; [done|]. by apply blind_lift.
  - exists row_order. split; [done|]. by apply blind_lift.
Qed.

Lemma serve_call_mine N row_order c t t' :
  (∀ ns, has_namespace (call_app c) ns → N ns) → (∀ l, row_order l ≡ₚ l) → view N t t' →
  ∃ row_order', (∀ l, row_order' l ≡ₚ l) ∧
    (serve_call row_order c t).1 = (serve_call row_order' c t').1 ∧
    view N (serve_call row_order c t).2 (serve_call row_order' c t').2.
Proof.
  intros HN Hperm H. unfold serve_call.
  destruct (scan_task_any_order N row_order (call_env c) (target_config wc (call_app c)) (call_task c) (call_faults c) t t'
              (λ ns Ha, HN ns (allowed_has_namespace _ _ Ha)) Hperm H) as (o & Ho & Hr & Hv).
  exists o. split; [done|].
  destruct (handle_task _ row_order _ _ _ _ t) as [[r f] t1], (handle_task _ o _ _ _ _ t') as [[r' f'] t1'].
  simpl in *. by simplify_eq.
Qed.

Lemma serve_call_other N row_order c t :
  (∀ ns, has_namespace (call_app c) ns → ¬ N ns) → view N (serve_call row_order c t).2 t.
Proof.
  intros HN ns k Hn. unfold serve_call.
  pose proof (handle_task_outside to_json row_order (call_env c) (target_config wc (call_app c)) (call_task c)
                (call_faults c) t) as [Ho _].
  destruct (handle_task _ _ _ _ _ _ t) as [[r f] t1]. simpl in *. apply Ho.
  intros Ha%allowed_has_namespace. by eapply HN.
Qed.

Section apart.
Context (mine : AppConfig → Prop) `{!∀ app, Decision (mine app)} (own : string → Prop).

(** The apps that are not mine have none of the namespaces [own], mine have no other *)
Definition apart (cs : list tenant_call) : Prop :=
  ∀ c ns, c ∈ cs → has_namespace (call_app c) ns → if decide (mine (call_app c)) then own ns else ¬ own ns.

Lemma apart_cons c cs :
  apart (c :: cs) →
  (∀ ns, has_namespace (call_app c) ns → if decide (mine (call_app c)) then own ns else ¬ own ns) ∧ apart cs.
Proof. intros Ha. split; [intros ns; apply Ha; by left|]. intros c' ns Hc. apply Ha. by right. Qed.

Lemma serves_alone cs t rs t1 t' :
  apart cs → serves cs t rs t1 → view own t t' →
  ∃ t1', serves (filter (λ c, mine (call_app c)) cs) t' (filter (λ cr, mine (call_app cr.1)) rs) t1' ∧ view own t1 t1'.
Proof.
  intros Ha Hs. revert t' Ha. induction Hs as [t|o c cs t rs t1 Ho Hs IH]; intros t' Ha Hv.
  - exists t'. by split; [constructor|].
  - apply apart_cons in Ha as [Hc Ha]. rewrite !filter_cons. simpl. destruct (decide (mine (call_app c))) as [Hm|Hm].
    + destruct (serve_call_mine own o c t t' Hc Ho Hv) as (o' & Ho' & -> & Hv').
      destruct (IH _ Ha Hv') as (t1' & Hs' & Hv1). exists t1'. split; [by constructor|done].
    + apply IH; [done|]. etrans; [by apply serve_call_other|done].
Qed.

Lemma serves_among cs t t' rs' t1' :
  apart cs → serves (filter (λ c, mine (call_app c)) cs) t' rs' t1' → view own t t' →
  ∃ rs t1, serves cs t rs t1 ∧ filter (λ cr, mine (call_app cr.1)) rs = rs' ∧ view own t1 t1'.
Proof.
  revert t t' rs'. induction cs as [|c cs IH]; intros t t' rs' Ha Hs Hv.
  - inversion Hs; subst. exists [], t. by repeat constructor.
  - apply apart_cons in Ha as [Hc Ha]. rewrite filter_cons in Hs. destruct (decide (mine (call_app c))) as [Hm|Hm].
    + inversion Hs as [|o ? ? ? rs0 ? Ho Hs0]; subst.
      destruct (serve_call_mine own o c t' t Hc Ho (symmetry Hv)) as (o' & Ho' & -> & Hv').
      destruct (IH _ _ _ Ha Hs0 (symmetry Hv')) as (rs & t1 & Hs1 & <- & Hv1).
      eexists _, t1. split; [by constructor|]. by rewrite filter_cons_True.
    + destruct (IH (serve_call id c t).2 t' rs' Ha Hs) as (rs & t1 & Hs1 & <- & Hv1).
      { etrans; [by apply serve_call_other|done]. }
      eexists _, t1. split; [by apply (serves_cons id)|]. by rewrite filter_cons_False.
Qed.
End apart.

(** C5. Non-interference: an app whose namespaces no other app uses is answered, and finds
    its data in the end, as if it were alone.  Whatever its calls are answered among the
    calls of the workers of the other apps, however these interleave and fail, and whatever
    the other namespaces held before, they can be answered when they are served alone; and
    whatever they can be answered alone, they can be answered among the others.  (There is
    more than one answer only because the rows of a scan come in any order.) *)
Theorem tenants_noninterference (mine : AppConfig → Prop) `{!∀ app, Decision (mine app)} cs t t' :
  let own ns := ∃ c, c ∈ cs ∧ mine (call_app c) ∧ has_namespace (call_app c) ns in
  let my_calls := filter (λ c, mine (call_app c)) cs in
  let my_replies := filter (λ cr : tenant_call * GenericResult Reply, mine (call_app cr.1)) in
  (∀ c ns, c ∈ cs → ¬ mine (call_app c) → has_namespace (call_app c) ns → ¬ own ns) →
  view own t t' →
  (∀ rs t1, serves cs t rs t1 → ∃ t1', serves my_calls t' (my_replies rs) t1' ∧ view own t1 t1') ∧
  (∀ rs' t1', serves my_calls t' rs' t1' → ∃ rs t1, serves cs t rs t1 ∧ my_replies rs = rs' ∧ view own t1 t1').
Proof.
  intros own my_calls my_replies Hother Hv.
  assert (Ha : apart mine own cs).
  { intros c ns Hc Hns. case_decide; [by exists c|by eapply Hother]. }
  split; [intros; by eapply serves_alone|intros; by eapply serves_among].
Qed.
End tenants.

(** ** Two apps with a namespace of the same name: both write the same key. *)
Module TenantRun.
Definition app (id ns : string) : AppConfig :=
  {| app_config_id := {| app_id := id |}; bundle_id := id; app_env := [];
     app_kv_namespaces := [{| kv_name := "NS"; kv_id := ns |}] |}.
Definition mine (x : AppConfig) : Prop := app_id (app_config_id x) = "a".
#[export] Instance mine_dec x : Decision (mine x).
Proof. unfold mine. apply _. Defined.
Definition view_of (x : byte) : JsArrayBufferViewRef := {| backing := [x]; range := (0, 1)%nat |}.
Definition call (x : AppConfig) (k : AsyncCallV) (args : bytes) (fs : faults) : tenant_call :=
  {| call_app := x; call_env := sample_env; call_task := {| v := k; buffers := view_of <$> args |}; call_faults := fs |}.
Definition a : AppConfig := app "a" "A".
Definition b : AppConfig := app "b" "B".
Definition calls : list tenant_call :=
  [call b (KvPut "NS" false 0) [Byte.x01; Byte.x07] [];
   call a (KvPut "NS" true 0) [Byte.x01; Byte.x02] [];
   call b (KvDelete "NS") [Byte.x01] [Some (Other "down")];
   call b (KvCmpUpdate "NS" 1 1 0) [Byte.x01; Byte.x07; Byte.x01; Byte.x08] [];
   call a (KvCmpUpdate "NS" 1 1 0) [Byte.x01; Byte.x02; Byte.x03; Byte.x04] [];
   call a (KvScan "NS" 10) [Byte.x01] []].
Definition before : tables := set_appkv (insert ("B", [Byte.x05]) {| appvalue := []; appmetadata := []; appexpiration := 0 |}) no_tables.

Lemma call_apps c ns : c ∈ calls → has_namespace (call_app c) ns → mine (call_app c) ∧ ns = "A" ∨ ¬ mine (call_app c) ∧ ns = "B".
Proof.
  intros Hc. assert (call_app c = a ∨ call_app c = b) as [-> | ->].
  { revert c Hc. apply Forall_forall. unfold calls. repeat constructor; simpl; by (left + right). }
  - intros ->%list_elem_of_singleton. by left.
  - intros ->%list_elem_of_singleton. by right.
Qed.
End TenantRun.

(** The rows of the scan come backwards in this run; what app a is answered it can be
    answered alone. *)
Example tenants_noninterference_holds :
  let rs := (serve sample_json sample_conf reverse TenantRun.calls TenantRun.before).1 in
  let my_calls := filter (λ c, TenantRun.mine (call_app c)) TenantRun.calls in
  let my_replies := filter (λ cr : tenant_call * GenericResult Reply, TenantRun.mine (call_app cr.1)) rs in
  snd <$> my_replies = [Ok ("ok", []); Ok ("true", []); Ok ("ok", [[Byte.x03]; [Byte.x01]])] ∧
  ∃ t1', serves sample_json sample_conf my_calls no_tables my_replies t1'.
Proof.
  intros rs my_calls my_replies. split; [vm_compute; reflexivity|].
  assert (Hs : serves sample_json sample_conf TenantRun.calls TenantRun.before rs
                 (serve sample_json sample_conf reverse TenantRun.calls TenantRun.before).2)
    by (apply serve_serves; intros l; apply reverse_Permutation).
  refine (let (H, _) := tenants_noninterference sample_json sample_conf TenantRun.mine TenantRun.calls
           TenantRun.before no_tables _ _ in let (t1', H') := H rs _ Hs in ex_intro _ t1' (proj1 H')).
  - intros c ns Hc Hm Hns (c' & Hc' & Hm' & Hns').
    destruct (TenantRun.call_apps c ns Hc Hns) as [[? _]|[_ ->]]; [done|].
    destruct (TenantRun.call_apps c' "B" Hc' Hns') as [[_ ?]|[? _]]; done.
  - intros ns k (c & Hc & Hm & Hns). simpl. rewrite lookup_insert_ne; [done|]. intros [= <- _].
    destruct (TenantRun.call_apps c "B" Hc Hns) as [[_ ?]|[? _]]; done.
Defined.
