(* ===== verification/Fetchd.v ===== *)
(** * The fetch daemon: [rusty-workers-fetchd/src/server.rs]

    The service that performs the HTTP requests of scripts.  The [reqwest] client and the
    parsers of its types are parameters: a header map is a type with the operations the
    source calls, and sending a request yields a response with a stream of chunks. *)
From Stdlib Require Import ZArith Lia.
From S2P Require Import Prelude BTree Types Db Mm Interface Io IoFacts.
Local Open Scope Z_scope.

Definition MAX_RESPONSE_BODY_SIZE : Z := 1048576 * 8.

(** The sources of the [anyhow::Error] of [run_fetch] *)
Inductive FetchError :=
  | BadUrl
  | BadMethod
  | BadHeaderName
  | BadHeaderValue
  | RequestFailed (e : string)
  | ResponseBodyTooLarge.

(** The types of [reqwest] *)
Class Reqwest := {
  Url : Type;
  Method : Type;
  ReqwestHeaders : Type;
  url_parse : string → option Url;
  method_from_bytes : bytes → option Method;
  header_name : bytes → option string;             (* HeaderName::from_bytes, lower case *)
  header_value : string → option bytes;            (* HeaderValue::from_str *)
  value_to_str : bytes → option string;            (* HeaderValue::to_str *)
  no_headers : ReqwestHeaders;
  headers_append : string → bytes → ReqwestHeaders → ReqwestHeaders;
  headers_remove : string → ReqwestHeaders → ReqwestHeaders;
  headers_get : string → ReqwestHeaders → option bytes;
  headers_get_remove k h : headers_get k (headers_remove k h) = None;
}.

Section fetchd.
Context {R : Reqwest}.

(** [reqwest::Request] and what [execute] yields: the status, the headers in the order of
    their iteration, and the chunks of the body *)
Record TargetRequest := { t_method : Method; t_url : Url; t_headers : ReqwestHeaders; t_body : bytes }.
Record FetchedResponse := {
  f_status : Z;
  f_headers : list (string * bytes);
  f_chunks : list (result string bytes);
}.
Context (execute : TargetRequest → result string FetchedResponse) (debug : FetchError → string).

Fixpoint append_values (k : string) (vs : list string) (h : ReqwestHeaders) : result FetchError ReqwestHeaders :=
  match vs with
  | [] => Ok h
  | item :: vs =>
      n ← ok_or (header_name (as_bytes k)) BadHeaderName;
      v ← ok_or (header_value item) BadHeaderValue;
      append_values k vs (headers_append n v h)
  end.

Fixpoint append_all (hs : list (string * list string)) (h : ReqwestHeaders) : result FetchError ReqwestHeaders :=
  match hs with
  | [] => Ok h
  | (k, vs) :: hs => h ← append_values k vs h; append_all hs h
  end.

(** The request, before it is sent *)
Definition fetch_request (req : RequestObject) : result FetchError TargetRequest :=
  url ← ok_or (url_parse (req_url req)) BadUrl;
  method ← ok_or (method_from_bytes (as_bytes (req_method req))) BadMethod;
  headers ← append_all (req_headers req) no_headers;
  host ← ok_or (header_name (as_bytes "host")) BadHeaderName;
  let 'Binary b := req_body req in
  Ok {| t_method := method; t_url := url; t_headers := headers_remove host headers; t_body := b |}.

(** The loop over the chunks: the limit is checked after a chunk is appended. *)
Fixpoint read_chunks (chunks : list (result string bytes)) (body : bytes) : result FetchError bytes :=
  match chunks with
  | [] => Ok body
  | Err e :: _ => Err (RequestFailed e)
  | Ok chunk :: chunks =>
      let body := body ++ chunk in
      if decide (MAX_RESPONSE_BODY_SIZE < Z.of_nat (length body)) then Err ResponseBodyTooLarge
      else read_chunks chunks body
  end.

Fixpoint response_headers (items : list (string * bytes)) (headers : list (string * list string))
    : result FetchError (list (string * list string)) :=
  match items with
  | [] => Ok headers
  | (k, v) :: items =>
      s ← ok_or (value_to_str v) BadHeaderValue;
      response_headers items (bt_push k s headers)
  end.

Definition run_fetch (req : RequestObject) : result FetchError ResponseObject :=
  target_req ← fetch_request req;
  res ← map_err RequestFailed (execute target_req);
  body ← read_chunks (f_chunks res) [];
  headers ← response_headers (f_headers res) [];
  Ok {| res_headers := headers; res_status := f_status res; res_body := Binary body |}.

(** [FetchService::fetch]: an error is a value for the client. *)
Definition fetch (req : RequestObject) : GenericResult (result string ResponseObject) :=
  match run_fetch req with
  | Ok x => Ok (Ok x)
  | Err e => Ok (Err (String.append "fetch error: " (debug e)))
  end.

(** ** What a fetch gives *)
Lemma read_chunks_Ok chunks body b :
  read_chunks chunks body = Ok b →
  ∃ xs, chunks = Ok <$> xs ∧ b = body ++ concat xs ∧
        (chunks ≠ [] → Z.of_nat (length b) <= MAX_RESPONSE_BODY_SIZE).
Proof.
  revert body. induction chunks as [|[c|e] chunks IH]; intros body; simpl; [|case_decide; [done|]|done].
  - intros [= <-]. exists []. simpl. by rewrite app_nil_r.
  - intros Hr. pose proof Hr as (xs & -> & -> & Hlen)%IH. exists (c :: xs). simpl. rewrite app_assoc.
    split_and!; [done..|]. intros _. destruct xs as [|x xs]; [|by apply Hlen].
    simpl. rewrite app_nil_r. lia.
Qed.

Lemma response_headers_Ok items headers hs :
  response_headers items headers = Ok hs →
  ∃ strs, value_to_str <$> items.*2 = Some <$> strs ∧
    hs = foldl (λ m kv, bt_push kv.1 kv.2 m) headers (zip items.*1 strs).
Proof.
  revert headers. induction items as [|[k v] items IH]; intros headers; simpl.
  - intros [= <-]. by exists [].
  - destruct (value_to_str v) as [s|] eqn:Ev; simpl; [|done]. intros (strs & Hs & ->)%IH.
    exists (s :: strs). split; [|done]. rewrite !fmap_cons. simpl. f_equal. exact Hs.
Qed.

(** The values of a name among the headers of the response, as strings *)
Lemma values_of_zip k (items : list (string * bytes)) strs :
  value_to_str <$> items.*2 = Some <$> strs →
  Some <$> values_of k (zip items.*1 strs) = value_to_str <$> values_of k items.
Proof.
  unfold values_of. revert strs. induction items as [|[k' v] items IH]; intros [|s strs]; try done.
  rewrite !fmap_cons. simpl. intros [= Hv Hs]. rewrite !filter_cons. simpl.
  case_decide; [|by apply IH]. rewrite !fmap_cons. simpl. by rewrite Hv, (IH strs).
Qed.

Lemma fetch_request_host req target host :
  fetch_request req = Ok target → header_name (as_bytes "host") = Some host →
  headers_get host (t_headers target) = None.
Proof.
  intros (u & _ & (m & _ & (h & _ & (n & Hn & Ht)%result_bind_Ok)%result_bind_Ok)%result_bind_Ok)%result_bind_Ok Hh.
  rewrite Hh in Hn. injection Hn as <-. destruct (req_body req). injection Ht as <-.
  apply headers_get_remove.
Qed.

(** What a successful fetch returns is the response that the request got: its status, under
    each name the values of that header in order, and as body exactly its chunks, at
    most 8 MiB of them; and the request never carries a [host] header of the script. *)
Theorem run_fetch_spec req res :
  run_fetch req = Ok res →
  ∃ target fres xs,
    fetch_request req = Ok target ∧ execute target = Ok fres ∧
    (∀ host, header_name (as_bytes "host") = Some host → headers_get host (t_headers target) = None) ∧
    res_status res = f_status fres ∧
    (∀ k, Some <$> default [] (bt_get k (res_headers res)) = value_to_str <$> values_of k (f_headers fres)) ∧
    f_chunks fres = Ok <$> xs ∧ res_body res = Binary (concat xs) ∧
    Z.of_nat (length (concat xs)) <= MAX_RESPONSE_BODY_SIZE.
Proof.
  unfold run_fetch. intros (target & Ht & (fres & He & (b & Hb & (hs & Hh & Hres)%result_bind_Ok)%result_bind_Ok)
    %result_bind_Ok)%result_bind_Ok.
  injection Hres as <-. simpl.
  apply read_chunks_Ok in Hb as (xs & Hxs & -> & Hlen).
  apply response_headers_Ok in Hh as (strs & Hs & ->).
  exists target, fres, xs. split_and!; try done.
  - revert He. by destruct (execute target); intros [= ->].
  - intros host. by eapply fetch_request_host.
  - intros k. rewrite bt_push_fold. simpl. by apply values_of_zip.
  - destruct xs as [|x xs]; [done|]. apply Hlen. by rewrite Hxs.
Qed.

(** *** A script that fetches *)
Context (to_json : result UserValue UserValue → GenericResult string).

(** A [Fetch] call of a script, through the I/O processor and this daemon: whatever goes
    wrong with the request is a value that the script sees, not a failed call, and a
    response arrives as its JSON without the body and one buffer that is the body. *)
Theorem script_fetch_spec E req bufs body fs t :
  arg bufs 0 "missing body" MAX_FETCH_REQUEST_BODY_SIZE "fetch request body too large" = Ok body →
  (get_fetch_client E).1 = Ok tt → (∀ i n, allocate_arraybuffer E i n = Ok tt) →
  rpc_fetch E = (λ r, Ok (fetch r)) →
  handle_fetch to_json E req bufs fs t =
    (match run_fetch {| req_headers := req_headers req; req_method := req_method req; req_url := req_url req;
                        req_body := Binary body |} with
     | Ok res =>
         let 'Binary b := res_body res in
         s ← to_json (Ok (UResponse {| res_headers := res_headers res; res_status := res_status res;
                                       res_body := Binary [] |}));
         Ok (s, [b])
     | Err e => s ← to_json (Err (UString (String.append "fetch error: " (debug e)))); Ok (s, [])
     end, fs, t).
Proof.
  intros Harg Hc Hal Hrpc. unfold handle_fetch. rewrite Harg. simpl. unfold lift. f_equal. f_equal.
  rewrite Hc. simpl. rewrite Hrpc. simpl. unfold fetch.
  destruct (run_fetch _) as [res|e]; simpl; [|done]. destruct (res_body res) as [b].
  unfold allocate_arraybuffer_with_data. by rewrite Hal.
Qed.
End fetchd.

(** ** A fetch *)
Module FetchRun.
(** Header maps as association lists *)
Definition ascii_name (b : bytes) : option string := if decide (b = []) then None else Some (of_bytes b).

#[export] Program Instance assoc_reqwest : Reqwest :=
  {| Url := string; Method := bytes; ReqwestHeaders := list (string * bytes);
     url_parse s := if decide (s = "") then None else Some s;
     method_from_bytes b := if decide (b = []) then None else Some b;
     header_name := ascii_name; header_value s := Some (as_bytes s); value_to_str b := Some (of_bytes b);
     no_headers := []; headers_append k v h := h ++ [(k, v)];
     headers_remove k h := filter (λ kv, kv.1 ≠ k) h;
     headers_get k h := snd <$> head (filter (λ kv, kv.1 = k) h) |}.
Next Obligation.
  intros k h. simpl. induction h as [|[k' v] h IH]; [done|]. rewrite filter_cons. simpl.
  case_decide; [|done]. rewrite filter_cons. by rewrite decide_False.
Qed.

Definition response : FetchedResponse :=
  {| f_status := 200; f_headers := [("vary", as_bytes "a"); ("x", as_bytes "1"); ("vary", as_bytes "b")];
     f_chunks := [Ok [Byte.x01]; Ok [Byte.x02; Byte.x03]] |}.
Definition execute (r : TargetRequest) : result string FetchedResponse :=
  if decide (headers_get "host" (t_headers r) = None) then Ok response else Err "host".
Definition req : RequestObject :=
  {| req_headers := [("accept", ["c"]); ("host", ["evil"])]; req_method := "GET"; req_url := "u";
     req_body := Binary [] |}.
Definition got : ResponseObject :=
  {| res_headers := [("vary", ["a"; "b"]); ("x", ["1"])]; res_status := 200;
     res_body := Binary [Byte.x01; Byte.x02; Byte.x03] |}.
Definition debug (e : FetchError) : string := match e with BadUrl => "url" | _ => "other" end.
Definition to_json (r : result UserValue UserValue) : GenericResult string :=
  Ok (match r with Ok (UResponse r) => "response" | Ok _ => "ok" | Err (UString s) => s | Err _ => "err" end).
Definition E : TaskEnv :=
  {| now1 := 0; now2 := 0; allocate_arraybuffer := λ _ _, Ok tt; fetch_client := false; connect := Ok tt;
     rpc_fetch := λ r, Ok (fetch execute debug r) |}.
Definition no_url : RequestObject :=
  {| req_headers := []; req_method := "GET"; req_url := ""; req_body := Binary [] |}.
End FetchRun.
#[local] Existing Instance FetchRun.assoc_reqwest.

Example run_fetch_spec_holds :
  run_fetch FetchRun.execute FetchRun.req = Ok FetchRun.got ∧
  ∃ target, fetch_request FetchRun.req = Ok target ∧ headers_get "host" (t_headers target) = None.
Proof.
  assert (Hr : run_fetch FetchRun.execute FetchRun.req = Ok FetchRun.got) by reflexivity.
  split; [exact Hr|].
  destruct (run_fetch_spec FetchRun.execute FetchRun.req FetchRun.got Hr) as (target & fres & xs & Ht & _ & Hh & _).
  exists target. split; [exact Ht|]. by apply Hh.
Defined.

Example script_fetch_spec_holds :
  handle_fetch FetchRun.to_json FetchRun.E FetchRun.req [{| backing := []; range := (0, 0)%nat |}] [] no_tables =
    (Ok ("response", [[Byte.x01; Byte.x02; Byte.x03]]), [], no_tables) ∧
  handle_fetch FetchRun.to_json FetchRun.E FetchRun.no_url [{| backing := []; range := (0, 0)%nat |}] [] no_tables =
    (Ok ("fetch error: url", []), [], no_tables).
Proof.
  split.
  - rewrite (script_fetch_spec FetchRun.execute FetchRun.debug FetchRun.to_json FetchRun.E FetchRun.req
               [{| backing := []; range := (0, 0)%nat |}] [] [] no_tables eq_refl eq_refl (λ _ _, eq_refl) eq_refl).
    vm_compute. reflexivity.
  - rewrite (script_fetch_spec FetchRun.execute FetchRun.debug FetchRun.to_json FetchRun.E FetchRun.no_url
               [{| backing := []; range := (0, 0)%nat |}] [] [] no_tables eq_refl eq_refl (λ _ _, eq_refl) eq_refl).
    vm_compute. reflexivity.
Defined.
