(* ===== verification/Executor.v ===== *)
(** * The executor of a worker instance: [rusty-workers-runtime/src/executor.rs],
    [engine.rs]

    [Instance::run] as a function of what V8 and the other tasks do: every entry
    into JavaScript is a [JsRun] that says which host calls the script makes, how it
    ends and what the heap looks like afterwards.  The executor's own state and the
    sequence of its visible actions are threaded through an error monad; an [Err]
    is an early return of [run] and [Panicked] an unwinding one. *)
From Stdlib Require Import ZArith Lia.
From S2P Require Import Prelude BTree Types Mm Interface Io.
Local Open Scope Z_scope.

Definition MAX_RESPONSE_BODY_SIZE : Z := 8 * 1024 * 1024.

Inductive TimerControl := Start | Stop | Reset.

(** [engine.rs] *)
Inductive TerminationReason := Unknown | TimeLimit | CachePolicy.

#[export] Instance TimerControl_eq_dec : EqDecision TimerControl.
Proof. solve_decision. Defined.
#[export] Instance TerminationReason_eq_dec : EqDecision TerminationReason.
Proof. solve_decision. Defined.

(** What the rest of the program sees of the executor.  A task is named by the
    number of its response channel. *)
Inductive event :=
  | Timer (op : TimerControl)                             (* on the timer channel *)
  | AcquireToken                                          (* the CPU permit *)
  | ReleaseToken
  | Ready                                                 (* [ready_callback] *)
  | WaitTask                                              (* blocks on [task_rx] *)
  | WaitIo                                                (* blocks on I/O results *)
  | Received (task : nat)
  | Respond (task : nat) (res : ExecutionResult ResponseObject)
  | Abandon (task : nat)                                  (* its sender is dropped *)
  | WriteLog (appid text : string)
  | Stats (used_memory_bytes : Z).                        (* on the statistics channel *)

Inductive exec_error := Fail (e : GenericError) | Panicked.

(** The struct [InstanceState], whether it is in its slot of the isolate, and what
    else the thread has: the pool of its ArrayBuffers, the memory V8 reports, the
    permit, [JMP_ENV] (set while a call is protected), [Poison], and its actions. *)
Record InstanceState := {
  files : list (string * bytes);
  appid : string;
  done : bool;
  fetch_response_channel : option nat;
  io_waiter : option (IoWaiter nat);
  in_slot : bool;
  memory_pool : MemoryPool;
  heap_used : Z;
  permit : bool;
  jmp_env : bool;
  poisoned : bool;
  trace : list event;
}.

Definition Exec (A : Type) : Type := InstanceState → result exec_error A * InstanceState.

#[export] Instance Exec_ret : MRet Exec := λ A a s, (Ok a, s).
#[export] Instance Exec_bind : MBind Exec := λ A B f m s,
  match m s with
  | (Ok a, s') => f a s'
  | (Err e, s') => (Err e, s')
  end.

Lemma Exec_bind_eq {A B} (m : Exec A) (f : A → Exec B) s :
  (m ≫= f) s = match m s with (Ok a, s') => f a s' | (Err e, s') => (Err e, s') end.
Proof. done. Qed.

Definition get : Exec InstanceState := λ s, (Ok s, s).
Definition throw {A} (e : exec_error) : Exec A := λ s, (Err e, s).
Definition try {A} (r : GenericResult A) : Exec A := λ s, (map_err Fail r, s).
(** [Option::unwrap] *)
Definition unwrap {A} (o : option A) : Exec A := λ s, (ok_or o Panicked, s).

Definition emit (e : event) : Exec unit := λ s,
  (Ok tt, {| files := files s; appid := appid s; done := done s;
             fetch_response_channel := fetch_response_channel s; io_waiter := io_waiter s;
             in_slot := in_slot s; memory_pool := memory_pool s; heap_used := heap_used s;
             permit := permit s; jmp_env := jmp_env s; poisoned := poisoned s;
             trace := trace s ++ [e] |}).
Definition set_done (b : bool) : Exec unit := λ s,
  (Ok tt, {| files := files s; appid := appid s; done := b;
             fetch_response_channel := fetch_response_channel s; io_waiter := io_waiter s;
             in_slot := in_slot s; memory_pool := memory_pool s; heap_used := heap_used s;
             permit := permit s; jmp_env := jmp_env s; poisoned := poisoned s; trace := trace s |}).
Definition set_channel (c : option nat) : Exec unit := λ s,
  (Ok tt, {| files := files s; appid := appid s; done := done s; fetch_response_channel := c;
             io_waiter := io_waiter s; in_slot := in_slot s; memory_pool := memory_pool s;
             heap_used := heap_used s; permit := permit s; jmp_env := jmp_env s;
             poisoned := poisoned s; trace := trace s |}).
Definition set_io_waiter (w : option (IoWaiter nat)) : Exec unit := λ s,
  (Ok tt, {| files := files s; appid := appid s; done := done s;
             fetch_response_channel := fetch_response_channel s; io_waiter := w; in_slot := in_slot s;
             memory_pool := memory_pool s; heap_used := heap_used s; permit := permit s;
             jmp_env := jmp_env s; poisoned := poisoned s; trace := trace s |}).
Definition set_in_slot (b : bool) : Exec unit := λ s,
  (Ok tt, {| files := files s; appid := appid s; done := done s;
             fetch_response_channel := fetch_response_channel s; io_waiter := io_waiter s;
             in_slot := b; memory_pool := memory_pool s; heap_used := heap_used s; permit := permit s;
             jmp_env := jmp_env s; poisoned := poisoned s; trace := trace s |}).
Definition set_memory_pool (p : MemoryPool) : Exec unit := λ s,
  (Ok tt, {| files := files s; appid := appid s; done := done s;
             fetch_response_channel := fetch_response_channel s; io_waiter := io_waiter s;
             in_slot := in_slot s; memory_pool := p; heap_used := heap_used s; permit := permit s;
             jmp_env := jmp_env s; poisoned := poisoned s; trace := trace s |}).
Definition set_heap_used (n : Z) : Exec unit := λ s,
  (Ok tt, {| files := files s; appid := appid s; done := done s;
             fetch_response_channel := fetch_response_channel s; io_waiter := io_waiter s;
             in_slot := in_slot s; memory_pool := memory_pool s; heap_used := n; permit := permit s;
             jmp_env := jmp_env s; poisoned := poisoned s; trace := trace s |}).
Definition set_permit (b : bool) : Exec unit := λ s,
  (Ok tt, {| files := files s; appid := appid s; done := done s;
             fetch_response_channel := fetch_response_channel s; io_waiter := io_waiter s;
             in_slot := in_slot s; memory_pool := memory_pool s; heap_used := heap_used s; permit := b;
             jmp_env := jmp_env s; poisoned := poisoned s; trace := trace s |}).
Definition set_jmp_env (b : bool) : Exec unit := λ s,
  (Ok tt, {| files := files s; appid := appid s; done := done s;
             fetch_response_channel := fetch_response_channel s; io_waiter := io_waiter s;
             in_slot := in_slot s; memory_pool := memory_pool s; heap_used := heap_used s;
             permit := permit s; jmp_env := b; poisoned := poisoned s; trace := trace s |}).
Definition set_poisoned : Exec unit := λ s,
  (Ok tt, {| files := files s; appid := appid s; done := done s;
             fetch_response_channel := fetch_response_channel s; io_waiter := io_waiter s;
             in_slot := in_slot s; memory_pool := memory_pool s; heap_used := heap_used s;
             permit := permit s; jmp_env := jmp_env s; poisoned := true; trace := trace s |}).

(** ** Timers, tokens and responses *)
Definition start_timer : Exec unit := emit (Timer Start).
Definition stop_timer : Exec unit := emit (Timer Stop).
Definition reset_timer : Exec unit := emit (Timer Reset).

(** [acquire_execution_token]: [granted] unless the wait times out *)
Definition acquire_execution_token (granted : bool) : Exec unit :=
  if granted then set_permit true ;; emit AcquireToken
  else throw (Fail (Other "timeout waiting for execution token")).

Definition drop_permit : Exec unit := set_permit false ;; emit ReleaseToken.

(** [update_stats], with what V8 reported last *)
Definition update_stats : Exec unit := s ← get; emit (Stats (heap_used s)).

(** The boolean result is not used by any caller. *)
Definition try_send_fetch_response (res : ExecutionResult ResponseObject) : Exec unit :=
  s ← get;
  match fetch_response_channel s with
  | Some ch => set_channel None ;; emit (Respond ch res)
  | None => mret tt
  end.

(** [populate_with_task] overwrites the channel, dropping an old one *)
Definition populate_with_task (task : nat) : Exec unit :=
  s ← get;
  match fetch_response_channel s with
  | Some old => emit (Abandon old) ;; set_channel (Some task)
  | None => set_channel (Some task)
  end.

(** ** Errors of a script *)

(** An exception caught by the [TryCatch]: its description, and whether V8 was
    asked to terminate, with the reason found in the isolate's slot *)
Record JsException := { description : string; has_terminated : bool; reason : TerminationReason }.

Definition check_on_task (exc : option JsException) : ExecutionResult unit :=
  match exc with
  | Some x =>
      Err (if has_terminated x then
             match reason x with
             | Unknown => RuntimeThrowsException
             | TimeLimit => TimeLimitExceeded
             | CachePolicy => RuntimeThrowsException
             end
           else ScriptThrowsException (description x))
  | None => Ok tt
  end.

Definition check_on_init (exc : option JsException) : GenericResult unit :=
  map_err Execution (check_on_task exc).

(** ** Host calls *)

(** The arguments of [_rt_callService] as the host finds them.  The random bytes of
    [GetRandomValues] go into a buffer of the script, which is not part of the
    executor's state. *)
Record ServiceArgs := {
  call_str : result DataError nat;          (* argument 0: the UTF-8 length of the string *)
  decoded : option ServiceCall;             (* what [serde_json] makes of it *)
  args_array : result DataError (list (option JsValue));  (* argument 1, element by element *)
  callback : result DataError nat;          (* argument 2 *)
  io_alive : bool;                          (* the I/O processor receives *)
}.

(** The two functions of the host that [init_global_env] installs *)
Inductive HostFn :=
  | CallService (args : ServiceArgs)
  | QueueMicrotask (cb : result DataError nat).

(** A call of one of them, with the heap size V8 reports and what is left of the
    budget for ArrayBuffers, which the script allocates and the collector frees. *)
Record HostCall := { host_fn : HostFn; host_heap : Z; host_pool : Z }.

(** A callback fails with an exception for the script, or V8 does: without memory
    and outside a protected call, its error handler panics. *)
Inductive js_failure := Throw (e : JsError) | Fatal.

(** What a script can catch *)
Inductive js_thrown := RangeError (message : string) | Thrown (exception : JsErrorKind * string).

Section executor.
Context (max_memory_bytes host_entry_threshold_memory_bytes : Z).
Context {Ctx : Type} (digest_new : DigestAlgorithm → Ctx) (digest_update : bytes → Ctx → Ctx)
        (digest_finish : Ctx → bytes).

(** [check_host_entry_memory], on the heap size V8 reports *)
Definition check_host_entry_memory (total_heap_size : Z) : GenericResult unit :=
  if decide (max_memory_bytes < total_heap_size ∨
             max_memory_bytes - total_heap_size < host_entry_threshold_memory_bytes)
  then Err (Execution MemoryLimitExceeded) else Ok tt.

Definition JsExec (A : Type) : Type := InstanceState → result js_failure A * InstanceState.

#[export] Instance JsExec_ret : MRet JsExec := λ A a s, (Ok a, s).
#[export] Instance JsExec_bind : MBind JsExec := λ A B f m s,
  match m s with
  | (Ok a, s') => f a s'
  | (Err e, s') => (Err e, s')
  end.

Definition js_throw {A} (e : JsError) : JsExec A := λ s, (Err (Throw e), s).
Definition js_try {A} (r : JsResult A) : JsExec A := λ s, (map_err Throw r, s).

(** Runs a part of the executor that cannot fail. *)
Definition js_do (m : Exec unit) : JsExec unit := λ s, (Ok tt, (m s).2).

Fixpoint collect_buffers (vs : list (option JsValue)) : JsResult (list JsArrayBufferViewRef) :=
  match vs with
  | [] => Ok []
  | v :: vs =>
      v ← ok_or v {| kind := KError; message := None |};
      b ← JsArrayBufferViewRef_new v;
      bs ← collect_buffers vs;
      Ok (b :: bs)
  end.

Definition sync_call (call : SyncCall) (bufs : list JsArrayBufferViewRef)
    : JsExec (option (option bytes)) :=
  match call with
  | Log text => (λ s, js_do (emit (WriteLog (appid s) text)) s) ;; mret None
  | Done => js_do (set_done true) ;; mret None
  | SendFetchResponse res =>
      b ← js_try (ok_or (bufs !! 0%nat) (JsError_error "SendFetchResponse: missing buffer"));
      body ← js_try (ok_or (read_to_vec b MAX_RESPONSE_BODY_SIZE)
                       (JsError_error "SendFetchResponse: body too large"));
      js_do (try_send_fetch_response
               (Ok {| res_headers := res_headers res; res_status := res_status res;
                      res_body := Binary body |})) ;;
      mret None
  | GetRandomValues =>
      b ← js_try (ok_or (bufs !! 0%nat) (JsError_error "GetRandomValues: missing buffer"));
      if decide (65536 < Z.of_nat (length (deref b)))
      then js_throw (JsError_error "SyncCall::GetRandomValues invoked with length greater than 65536")
      else mret None
  | GetFile name => λ s,
      match bt_get name (files s) with
      | Some file =>
          match slice_to_arraybuffer file (memory_pool s) with
          | Some (r, p) => (js_do (set_memory_pool p) ;;
                            b ← js_try (map_err js_of_generic r); mret (Some (Some b))) s
          | None => (Err Fatal, s)
          end
      | None => (Ok (Some None), s)
      end
  | Crypto inner => λ s,
      match crypto_run digest_new digest_update digest_finish inner bufs (memory_pool s) with
      | Some (r, p) => (js_do (set_memory_pool p) ;; o ← js_try r; mret (option_map Some o)) s
      | None => (Err Fatal, s)
      end
  end.

(** The ArrayBuffer for the text of a call *)
Definition allocate_call_buf (len : nat) : JsExec unit := λ s,
  match acquire_arraybuffer_precheck (memory_pool s) (Z.of_nat len) with
  | Err e => (Err (Throw (js_of_generic e)), s)
  | Ok _ =>
      match allocate len (memory_pool s) with
      | (Some _, p) => js_do (set_memory_pool p) s
      | (None, _) => (Err Fatal, s)
      end
  end.

(** [call_service_callback], the closure given to [wrap_callback]; the value is what
    it stores in [retval], if it does *)
Definition call_service (c : ServiceArgs) : JsExec (option (option bytes)) :=
  len ← js_try (map_err js_of_data (call_str c));
  (if decide (65536 < Z.of_nat len) then js_throw (JsError_error "call string too large") else mret tt) ;;
  allocate_call_buf len ;;
  call ← js_try (ok_or (decoded c) (js_of_generic Conversion));
  vs ← js_try (map_err js_of_data (args_array c));
  (if decide (256 < Z.of_nat (length vs)) then js_throw (JsError_error "too many buffers") else mret tt) ;;
  bufs ← js_try (collect_buffers vs);
  match call with
  | Sync call => sync_call call bufs
  | Async call =>
      cb ← js_try (map_err js_of_data (callback c));
      w ← (λ s, js_try (ok_or (io_waiter s) (JsError_error "io service not available")) s);
      let '(r, w') := issue false (io_alive c) cb w in
      js_do (set_io_waiter (Some w')) ;;
      js_try (map_err js_of_generic r) ;; mret None
  end.

(** [queue_microtask_callback]: V8 runs the function with the current script *)
Definition queue_microtask (cb : result DataError nat) : JsExec (option (option bytes)) :=
  js_try (map_err js_of_data cb) ;; mret None.

(** [wrap_callback]: what the script gets, a value or an exception *)
Definition wrap_callback {A} (total_heap_size : Z) (f : JsExec A) : Exec (result js_thrown A) :=
  match check_host_entry_memory total_heap_size with
  | Err _ => mret (Err (RangeError "no enough memory when calling into host"))
  | Ok _ =>
      s ← get;
      (if jmp_env s then set_jmp_env false else throw Panicked) ;;
      r ← (λ s, match f s with
                | (Ok v, s) => (Ok (Ok v), s)
                | (Err (Throw e), s) => (Ok (Err (Thrown (build_exception e))), s)
                | (Err Fatal, s) => (Err Panicked, s)
                end);
      set_jmp_env true ;; mret r
  end.

Definition host_call (c : HostCall) : Exec (result js_thrown (option (option bytes))) :=
  set_memory_pool {| remaining_bytes := host_pool c |} ;;
  wrap_callback (host_heap c)
    match host_fn c with
    | CallService args => call_service args
    | QueueMicrotask cb => queue_microtask cb
    end.

(** ** Entering JavaScript *)
Record JsRun := {
  host_calls : list HostCall;
  oom : bool;                         (* V8 runs out of memory: the [longjmp] *)
  heap_after : Z;
  used_after : Z;                     (* the heap and the memory outside *)
  caught : option JsException;        (* what the [TryCatch] holds afterwards *)
}.

Fixpoint run_host_calls (cs : list HostCall) : Exec unit :=
  match cs with
  | [] => mret tt
  | c :: cs => host_call c ;; run_host_calls cs
  end.

(** [_do_protected_call]: whether it ended without a [longjmp] *)
Definition do_protected_call (r : JsRun) : Exec bool :=
  s ← get;
  (if jmp_env s then throw Panicked else set_jmp_env true) ;;
  run_host_calls (host_calls r) ;;
  set_jmp_env false ;;
  mret (negb (oom r)).

Definition protected_js (r : JsRun) : Exec unit :=
  returned ← do_protected_call r;
  set_heap_used (used_after r) ;;
  if (returned : bool) then try (check_host_entry_memory (heap_after r))
  else set_poisoned ;; throw (Fail (Execution MemoryLimitExceeded)).

(** ** Running a worker *)
Record InitScript := {
  init_token : bool;
  global_env : GenericResult unit;       (* [init_global_env] *)
  utf8 : bool;
  compiled : bool;
  init_exception : option JsException;   (* found before user code runs *)
  main_run : JsRun;
}.

(** A result that [IoWaiter::wait] returns: the index, the JSON text and the sizes
    of the buffers; then whether a token is granted and what the callback does *)
Record IoStep := {
  io_index : nat;
  io_data : bytes;
  io_pool : Z;                        (* the budget for ArrayBuffers then *)
  io_token : bool;
  io_run : JsRun;
}.

Record TaskScript := {
  task : nat;
  task_token : bool;
  dispatcher : GenericResult unit;       (* finding [_dispatchEvent] and building the event *)
  first_run : JsRun;
  io_steps : list IoStep;                (* when they are over the [IoScope] is gone *)
}.

Definition run_init (i : InitScript) : Exec unit :=
  acquire_execution_token (init_token i) ;;
  try (global_env i) ;;
  try (if utf8 i then Ok tt else Err (ScriptInitException "cannot decode script as utf-8 text")) ;;
  try (if compiled i then Ok tt else Err (ScriptInitException "script compilation failed")) ;;
  emit Ready ;;
  set_in_slot true ;;
  try (check_on_init (init_exception i)) ;;
  start_timer ;;
  protected_js (main_run i) ;;
  try (check_on_init (caught (main_run i))).

(** The value V8 gets from the allocator for the JSON text of a result *)
Definition copy_result (budget : Z) (data : bytes) : Exec unit :=
  set_memory_pool {| remaining_bytes := budget |} ;;
  s ← get;
  try (acquire_arraybuffer_precheck (memory_pool s) (Z.of_nat (length data))) ;;
  match allocate (length data) (memory_pool s) with
  | (Some _, p) => set_memory_pool p
  | (None, _) => throw Panicked
  end.

(** The inner loop, after a run that left [exc] *)
Fixpoint drive (exc : option JsException) (steps : list IoStep) : Exec unit :=
  match check_on_task exc with
  | Err e =>
      if terminates_worker e then
        try_send_fetch_response (Err e) ;; throw (Fail (Execution e))
      else try_send_fetch_response (Err e)
  | Ok _ =>
      s ← get;
      if done s then mret tt else
      stop_timer ;;
      update_stats ;;
      drop_permit ;;
      w ← (s ← get; unwrap (io_waiter s));
      set_io_waiter None ;;
      emit WaitIo ;;
      match steps with
      | [] =>
          set_io_waiter (Some w) ;;
          try_send_fetch_response (Err IoTimeout) ;; throw (Fail (Execution IoTimeout))
      | st :: steps =>
          r ← unwrap (wait_result (io_index st) w);
          set_io_waiter (Some r.2) ;;
          acquire_execution_token (io_token st) ;;
          start_timer ;;
          copy_result (io_pool st) (io_data st) ;;
          protected_js (io_run st) ;;
          drive (caught (io_run st)) steps
      end
  end.

(** From the reception of a task to the end of its round; a task dropped before
    [populate_with_task] takes its sender with it. *)
Definition run_task (conf : WorkerConfiguration) (t : TaskScript) : Exec unit :=
  emit (Received (task t)) ;;
  (if task_token t then acquire_execution_token true
   else emit (Abandon (task t)) ;; acquire_execution_token false) ;;
  populate_with_task (task t) ;;
  start_timer ;;
  set_io_waiter (Some (IoWaiter_new conf)) ;;
  try (dispatcher t) ;;
  protected_js (first_run t) ;;
  drive (caught (first_run t)) (io_steps t) ;;
  try_send_fetch_response (Ok {| res_headers := res_headers ResponseObject_default; res_status := 500;
                                 res_body := res_body ResponseObject_default |}).

Definition between_tasks : Exec unit :=
  update_stats ;; stop_timer ;; reset_timer ;; set_io_waiter None ;; set_done false ;; drop_permit ;; emit WaitTask.

(** The outer loop; the task channel is closed after the last task. *)
Fixpoint run_tasks (conf : WorkerConfiguration) (ts : list TaskScript) : Exec unit :=
  between_tasks ;;
  match ts with
  | [] => mret tt
  | t :: ts => run_task conf t ;; run_tasks conf ts
  end.

Definition run (conf : WorkerConfiguration) (i : InitScript) (ts : list TaskScript) : Exec unit :=
  run_init i ;; run_tasks conf ts.

(** [Runtime::instance_thread] on a fresh instance: an error of [run] is logged only,
    and the permit goes out of scope. *)
Definition leave_run : Exec unit := s ← get; if permit s then drop_permit else mret tt.

Definition instance_thread (conf : WorkerConfiguration) (i : InitScript) (ts : list TaskScript)
    : Exec unit := λ s,
  let '(r, s) := run conf i ts s in
  let s := (leave_run s).2 in
  match r with
  | Err Panicked => (Err Panicked, s)
  | _ => (Ok tt, s)
  end.

(** The slot is emptied, or dropped with the isolate: a request that is still
    waiting loses its sender. *)
Definition drop_state : Exec unit :=
  set_io_waiter None ;;
  set_in_slot false ;;
  s ← get;
  match fetch_response_channel s with
  | Some ch => set_channel None ;; emit (Abandon ch)
  | None => mret tt
  end.

(** [Instance::cleanup] on what the garbage collection does *)
Definition cleanup (gc : JsRun) : Exec unit :=
  s ← get;
  (if in_slot s then set_io_waiter None ;; protected_js gc else mret tt) ;;
  drop_state.

(** A job of [isolate_worker]: whether the isolate can be used again, and the state;
    a panic ends the thread. *)
Definition isolate_job (conf : WorkerConfiguration) (i : InitScript) (ts : list TaskScript) (gc : JsRun)
    (s : InstanceState) : bool * InstanceState :=
  match instance_thread conf i ts s with
  | (Err _, s) => (false, (drop_state s).2)
  | (Ok _, s) =>
      if poisoned s then (false, (drop_state s).2) else
      match cleanup gc s with
      | (Ok _, s) => (true, s)
      | (Err _, s) => (false, (drop_state s).2)
      end
  end.
End executor.

(** ** Creating an instance: [Instance::new] *)

(** An entry of the archive as [tar] yields it: its path, if it is UTF-8, the size it
    declares and the bytes it has *)
Record Entry := { entry_path : option string; entry_size : Z; entry_data : bytes }.

Section new.
(** the [tar] crate *)
Context (tar_entries : bytes → option (list (option Entry))).

Fixpoint unpack (bundle_size : Z) (es : list (option Entry)) (files : list (string * bytes))
    : GenericResult (list (string * bytes)) :=
  match es with
  | [] => Ok files
  | None :: _ => Err (Other "bad entry in bundle")
  | Some e :: es =>
      path ← ok_or (entry_path e) (Other "bad path in bundle");
      if decide (bundle_size < entry_size e) then Err (Other "entry size > bundle size") else
      if decide (Z.of_nat (length (entry_data e)) < entry_size e) then Err (Other "cannot read bundle") else
      unpack bundle_size es (bt_insert path (take (Z.to_nat (entry_size e)) (entry_data e)) files)
  end.

(** the state of the new instance and the script *)
Definition Instance_new (appid : string) (bundle : bytes) (conf : WorkerConfiguration)
    : GenericResult (InstanceState * bytes) :=
  es ← ok_or (tar_entries bundle) (Other "bad bundle");
  files ← unpack (Z.of_nat (length bundle)) es [];
  script ← ok_or (match bt_get "./index.js" files with Some x => Some x | None => bt_get "index.js" files end)
                 (Other "cannot find index.js in bundle");
  Ok ({| files := files; appid := appid; done := false; fetch_response_channel := None; io_waiter := None;
         in_slot := false; memory_pool := reset (max_ab_memory_mb (executor conf) * 1048576) (MemoryPool_new 0);
         heap_used := 0; permit := false; jmp_env := false; poisoned := false; trace := [] |}, script).
End new.

(** ** The client's side: [InstanceHandle::fetch] on what the channels do *)

(** [sent]: the task was accepted; [answer]: what arrived on the response channel,
    [None] when the sender was dropped *)
Definition InstanceHandle_fetch (sent : bool) (answer : option (ExecutionResult ResponseObject))
    : ExecutionResult ResponseObject :=
  if sent then match answer with Some res => res | None => Err RuntimeThrowsException end
  else Err NoSuchWorker.
