(* ===== verification/ExecutorFacts.v ===== *)
(** * The executor follows its protocol

    The sequence of actions of a worker, whatever its script does, is a run of a
    small state machine that says when the CPU permit is held, when the CPU timer
    runs and which request is waiting for its answer. *)
From Stdlib Require Import ZArith Lia.
From S2P Require Import Prelude BTree Types Mm Interface Io Executor.
Local Open Scope Z_scope.

(** ** The abstract protocol *)
Inductive phase :=
  | Off        (* no permit *)
  | Held       (* permit, timer stopped *)
  | Running    (* permit, timer running *)
  | Over.      (* the thread left with the timer running *)

#[export] Instance phase_eq_dec : EqDecision phase.
Proof. solve_decision. Defined.

(** The state is the phase and the request that waits for an answer. *)
Definition protocol (st : phase * option nat) (e : event) : option (phase * option nat) :=
  match e, st with
  | AcquireToken, (Off, q) => Some (Held, q)
  | ReleaseToken, (Held, q) => Some (Off, q)
  | ReleaseToken, (Running, q) => Some (Over, q)
  | Timer Start, (Held, q) => Some (Running, q)
  | Timer Stop, (Running, q) => Some (Held, q)
  | Timer Reset, (Held, q) => Some (Held, q)
  | Ready, (Held, None) => Some (Held, None)
  | WaitTask, (Off, None) => Some (Off, None)
  | WaitIo, (Off, q) => Some (Off, q)
  | Received t, (Off, None) => Some (Off, Some t)
  | Respond t _, (p, Some t') => if decide (t = t') then Some (p, None) else None
  | Abandon t, (p, Some t') => if decide (t = t') then Some (p, None) else None
  | WriteLog _ _, st | Stats _, st => Some st
  | _, _ => None
  end.

Definition protocol_run (st : phase * option nat) (tr : list event) : option (phase * option nat) :=
  foldl (λ o e, o ≫= λ st, protocol st e) (Some st) tr.

Lemma protocol_run_snoc st tr e :
  protocol_run st (tr ++ [e]) = protocol_run st tr ≫= λ st, protocol st e.
Proof. unfold protocol_run. by rewrite foldl_app. Qed.

(** ** A program logic for the executor *)
Definition has_permit (p : phase) : bool := match p with Held | Running => true | _ => false end.

(** The trace so far leads to [p] and [q], and the state agrees. *)
Definition at_ (p : phase) (q : option nat) (s : InstanceState) : Prop :=
  protocol_run (Off, None) (trace s) = Some (p, q) ∧ fetch_response_channel s = q ∧
  permit s = has_permit p.

(** the same with request [q] waiting, or answered already *)
Definition in_ (p : phase) (q : option nat) (s : InstanceState) : Prop :=
  ∃ q', at_ p q' s ∧ (q' = q ∨ q' = None).

(** somewhere in the protocol *)
Definition live (s : InstanceState) : Prop := ∃ p q, p ≠ Over ∧ in_ p q s.

Lemma in_live p q s : p ≠ Over → in_ p q s → live s.
Proof. by exists p, q. Qed.

Definition triple {A} (P : InstanceState → Prop) (m : Exec A) (Q : InstanceState → Prop)
    (R : InstanceState → Prop) : Prop :=
  ∀ s, P s → match m s with (Ok _, s') => Q s' | (Err _, s') => R s' end.

Section logic.
Context {A B : Type}.
Implicit Types P Q R : InstanceState → Prop.

Lemma triple_bind P Q Q' R (m : Exec A) (f : A → Exec B) :
  triple P m Q R → (∀ a, triple Q (f a) Q' R) → triple P (m ≫= f) Q' R.
Proof.
  intros Hm Hf s HP. rewrite Exec_bind_eq. specialize (Hm s HP).
  destruct (m s) as [[a|e] s']; [|done]. by apply Hf.
Qed.

Lemma triple_ret P R (a : A) : triple P (mret a) P R.
Proof. by intros s HP. Qed.

Lemma triple_get P Q R (f : InstanceState → Exec B) :
  (∀ s0, triple (λ s, P s ∧ s = s0) (f s0) Q R) → triple P (get ≫= f) Q R.
Proof. intros Hf s HP. rewrite Exec_bind_eq. simpl. by apply (Hf s s). Qed.

Lemma triple_try P R (r : GenericResult A) : (∀ s, P s → R s) → triple P (try r) P R.
Proof. intros HR s HP. destruct r; simpl; auto. Qed.

Lemma triple_unwrap P R (o : option A) : (∀ s, P s → R s) → triple P (unwrap o) P R.
Proof. intros HR s HP. destruct o; simpl; auto. Qed.

Lemma triple_throw P Q R e : (∀ s, P s → R s) → triple P (throw (A := A) e) Q R.
Proof. intros HR s HP. apply HR, HP. Qed.

Lemma triple_weaken P P' Q Q' R R' (m : Exec A) :
  (∀ s, P' s → P s) → (∀ s, Q s → Q' s) → (∀ s, R s → R' s) → triple P m Q R → triple P' m Q' R'.
Proof.
  intros HP HQ HR Hm s Hs. specialize (Hm s (HP s Hs)). destruct (m s) as [[a|e] s']; auto.
Qed.
End logic.

Lemma triple_emit p q p' q' e R :
  protocol (p, q) e = Some (p', q') → has_permit p' = has_permit p → q' = q →
  triple (at_ p q) (emit e) (at_ p' q') R.
Proof.
  intros Hp Hh -> s (Ht & Hc & Hpm). unfold emit, at_. simpl.
  rewrite protocol_run_snoc, Ht. simpl. by rewrite Hh.
Qed.

Lemma triple_emit_in p p' q e R :
  (∀ q, protocol (p, q) e = Some (p', q)) → has_permit p' = has_permit p →
  triple (in_ p q) (emit e) (in_ p' q) R.
Proof.
  intros Hp Hh s (q' & Hq & Hor). exists q'. split; [|done].
  by apply (triple_emit p q' p' q' e R (Hp q') Hh eq_refl).
Qed.

(** Setters that the protocol does not see *)
Lemma triple_set_done P b R : (∀ s, P s → P (set_done b s).2) → triple P (set_done b) P R.
Proof. intros HP s Hs. by apply HP. Qed.

Lemma at_silent p q s s' :
  trace s' = trace s → fetch_response_channel s' = fetch_response_channel s → permit s' = permit s →
  at_ p q s → at_ p q s'.
Proof. unfold at_. by intros -> -> ->. Qed.

Lemma in_silent p q s s' :
  trace s' = trace s → fetch_response_channel s' = fetch_response_channel s → permit s' = permit s →
  in_ p q s → in_ p q s'.
Proof. intros ? ? ? (q' & Hq & ?). exists q'. split; [by eapply at_silent|done]. Qed.

Lemma triple_acquire q granted R :
  (∀ s, at_ Off q s → R s) → triple (at_ Off q) (acquire_execution_token granted) (at_ Held q) R.
Proof.
  intros HR s Hs. destruct granted; [|by apply HR]. destruct Hs as (Ht & Hc & Hp).
  unfold acquire_execution_token, at_. rewrite Exec_bind_eq. simpl. by rewrite protocol_run_snoc, Ht.
Qed.

Lemma triple_drop_permit q R : triple (at_ Held q) drop_permit (at_ Off q) R.
Proof.
  intros s (Ht & Hc & Hp). unfold drop_permit, at_. rewrite Exec_bind_eq. simpl.
  by rewrite protocol_run_snoc, Ht.
Qed.

(** Responding is possible in every phase. *)
Lemma triple_respond p q res R :
  triple (in_ p q) (try_send_fetch_response res) (at_ p None) R.
Proof.
  intros s (q' & (Ht & Hc & Hp) & _). unfold try_send_fetch_response. rewrite Exec_bind_eq. simpl. subst q'.
  destruct (fetch_response_channel s) as [ch|] eqn:Ec; [|done].
  rewrite Exec_bind_eq. simpl. unfold at_. simpl. rewrite protocol_run_snoc, Ht. simpl.
  by rewrite decide_True.
Qed.

(** ** What a script can do

    A property of the state that is kept by what a host call does to it: silent
    changes, lines of the log, responses. *)
Definition preserves (I : InstanceState → Prop) {A} (m : InstanceState → A * InstanceState) : Prop :=
  ∀ s, I s → I (m s).2.

Class HostInvariant (I : InstanceState → Prop) : Prop := {
  host_silent s s' : trace s' = trace s → fetch_response_channel s' = fetch_response_channel s →
                     permit s' = permit s → I s → I s';
  host_log a text : preserves I (emit (WriteLog a text));
  host_respond res : preserves I (try_send_fetch_response (Ok res));
}.

#[export] Instance in_host p q : HostInvariant (in_ p q).
Proof.
  split.
  - intros s s'. apply in_silent.
  - intros a text s Hs. by apply (triple_emit_in p p q (WriteLog a text) (λ _, True)).
  - intros res s Hs. pose proof (triple_respond p q (Ok res) (in_ p q) s Hs) as Ht.
    destruct (try_send_fetch_response (Ok res) s) as [[|] s']; [exists None; auto|done].
Qed.

Section host.
Context (I : InstanceState → Prop) `{HostInvariant I}.

Lemma preserves_silent {A} (m : InstanceState → A * InstanceState) :
  (∀ s, trace (m s).2 = trace s ∧ fetch_response_channel (m s).2 = fetch_response_channel s ∧
        permit (m s).2 = permit s) → preserves I m.
Proof. intros Hm s. destruct (Hm s) as (? & ? & ?). by apply host_silent. Qed.

Lemma preserves_bind {A B} (m : Exec A) (f : A → Exec B) :
  preserves I m → (∀ a, preserves I (f a)) → preserves I (m ≫= f).
Proof.
  intros Hm Hf s Hs. specialize (Hm s Hs). rewrite Exec_bind_eq. destruct (m s) as [[a|e] s']; [|done].
  by apply Hf.
Qed.

Lemma preserves_js_bind {A B} (m : JsExec A) (f : A → JsExec B) :
  preserves I m → (∀ a, preserves I (f a)) → preserves I (m ≫= f).
Proof.
  intros Hm Hf s Hs. specialize (Hm s Hs). unfold mbind, JsExec_bind. destruct (m s) as [[a|e] s']; [|done].
  by apply Hf.
Qed.

Lemma preserves_js_do (m : Exec unit) : preserves I m → preserves I (js_do m).
Proof. intros Hm s. apply Hm. Qed.
End host.

(** Follows the structure of a computation down to the silent parts. *)
Ltac preserve :=
  lazymatch goal with
  | |- @preserves _ (result exec_error _) (mbind _ _) => apply preserves_bind; [preserve|intros; preserve]
  | |- @preserves _ (result js_failure _) (mbind _ _) => apply preserves_js_bind; [preserve|intros; preserve]
  | |- preserves _ (if ?b then _ else _) => destruct b; preserve
  | |- preserves _ (let '(_, _) := ?x in _) => destruct x; preserve
  | |- preserves _ (try_send_fetch_response (Ok _)) => apply host_respond; exact _
  | |- preserves _ (js_do _) => apply preserves_js_do; preserve
  | |- _ => try (apply preserves_silent; [exact _|done])
  end.

Section protocol.
Context (max_memory_bytes host_entry_threshold_memory_bytes : Z).
Context {Ctx : Type} (digest_new : DigestAlgorithm → Ctx) (digest_update : bytes → Ctx → Ctx)
        (digest_finish : Ctx → bytes).

Local Abbreviation sync_call := (sync_call digest_new digest_update digest_finish).
Local Abbreviation call_service := (call_service digest_new digest_update digest_finish).
Local Abbreviation wrap_callback := (wrap_callback max_memory_bytes host_entry_threshold_memory_bytes).
Local Abbreviation host_call :=
  (host_call max_memory_bytes host_entry_threshold_memory_bytes digest_new digest_update digest_finish).
Local Abbreviation run_host_calls :=
  (run_host_calls max_memory_bytes host_entry_threshold_memory_bytes digest_new digest_update digest_finish).
Local Abbreviation protected_js :=
  (protected_js max_memory_bytes host_entry_threshold_memory_bytes digest_new digest_update digest_finish).
Local Abbreviation drive :=
  (drive max_memory_bytes host_entry_threshold_memory_bytes digest_new digest_update digest_finish).
Local Abbreviation run_task :=
  (run_task max_memory_bytes host_entry_threshold_memory_bytes digest_new digest_update digest_finish).
Local Abbreviation run_tasks :=
  (run_tasks max_memory_bytes host_entry_threshold_memory_bytes digest_new digest_update digest_finish).
Local Abbreviation run_init :=
  (run_init max_memory_bytes host_entry_threshold_memory_bytes digest_new digest_update digest_finish).
Local Abbreviation run :=
  (run max_memory_bytes host_entry_threshold_memory_bytes digest_new digest_update digest_finish).
Local Abbreviation cleanup :=
  (cleanup max_memory_bytes host_entry_threshold_memory_bytes digest_new digest_update digest_finish).
Local Abbreviation instance_thread :=
  (instance_thread max_memory_bytes host_entry_threshold_memory_bytes digest_new digest_update digest_finish).
Local Abbreviation isolate_job :=
  (isolate_job max_memory_bytes host_entry_threshold_memory_bytes digest_new digest_update digest_finish).

Section host_calls.
Context (I : InstanceState → Prop) `{HostInvariant I}.

Lemma preserves_sync_call call bufs : preserves I (sync_call call bufs).
Proof.
  destruct call as [text| |res| |name|inner]; cbn [Executor.sync_call]; preserve.
  - intros s Hs. by apply host_log.
  - apply preserves_silent; [exact _|]. intros s. destruct (bt_get name (files s)) as [file|]; [|done].
    by destruct (slice_to_arraybuffer _ _) as [[[|] p]|].
  - apply preserves_silent; [exact _|]. intros s. by destruct (crypto_run _ _ _ _ _ _) as [[[|] p]|].
Qed.

Lemma preserves_call_service c : preserves I (call_service c).
Proof.
  unfold Executor.call_service. preserve.
  - apply preserves_silent; [exact _|]. intros s. unfold allocate_call_buf.
    destruct (acquire_arraybuffer_precheck _ _); [|done]. by destruct (allocate _ _) as [[|] ?].
  - match goal with |- context [match ?c with Sync _ => _ | Async _ => _ end] => destruct c end;
      [apply preserves_sync_call|preserve].
Qed.

Lemma preserves_host_call c : preserves I (host_call c).
Proof.
  unfold Executor.host_call. preserve. unfold Executor.wrap_callback.
  destruct (check_host_entry_memory _ _ _); preserve.
  intros s Hs. destruct (host_fn c) as [args|cb].
  - pose proof (preserves_call_service args s Hs) as Hc. by destruct (call_service args s) as [[|[]] ?].
  - by destruct cb.
Qed.

Lemma preserves_protected_js r : preserves I (protected_js r).
Proof.
  unfold Executor.protected_js, do_protected_call. preserve.
  induction (host_calls r) as [|c cs IH]; cbn [Executor.run_host_calls]; preserve.
  - apply preserves_host_call.
  - apply IH.
Qed.
End host_calls.

Lemma preserves_triple I {A} (m : Exec A) : preserves I m → triple I m I I.
Proof. intros Hm s Hs. specialize (Hm s Hs). by destruct (m s) as [[|] ?]. Qed.

Lemma triple_protected_js q p r : p ≠ Over → triple (in_ p q) (protected_js r) (in_ p q) live.
Proof.
  intros Hp. apply (triple_weaken (in_ p q) _ (in_ p q) _ (in_ p q)); [done|done|intros s; by apply in_live|].
  apply preserves_triple, preserves_protected_js, _.
Qed.

Lemma triple_copy_result q p budget data :
  p ≠ Over → triple (in_ p q) (copy_result budget data) (in_ p q) live.
Proof.
  intros Hp. apply (triple_weaken (in_ p q) _ (in_ p q) _ (in_ p q)); [done|done|intros s; by apply in_live|].
  apply preserves_triple. unfold copy_result. preserve.
Qed.

(** ** The loops *)
Lemma at_in p q s : at_ p q s → in_ p q s.
Proof. intros. exists q. auto. Qed.

Lemma triple_acquire_in q granted : triple (in_ Off q) (acquire_execution_token granted) (in_ Held q) live.
Proof.
  intros s (q' & Hq & Hor). pose proof (triple_acquire q' granted live
    ltac:(intros; apply (in_live Off q'); [done|]; by eapply at_in) s Hq) as Ht.
  destruct (acquire_execution_token granted s) as [[]]; [by exists q'|done].
Qed.

Lemma triple_drop_permit_in q R : triple (in_ Held q) drop_permit (in_ Off q) R.
Proof.
  intros s (q' & Hq & Hor). exists q'. split; [|done]. by apply (triple_drop_permit q' (λ _, True)).
Qed.

Lemma triple_update_stats q p R : triple (in_ p q) update_stats (in_ p q) R.
Proof.
  unfold update_stats. apply triple_get. intros s0 s [Hs _].
  by apply (triple_emit_in p p q (Stats (heap_used s0)) R).
Qed.

Lemma triple_set_waiter q p w R : triple (in_ p q) (set_io_waiter w) (in_ p q) R.
Proof. intros s Hs. simpl. by eapply in_silent. Qed.

Lemma triple_respond_in q p res R : triple (in_ p q) (try_send_fetch_response res) (in_ p q) R.
Proof.
  intros s Hs. pose proof (triple_respond p q res R s Hs) as Ht.
  destruct (try_send_fetch_response res s) as [[] s']; [exists None; auto|done].
Qed.

Lemma triple_fail_response q p res e Q :
  p ≠ Over → triple (in_ p q) (try_send_fetch_response res ;; throw (A := unit) e) Q live.
Proof.
  intros Hp. eapply triple_bind; [apply triple_respond_in|]. intros _.
  apply triple_throw. intros s Hs. by apply (in_live p q).
Qed.

(** The inner loop waits for I/O only without the permit and with the timer stopped. *)
Lemma triple_drive q exc steps :
  triple (in_ Running q) (drive exc steps) (in_ Running q) live.
Proof.
  revert exc. induction steps as [|st steps IH]; intros exc; cbn [drive];
    (destruct (check_on_task exc) as [_|e];
     [|destruct (terminates_worker e); [by apply triple_fail_response|apply triple_respond_in]]);
    apply triple_get; intros s0; (destruct (done s0); [by intros s [Hs _]|]);
    apply (triple_weaken (in_ Running q) _ (in_ Running q) _ live); try (by intros s [Hs _]); try done;
    (eapply triple_bind; [by apply triple_emit_in|intros _]);
    (eapply triple_bind; [apply triple_update_stats|intros _]);
    (eapply triple_bind; [apply triple_drop_permit_in|intros _]);
    (eapply triple_bind; [apply triple_get; intros s1; apply (triple_weaken (in_ Off q) _ (in_ Off q) _ live);
       [by intros s [Hs _]|done|done|apply triple_unwrap; intros; by apply (in_live Off q)]|intros w]);
    (eapply triple_bind; [apply triple_set_waiter|intros _]);
    (eapply triple_bind; [by apply triple_emit_in|intros _]).
  - eapply triple_bind; [apply triple_set_waiter|intros _]. by apply triple_fail_response.
  - eapply triple_bind; [apply triple_unwrap; intros; by apply (in_live Off q)|intros r].
    eapply triple_bind; [apply triple_set_waiter|intros _].
    eapply triple_bind; [apply triple_acquire_in|intros _].
    eapply triple_bind; [by apply triple_emit_in|intros _].
    eapply triple_bind; [by apply triple_copy_result|intros _].
    eapply triple_bind; [by apply triple_protected_js|intros _]. apply IH.
Qed.

(** Receiving a task makes its request the one that waits, or abandons it at once. *)
Lemma triple_receive t (granted : bool) :
  triple (A := unit) (at_ Off None)
    (emit (Received t) ;;
     (if granted then acquire_execution_token true
      else emit (Abandon t) ;; acquire_execution_token false) ;;
     populate_with_task t)
    (at_ Held (Some t)) live.
Proof.
  intros s (Ht & Hc & Hp). destruct granted; rewrite Exec_bind_eq; simpl.
  - unfold populate_with_task, mbind, Exec_bind. simpl. rewrite Hc. unfold at_. simpl.
    by rewrite !protocol_run_snoc, Ht.
  - exists Off, None. split; [done|]. apply at_in. unfold at_. simpl.
    rewrite !protocol_run_snoc, Ht. simpl. by rewrite decide_True.
Qed.

(** A round: from waiting for a task with no request open to running with the answer sent. *)
Lemma triple_run_task conf t :
  triple (at_ Off None) (run_task conf t) (at_ Running None) live.
Proof.
  intros s Hs. pose proof (triple_receive (task t) (task_token t) s Hs) as Hr.
  unfold run_task. rewrite Exec_bind_eq in *. cbn [emit] in *.
  rewrite Exec_bind_eq in *.
  match type of Hr with context [(if ?b then ?m1 else ?m2) ?s0] =>
    destruct ((if b then m1 else m2) s0) as [[[]|e] s1]; [|exact Hr] end.
  rewrite Exec_bind_eq in *.
  destruct (populate_with_task (task t) s1) as [[[]|e] s2]; [|exact Hr].
  apply at_in in Hr. revert Hr. generalize (Some (task t)) as q. intros q. revert s2. clear.
  change (triple (A := unit) (in_ Held q) (start_timer ;;
    set_io_waiter (Some (IoWaiter_new conf)) ;; try (dispatcher t) ;;
    protected_js (first_run t) ;;
    drive (caught (first_run t)) (io_steps t) ;;
    try_send_fetch_response (Ok {| res_headers := res_headers ResponseObject_default; res_status := 500;
                                   res_body := res_body ResponseObject_default |}))
    (at_ Running None) live).
  eapply triple_bind; [by apply triple_emit_in|intros _].
  eapply triple_bind; [apply triple_set_waiter|intros _].
  eapply triple_bind; [apply triple_try; intros; by apply (in_live Running q)|intros _].
  eapply triple_bind; [by apply triple_protected_js|intros _].
  eapply triple_bind; [apply triple_drive|intros _].
  apply triple_respond.
Qed.

Lemma triple_between_tasks R : triple (at_ Running None) between_tasks (at_ Off None) R.
Proof.
  intros s (Ht & Hc & Hp). unfold between_tasks, at_. simpl.
  by rewrite !protocol_run_snoc, Ht.
Qed.

Lemma triple_run_tasks conf ts :
  triple (at_ Running None) (run_tasks conf ts) (at_ Off None) live.
Proof.
  induction ts as [|t ts IH]; cbn [run_tasks];
    (eapply triple_bind; [apply triple_between_tasks|intros _]); [apply triple_ret|].
  eapply triple_bind; [apply triple_run_task|]. by intros _.
Qed.

Lemma triple_run_init i :
  triple (at_ Off None) (run_init i) (at_ Running None) live.
Proof.
  unfold run_init. assert (Hl : ∀ p s, p ≠ Over → at_ p None s → live s).
  { intros p s Hp Hs. eapply in_live; [exact Hp|by eapply at_in]. }
  eapply triple_bind; [apply triple_acquire; intros; by apply (Hl Off)|intros _].
  eapply triple_bind; [apply triple_try; intros; by apply (Hl Held)|intros _].
  eapply triple_bind; [apply triple_try; intros; by apply (Hl Held)|intros _].
  eapply triple_bind; [apply triple_try; intros; by apply (Hl Held)|intros _].
  eapply triple_bind; [by apply (triple_emit Held None Held None)|intros _].
  eapply triple_bind; [intros s Hs; by eapply at_silent, Hs|intros _].
  eapply triple_bind; [apply triple_try; intros; by apply (Hl Held)|intros _].
  set (q := @None nat). apply (triple_weaken (in_ Held q) _ (in_ Running q) _ live);
    [intros s; apply at_in|intros s (q' & Hq & [->| ->]); exact Hq|done|].
  eapply triple_bind; [by apply triple_emit_in|intros _].
  eapply triple_bind; [by apply triple_protected_js|intros _].
  apply triple_try. intros; by apply (in_live Running q).
Qed.
(** ** The end of a job *)
Lemma triple_drop_state q p R : triple (in_ p q) drop_state (at_ p None) R.
Proof.
  unfold drop_state. eapply triple_bind; [apply triple_set_waiter|intros _].
  eapply triple_bind; [intros s Hs; by eapply in_silent, Hs|intros _].
  intros s (q' & (Ht & Hc & Hp) & _). rewrite Exec_bind_eq. simpl. subst q'.
  destruct (fetch_response_channel s) as [ch|] eqn:Ec; [|done].
  rewrite Exec_bind_eq. unfold at_. simpl. rewrite protocol_run_snoc, Ht. simpl. by rewrite decide_True.
Qed.

Lemma triple_cleanup q p gc : triple (in_ p q) (cleanup gc) (at_ p None) (in_ p q).
Proof.
  unfold Executor.cleanup. apply triple_get. intros s0.
  eapply (triple_bind _ (in_ p q)); [|intros _; apply triple_drop_state].
  apply (triple_weaken (in_ p q) _ (in_ p q) _ (in_ p q)); [by intros s [Hs _]|done..|].
  apply preserves_triple. preserve. apply preserves_protected_js, _.
Qed.

Lemma leave_run_in s : live s → ∃ p q, in_ p q (leave_run s).2.
Proof.
  intros (p & q & Hp & q' & (Ht & Hc & Hpm) & _). unfold leave_run. rewrite Exec_bind_eq. simpl. rewrite Hpm.
  destruct p; try done; simpl; [exists Off, q'|exists Off, q'|exists Over, q'];
    exists q'; (split; [|by left]); unfold at_; simpl; by rewrite ?protocol_run_snoc, ?Ht.
Qed.

(** A new instance: nothing has happened yet. *)
Definition fresh_instance (s : InstanceState) : Prop :=
  trace s = [] ∧ fetch_response_channel s = None ∧ permit s = false.

Lemma run_live conf i ts s : fresh_instance s → live (run conf i ts s).2.
Proof.
  intros (Ht & Hc & Hp). assert (Hs : at_ Off None s) by (unfold at_; by rewrite Ht).
  assert (Hrun : triple (at_ Off None) (run conf i ts) (at_ Off None) live).
  { eapply triple_bind; [apply triple_run_init|]. intros _. apply triple_run_tasks. }
  specialize (Hrun s Hs). destruct (run conf i ts s) as [[[]|e] s']; [|done].
  exists Off, None. split; [done|]. by apply at_in.
Qed.

Lemma isolate_job_protocol conf i ts gc s :
  fresh_instance s →
  ∃ p, protocol_run (Off, None) (trace (isolate_job conf i ts gc s).2) = Some (p, None).
Proof.
  intros Hs. apply (run_live conf i ts) in Hs. unfold Executor.isolate_job, Executor.instance_thread.
  destruct (run conf i ts s) as [r s1]. simpl in Hs.
  destruct (leave_run_in s1 Hs) as (p & q & Hin). exists p.
  assert (Hdrop : ∀ s2, in_ p q s2 → protocol_run (Off, None) (trace (drop_state s2).2) = Some (p, None)).
  { intros s2 H2. pose proof (triple_drop_state q p (at_ p None) s2 H2) as Hd.
    destruct (drop_state s2) as [[|] s3]; apply Hd. }
  destruct r as [u|[e|]]; [..|by apply Hdrop];
    (destruct (poisoned _); [by apply Hdrop|]);
    pose proof (triple_cleanup q p gc _ Hin) as Hcl;
    destruct (cleanup gc _) as [[|] s2]; [apply Hcl|by apply Hdrop|apply Hcl|by apply Hdrop].
Qed.

(** C8. Refinement: whatever the script, V8, the I/O processor and the clients do, the
    actions of a worker from its creation to its cleanup are a run of the abstract
    protocol that ends with no request waiting.  So it computes only with a CPU
    permit, the timer runs only while it holds one, and it gives both up before it
    blocks on a task or on I/O. *)
Theorem instance_follows_protocol conf i ts gc s :
  fresh_instance s →
  ∃ p, protocol_run (Off, None) (trace (isolate_job conf i ts gc s).2) = Some (p, None).
Proof. apply isolate_job_protocol. Qed.

(** ** Consequences *)
Definition is_received (t : nat) (e : event) : bool :=
  match e with Received t' => bool_decide (t' = t) | _ => false end.
Definition is_answer (t : nat) (e : event) : bool :=
  match e with Respond t' _ | Abandon t' => bool_decide (t' = t) | _ => false end.
Definition count (f : event → bool) (tr : list event) : nat := length (List.filter f tr).

Lemma count_snoc f tr e : count f (tr ++ [e]) = (count f tr + if f e then 1 else 0)%nat.
Proof. unfold count. rewrite List.filter_app, length_app. simpl. by destruct (f e). Qed.

Definition waits (t : nat) (q : option nat) : nat := if decide (q = Some t) then 1%nat else 0%nat.

Lemma protocol_balance tr p q t :
  protocol_run (Off, None) tr = Some (p, q) →
  count (is_received t) tr = (count (is_answer t) tr + waits t q)%nat.
Proof.
  revert p q. induction tr as [|e tr IH] using rev_ind; intros p q.
  { intros [= <- <-]. unfold waits. by case_decide. }
  rewrite protocol_run_snoc, !count_snoc.
  destruct (protocol_run (Off, None) tr) as [[p0 q0]|] eqn:Er; [|done]. simpl. specialize (IH p0 q0 eq_refl).
  rewrite IH. unfold waits.
  destruct e as [[]| | | | | |t'|t' r|t'|a x|n], p0, q0 as [t0|]; simpl; intros Hp; simplify_eq; try lia;
    try (case_decide; simplify_eq); repeat (case_bool_decide || case_decide); simplify_eq; try lia; try done.
Qed.

(** C6. Every request that a worker takes from its queue gets exactly one answer on its
    channel, a response or the news that there will be none; none is answered twice
    and none is left waiting when the worker is gone. *)
Theorem every_request_answered conf i ts gc s t :
  fresh_instance s →
  let tr := trace (isolate_job conf i ts gc s).2 in
  count (is_received t) tr = count (is_answer t) tr.
Proof.
  intros Hs tr. destruct (isolate_job_protocol conf i ts gc s Hs) as [p Hp].
  apply (protocol_balance _ _ _ t) in Hp. unfold waits in Hp.
  rewrite decide_False, Nat.add_0_r in Hp by done. exact Hp.
Qed.

(** The operations on the timer channel, in order *)
Definition timer_ops (tr : list event) : list TimerControl :=
  omap (λ e, match e with Timer op => Some op | _ => None end) tr.

(** [Start] and [Stop] alternate, and [Reset] comes only while the timer is stopped. *)
Fixpoint timer_wf (running : bool) (ops : list TimerControl) : bool :=
  match ops with
  | [] => true
  | Start :: ops => negb running && timer_wf true ops
  | Stop :: ops => running && timer_wf false ops
  | Reset :: ops => negb running && timer_wf running ops
  end.

Definition phase_running (p : phase) : bool := match p with Running | Over => true | _ => false end.

Lemma timer_ops_snoc tr e :
  timer_ops (tr ++ [e]) = timer_ops tr ++ match e with Timer op => [op] | _ => [] end.
Proof. unfold timer_ops. rewrite omap_app. simpl. by destruct e. Qed.

Lemma timer_wf_snoc b ops op :
  timer_wf b (ops ++ [op]) = timer_wf b ops &&
    timer_wf (foldl (λ r o, match o with Start => true | Stop => false | Reset => r end) b ops) [op].
Proof.
  revert b. induction ops as [|[] ops IH]; intros b; simpl; [done|..]; rewrite IH; simpl;
    by rewrite ?andb_assoc.
Qed.

Lemma protocol_timer tr p q :
  protocol_run (Off, None) tr = Some (p, q) →
  timer_wf false (timer_ops tr) = true ∧
  foldl (λ r o, match o with Start => true | Stop => false | Reset => r end) false (timer_ops tr) =
    phase_running p.
Proof.
  revert p q. induction tr as [|e tr IH] using rev_ind; intros p q.
  { by intros [= <- <-]. }
  rewrite protocol_run_snoc, timer_ops_snoc.
  destruct (protocol_run (Off, None) tr) as [[p0 q0]|] eqn:Er; [|done]. simpl.
  destruct (IH p0 q0 eq_refl) as [Hwf Hrun].
  destruct e as [op| | | | | |t'|t' r|t'|a x|n]; rewrite ?app_nil_r;
    [rewrite timer_wf_snoc, foldl_app, Hwf, Hrun; destruct op|..];
    destruct p0, q0; simpl; intros Hp; try case_decide; simplify_eq; try done; by rewrite Hrun.
Qed.

Lemma instance_timer_wf conf i ts gc s :
  fresh_instance s →
  timer_wf false (timer_ops (trace (isolate_job conf i ts gc s).2)) = true.
Proof. intros Hs. destruct (isolate_job_protocol conf i ts gc s Hs) as [p Hp]. by eapply protocol_timer. Qed.
(** ** What a client can be told *)

(** not an error about memory or a missing worker *)
Definition reportable (r : ExecutionResult ResponseObject) : Prop :=
  match r with
  | Err MemoryLimitExceeded | Err NoSuchWorker => False
  | _ => True
  end.

Definition good_event (e : event) : Prop :=
  match e with Respond _ r => reportable r | _ => True end.
Definition good (s : InstanceState) : Prop := Forall good_event (trace s).

Lemma good_emit e : good_event e → preserves good (emit e).
Proof. intros He s Hs. unfold good. simpl. apply Forall_app. split; [done|by constructor]. Qed.

Lemma good_respond r : reportable r → preserves good (try_send_fetch_response r).
Proof.
  intros Hr s Hs. unfold try_send_fetch_response. rewrite Exec_bind_eq. simpl.
  destruct (fetch_response_channel s) as [ch|]; [|done]. by apply (good_emit (Respond ch r)).
Qed.

#[local] Instance good_host : HostInvariant good.
Proof.
  split.
  - unfold good. by intros s s' ->.
  - intros a text. by apply good_emit.
  - intros res. by apply good_respond.
Qed.

Create HintDb good.
#[local] Hint Resolve good_emit good_respond : good.
#[local] Hint Extern 1 (preserves good (protected_js _)) => apply preserves_protected_js; exact _ : good.
#[local] Hint Extern 1 (good_event _) => exact I : good.
#[local] Hint Extern 1 (reportable _) => exact I : good.

(** The silent parts and the hints; what is left are the parts with a loop. *)
Ltac keep_good := preserve; auto with good.

Lemma good_permit : preserves good drop_permit.
Proof. intros s Hs. by apply (good_emit ReleaseToken). Qed.

Lemma good_acquire granted : preserves good (acquire_execution_token granted).
Proof. destruct granted; intros s Hs; [by apply (good_emit AcquireToken)|exact Hs]. Qed.

Lemma good_stats : preserves good update_stats.
Proof. intros s Hs. by apply (good_emit (Stats (heap_used s))). Qed.

Lemma good_start : preserves good start_timer.
Proof. by apply good_emit. Qed.

Lemma good_stop : preserves good stop_timer.
Proof. by apply good_emit. Qed.

Lemma good_reset : preserves good reset_timer.
Proof. by apply good_emit. Qed.

Lemma good_channel c : preserves good (set_channel c).
Proof. by intros s. Qed.
#[local] Hint Resolve good_channel good_permit good_acquire good_stats good_start good_stop good_reset : good.

Lemma check_on_task_reportable exc e : check_on_task exc = Err e → reportable (Err e).
Proof.
  unfold check_on_task. destruct exc as [x|]; [|done]. intros [= <-].
  destruct (has_terminated x), (reason x); done.
Qed.

Lemma good_drive exc steps : preserves good (drive exc steps).
Proof.
  revert exc. induction steps as [|st steps IH]; intros exc; cbn [Executor.drive];
    (destruct (check_on_task exc) as [u|e] eqn:Ec;
     [|apply check_on_task_reportable in Ec; destruct (terminates_worker e); keep_good]);
    unfold copy_result; keep_good.
Qed.
#[local] Hint Resolve good_drive : good.

Lemma good_run_task conf t : preserves good (run_task conf t).
Proof.
  unfold Executor.run_task, populate_with_task. keep_good.
  match goal with |- preserves _ (match ?c with Some _ => _ | None => _ end) => destruct c end; keep_good.
Qed.
#[local] Hint Resolve good_run_task : good.

Lemma good_run conf i ts : preserves good (run conf i ts).
Proof.
  unfold Executor.run, Executor.run_init. keep_good.
  induction ts as [|t ts IH]; cbn [Executor.run_tasks]; unfold between_tasks; keep_good.
Qed.

Lemma good_drop_state : preserves good drop_state.
Proof.
  unfold drop_state. keep_good.
  match goal with |- preserves _ (match ?c with Some _ => _ | None => _ end) => destruct c end; keep_good.
Qed.
#[local] Hint Resolve good_drop_state : good.

Lemma good_isolate_job conf i ts gc s : good s → good (isolate_job conf i ts gc s).2.
Proof.
  intros Hs. apply (good_run conf i ts) in Hs. unfold Executor.isolate_job, Executor.instance_thread.
  destruct (run conf i ts s) as [r s1]. simpl in Hs.
  assert (Hl : good (leave_run s1).2).
  { unfold leave_run. rewrite Exec_bind_eq. simpl. destruct (permit s1); [by apply good_permit|done]. }
  assert (Hc : good (cleanup gc (leave_run s1).2).2).
  { revert Hl. generalize (leave_run s1).2. change (preserves good (cleanup gc)). unfold Executor.cleanup. keep_good. }
  destruct r as [u|[e|]]; [..|by apply good_drop_state];
    (destruct (poisoned _); [by apply good_drop_state|]);
    revert Hc; destruct (cleanup gc _) as [[|] s2]; intros Hc; [apply Hc|by apply good_drop_state|apply Hc|by apply good_drop_state].
Qed.

(** No client of a worker is ever told that the memory limit was exceeded: a script
    that runs into it takes the worker down, and its request is abandoned. *)
Theorem memory_limit_never_reported conf i ts gc s t r :
  fresh_instance s → Respond t r ∈ trace (isolate_job conf i ts gc s).2 → r ≠ Err MemoryLimitExceeded.
Proof.
  intros (Ht & _ & _) Hin ->. assert (Hg : good s) by (unfold good; by rewrite Ht).
  apply (good_isolate_job conf i ts gc) in Hg. unfold good in Hg. rewrite Forall_forall in Hg.
  exact (Hg _ Hin).
Qed.
End protocol.

(** ** A run: one request, answered by the script after an I/O round *)
Module WorkerRun.
Definition exc (d : string) : JsException := {| description := d; has_terminated := false; reason := Unknown |}.
Definition call (len : nat) (c : ServiceCall) (vs : list (option JsValue)) : HostCall :=
  {| host_fn := CallService {| call_str := Ok len; decoded := Some c; args_array := Ok vs;
                               callback := Ok 1%nat; io_alive := true |};
     host_heap := 0; host_pool := 100 |}.
Definition js (cs : list HostCall) (e : option JsException) : JsRun :=
  {| host_calls := cs; oom := false; heap_after := 0; used_after := 0; caught := e |}.
Definition reply : ResponseObject :=
  {| res_headers := []; res_status := 201; res_body := HttpBody_default |}.
Definition conf : WorkerConfiguration :=
  {| executor := {| max_ab_memory_mb := 1; max_time_ms := 100; max_io_concurrency := 1; max_io_per_request := 1 |};
     fetch_service := ""; env := []; kv_namespaces := [] |}.
Definition init : InitScript :=
  {| init_token := true; global_env := Ok tt; utf8 := true; compiled := true; init_exception := None;
     main_run := js [] None |}.
Definition answered_task : TaskScript :=
  {| task := 7; task_token := true; dispatcher := Ok tt;
     first_run := js [call 10 (Async (SetTimeout 5)) []] None;
     io_steps := [{| io_index := 0; io_data := [Byte.x01]; io_pool := 100; io_token := true;
                     io_run := js [call 10 (Sync (SendFetchResponse reply)) [Some (VArrayBuffer [Byte.x2a])];
                                   call 10 (Sync Done) []] None |}] |}.
Definition oom_task : TaskScript :=
  {| task := 8; task_token := true; dispatcher := Ok tt;
     first_run := {| host_calls := []; oom := true; heap_after := 0; used_after := 0; caught := None |};
     io_steps := [] |}.
Definition s0 : InstanceState :=
  {| files := []; appid := "a"; done := false; fetch_response_channel := None; io_waiter := None;
     in_slot := false; memory_pool := MemoryPool_new 100; heap_used := 0; permit := false; jmp_env := false;
     poisoned := false; trace := [] |}.
Definition gc : JsRun := js [] None.
Definition tr : list event :=
  trace (isolate_job 1000 100 (λ _, tt) (λ _ c, c) (λ _, []) conf init [answered_task; oom_task] gc s0).2.

Lemma fresh : fresh_instance s0.
Proof. done. Qed.
End WorkerRun.

Example instance_follows_protocol_holds :
  fresh_instance WorkerRun.s0 ∧ ∃ p, protocol_run (Off, None) WorkerRun.tr = Some (p, None).
Proof.
  split; [exact WorkerRun.fresh|].
  exact (instance_follows_protocol 1000 100 (λ _, tt) (λ _ c, c) (λ _, []) WorkerRun.conf WorkerRun.init
           [WorkerRun.answered_task; WorkerRun.oom_task] WorkerRun.gc WorkerRun.s0 WorkerRun.fresh).
Defined.

Example every_request_answered_holds :
  let tr := trace (isolate_job 1000 100 (λ _, tt) (λ _ c, c) (λ _, []) WorkerRun.conf WorkerRun.init
                     [WorkerRun.answered_task; WorkerRun.oom_task] WorkerRun.gc WorkerRun.s0).2 in
  fresh_instance WorkerRun.s0 ∧ count (is_received 7) tr = 1%nat ∧ count (is_answer 7) tr = 1%nat.
Proof.
  intros tr. split; [exact WorkerRun.fresh|].
  assert (H7 : count (is_received 7) tr = 1%nat) by (vm_compute; reflexivity).
  split; [exact H7|].
  exact (eq_trans (eq_sym (every_request_answered 1000 100 (λ _, tt) (λ _ c, c) (λ _, []) WorkerRun.conf
           WorkerRun.init [WorkerRun.answered_task; WorkerRun.oom_task] WorkerRun.gc WorkerRun.s0 7
           WorkerRun.fresh)) H7).
Defined.

Example memory_limit_never_reported_holds :
  let res := {| res_headers := []; res_status := 201; res_body := Binary [Byte.x2a] |} in
  let tr := trace (isolate_job 1000 100 (λ _, tt) (λ _ c, c) (λ _, []) WorkerRun.conf WorkerRun.init
                     [WorkerRun.answered_task; WorkerRun.oom_task] WorkerRun.gc WorkerRun.s0).2 in
  tr !! 27%nat = Some (Abandon 8) ∧ tr !! 17%nat = Some (Respond 7 (Ok res)) ∧
  (@Ok ExecutionError _ res) ≠ Err MemoryLimitExceeded.
Proof.
  intros res tr.
  assert (H8 : tr !! 27%nat = Some (Abandon 8)) by (vm_compute; reflexivity).
  assert (H7 : tr !! 17%nat = Some (Respond 7 (Ok res))) by (vm_compute; reflexivity).
  split; [exact H8|]. split; [exact H7|].
  exact (memory_limit_never_reported 1000 100 (λ _, tt) (λ _ c, c) (λ _, []) WorkerRun.conf WorkerRun.init
           [WorkerRun.answered_task; WorkerRun.oom_task] WorkerRun.gc WorkerRun.s0 7 (Ok res) WorkerRun.fresh
           (list_elem_of_lookup_2 tr 17 _ H7)).
Defined.
