(* ===== verification/Isolate.v ===== *)
(** * Isolates and their threads: [rusty-workers-runtime/src/isolate.rs] and the
    remote termination of [executor.rs]

    An isolate is reused for one worker after another.  The handle of a worker can
    outlive it, so terminating goes through a generation that the isolate's thread
    advances, under the lock the handle takes, before it forgets a pending
    termination. *)
From Stdlib Require Import ZArith Lia.
From S2P Require Import Prelude Types Executor.
Local Open Scope Z_scope.

(** ** Remote termination *)

(** The isolate as the handles see it: the generation behind its lock, V8's pending
    termination, and the reason boxes of the workers it ran. *)
Record IsolateState := {
  generation : Z;
  terminating : bool;
  reasons : gmap nat TerminationReason;
}.

Record InstanceHandle := { creation_generation : Z; termination_reason : nat }.

(** [do_remote_termination], all of it under the generation lock *)
Definition do_remote_termination (h : InstanceHandle) (reason : option TerminationReason)
    (iso : IsolateState) : IsolateState :=
  if decide (generation iso = creation_generation h) then
    {| generation := generation iso;
       terminating := true;
       reasons := match reason with
                  | Some r =>
                      if decide (reasons iso !! termination_reason h = Some Unknown)
                      then <[termination_reason h := r]> (reasons iso) else reasons iso
                  | None => reasons iso
                  end |}
  else iso.

Definition terminate_for_time_limit (h : InstanceHandle) : IsolateState → IsolateState :=
  do_remote_termination h (Some TimeLimit).

(** [Drop for InstanceHandle] *)
Definition handle_drop (h : InstanceHandle) : IsolateState → IsolateState :=
  do_remote_termination h (Some CachePolicy).

(** The part of [Instance::new] that makes the handle *)
Definition new_handle (box : nat) (iso : IsolateState) : InstanceHandle * IsolateState :=
  ({| creation_generation := generation iso; termination_reason := box |},
   {| generation := generation iso; terminating := terminating iso;
      reasons := <[box := Unknown]> (reasons iso) |}).

(** [isolate_worker] after a job: [None] drops the isolate *)
Definition recycle (poisoned : bool) (cleanup : GenericResult unit) (iso : IsolateState) : option IsolateState :=
  if poisoned then None else
  let iso := {| generation := wrapping_add 64 (generation iso) 1; terminating := false;
                reasons := reasons iso |} in
  match cleanup with Ok _ => Some iso | Err _ => None end.

(** The worker in the isolate, all handles ever made, and two ghosts: how often the
    isolate was recycled and which worker's handle asked for the pending termination. *)
Record isolate := {
  iso : IsolateState;
  current : option nat;
  created : gmap nat InstanceHandle;
  recycled : Z;
  requested_by : option nat;
}.

Inductive isolate_step (s : isolate) : isolate → Prop :=
  | isolate_new box h iso' :
      current s = None → created s !! box = None → new_handle box (iso s) = (h, iso') →
      isolate_step s {| iso := iso'; current := Some box; created := <[box := h]> (created s);
                        recycled := recycled s; requested_by := requested_by s |}
  | isolate_terminate box h reason :
      created s !! box = Some h →
      isolate_step s {| iso := do_remote_termination h reason (iso s); current := current s;
                        created := created s; recycled := recycled s;
                        requested_by := if decide (generation (iso s) = creation_generation h)
                                        then Some box else requested_by s |}
  | isolate_recycle iso' :
      recycle false (Ok tt) (iso s) = Some iso' →
      isolate_step s {| iso := iso'; current := None; created := created s;
                        recycled := recycled s + 1; requested_by := None |}.

Definition isolate_init : isolate :=
  {| iso := {| generation := 0; terminating := false; reasons := ∅ |}; current := None;
     created := ∅; recycled := 0; requested_by := None |}.

(** A handle belongs to the current worker exactly when its generation is current. *)
Record generations (s : isolate) : Prop := {
  gen_recycled : 0 <= recycled s ∧ (recycled s < 2 ^ 64 → generation (iso s) = recycled s);
  gen_created box h : created s !! box = Some h → recycled s < 2 ^ 64 →
    0 <= creation_generation h <= recycled s ∧
    (creation_generation h = recycled s → current s = Some box);
  gen_terminating : recycled s < 2 ^ 64 → terminating (iso s) = true →
    ∃ box, requested_by s = Some box ∧ current s = Some box;
}.

Lemma isolate_step_generations a b : isolate_step a b → generations a → generations b.
Proof.
  intros Hstep [[H0 Hg] Hc Ht].
  destruct Hstep as [box h iso' Hcur Hnew Hh|box h reason Hbox|iso' Hr].
  - unfold new_handle in Hh. simplify_eq. split; simpl; [done| |].
    + intros box' h Hl Hlt. apply lookup_insert_Some in Hl as [[<- <-]|[Hne Hl]]; simpl.
      * split; [rewrite Hg by done; lia|done].
      * destruct (Hc _ _ Hl Hlt) as [Hb Hcurr]. split; [done|]. intros Heq. specialize (Hcurr Heq). congruence.
    + intros Hlt Hterm. destruct (Ht Hlt Hterm) as (? & _ & ?). congruence.
  - split; simpl.
    + split; [done|]. intros Hlt. rewrite <-(Hg Hlt). unfold do_remote_termination. by case_decide.
    + done.
    + unfold do_remote_termination. intros Hlt Hterm. destruct (Hc _ _ Hbox Hlt) as [_ Hcurr].
      case_decide as Hgen; [|by apply Ht]. exists box. split; [done|]. apply Hcurr.
      by rewrite <-Hgen, Hg.
  - unfold recycle in Hr. simplify_eq. split; simpl.
    + split; [lia|]. intros Hlt. rewrite Hg by lia. rewrite wrapping_add_small by lia. done.
    + intros box h Hl Hlt. destruct (Hc _ _ Hl ltac:(lia)) as [Hb _]. split; [lia|]. intros. lia.
    + done.
Qed.

(** C11. A termination that is pending was asked for by the handle of the very worker that
    is in the isolate: no handle that outlived its worker ever stops a later one (in
    fewer than 2^64 reuses). *)
Theorem termination_hits_own_worker s :
  rtc isolate_step isolate_init s → recycled s < 2 ^ 64 → terminating (iso s) = true →
  ∃ box, requested_by s = Some box ∧ current s = Some box.
Proof.
  intros Hsteps.
  assert (Hg : generations s).
  { eapply (rtc_invariant isolate_step); [apply isolate_step_generations|done|].
    split; simpl; [done|by intros box h Hl|done]. }
  apply Hg.
Qed.

(** The request of the current worker's handle does get through. *)
Lemma termination_effective s box h reason :
  rtc isolate_step isolate_init s → recycled s < 2 ^ 64 →
  created s !! box = Some h → creation_generation h = recycled s →
  terminating (do_remote_termination h reason (iso s)) = true.
Proof.
  intros Hsteps Hlt Hl Hgen.
  assert (Hg : generations s).
  { eapply (rtc_invariant isolate_step); [apply isolate_step_generations|done|].
    split; simpl; [done|by intros box' h' Hl'|done]. }
  unfold do_remote_termination. rewrite decide_True; [done|].
  destruct (gen_recycled _ Hg) as [_ Heq]. by rewrite Heq, Hgen.
Qed.

Example termination_hits_own_worker_holds :
  ∃ s, (rtc isolate_step isolate_init s ∧ recycled s < 2 ^ 64 ∧ terminating (iso s) = true) ∧
       current s = Some 2%nat.
Proof.
  pose (s1 := {| iso := (new_handle 1 (iso isolate_init)).2; current := Some 1%nat;
                 created := {[ 1%nat := (new_handle 1 (iso isolate_init)).1 ]}; recycled := 0;
                 requested_by := None |}).
  pose (s2 := {| iso := {| generation := 1; terminating := false; reasons := reasons (iso s1) |};
                 current := None; created := created s1; recycled := 1; requested_by := None |}).
  pose (s3 := {| iso := (new_handle 2 (iso s2)).2; current := Some 2%nat;
                 created := <[2%nat := (new_handle 2 (iso s2)).1]> (created s2); recycled := 1;
                 requested_by := None |}).
  pose (s4 := {| iso := handle_drop (new_handle 1 (iso isolate_init)).1 (iso s3); current := current s3;
                 created := created s3; recycled := 1; requested_by := None |}).
  pose (s5 := {| iso := terminate_for_time_limit (new_handle 2 (iso s2)).1 (iso s4); current := current s4;
                 created := created s4; recycled := 1; requested_by := Some 2%nat |}).
  assert (Hrun : rtc isolate_step isolate_init s5).
  { eapply rtc_l; [by apply (isolate_new isolate_init 1 (new_handle 1 (iso isolate_init)).1 (iso s1))|].
    eapply rtc_l; [by apply (isolate_recycle s1 (iso s2))|].
    eapply rtc_l; [by apply (isolate_new s2 2 (new_handle 2 (iso s2)).1 (iso s3))|].
    eapply rtc_l; [by apply (isolate_terminate s3 1 (new_handle 1 (iso isolate_init)).1 (Some CachePolicy))|].
    apply rtc_once. by apply (isolate_terminate s4 2 (new_handle 2 (iso s2)).1 (Some TimeLimit)). }
  assert (Hlt : recycled s5 < 2 ^ 64) by (simpl; lia).
  exists s5. split; [split; [exact Hrun|split; [exact Hlt|reflexivity]]|].
  destruct (termination_hits_own_worker s5 Hrun Hlt eq_refl) as (box & Hbox & Hcur).
  rewrite Hcur. rewrite <-Hbox. reflexivity.
Defined.

(** The first reason given sticks. *)
Lemma first_reason_sticks h reason iso r :
  reasons iso !! termination_reason h = Some r → r ≠ Unknown →
  reasons (do_remote_termination h reason iso) !! termination_reason h = Some r.
Proof.
  intros Hr Hne. unfold do_remote_termination. case_decide; [|done]. simpl.
  destruct reason; [|done]. rewrite decide_False by congruence. done.
Qed.

(** ** The pool of isolate threads: [IsolateThreadPool]

    [run] takes a permit, pops a thread, sends it the job and waits for the result, and
    returns the thread before the permit, also when it is cancelled; the thread then has
    the job all the same.  A job that panics ends its thread, whose handle stays in use. *)
Record IsolateThreadPool := {
  threads : list nat;      (* the stack, its top last *)
  notifier : nat;          (* permits of the semaphore *)
}.

Definition IsolateThreadPool_new (size : nat) : IsolateThreadPool :=
  {| threads := seq 0 size; notifier := size |}.

(** [notifier.acquire()], when it succeeds *)
Definition pool_acquire (p : IsolateThreadPool) : option IsolateThreadPool :=
  match notifier p with
  | S k => Some {| threads := threads p; notifier := k |}
  | O => None
  end.

(** [threads.lock().pop()]; [None] makes [run] panic *)
Definition pool_pop (p : IsolateThreadPool) : option (nat * IsolateThreadPool) :=
  match reverse (threads p) with
  | th :: rest => Some (th, {| threads := reverse rest; notifier := notifier p |})
  | [] => None
  end.

(** [Drop for ThreadGuard], then that of the permit *)
Definition guard_drop (th : nat) (p : IsolateThreadPool) : IsolateThreadPool :=
  {| threads := threads p ++ [th]; notifier := notifier p |}.
Definition pool_release (p : IsolateThreadPool) : IsolateThreadPool :=
  {| threads := threads p; notifier := S (notifier p) |}.

(** A thread: its channel of one job, the job it works on, and whether it is there to
    receive.  (A worker that gives its isolate up restarts in the same thread.) *)
Record IsolateThread := { mailbox : list nat; job : option nat; alive : bool }.
Definition jobs (w : IsolateThread) : list nat := option_list (job w) ++ mailbox w.

(** [job_tx.send], when it returns: [Ok] if there is room, an error if the receiver is gone *)
Definition job_send (j : nat) (w : IsolateThread) : option (result unit IsolateThread) :=
  if alive w then
    match mailbox w with
    | [] => Some (Ok {| mailbox := [j]; job := job w; alive := true |})
    | _ => None
    end
  else Some (Err tt).

(** A call of [run]: with a permit only, sending its job, waiting for the result, or with
    the thread given back *)
Inductive run_phase := Entering | Sending (th : nat) | Awaiting (th : nat) | Leaving.
Definition held_thread (ph : run_phase) : option nat :=
  match ph with Sending th | Awaiting th => Some th | _ => None end.

(** The runs are numbered in the order they start, and so are their jobs.  Ghosts: the runs
    that have started, and those that were cancelled. *)
Record pool_state := {
  tp : IsolateThreadPool;
  workers : nat → IsolateThread;
  runs : gmap nat run_phase;
  answered : gset nat;     (* the jobs whose [ret_tx] has a result *)
  started : gset nat;
  cancelled : gset nat;
}.

Definition set_worker (th : nat) (w : IsolateThread) (ws : nat → IsolateThread) : nat → IsolateThread :=
  λ i, if decide (i = th) then w else ws i.

(** the run [j] returns its thread *)
Definition give_back (j th : nat) (gone : gset nat) (s : pool_state) : pool_state :=
  {| tp := guard_drop th (tp s); workers := workers s; runs := <[j := Leaving]> (runs s);
     answered := answered s; started := started s; cancelled := gone |}.
Definition with_worker (th : nat) (w : IsolateThread) (s : pool_state) : pool_state :=
  {| tp := tp s; workers := set_worker th w (workers s); runs := runs s;
     answered := answered s; started := started s; cancelled := cancelled s |}.

Inductive pool_step (s : pool_state) : pool_state → Prop :=
  | pool_enter j p' :
      pool_acquire (tp s) = Some p' → j ∉ started s →
      pool_step s {| tp := p'; workers := workers s; runs := <[j := Entering]> (runs s); answered := answered s;
                     started := {[j]} ∪ started s; cancelled := cancelled s |}
  | pool_take j th p' :
      runs s !! j = Some Entering → pool_pop (tp s) = Some (th, p') →
      pool_step s {| tp := p'; workers := workers s; runs := <[j := Sending th]> (runs s); answered := answered s;
                     started := started s; cancelled := cancelled s |}
  | pool_send j th w :
      runs s !! j = Some (Sending th) → job_send j (workers s th) = Some (Ok w) →
      pool_step s {| tp := tp s; workers := set_worker th w (workers s); runs := <[j := Awaiting th]> (runs s);
                     answered := answered s; started := started s; cancelled := cancelled s |}
  (** "cannot send to job_tx": a panic *)
  | pool_send_failed j th :
      runs s !! j = Some (Sending th) → job_send j (workers s th) = Some (Err tt) →
      pool_step s (give_back j th (cancelled s) s)
  (** the result, or a panic when the job was dropped without one *)
  | pool_result j th :
      runs s !! j = Some (Awaiting th) → j ∈ answered s ∨ j ∉ jobs (workers s th) →
      pool_step s (give_back j th (cancelled s) s)
  (** async cancellation, while sending or waiting *)
  | pool_cancel j ph th :
      runs s !! j = Some ph → held_thread ph = Some th →
      pool_step s (give_back j th ({[j]} ∪ cancelled s) s)
  | pool_leave j :
      runs s !! j = Some Leaving →
      pool_step s {| tp := pool_release (tp s); workers := workers s; runs := delete j (runs s);
                     answered := answered s; started := started s; cancelled := cancelled s |}
  (** the thread: [blocking_recv], the end of a job, a panic *)
  | worker_recv th j rest :
      job (workers s th) = None → mailbox (workers s th) = j :: rest →
      pool_step s (with_worker th {| mailbox := rest; job := Some j; alive := alive (workers s th) |} s)
  | worker_finish th j :
      job (workers s th) = Some j →
      pool_step s {| tp := tp s; runs := runs s; started := started s; cancelled := cancelled s;
                     workers := set_worker th {| mailbox := mailbox (workers s th); job := None;
                                                 alive := alive (workers s th) |} (workers s);
                     answered := {[j]} ∪ answered s |}
  | worker_panic th :
      pool_step s (with_worker th {| mailbox := []; job := None; alive := false |} s).

Definition pool_init (size : nat) : pool_state :=
  {| tp := IsolateThreadPool_new size; workers := λ _, {| mailbox := []; job := None; alive := true |};
     runs := ∅; answered := ∅; started := ∅; cancelled := ∅ |}.

(** *** The threads that are held *)
Definition held (m : gmap nat run_phase) : list nat := omap (λ jp, held_thread jp.2) (map_to_list m).

Lemma held_insert m j ph : m !! j = None → held (<[j := ph]> m) ≡ₚ option_list (held_thread ph) ++ held m.
Proof.
  intros Hj. unfold held. rewrite map_to_list_insert by done. simpl. by destruct (held_thread ph).
Qed.

Lemma held_lookup m j ph : m !! j = Some ph → held m ≡ₚ option_list (held_thread ph) ++ held (delete j m).
Proof.
  intros Hj. rewrite <-held_insert by apply lookup_delete_eq. by rewrite insert_delete_eq, insert_id.
Qed.

Lemma held_update m j ph : held (<[j := ph]> m) ≡ₚ option_list (held_thread ph) ++ held (delete j m).
Proof. rewrite <-insert_delete_eq. apply held_insert, lookup_delete_eq. Qed.

Lemma held_length m : (length (held m) ≤ size m)%nat.
Proof.
  induction m as [|j ph m Hj IH] using map_ind; [done|]. rewrite held_insert, map_size_insert_None by done.
  rewrite length_app. destruct (held_thread ph); simpl; lia.
Qed.

(** Every thread is in the stack or held; every permit is in the semaphore or with a run. *)
Record pool_ok (n : nat) (s : pool_state) : Prop := {
  pool_permits : (notifier (tp s) + size (runs s) = n)%nat;
  pool_threads : threads (tp s) ++ held (runs s) ≡ₚ seq 0 n;
}.

Lemma pool_pop_Some p th p' :
  pool_pop p = Some (th, p') ↔ threads p = threads p' ++ [th] ∧ notifier p' = notifier p.
Proof.
  unfold pool_pop. destruct p as [ths n], p' as [ths' n']. simpl.
  destruct (reverse ths) as [|x rest] eqn:E.
  - apply (f_equal reverse) in E. rewrite reverse_involutive in E. subst. split; [done|].
    intros [Hx _]. by destruct ths'.
  - apply (f_equal reverse) in E. rewrite reverse_involutive, reverse_cons in E. subst.
    split; [by intros [= -> <- <-]|]. intros [Hx ->]. apply app_inj_tail in Hx as [-> ->]. done.
Qed.

Lemma pool_ok_update n s j ph ph' ths :
  pool_ok n s → runs s !! j = Some ph →
  threads (tp s) ++ option_list (held_thread ph) ≡ₚ ths ++ option_list (held_thread ph') →
  (notifier (tp s) + size (<[j := ph']> (runs s)) = n)%nat ∧ ths ++ held (<[j := ph']> (runs s)) ≡ₚ seq 0 n.
Proof.
  intros [Hp Ht] Hj Hths. split; [by rewrite map_size_insert_Some by (by eexists)|].
  by rewrite <-Ht, held_update, (held_lookup (runs s) j ph Hj), !app_assoc, Hths.
Qed.

(** The jobs that the threads have, and the runs they belong to *)
Record jobs_ok (s : pool_state) : Prop := {
  jo_started j : is_Some (runs s !! j) ∨ j ∈ cancelled s ∨ j ∈ answered s → j ∈ started s;
  jo_cancelled j ph : j ∈ cancelled s → runs s !! j = Some ph → ph = Leaving;
  jo_answered j ph : j ∈ answered s → runs s !! j = Some ph → ph = Leaving ∨ ∃ th, ph = Awaiting th;
  jo_jobs th j : j ∈ jobs (workers s th) → runs s !! j = Some (Awaiting th) ∧ j ∉ answered s ∨ j ∈ cancelled s;
  jo_NoDup th : NoDup (jobs (workers s th));
  jo_mailbox th : (length (mailbox (workers s th)) ≤ 1)%nat;
  jo_dead th : alive (workers s th) = false → jobs (workers s th) = [];
  jo_awaiting j th : runs s !! j = Some (Awaiting th) →
    j ∈ jobs (workers s th) ∨ j ∈ answered s ∨ alive (workers s th) = false;
}.

Lemma pool_step_ok n a b : pool_step a b → jobs_ok a → pool_ok n a → pool_ok n b.
Proof.
  intros Hstep Hjo Hok. assert (Hgive : ∀ j ph th gone, runs a !! j = Some ph → held_thread ph = Some th →
    pool_ok n (give_back j th gone a)).
  { intros j ph th gone Hj Hth. destruct (pool_ok_update n a j ph Leaving (threads (tp a) ++ [th]) Hok Hj); [|by split].
    by rewrite Hth, app_nil_r. }
  destruct Hstep as [j p' Ha Hj|j th p' Hj Hpop|j th w Hj Hs|j th Hj Hs|j th Hj Hr|j ph th Hj Hh|j Hj|th j rest Hn Hm|th j Hjob|th];
    try (by eapply Hgive); try (by destruct Hok).
  - assert (Hnone : runs a !! j = None) by (apply eq_None_not_Some; intros Hr; apply Hj, (jo_started _ Hjo); by left).
    destruct Hok as [Hp Ht]. unfold pool_acquire in Ha. destruct (notifier (tp a)) eqn:En; [done|]. simplify_eq.
    split; simpl; [rewrite map_size_insert_None by done; lia|]. by rewrite held_insert.
  - apply pool_pop_Some in Hpop as [Hth Hno]. destruct (pool_ok_update n a j Entering (Sending th) (threads p') Hok Hj).
    + by rewrite Hth, app_nil_r.
    + by split; simpl; [rewrite Hno|].
  - by destruct (pool_ok_update n a j (Sending th) (Awaiting th) (threads (tp a)) Hok Hj).
  - destruct Hok as [Hp Ht]. split; simpl.
    + rewrite map_size_delete_Some by (by eexists). pose proof (map_size_ne_0_lookup_2 (runs a) j (mk_is_Some _ _ Hj)). lia.
    + by rewrite <-Ht, (held_lookup (runs a) j Leaving Hj).
Qed.

Lemma set_worker_eq th w ws : set_worker th w ws th = w.
Proof. unfold set_worker. by case_decide. Qed.
Lemma set_worker_ne th th' w ws : th' ≠ th → set_worker th w ws th' = ws th'.
Proof. unfold set_worker. by case_decide. Qed.

(** A run whose job is with no thread, or is answered, gives its thread back. *)
Lemma give_back_jobs_ok s j ph th gone :
  jobs_ok s → runs s !! j = Some ph → held_thread ph = Some th →
  (j ∈ gone ∨ ∀ th', ph = Awaiting th' → j ∈ answered s ∨ j ∉ jobs (workers s th')) →
  (gone = cancelled s ∨ gone = {[j]} ∪ cancelled s) → jobs_ok (give_back j th gone s).
Proof.
  intros Hok Hj Hth Hgone Hg.
  assert (Hsub : ∀ k, k ∈ cancelled s → k ∈ gone) by (destruct Hg as [-> | ->]; set_solver).
  assert (Hin : ∀ k, k ∈ gone → k = j ∨ k ∈ cancelled s) by (destruct Hg as [-> | ->]; set_solver).
  split; simpl; try apply Hok.
  - intros k Hk. destruct (decide (k = j)) as [->|Hne]; [apply (jo_started _ Hok); by left; eexists|].
    apply (jo_started _ Hok). rewrite lookup_insert_ne in Hk by done. destruct Hk as [?|[[?|?]%Hin|?]]; [by left|done|by right; left|by right; right].
  - intros k ph' Hk. destruct (decide (k = j)) as [->|Hne]; [rewrite lookup_insert_eq; congruence|].
    rewrite lookup_insert_ne by done. apply (jo_cancelled _ Hok). by destruct (Hin k Hk).
  - intros k ph' Hk. destruct (decide (k = j)) as [->|Hne]; [rewrite lookup_insert_eq; intros; left; congruence|].
    rewrite lookup_insert_ne by done. by apply (jo_answered _ Hok).
  - intros th' k Hk. destruct (jo_jobs _ Hok th' k Hk) as [[Hr Ha]|Hc]; [|right; by apply Hsub].
    destruct (decide (k = j)) as [->|Hne]; [right|left; by rewrite lookup_insert_ne].
    destruct Hgone as [?|Hno]; [done|]. destruct (Hno th'); [congruence|done|done].
  - intros k th'. destruct (decide (k = j)) as [->|Hne]; [by rewrite lookup_insert_eq|].
    rewrite lookup_insert_ne by done. apply (jo_awaiting _ Hok).
Qed.

(** A thread that keeps some of its jobs, and none when it ends *)
Lemma with_worker_jobs_ok s th w :
  jobs_ok s → sublist (jobs w) (jobs (workers s th)) → (length (mailbox w) ≤ 1)%nat →
  (alive w = false → jobs w = []) → (alive w = true → jobs w = jobs (workers s th) ∧ alive (workers s th) = true) →
  jobs_ok (with_worker th w s).
Proof.
  intros Hok Hsub Hm Hd Hal. split; simpl; try apply Hok.
  - intros th' k Hk. apply (jo_jobs _ Hok). destruct (decide (th' = th)) as [->|Hne]; [rewrite set_worker_eq in Hk|by rewrite set_worker_ne in Hk].
    eapply elem_of_sublist; [exact Hk|done].
  - intros th'. destruct (decide (th' = th)) as [->|Hne]; [rewrite set_worker_eq|rewrite set_worker_ne by done; apply Hok].
    eapply sublist_NoDup; [apply Hok|exact Hsub].
  - intros th'. destruct (decide (th' = th)) as [->|Hne]; [by rewrite set_worker_eq|rewrite set_worker_ne by done; apply Hok].
  - intros th'. destruct (decide (th' = th)) as [->|Hne]; [by rewrite set_worker_eq|rewrite set_worker_ne by done; apply Hok].
  - intros k th' Hk. pose proof (jo_awaiting _ Hok k th' Hk) as Ha.
    destruct (decide (th' = th)) as [->|Hne]; [rewrite set_worker_eq|by rewrite set_worker_ne].
    destruct (alive w) eqn:Ew; [|by auto]. destruct (Hal eq_refl) as [-> Hal']. rewrite Hal' in Ha. naive_solver.
Qed.

Lemma pool_enter_jobs_ok s j p' :
  jobs_ok s → j ∉ started s →
  jobs_ok {| tp := p'; workers := workers s; runs := <[j := Entering]> (runs s); answered := answered s;
             started := {[j]} ∪ started s; cancelled := cancelled s |}.
Proof.
  intros Hok Hj.
  assert (Hne : ∀ k, is_Some (runs s !! k) ∨ k ∈ cancelled s ∨ k ∈ answered s → j ≠ k) by (intros k Hk ->; by apply Hj, (jo_started _ Hok)).
  split; simpl; try apply Hok.
  - intros k Hk. destruct (decide (j = k)) as [->|Hjk]; [set_solver|]. rewrite lookup_insert_ne in Hk by done.
    apply elem_of_union_r. by apply (jo_started _ Hok).
  - intros k ph Hk. rewrite lookup_insert_ne by auto. by apply (jo_cancelled _ Hok).
  - intros k ph Hk. rewrite lookup_insert_ne by auto. by apply (jo_answered _ Hok).
  - intros th k Hk. destruct (jo_jobs _ Hok th k Hk) as [[Hr Ha]|Hc]; [left|by right].
    rewrite lookup_insert_ne; [done|]. apply Hne. left. by eexists.
  - intros k th Hk. destruct (decide (j = k)) as [->|Hjk]; [by rewrite lookup_insert_eq in Hk|].
    rewrite lookup_insert_ne in Hk by done. by apply (jo_awaiting _ Hok).
Qed.

(** A run that has not sent its job has no part in what the threads have. *)
Lemma unsent_job s j ph :
  jobs_ok s → runs s !! j = Some ph → ph ≠ Leaving → (∀ th, ph ≠ Awaiting th) →
  j ∉ cancelled s ∧ j ∉ answered s ∧ ∀ th, j ∉ jobs (workers s th).
Proof.
  intros Hok Hj Hl Ha. assert (Hc : j ∉ cancelled s) by (intros Hc; by apply Hl, (jo_cancelled _ Hok j)).
  split_and!; [done| |].
  - intros Hin. destruct (jo_answered _ Hok j ph Hin Hj) as [?|[th ?]]; [done|by eapply Ha].
  - intros th Hin. destruct (jo_jobs _ Hok th j Hin) as [[Hr _]|?]; [|done]. apply (Ha th). congruence.
Qed.

Lemma pool_take_jobs_ok s j th p' :
  jobs_ok s → runs s !! j = Some Entering →
  jobs_ok {| tp := p'; workers := workers s; runs := <[j := Sending th]> (runs s); answered := answered s;
             started := started s; cancelled := cancelled s |}.
Proof.
  intros Hok Hj. destruct (unsent_job s j Entering Hok Hj) as (Hc & Ha & Hw); [done..|].
  assert (Hne : ∀ k, k ∈ cancelled s ∨ k ∈ answered s ∨ (∃ th, k ∈ jobs (workers s th)) → j ≠ k) by (intros k Hk ->; naive_solver).
  split; simpl; try apply Hok.
  - intros k Hk. destruct (decide (j = k)) as [->|Hjk]; apply (jo_started _ Hok); [left; by eexists|].
    by rewrite lookup_insert_ne in Hk.
  - intros k ph Hk. rewrite lookup_insert_ne by auto. by apply (jo_cancelled _ Hok).
  - intros k ph Hk. rewrite lookup_insert_ne by auto. by apply (jo_answered _ Hok).
  - intros th' k Hk. rewrite lookup_insert_ne by eauto. by apply (jo_jobs _ Hok).
  - intros k th' Hk. destruct (decide (j = k)) as [->|Hjk]; [by rewrite lookup_insert_eq in Hk|].
    rewrite lookup_insert_ne in Hk by done. by apply (jo_awaiting _ Hok).
Qed.

Lemma job_send_Ok j w w' :
  job_send j w = Some (Ok w') → alive w = true ∧ mailbox w = [] ∧ w' = {| mailbox := [j]; job := job w; alive := true |}.
Proof. unfold job_send. destruct (alive w); [|done]. destruct (mailbox w); [|done]. naive_solver. Qed.

Lemma pool_send_jobs_ok s j th w :
  jobs_ok s → runs s !! j = Some (Sending th) → job_send j (workers s th) = Some (Ok w) →
  jobs_ok {| tp := tp s; workers := set_worker th w (workers s); runs := <[j := Awaiting th]> (runs s);
             answered := answered s; started := started s; cancelled := cancelled s |}.
Proof.
  intros Hok Hj (Hal & Hm & ->)%job_send_Ok. destruct (unsent_job s j (Sending th) Hok Hj) as (Hc & Ha & Hw); [done..|].
  assert (Hne : ∀ k, k ∈ cancelled s ∨ k ∈ answered s ∨ (∃ th, k ∈ jobs (workers s th)) → j ≠ k) by (intros k Hk ->; naive_solver).
  assert (Hjobs : ∀ th' k, k ∈ jobs (set_worker th {| mailbox := [j]; job := job (workers s th); alive := true |} (workers s) th') ↔
            (k = j ∧ th' = th) ∨ k ∈ jobs (workers s th')).
  { intros th' k. destruct (decide (th' = th)) as [->|Ht]; [rewrite set_worker_eq|rewrite set_worker_ne by done; naive_solver].
    unfold jobs. simpl. rewrite Hm, !elem_of_app, list_elem_of_singleton, elem_of_nil. naive_solver. }
  split; simpl; try apply Hok.
  - intros k Hk. destruct (decide (j = k)) as [->|Hjk]; apply (jo_started _ Hok); [left; by eexists|].
    by rewrite lookup_insert_ne in Hk.
  - intros k ph Hk. rewrite lookup_insert_ne by auto. by apply (jo_cancelled _ Hok).
  - intros k ph Hk. rewrite lookup_insert_ne by auto. by apply (jo_answered _ Hok).
  - intros th' k [[-> ->]|Hk]%Hjobs; [left; by rewrite lookup_insert_eq|].
    rewrite lookup_insert_ne by eauto. by apply (jo_jobs _ Hok).
  - intros th'. destruct (decide (th' = th)) as [->|Ht]; [rewrite set_worker_eq|rewrite set_worker_ne by done; apply Hok].
    specialize (Hw th). pose proof (jo_NoDup _ Hok th) as Hnd. unfold jobs in *. rewrite Hm, app_nil_r in *. simpl.
    destruct (job (workers s th)) as [i|]; simpl in *; [|by apply NoDup_singleton].
    apply NoDup_cons. rewrite list_elem_of_singleton in *. split; [congruence|by apply NoDup_singleton].
  - intros th'. destruct (decide (th' = th)) as [->|Ht]; [by rewrite set_worker_eq|rewrite set_worker_ne by done; apply Hok].
  - intros th'. destruct (decide (th' = th)) as [->|Ht]; [by rewrite set_worker_eq|rewrite set_worker_ne by done; apply Hok].
  - intros k th' Hk. rewrite Hjobs. destruct (decide (j = k)) as [->|Hjk].
    + rewrite lookup_insert_eq in Hk. injection Hk as <-. by left; left.
    + rewrite lookup_insert_ne in Hk by done. destruct (jo_awaiting _ Hok k th' Hk) as [?|[?|Hd]]; [by left; right|by right; left|].
      destruct (decide (th' = th)) as [->|Ht]; [congruence|rewrite set_worker_ne by done; by right; right].
Qed.

Lemma pool_leave_jobs_ok s j p' :
  jobs_ok s → runs s !! j = Some Leaving →
  jobs_ok {| tp := p'; workers := workers s; runs := delete j (runs s); answered := answered s;
             started := started s; cancelled := cancelled s |}.
Proof.
  intros Hok Hj. split; simpl; try apply Hok.
  - intros k Hk. apply (jo_started _ Hok). destruct Hk as [Hk|Hk]; [left|by right].
    destruct (decide (j = k)) as [->|Hjk]; [by eexists|by rewrite lookup_delete_ne in Hk].
  - intros k ph Hk [_ Hr]%lookup_delete_Some. by eapply (jo_cancelled _ Hok).
  - intros k ph Hk [_ Hr]%lookup_delete_Some. by eapply (jo_answered _ Hok).
  - intros th k Hk. destruct (jo_jobs _ Hok th k Hk) as [[Hr Ha]|Hc]; [left|by right].
    rewrite lookup_delete_ne; [done|congruence].
  - intros k th [_ Hr]%lookup_delete_Some. by apply (jo_awaiting _ Hok).
Qed.

Lemma worker_finish_jobs_ok s th j :
  jobs_ok s → job (workers s th) = Some j →
  jobs_ok {| tp := tp s; runs := runs s; started := started s; cancelled := cancelled s;
             workers := set_worker th {| mailbox := mailbox (workers s th); job := None;
                                         alive := alive (workers s th) |} (workers s);
             answered := {[j]} ∪ answered s |}.
Proof.
  intros Hok Hjob. assert (Hj : j ∈ jobs (workers s th)) by (unfold jobs; rewrite Hjob; by left).
  pose proof (jo_NoDup _ Hok th) as Hnd. unfold jobs in Hnd. rewrite Hjob in Hnd. apply NoDup_cons in Hnd as [Hnj Hnd].
  assert (Hjobs : ∀ th' k, k ∈ jobs (set_worker th {| mailbox := mailbox (workers s th); job := None;
                                                    alive := alive (workers s th) |} (workers s) th') ↔
            (k ≠ j ∨ th' ≠ th) ∧ k ∈ jobs (workers s th')).
  { intros th' k. destruct (decide (th' = th)) as [->|Ht]; [rewrite set_worker_eq|rewrite set_worker_ne by done; naive_solver].
    unfold jobs. simpl. rewrite Hjob. simpl. rewrite elem_of_cons. naive_solver. }
  split; simpl; try apply Hok.
  - intros k Hk. destruct (decide (k = j)) as [->|Hkj]; [|apply (jo_started _ Hok); set_solver].
    apply (jo_started _ Hok). destruct (jo_jobs _ Hok th j Hj) as [[Hr _]|Hc]; [left; by eexists|by right; left].
  - intros k ph [->%elem_of_singleton|Hk]%elem_of_union Hr; [|by apply (jo_answered _ Hok k)].
    destruct (jo_jobs _ Hok th j Hj) as [[Hr' _]|Hc]; [right; exists th; congruence|left; by apply (jo_cancelled _ Hok j)].
  - intros th' k [Hne Hk]%Hjobs. destruct (jo_jobs _ Hok th' k Hk) as [[Hr Ha]|Hc]; [|by right].
    destruct (decide (k = j)) as [->|Hkj]; [|left; set_solver]. right.
    destruct (jo_jobs _ Hok th j Hj) as [[Hr' _]|Hc]; [|done]. destruct Hne as [?|Hne]; [done|]. congruence.
  - intros th'. destruct (decide (th' = th)) as [->|Ht]; [by rewrite set_worker_eq|rewrite set_worker_ne by done; apply Hok].
  - intros th'. destruct (decide (th' = th)) as [->|Ht]; [rewrite set_worker_eq; apply Hok|rewrite set_worker_ne by done; apply Hok].
  - intros th'. destruct (decide (th' = th)) as [->|Ht]; [rewrite set_worker_eq|rewrite set_worker_ne by done; apply Hok].
    simpl. intros Hd. pose proof (jo_dead _ Hok th Hd) as Hn. unfold jobs in *. rewrite Hjob in Hn. discriminate Hn.
  - intros k th' Hk. rewrite Hjobs. destruct (decide (k = j)) as [->|Hkj]; [right; left; set_solver|].
    destruct (jo_awaiting _ Hok k th' Hk) as [?|[?|Hd]]; [left; naive_solver|right; left; set_solver|right; right].
    destruct (decide (th' = th)) as [->|Ht]; [by rewrite set_worker_eq|by rewrite set_worker_ne].
Qed.

Lemma pool_step_jobs_ok a b : pool_step a b → jobs_ok a → jobs_ok b.
Proof.
  intros Hstep Hok.
  destruct Hstep as [j p' Ha Hj|j th p' Hj Hpop|j th w Hj Hs|j th Hj Hs|j th Hj Hr|j ph th Hj Hh|j Hj|th j rest Hn Hm|th j Hjob|th].
  - by apply pool_enter_jobs_ok.
  - by apply pool_take_jobs_ok.
  - by apply pool_send_jobs_ok.
  - apply (give_back_jobs_ok a j (Sending th) th); [done..| |by left]. by right.
  - apply (give_back_jobs_ok a j (Awaiting th) th); [done..| |by left]. right. by intros th' [= <-].
  - apply (give_back_jobs_ok a j ph th); [done..| |by right]. left. set_solver.
  - by apply pool_leave_jobs_ok.
  - pose proof (jo_mailbox _ Hok th) as Hl. pose proof (jo_dead _ Hok th) as Hd. unfold jobs in Hd. rewrite Hn, Hm in *.
    apply with_worker_jobs_ok; [done|unfold jobs; by rewrite Hn, Hm|simpl in *; lia|simpl; by intros ?%Hd|].
    simpl. intros Hal. unfold jobs. by rewrite Hn, Hm.
  - by apply worker_finish_jobs_ok.
  - apply with_worker_jobs_ok; [done|apply sublist_nil_l|simpl; lia|done|done].
Qed.

Lemma pool_reachable n s : rtc pool_step (pool_init n) s → pool_ok n s ∧ jobs_ok s.
Proof.
  intros Hsteps. apply (rtc_invariant pool_step (λ s, pool_ok n s ∧ jobs_ok s) (pool_init n)); [|exact Hsteps|].
  - intros a b Hab [Hp Hj]. split; [by eapply pool_step_ok|by eapply pool_step_jobs_ok].
  - split; [split; simpl; [rewrite map_size_empty; lia|by rewrite app_nil_r]|].
    split; simpl; try done.
    + intros j [[? Hj]|[Hj|Hj]]; [by rewrite lookup_empty in Hj|set_solver..].
    + by intros th j Hj%elem_of_nil.
    + intros th. apply NoDup_nil_2.
    + intros th. lia.
Qed.

(** C35. The pool of threads, whatever is cancelled and whichever jobs panic: a run that has
    its permit finds a thread, so it does not panic there, and no two runs hold the same
    thread; the jobs that a thread has are that of the run that holds and awaits it, not
    answered yet, and those of cancelled runs; and the job of a run that waits for its
    result is with its thread, unless it is answered or the thread has died. *)
Theorem pool_has_thread n s :
  rtc pool_step (pool_init n) s →
  (∀ j, runs s !! j = Some Entering → is_Some (pool_pop (tp s))) ∧
  NoDup (threads (tp s) ++ held (runs s)) ∧
  (∀ th j, j ∈ jobs (workers s th) → runs s !! j = Some (Awaiting th) ∧ j ∉ answered s ∨ j ∈ cancelled s) ∧
  (∀ th j, runs s !! j = Some (Awaiting th) →
     j ∈ jobs (workers s th) ∨ j ∈ answered s ∨ alive (workers s th) = false).
Proof.
  intros [[Hp Ht] Hok]%pool_reachable. split_and!; [|rewrite Ht; apply NoDup_seq|apply Hok|intros th j; apply Hok].
  intros j Hj. assert (Hlt : (length (held (runs s)) < size (runs s))%nat).
  { pose proof (held_lookup _ _ _ Hj) as Hh%Permutation_length. simpl in Hh.
    pose proof (held_length (delete j (runs s))) as Hl. rewrite map_size_delete_Some in Hl by by eexists.
    pose proof (map_size_ne_0_lookup_2 (runs s) j (mk_is_Some _ _ Hj)). lia. }
  apply Permutation_length in Ht. rewrite length_app, length_seq in Ht.
  destruct (threads (tp s)) as [|x l] eqn:E using rev_ind; [simpl in Ht; lia|].
  exists (x, {| threads := l; notifier := notifier (tp s) |}). by apply pool_pop_Some.
Qed.

(** *** One thread: a cancelled run, and a job that panics *)

(** The next run gets the thread that still works on the job of the cancelled one. *)
Lemma cancelled_run : ∃ s, rtc pool_step (pool_init 1) s ∧ runs s !! 1%nat = Some Entering ∧
  job (workers s 0) = Some 0%nat ∧ 0%nat ∈ cancelled s.
Proof.
  eexists. split; [|split; [|split]].
  - eapply rtc_l; [eapply (pool_enter _ 0); [reflexivity|set_solver]|].
    eapply rtc_l; [eapply (pool_take _ 0); reflexivity|].
    eapply rtc_l; [eapply (pool_send _ 0); reflexivity|].
    eapply rtc_l; [eapply (worker_recv _ 0); reflexivity|].
    eapply rtc_l; [eapply (pool_cancel _ 0); reflexivity|].
    eapply rtc_l; [eapply (pool_leave _ 0); reflexivity|].
    apply rtc_once. eapply (pool_enter _ 1); [reflexivity|]. simpl. set_solver.
  - reflexivity.
  - reflexivity.
  - simpl. set_solver.
Qed.

Example pool_has_thread_holds :
  ∃ s, rtc pool_step (pool_init 1) s ∧ runs s !! 1%nat = Some Entering ∧
    is_Some (pool_pop (tp s)) ∧ (runs s !! 0%nat = Some (Awaiting 0) ∧ 0%nat ∉ answered s ∨ 0%nat ∈ cancelled s).
Proof.
  destruct cancelled_run as (s & Hs & Hr & Hj & Hc). exists s. split; [exact Hs|]. split; [exact Hr|].
  destruct (pool_has_thread 1 s Hs) as (Hpop & _ & Hjobs & _). split; [exact (Hpop 1%nat Hr)|].
  apply Hjobs. unfold jobs. rewrite Hj. by left.
Defined.

(** A job that panics ends its thread, whose handle goes back to the pool: the next run that
    gets it has nobody to send its job to, and panics. *)
Lemma dead_thread_is_reused : ∃ s, rtc pool_step (pool_init 1) s ∧
  runs s !! 1%nat = Some (Sending 0) ∧ job_send 1 (workers s 0) = Some (Err tt).
Proof.
  eexists. split; [|split].
  - eapply rtc_l; [eapply (pool_enter _ 0); [reflexivity|set_solver]|].
    eapply rtc_l; [eapply (pool_take _ 0); reflexivity|].
    eapply rtc_l; [eapply (pool_send _ 0); reflexivity|].
    eapply rtc_l; [eapply (worker_recv _ 0); reflexivity|].
    eapply rtc_l; [eapply (worker_panic _ 0)|].
    eapply rtc_l; [eapply (pool_result _ 0); [reflexivity|right; set_solver]|].
    eapply rtc_l; [eapply (pool_leave _ 0); reflexivity|].
    eapply rtc_l; [eapply (pool_enter _ 1); [reflexivity|simpl; set_solver]|].
    apply rtc_once. eapply (pool_take _ 1); reflexivity.
  - reflexivity.
  - reflexivity.
Qed.

(** It stays dead. *)
Lemma dead_thread_stays a b th : pool_step a b → alive (workers a th) = false → alive (workers b th) = false.
Proof.
  intros Hstep Hd. destruct Hstep as [| |j th' w Hj (Hal & _ & ->)%job_send_Ok| | | | |th' j rest Hn Hm|th' j Hjob|th']; simpl; try done;
    (destruct (decide (th = th')) as [->|Hne]; [rewrite set_worker_eq; simpl; congruence|by rewrite set_worker_ne]).
Qed.
