(* ===== verification/Runtime.v ===== *)
(** * The worker runtime: [rusty-workers-runtime/src/runtime.rs] and [server.rs]

    The cache of running instances with its handlers, the load figure that the proxy
    schedules by, the monitor that enforces the time budget of a worker, and the
    queues of statistics and logs. *)
From Stdlib Require Import ZArith Lia Sorted.
From S2P Require Import Prelude Float64 Types Lru Mm Interface Io Executor ExecutorFacts.
Local Open Scope Z_scope.

(** ** The cache of instances

    [lru_time_cache] with an expiry: every operation may also drop entries that were
    not used for too long, or that exceed the capacity.  The laws only say that
    nothing but [insert] adds a key or a value and that [remove] does remove. *)
Class ExpiringCache (C : Type → Type → Type) := {
  ec_new {K V} (expiry_ms : Z) (capacity : nat) : C K V;
  ec_get `{EqDecision K} {V} (now : Z) : K → C K V → option V * C K V;
  ec_peek `{EqDecision K} {V} (now : Z) : K → C K V → option V;
  ec_insert `{EqDecision K} {V} (now : Z) : K → V → C K V → C K V;
  ec_remove `{EqDecision K} {V} : K → C K V → option V * C K V;
  ec_notify_get `{EqDecision K} {V} (now : Z) : K → C K V → option V * list (K * V) * C K V;
  ec_peek_iter {K V} (now : Z) : C K V → list (K * V);
  ec_len {K V} (now : Z) : C K V → nat;
  (** the key may still be there, with this value *)
  ec_holds `{EqDecision K} {V} : K → V → C K V → Prop;

  ec_holds_new `{EqDecision K} {V} ms cap (k : K) (v : V) : ¬ ec_holds k v (ec_new ms cap);
  ec_holds_get `{EqDecision K} {V} now (k k' : K) (v' : V) (c : C K V) :
    ec_holds k' v' (ec_get now k c).2 → ec_holds k' v' c;
  ec_get_holds `{EqDecision K} {V} now (k : K) (v : V) (c : C K V) :
    (ec_get now k c).1 = Some v → ec_holds k v c;
  ec_holds_insert `{EqDecision K} {V} now (k k' : K) (v v' : V) (c : C K V) :
    ec_holds k' v' (ec_insert now k v c) → k' = k ∧ v' = v ∨ k' ≠ k ∧ ec_holds k' v' c;
  ec_holds_remove `{EqDecision K} {V} (k k' : K) (v' : V) (c : C K V) :
    ec_holds k' v' (ec_remove k c).2 → k' ≠ k ∧ ec_holds k' v' c;
  ec_holds_notify_get `{EqDecision K} {V} now (k k' : K) (v' : V) (c : C K V) :
    ec_holds k' v' (ec_notify_get now k c).2 → ec_holds k' v' c;
}.

Section expiring_cache.
Context `{ExpiringCache C} `{EqDecision K} {V : Type}.
Implicit Types (k : K) (v : V) (c : C K V).

Definition ec_has k c : Prop := ∃ v, ec_holds k v c.

Lemma ec_has_new ms cap k : ¬ ec_has k (ec_new (V := V) ms cap).
Proof. intros [v Hv]. by apply ec_holds_new in Hv. Qed.
Lemma ec_has_get now k k' c : ec_has k' (ec_get now k c).2 → ec_has k' c.
Proof. intros [v Hv]. exists v. by apply ec_holds_get in Hv. Qed.
Lemma ec_get_has now k v c : (ec_get now k c).1 = Some v → ec_has k c.
Proof. intros Hv. exists v. by eapply ec_get_holds. Qed.
Lemma ec_has_insert now k k' v c : ec_has k' (ec_insert now k v c) → k' = k ∨ ec_has k' c.
Proof. intros [v' [[? _]|[_ Hv]]%ec_holds_insert]; [by left|right; by exists v']. Qed.
Lemma ec_has_remove k k' c : ec_has k' (ec_remove k c).2 → k' ≠ k ∧ ec_has k' c.
Proof. intros [v [? Hv]%ec_holds_remove]. split; [done|by exists v]. Qed.
Lemma ec_has_notify_get now k k' c : ec_has k' (ec_notify_get now k c).2 → ec_has k' c.
Proof. intros [v Hv%ec_holds_notify_get]. by exists v. Qed.
End expiring_cache.

(** An instance of the class: the list of [Lru.v], where nothing expires *)
#[export] Program Instance ec_list : ExpiringCache LruList.cache := {|
  ec_new K V _ cap := LruList.empty cap;
  ec_get K _ V _ := LruList.get;
  ec_peek K _ V _ := LruList.peek;
  ec_insert K _ V _ := LruList.insert;
  ec_remove K _ V k c := (LruList.peek k c, LruList.remove k c);
  ec_notify_get K _ V _ k c := ((LruList.get k c).1, [], (LruList.get k c).2);
  ec_peek_iter K V _ := LruList.entries;
  ec_len K V _ c := length (LruList.entries c);
  ec_holds K _ V k v c := LruList.peek k c = Some v;
|}.
Next Obligation. done. Qed.
Next Obligation. intros K ? V now k k' v' c H. pose proof (lru_get_snd k k' c) as E. simpl in *. by rewrite E in H. Qed.
Next Obligation. intros K ? V now k v c H. pose proof (lru_get_fst k c) as E. simpl in *. by rewrite E in H. Qed.
Next Obligation.
  intros K ? V now k k' v v' c Hv. destruct (decide (k' = k)) as [->|Hne].
  - left. split; [done|]. pose proof (lru_peek_insert_eq k v v' c) as E. simpl in E. by apply E.
  - right. split; [done|]. pose proof (lru_peek_insert_ne k k' v v' c) as E. simpl in E. by apply E.
Qed.
Next Obligation.
  intros K ? V k k' v' c Hs. simpl in Hs. pose proof (lru_peek_remove k k' c) as Hr. simpl in Hr.
  rewrite Hr in Hs. by case_decide.
Qed.
Next Obligation. intros K ? V now k k' v' c H. pose proof (lru_get_snd k k' c) as E. simpl in *. by rewrite E in H. Qed.

(** ** The load figure *)

Definition compute_usage_saturating (used total : f64) (mul : Z) : Z :=
  let usage := f64_div used total in
  let usage := if negb (f64_is_finite usage) || f64_gt usage f64_one then f64_one else usage in
  f64_to_uint 16 (f64_mul usage (f64_of_Z mul)).

Lemma compute_usage_bounds used total mul :
  0 <= mul < 2 ^ 16 -> 0 <= compute_usage_saturating used total mul <= mul.
Proof.
  intros Hmul. unfold compute_usage_saturating. split; [apply f64_to_uint_nonneg; lia|].
  destruct (negb (f64_is_finite (f64_div used total)) || f64_gt (f64_div used total) f64_one) eqn:Hc;
    (apply f64_mul_ratio_le; [lia|lia|..]); try done.
  - apply orb_false_iff in Hc as [Hf _]. apply f64_div_narrow.
  - apply orb_false_iff in Hc as [Hf _]. by apply negb_false_iff.
  - by apply orb_false_iff in Hc as [_ Hg].
Qed.

(** ** The monitor of a worker: [monitor_task] *)

Record monitor := { budget : Z; deadline : option Z; initial_budget : Z }.

Definition monitor_init (max_time_ms : Z) : monitor :=
  {| budget := max_time_ms; deadline := None; initial_budget := max_time_ms |}.

(** An operation received at the time [now] *)
Definition monitor_op (m : monitor) (nop : Z * TimerControl) : monitor :=
  let '(now, op) := nop in
  match op with
  | Start => {| budget := budget m; deadline := Some (now + budget m); initial_budget := initial_budget m |}
  | Stop => {| budget := match deadline m with
                         | Some d => if decide (d < now) then 0 else d - now
                         | None => budget m
                         end;
               deadline := None; initial_budget := initial_budget m |}
  | Reset => {| budget := initial_budget m; deadline := deadline m; initial_budget := initial_budget m |}
  end.

(** [wait_until] returns *)
Definition timed_out (now : Z) (m : monitor) : bool :=
  match deadline m with Some d => bool_decide (d <= now) | None => false end.

(** What a stopwatch shows that runs from [Start] to [Stop] and that [Reset] clears *)
Record stopwatch := { used : Z; since : option Z }.

Definition stopwatch_op (w : stopwatch) (nop : Z * TimerControl) : stopwatch :=
  let '(now, op) := nop in
  match op with
  | Start => {| used := used w; since := Some now |}
  | Stop => {| used := used w + match since w with Some t => now - t | None => 0 end; since := None |}
  | Reset => {| used := 0; since := since w |}
  end.

Definition elapsed (w : stopwatch) (now : Z) : Z :=
  used w + match since w with Some t => now - t | None => 0 end.

(** The monitor has what the stopwatch has left of the budget. *)
Record agree (B last : Z) (m : monitor) (w : stopwatch) : Prop := {
  agree_initial : initial_budget m = B;
  agree_used : 0 <= used w;
  agree_budget : budget m = Z.max 0 (B - used w);
  agree_deadline : deadline m = (λ t, t + budget m) <$> since w;
  agree_since t : since w = Some t → t <= last;
}.

Definition running (w : stopwatch) : bool := match since w with Some _ => true | None => false end.

Lemma agree_ops B last now m w ops rest :
  0 <= B → agree B last m w → Sorted Z.le (last :: ops.*1 ++ [now]) →
  timer_wf (running w) (ops.*2 ++ rest) = true →
  agree B now (foldl monitor_op m ops) (foldl stopwatch_op w ops).
Proof.
  intros HB. revert last m w. induction ops as [|[t op] ops IH]; intros last m w Ha Hs Hwf;
    apply Sorted_inv in Hs as [Hs Hle]; apply HdRel_inv in Hle; simpl in *.
  { destruct Ha. split; try done. intros t Ht. etrans; eauto. }
  apply (IH t); [|done|].
  - destruct Ha as [H1 H2 H3 H4 H5]. destruct m as [b d i], w as [u s]. simpl in *. subst.
    destruct op, s as [t0|]; simpl in *; split; simpl; try done; try lia; try (intros; simplify_eq; lia).
    + specialize (H5 t0 eq_refl). lia.
    + specialize (H5 t0 eq_refl). case_decide; lia.
  - destruct w as [u [t0|]], op; simpl in *; done.
Qed.

(** *** The theorem for an instance *)
Section measures.
Context (max_memory_bytes host_entry_threshold_memory_bytes : Z).
Context {Ctx : Type} (digest_new : DigestAlgorithm → Ctx) (digest_update : bytes → Ctx → Ctx)
        (digest_finish : Ctx → bytes).

(** C9. Whatever part of an instance's timer operations the monitor has received, and at
    whatever times, its timeout fires exactly when the time it measured between
    [Start] and [Stop] since the last [Reset] has reached the budget: a worker is
    neither stopped early nor allowed to go on, and time spent waiting for I/O, for a
    CPU token or for the next request is free. *)
Theorem monitor_measures_running_time conf i ts gc s B started ops now :
  fresh_instance s → 0 <= B →
  ops.*2 `prefix_of` timer_ops (trace (isolate_job max_memory_bytes host_entry_threshold_memory_bytes
                                       digest_new digest_update digest_finish conf i ts gc s).2) →
  Sorted Z.le (started :: ops.*1 ++ [now]) →
  let w := foldl stopwatch_op {| used := 0; since := None |} ops in
  timed_out now (foldl monitor_op (monitor_init B) ops) = running w && bool_decide (B <= elapsed w now).
Proof.
  intros Hs HB [rest Hpre] Hsort w.
  pose proof (instance_timer_wf max_memory_bytes host_entry_threshold_memory_bytes
                digest_new digest_update digest_finish conf i ts gc s Hs) as Hwf.
  rewrite Hpre in Hwf.
  assert (Ha : agree B now (foldl monitor_op (monitor_init B) ops) w).
  { apply (agree_ops B started now _ {| used := 0; since := None |} ops rest); [done| |done|done].
    split; simpl; [done|lia|lia|done|done]. }
  destruct Ha as [H1 H2 H3 H4 H5]. unfold timed_out, running, elapsed. rewrite H4, H3.
  destruct (since w) as [t|]; simpl; [|done]. specialize (H5 t eq_refl).
  apply bool_decide_ext. lia.
Qed.
End measures.

(** ** The runtime and its handlers *)

Record Config := {
  high_memory_threshold_bytes : Z;
  max_num_of_instances : nat;
  isolate_pool_size : nat;
  max_concurrent_requests : nat;
  max_inactive_time_ms : Z;
  max_isolate_memory_bytes : Z;
  execution_concurrency : nat;
  cpu_wait_timeout_ms : Z;
  db_url : string;
}.

(** [handle] names the shared [InstanceHandle] and [memory_bytes] the atomic cell *)
Record WorkerState := { handle : nat; memory_bytes : nat }.

Record LogEntry := { log_appid : string; log_time : Z; log_text : string }.

Record InstanceStatistics := { used_memory_bytes : Z }.

Section runtime.
Context `{ExpiringCache C}.

(** [cells] is the memory of the atomics; the two queues are the bounded channels to
    the background tasks. *)
Record Runtime := {
  id : RuntimeId;
  config : Config;
  instances : C WorkerHandle WorkerState;
  cells : gmap nat Z;
  statistics_update : list (WorkerHandle * InstanceStatistics);
}.

Definition set_instances (c : C WorkerHandle WorkerState) (rt : Runtime) : Runtime :=
  {| id := id rt; config := config rt; instances := c; cells := cells rt;
     statistics_update := statistics_update rt |}.

Definition Runtime_new (rng : RuntimeId) (conf : Config) : Runtime :=
  {| id := rng; config := conf;
     instances := ec_new (max_inactive_time_ms conf) (max_num_of_instances conf);
     cells := ∅; statistics_update := [] |}.

Definition list (now : Z) (rt : Runtime) : GenericResult (Datatypes.list WorkerHandle) :=
  Ok (fst <$> ec_peek_iter now (instances rt)).

Definition terminate (h : WorkerHandle) (rt : Runtime) : bool * Runtime :=
  let '(old, c) := ec_remove h (instances rt) in
  (bool_decide (is_Some old), set_instances c rt).

(** [sent] and [answer]: what the channels of the instance with this handle do *)
Definition fetch (now : Z) (h : WorkerHandle) (sent : nat → bool)
    (answer : nat → option (ExecutionResult ResponseObject)) (rt : Runtime)
    : ExecutionResult ResponseObject * Runtime :=
  let '(found, c) := ec_get now h (instances rt) in
  ((instance ← ok_or (handle <$> found) NoSuchWorker;
    InstanceHandle_fetch (sent instance) (answer instance)), set_instances c rt).

(** The end of [spawn], on what came through [result_tx]: [None] when the instance's
    thread dropped it.  [fresh] is the new cell. *)
Definition spawn (now : Z) (worker_handle : WorkerHandle) (fresh : nat)
    (result : option (GenericResult nat)) (rt : Runtime) : GenericResult WorkerHandle * Runtime :=
  match result with
  | Some (Ok h) =>
      (Ok worker_handle,
       {| id := id rt; config := config rt;
          instances := ec_insert now worker_handle {| handle := h; memory_bytes := fresh |} (instances rt);
          cells := <[fresh := 0]> (cells rt); statistics_update := statistics_update rt |})
  | Some (Err e) => (Err e, rt)
  | None => (Err (ScriptInitException "script initialization failed"), rt)
  end.

(** The end of [monitor_task]: the instance's thread is gone, or its time is up; the
    handle to terminate *)
Definition monitor_closed (h : WorkerHandle) (rt : Runtime) : Runtime :=
  set_instances (ec_remove h (instances rt)).2 rt.
Definition monitor_timeout (h : WorkerHandle) (rt : Runtime) : option nat * Runtime :=
  let '(old, c) := ec_remove h (instances rt) in (handle <$> old, set_instances c rt).

Definition total_memory (now : Z) (rt : Runtime) : Z :=
  foldr (λ '(_, v) acc, wrapping_add 64 (default 0 (cells rt !! memory_bytes v)) acc) 0
    (ec_peek_iter now (instances rt)).

Definition memory_usage (now : Z) (rt : Runtime) : Z :=
  compute_usage_saturating (f64_of_Z (total_memory now rt))
    (f64_of_Z (high_memory_threshold_bytes (config rt))) 30000.
Definition instance_usage (now : Z) (rt : Runtime) : Z :=
  compute_usage_saturating (f64_of_Z (Z.of_nat (ec_len now (instances rt))))
    (f64_of_Z (Z.of_nat (max_num_of_instances (config rt)))) 30000.

(** The sum of the two terms is a [u16] *)
Definition load (now : Z) (rt : Runtime) : GenericResult Z :=
  Ok (wrapping_add 16 (memory_usage now rt) (instance_usage now rt)).

(** [try_send] on a channel of 100 *)
Definition update_stats (h : WorkerHandle) (stats : InstanceStatistics) (rt : Runtime) : Runtime :=
  if decide (length (statistics_update rt) < 100)%nat then
    {| id := id rt; config := config rt; instances := instances rt; cells := cells rt;
       statistics_update := statistics_update rt ++ [(h, stats)] |}
  else rt.

(** One turn of [statistics_update_worker] *)
Definition statistics_update_worker (now : Z) (rt : Runtime) : option Runtime :=
  match statistics_update rt with
  | [] => None
  | (h, stats) :: rest =>
      Some {| id := id rt; config := config rt; instances := instances rt;
              cells := match ec_peek now h (instances rt) with
                       | Some state => <[memory_bytes state := used_memory_bytes stats]> (cells rt)
                       | None => cells rt
                       end;
              statistics_update := rest |}
  end.

Definition lru_gc (now : Z) (rt : Runtime) : nat * Runtime :=
  let '(_, removed, c) := ec_notify_get now {| handle_id := "" |} (instances rt) in
  (length removed, set_instances c rt).

(** The figure the proxy schedules by is at most 60000, the sum of its two parts each
    saturated at 30000: the [u16] addition of [load] never wraps, whatever the
    memory total, an unlimited configuration (a division by zero) included. *)
Theorem load_bounded now rt :
  load now rt = Ok (memory_usage now rt + instance_usage now rt) ∧
  0 <= memory_usage now rt <= 30000 ∧ 0 <= instance_usage now rt <= 30000.
Proof.
  assert (Hm : 0 <= memory_usage now rt <= 30000) by (apply compute_usage_bounds; lia).
  assert (Hi : 0 <= instance_usage now rt <= 30000) by (apply compute_usage_bounds; lia).
  split; [|done]. unfold load. rewrite wrapping_add_small; [done|lia..].
Qed.

(** ** Histories of the runtime *)

(** [generated] and [removed]: the handles given to workers so far, and those that were
    terminated, that timed out or whose thread ended. *)
Record history := { rt : Runtime; generated : gset WorkerHandle; removed : gset WorkerHandle }.

Inductive runtime_step (s : history) : history → Prop :=
  | step_spawn now h fresh result :
      h ∉ generated s →
      runtime_step s {| rt := (spawn now h fresh result (rt s)).2; generated := {[h]} ∪ generated s;
                        removed := removed s |}
  | step_terminate h :
      h ∈ generated s →
      runtime_step s {| rt := (terminate h (rt s)).2; generated := generated s; removed := {[h]} ∪ removed s |}
  | step_closed h :
      h ∈ generated s →
      runtime_step s {| rt := monitor_closed h (rt s); generated := generated s; removed := {[h]} ∪ removed s |}
  | step_timeout h :
      h ∈ generated s →
      runtime_step s {| rt := (monitor_timeout h (rt s)).2; generated := generated s;
                        removed := {[h]} ∪ removed s |}
  | step_fetch now h sent answer :
      runtime_step s {| rt := (fetch now h sent answer (rt s)).2; generated := generated s; removed := removed s |}
  | step_update_stats h stats :
      runtime_step s {| rt := update_stats h stats (rt s); generated := generated s; removed := removed s |}
  | step_statistics now rt' :
      statistics_update_worker now (rt s) = Some rt' →
      runtime_step s {| rt := rt'; generated := generated s; removed := removed s |}
  | step_lru_gc now :
      runtime_step s {| rt := (lru_gc now (rt s)).2; generated := generated s; removed := removed s |}.

Definition history_init (rng : RuntimeId) (conf : Config) : history :=
  {| rt := Runtime_new rng conf; generated := ∅; removed := ∅ |}.

(** Only generated handles are in the cache, and none that was removed *)
Definition history_ok (s : history) : Prop :=
  removed s ⊆ generated s ∧
  ∀ h, ec_has h (instances (rt s)) → h ∈ generated s ∧ h ∉ removed s.

Lemma history_ok_shrink s c g r :
  history_ok s → generated s ⊆ g → r ⊆ g →
  (∀ h, ec_has h c → ec_has h (instances (rt s)) ∧ (h ∈ r → h ∈ removed s)) →
  ∀ rt', instances rt' = c → history_ok {| rt := rt'; generated := g; removed := r |}.
Proof.
  intros [Hsub Hhas] Hg Hr Hc rt' Hrt. split; [done|]. simpl. rewrite Hrt. intros h Hh.
  destruct (Hc h Hh) as [Hin Hrem]. destruct (Hhas h Hin). set_solver.
Qed.

Lemma history_ok_remove s h rt' :
  history_ok s → h ∈ generated s → instances rt' = (ec_remove h (instances (rt s))).2 →
  history_ok {| rt := rt'; generated := generated s; removed := {[h]} ∪ removed s |}.
Proof.
  intros Hok Hh Hi. eapply history_ok_shrink; [exact Hok|done| | |exact Hi].
  - destruct Hok. set_solver.
  - intros h' [Hne Hin]%ec_has_remove. split; [done|]. set_solver.
Qed.

Lemma runtime_step_ok a b : runtime_step a b → history_ok a → history_ok b.
Proof.
  intros Hstep Hok. pose proof Hok as [Hsub Hhas]. destruct Hstep.
  - split; [simpl; set_solver|]. simpl. intros h' Hh'.
    destruct result as [[hd|e]|]; simpl in Hh'; [|set_solver..].
    apply ec_has_insert in Hh' as [->|Hin]; set_solver.
  - eapply history_ok_remove; [done..|]. unfold terminate. by destruct (ec_remove _ _).
  - by eapply history_ok_remove.
  - eapply history_ok_remove; [done..|]. unfold monitor_timeout. by destruct (ec_remove _ _).
  - unfold fetch. destruct (ec_get now h (instances (rt a))) as [o c] eqn:E. simpl.
    eapply history_ok_shrink; [exact Hok|done..| |reflexivity].
    intros h' Hin. split; [|done]. apply (ec_has_get now h). by rewrite E.
  - eapply history_ok_shrink; [exact Hok|done..| |unfold update_stats; by case_decide]. done.
  - unfold statistics_update_worker in *.
    destruct (statistics_update (rt a)) as [|[h st] rest]; [done|]. simplify_eq.
    eapply history_ok_shrink; [exact Hok|done..| |reflexivity]. done.
  - unfold lru_gc. destruct (ec_notify_get now _ (instances (rt a))) as [[o l] c] eqn:E. simpl.
    eapply history_ok_shrink; [exact Hok|done..| |reflexivity].
    intros h' Hin. split; [|done]. eapply ec_has_notify_get. by rewrite E.
Qed.

(** C36. A worker that was terminated, that exceeded its time or whose thread ended never
    comes back: from then on a request for it is answered with [NoSuchWorker] in
    every later state of the runtime, whatever is spawned meanwhile. *)
Theorem removed_worker_unreachable rng conf s h now sent answer :
  rtc runtime_step (history_init rng conf) s → h ∈ removed s →
  (fetch now h sent answer (rt s)).1 = Err NoSuchWorker.
Proof.
  intros Hrun Hh.
  assert (history_ok s) as [_ Hhas].
  { eapply (rtc_invariant runtime_step); [apply runtime_step_ok|done|].
    split; [done|]. simpl. intros h' Hin. by destruct (ec_has_new (V := WorkerState) _ _ h' Hin). }
  unfold fetch. destruct (ec_get now h (instances (rt s))) as [[v|] c] eqn:E; simpl; [|done].
  destruct (Hhas h); [|done]. by apply (ec_get_has now h v); rewrite E.
Qed.

(** A worker just spawned is found if the cache keeps it. *)
Lemma fetch_found now h sent answer rt v :
  (ec_get now h (instances rt)).1 = Some v →
  (fetch now h sent answer rt).1 = InstanceHandle_fetch (sent (handle v)) (answer (handle v)).
Proof. unfold fetch. by destruct (ec_get _ _ _) as [o c]; simpl; intros ->. Qed.
End runtime.

(** ** Logs: [write_log] and [log_worker]

    A queue of 1000 entries, a dispatcher, and 16 writers with a queue of 16 each. *)
Record log_state := {
  log_queue : Datatypes.list LogEntry;
  channels : Datatypes.list (Datatypes.list LogEntry);
  log_written : Datatypes.list LogEntry;
}.

Definition log_init : log_state :=
  {| log_queue := []; channels := replicate 16 []; log_written := [] |}.

(** [try_send], its failure ignored *)
Definition write_log (e : LogEntry) (s : log_state) : log_state :=
  if decide (length (log_queue s) < 1000)%nat then
    {| log_queue := log_queue s ++ [e]; channels := channels s; log_written := log_written s |}
  else s.

(** [select_all] over the sends: the first channel with room takes the entry *)
Fixpoint select_all (e : LogEntry) (chs : Datatypes.list (Datatypes.list LogEntry))
    : option (Datatypes.list (Datatypes.list LogEntry)) :=
  match chs with
  | [] => None
  | ch :: chs => if decide (length ch < 16)%nat then Some ((ch ++ [e]) :: chs)
                 else cons ch <$> select_all e chs
  end.

(** One turn of the dispatcher; [None] while it has to wait *)
Definition log_worker (s : log_state) : option log_state :=
  match log_queue s with
  | [] => None
  | e :: rest =>
      chs ← select_all e (channels s);
      Some {| log_queue := rest; channels := chs; log_written := log_written s |}
  end.

(** One turn of the [i]th writer: [applog_write], its failure ignored *)
Definition log_writer (i : nat) (s : log_state) : option log_state :=
  match channels s !! i with
  | Some (e :: rest) =>
      Some {| log_queue := log_queue s; channels := <[i := rest]> (channels s);
              log_written := log_written s ++ [e] |}
  | _ => None
  end.

(** [accepted] is a ghost: what [write_log] put into the queue. *)
Inductive log_step : log_state * Datatypes.list LogEntry → log_state * Datatypes.list LogEntry → Prop :=
  | log_accept s acc e :
      (length (log_queue s) < 1000)%nat → log_step (s, acc) (write_log e s, e :: acc)
  | log_refuse s acc e :
      ¬ (length (log_queue s) < 1000)%nat → log_step (s, acc) (write_log e s, acc)
  | log_dispatch s acc s' : log_worker s = Some s' → log_step (s, acc) (s', acc)
  | log_deliver s acc i s' : log_writer i s = Some s' → log_step (s, acc) (s', acc).

Definition log_ok (x : log_state * Datatypes.list LogEntry) : Prop :=
  log_written x.1 ++ concat (channels x.1) ++ log_queue x.1 ≡ₚ x.2 ∧
  length (channels x.1) = 16%nat ∧ Forall (λ ch, length ch <= 16)%nat (channels x.1) ∧
  (length (log_queue x.1) <= 1000)%nat.

Lemma select_all_spec e chs chs' :
  select_all e chs = Some chs' → Forall (λ ch, length ch <= 16)%nat chs →
  concat chs' ≡ₚ e :: concat chs ∧ length chs' = length chs ∧ Forall (λ ch, length ch <= 16)%nat chs'.
Proof.
  revert chs'. induction chs as [|ch chs IH]; intros chs'; simpl; [done|].
  intros Hs [Hch Hf]%Forall_cons. case_decide as Hlt; simplify_eq.
  - split; [simpl; solve_Permutation|]. split; [done|]. constructor; [|done].
    rewrite length_app. simpl. lia.
  - apply fmap_Some in Hs as (chs0 & Hs & ->). destruct (IH chs0 Hs Hf) as (Hp & Hl & Hf').
    simpl. rewrite Hp. split; [solve_Permutation|]. split; [by rewrite Hl|by constructor].
Qed.

Lemma concat_take_entry i e rest (chs : Datatypes.list (Datatypes.list LogEntry)) :
  chs !! i = Some (e :: rest) → concat chs ≡ₚ e :: concat (<[i := rest]> chs).
Proof.
  revert i. induction chs as [|ch chs IH]; intros [|i]; simpl; try done.
  - intros [= ->]. done.
  - intros Hi. rewrite (IH i Hi). solve_Permutation.
Qed.

Lemma log_step_ok x y : log_step x y → log_ok x → log_ok y.
Proof.
  intros Hstep (Hp & Hl & Hf & Hq). destruct Hstep as [s acc e Hlt|s acc e Hge|s acc s' Hw|s acc i s' Hw]; simpl in *.
  - unfold write_log. rewrite decide_True by done. split; [|split; [done|split; [done|]]]; simpl.
    + rewrite <-Hp. solve_Permutation.
    + rewrite length_app. simpl. lia.
  - unfold write_log. by rewrite decide_False.
  - unfold log_worker in Hw. destruct (log_queue s) as [|e rest] eqn:Eq; [done|].
    apply bind_Some in Hw as (chs & Hs & [= <-]).
    destruct (select_all_spec e (channels s) chs Hs Hf) as (Hc & Hl' & Hf').
    split; simpl; [|split; [congruence|split; [done|simpl in Hq; lia]]].
    rewrite <-Hp, Hc. solve_Permutation.
  - unfold log_writer in Hw. destruct (channels s !! i) as [[|e rest]|] eqn:Ei; [done| |done].
    simplify_eq. split; simpl; [|split; [by rewrite length_insert|split; [|done]]].
    + rewrite <-Hp, (concat_take_entry i e rest (channels s)) by done. solve_Permutation.
    + apply Forall_insert; [done|]. apply (Forall_lookup_1 _ _ _ _ Hf) in Ei. simpl in Ei. lia.
Qed.

(** C37. An entry the queue accepted is in exactly one place until it is handed to the
    database: none is lost, none is written twice, and the queues stay bounded. *)
Theorem log_exactly_once s acc :
  rtc log_step (log_init, []) (s, acc) →
  log_written s ++ concat (channels s) ++ log_queue s ≡ₚ acc ∧
  length (channels s) = 16%nat ∧ Forall (λ ch, length ch <= 16)%nat (channels s) ∧
  (length (log_queue s) <= 1000)%nat.
Proof.
  intros Hrun. change (log_ok (s, acc)). eapply (rtc_invariant log_step); [apply log_step_ok|done|].
  split; [done|]. split; [done|]. split; [|simpl; lia]. simpl. repeat constructor; simpl; lia.
Qed.

(** ** Concrete runs *)
Module RuntimeRun.
Definition conf : Config :=
  {| high_memory_threshold_bytes := 1073741824; max_num_of_instances := 50; isolate_pool_size := 200;
     max_concurrent_requests := 20; max_inactive_time_ms := 120000; max_isolate_memory_bytes := 33554432;
     execution_concurrency := 4; cpu_wait_timeout_ms := 1000; db_url := "" |}.
Definition h1 : WorkerHandle := {| handle_id := "1" |}.
Definition h2 : WorkerHandle := {| handle_id := "2" |}.
Definition rid : RuntimeId := {| runtime_id := "r" |}.
Definition s0 : history (C := LruList.cache) := history_init rid conf.
Definition s1 : history :=
  {| rt := (spawn 0 h1 0 (Some (Ok 10%nat)) (rt s0)).2; generated := {[h1]} ∪ ∅; removed := ∅ |}.
Definition s2 : history :=
  {| rt := (spawn 1 h2 1 (Some (Ok 11%nat)) (rt s1)).2; generated := {[h2]} ∪ generated s1; removed := ∅ |}.
Definition s3 : history :=
  {| rt := (monitor_timeout h1 (rt s2)).2; generated := generated s2; removed := {[h1]} ∪ ∅ |}.

Lemma runtime_run : rtc runtime_step s0 s3.
Proof.
  eapply rtc_l; [apply (step_spawn s0 0 h1 0 (Some (Ok 10%nat))); by vm_compute|].
  eapply rtc_l; [apply (step_spawn s1 1 h2 1 (Some (Ok 11%nat))); by vm_compute|].
  apply rtc_once. apply (step_timeout s2 h1). set_solver.
Qed.
Definition reply : ResponseObject := ResponseObject_default.
End RuntimeRun.

Example removed_worker_unreachable_holds :
  rtc runtime_step RuntimeRun.s0 RuntimeRun.s3 ∧ RuntimeRun.h1 ∈ removed RuntimeRun.s3 ∧
  (fetch 2 RuntimeRun.h1 (λ _, true) (λ _, Some (Ok RuntimeRun.reply)) (rt RuntimeRun.s3)).1 = Err NoSuchWorker ∧
  (fetch 2 RuntimeRun.h2 (λ _, true) (λ _, Some (Ok RuntimeRun.reply)) (rt RuntimeRun.s3)).1 =
    Ok RuntimeRun.reply.
Proof.
  assert (Hin : RuntimeRun.h1 ∈ removed RuntimeRun.s3).
  { unfold RuntimeRun.s3. simpl. apply elem_of_union. left. by apply elem_of_singleton. }
  split; [exact RuntimeRun.runtime_run|]. split; [exact Hin|]. split; [|reflexivity].
  exact (removed_worker_unreachable RuntimeRun.rid RuntimeRun.conf RuntimeRun.s3 RuntimeRun.h1 2
           (λ _, true) (λ _, Some (Ok RuntimeRun.reply)) RuntimeRun.runtime_run Hin).
Defined.

(** The run of [WorkerRun] starts the timer for the script, stops it for the requests
    and for I/O; after 30 ms of the first task with 4 of them in JavaScript. *)
Example monitor_measures_running_time_holds :
  let ops := [(10, Start); (12, Stop); (13, Reset); (40, Start); (44, Stop); (60, Start)] in
  fresh_instance WorkerRun.s0 ∧
  ops.*2 `prefix_of`
    timer_ops (trace (isolate_job 1000 100 (λ _, tt) (λ _ c, c) (λ _, []) WorkerRun.conf WorkerRun.init
                        [WorkerRun.answered_task; WorkerRun.oom_task] WorkerRun.gc WorkerRun.s0).2) ∧
  timed_out 65 (foldl monitor_op (monitor_init 10) ops) = false ∧
  timed_out 66 (foldl monitor_op (monitor_init 10) ops) = true.
Proof.
  intros ops.
  assert (Hp : ops.*2 `prefix_of`
    timer_ops (trace (isolate_job 1000 100 (λ _, tt) (λ _ c, c) (λ _, []) WorkerRun.conf WorkerRun.init
                        [WorkerRun.answered_task; WorkerRun.oom_task] WorkerRun.gc WorkerRun.s0).2))
    by (exists [Stop; Reset; Start]; vm_compute; reflexivity).
  assert (H65 : Sorted Z.le (0 :: ops.*1 ++ [65])) by (simpl; repeat constructor; lia).
  assert (H66 : Sorted Z.le (0 :: ops.*1 ++ [66])) by (simpl; repeat constructor; lia).
  split; [exact WorkerRun.fresh|]. split; [exact Hp|]. split.
  - rewrite (monitor_measures_running_time 1000 100 (λ _, tt) (λ _ c, c) (λ _, []) WorkerRun.conf WorkerRun.init
               [WorkerRun.answered_task; WorkerRun.oom_task] WorkerRun.gc WorkerRun.s0 10 0 ops 65 WorkerRun.fresh
               ltac:(lia) Hp H65). reflexivity.
  - rewrite (monitor_measures_running_time 1000 100 (λ _, tt) (λ _ c, c) (λ _, []) WorkerRun.conf WorkerRun.init
               [WorkerRun.answered_task; WorkerRun.oom_task] WorkerRun.gc WorkerRun.s0 10 0 ops 66 WorkerRun.fresh
               ltac:(lia) Hp H66). reflexivity.
Defined.

Example log_exactly_once_holds :
  ∃ s acc, rtc log_step (log_init, []) (s, acc) ∧ length acc = 2%nat ∧ length (log_written s) = 1%nat ∧
    log_written s ++ concat (channels s) ++ log_queue s ≡ₚ acc.
Proof.
  pose (a := {| log_appid := "a"; log_time := 1; log_text := "x" |}).
  pose (b := {| log_appid := "a"; log_time := 2; log_text := "y" |}).
  pose (s1 := write_log a log_init).
  pose (s2 := default s1 (log_worker s1)).
  pose (s3 := default s2 (log_writer 0 s2)).
  pose (s4 := write_log b s3).
  assert (Hrun : rtc log_step (log_init, []) (s4, [b; a])).
  { eapply rtc_l; [apply (log_accept log_init [] a); simpl; lia|].
    eapply rtc_l; [apply (log_dispatch s1 [a] s2); reflexivity|].
    eapply rtc_l; [apply (log_deliver s2 [a] 0 s3); reflexivity|].
    apply rtc_once. apply (log_accept s3 [a] b). simpl. lia. }
  exists s4, [b; a]. split; [exact Hrun|]. split; [reflexivity|]. split; [reflexivity|].
  exact (proj1 (log_exactly_once s4 [b; a] Hrun)).
Defined.
