(* ===== verification/RuntimeServer.v ===== *)
(** * The runtime as a service: [rusty-workers/src/rpc.rs], [rusty-workers-runtime/src/server.rs]
    and the [Runtime] commands of [rusty-workers-cli/src/main.rs]

    The trait [RuntimeService] is the interface between the runtime and its clients, the
    proxy and the command line: a class with one law, on which the theorem about the
    commands rests; [server.rs] is its instance.  The transport, [tarpc], is a parameter:
    a call may fail before or after it was executed. *)
From Stdlib Require Import ZArith Lia.
From S2P Require Import Prelude BTree Float64 Types Db Lru Cli Interface Executor Runtime.
Local Open Scope Z_scope.

(** ** The interface *)
Class RuntimeService (R : Type) := {
  rpc_id : R → RuntimeId;
  rpc_spawn_worker : string → WorkerConfiguration → bytes → R → GenericResult WorkerHandle * R;
  rpc_terminate_worker : WorkerHandle → R → bool * R;
  rpc_list_workers : R → GenericResult (Datatypes.list WorkerHandle);
  rpc_fetch : WorkerHandle → RequestObject → R → ExecutionResult ResponseObject * R;
  rpc_load : R → GenericResult Z;
}.

Class RuntimeServiceLaws (R : Type) `{RuntimeService R} := {
  (** a terminated worker takes no request *)
  rpc_fetch_terminated h req r : (rpc_fetch h req (rpc_terminate_worker h r).2).1 = Err NoSuchWorker;
}.

(** ** The server *)
Section server.
Context `{ExpiringCache C}.
(** the clock; what a new worker is called and where its memory is counted; how its
    initialisation ends; what becomes of a request *)
Context (now : Z) (generate : Runtime (C := C) → WorkerHandle) (fresh_cell : Runtime (C := C) → nat).
Context (start : string → bytes → WorkerConfiguration → option (GenericResult nat)).
Context (sent : nat → bool) (answer : RequestObject → nat → option (ExecutionResult ResponseObject)).

#[export] Instance RuntimeServer : RuntimeService (Runtime (C := C)) := {|
  rpc_id rt := Runtime.id rt;
  rpc_spawn_worker appid configuration bundle rt :=
    spawn now (generate rt) (fresh_cell rt) (start appid bundle configuration) rt;
  rpc_terminate_worker h rt := terminate h rt;
  rpc_list_workers rt := list now rt;
  rpc_fetch h req rt := fetch now h sent (answer req) rt;
  rpc_load rt := load now rt;
|}.

#[export] Instance RuntimeServer_laws : RuntimeServiceLaws (Runtime (C := C)).
Proof.
  split. intros h req rt. simpl. unfold fetch, terminate.
  destruct (ec_remove h (instances rt)) as [o c] eqn:Er. simpl.
  destruct (ec_get now h c) as [[v|] c2] eqn:Eg; [|done]. exfalso.
  assert (Hc : ec_has h c) by (apply (ec_get_has now h v); by rewrite Eg).
  pose proof (ec_has_remove h h (instances rt)) as Hr. rewrite Er in Hr. by destruct (Hr Hc).
Qed.
End server.

(** ** The process: [main.rs] *)
Record Opt := { rpc_listen : string; opt_config : Config }.

Section process.
Context `{ExpiringCache C}.
(** [DataClient::new] *)
Context (data_client_new : string → GenericResult unit).

(** What [main] hands to [listen]: the address, the bound on concurrency and the runtime
    that every connection shares *)
Definition main (rng : RuntimeId) (opt : Opt) : GenericResult (string * nat * Runtime (C := C)) :=
  data_client_new (db_url (opt_config opt)) ;;
  Ok (rpc_listen opt, max_concurrent_requests (opt_config opt), Runtime_new rng (opt_config opt)).

(** The task that collects: [n] rounds, the first at [clock 0] *)
Fixpoint gc_task (clock : nat → Z) (n : nat) (rt : Runtime (C := C)) : Runtime :=
  match n with
  | O => rt
  | S n => gc_task (λ k, clock (S k)) n (lru_gc (clock 0%nat) rt).2
  end.

(** Its rounds are steps of the histories of [Runtime], and bring no worker back. *)
Lemma gc_task_runs clock n (s : history (C := C)) :
  rtc runtime_step s {| rt := gc_task clock n (rt s); generated := generated s; removed := removed s |}.
Proof.
  revert clock s. induction n as [|n IH]; intros clock s; [by destruct s|].
  eapply rtc_l; [apply (step_lru_gc s (clock 0%nat))|]. apply (IH _ {| rt := _; generated := _; removed := _ |}).
Qed.

Lemma gc_task_shrinks clock n h v (rt : Runtime (C := C)) :
  ec_holds h v (instances (gc_task clock n rt)) → ec_holds h v (instances rt).
Proof.
  revert clock rt. induction n as [|n IH]; intros clock rt; [done|]. intros Hh%IH.
  unfold lru_gc in Hh. destruct (ec_notify_get _ _ (instances rt)) as [[o l] c] eqn:E. simpl in Hh.
  eapply (ec_holds_notify_get (clock 0%nat)). by rewrite E.
Qed.
End process.

(** ** The commands *)
Inductive RuntimeCmd :=
  | Spawn (appid : string) (config : option string) (fetch_service script : string)
  | Terminate (handle : string)
  | List
  | Fetch (handle : string).

(** What is printed: the JSON of a result *)
Inductive RuntimePrinted :=
  | PrintSpawned (r : GenericResult WorkerHandle)
  | PrintTerminated (r : bool)
  | PrintWorkers (r : GenericResult (Datatypes.list WorkerHandle))
  | PrintFetched (r : ExecutionResult ResponseObject).

Definition default_configuration (fetch_service : string) : WorkerConfiguration :=
  {| executor := {| max_ab_memory_mb := 32; max_time_ms := 50; max_io_concurrency := 10; max_io_per_request := 50 |};
     Types.fetch_service := fetch_service; env := []; kv_namespaces := [] |}.

Section commands.
Context `{RuntimeService R}.
Context (open : string → option bytes) (config_from_json : string → option WorkerConfiguration).

(** What becomes of the one call of a command: it arrives, or it fails with an error,
    executed or not *)
Inductive transport := Delivered | Lost (e : string) (executed : bool).
Context (connect : GenericResult unit) (net : transport).

Definition rpc {A} (m : R → A * R) (r : R) : result CliError A * R :=
  match net with
  | Delivered => let '(a, r) := m r in (Ok a, r)
  | Lost e executed => (Err (RpcError e), if executed then (m r).2 else r)
  end.

Definition spawn_configuration (config : option string) (fetch_service : string) : result CliError WorkerConfiguration :=
  match config with
  | Some config =>
      text ← read_file open config;
      ok_or (config_from_json text) JsonError
  | None => Ok (default_configuration fetch_service)
  end.

Definition runtime_cmd (op : RuntimeCmd) (r : R) : result CliError RuntimePrinted * R :=
  match connect with
  | Err e => (Err (ConnectError e), r)
  | Ok _ =>
      match op with
      | Spawn appid config fetch_service script =>
          match (config ← spawn_configuration config fetch_service;
                 script ← read_file_raw open script; Ok (config, script)) with
          | Err e => (Err e, r)
          | Ok (config, script) =>
              let '(res, r) := rpc (rpc_spawn_worker appid config script) r in (PrintSpawned <$> res, r)
          end
      | Terminate handle =>
          let '(res, r) := rpc (rpc_terminate_worker {| handle_id := handle |}) r in (PrintTerminated <$> res, r)
      | List =>
          let '(res, r) := rpc (λ r, (rpc_list_workers r, r)) r in (PrintWorkers <$> res, r)
      | Fetch handle =>
          let '(res, r) := rpc (rpc_fetch {| handle_id := handle |} RequestObject_default) r in
          (PrintFetched <$> res, r)
      end
  end.
End commands.

(** Once a [terminate] was executed, even if its answer was lost on the way, a [fetch]
    of the worker reports that there is none. *)
Definition executed (net : transport) : bool := match net with Delivered => true | Lost _ b => b end.

Theorem terminate_is_final {R} `{RuntimeServiceLaws R} open config_from_json net h (r : R) :
  executed net = true →
  (runtime_cmd open config_from_json (Ok tt) Delivered (Fetch h)
     (runtime_cmd open config_from_json (Ok tt) net (Terminate h) r).2).1 = Ok (PrintFetched (Err NoSuchWorker)).
Proof.
  intros Hnet. set (w := {| handle_id := h |}).
  assert (Hr : (runtime_cmd open config_from_json (Ok tt) net (Terminate h) r).2 = (rpc_terminate_worker w r).2).
  { simpl. unfold rpc. fold w. destruct net as [|e []]; try done; by destruct (rpc_terminate_worker w r). }
  rewrite Hr. pose proof (rpc_fetch_terminated w RequestObject_default r) as Hf. simpl. fold w.
  destruct (rpc_fetch w RequestObject_default (rpc_terminate_worker w r).2). simpl in *. by subst.
Qed.

Example terminate_is_final_holds :
  let S := RuntimeServer 5 (λ _, RuntimeRun.h1) (λ _, 0%nat) (λ _ _ _, Some (Ok 10%nat)) (λ _, true)
             (λ _ _, Some (Ok RuntimeRun.reply)) in
  let run net op r := runtime_cmd (λ _, Some []) (λ _, None) (Ok tt) net op r in
  let r := (run Delivered (Spawn "" None "f" "script") (rt RuntimeRun.s0)).2 in
  (run Delivered (Fetch "1") r).1 = Ok (PrintFetched (Ok RuntimeRun.reply)) ∧
  executed (Lost "timeout" true) = true ∧
  (run Delivered (Fetch "1") (run (Lost "timeout" true) (Terminate "1") r).2).1 = Ok (PrintFetched (Err NoSuchWorker)).
Proof.
  intros S run r. split; [vm_compute; reflexivity|]. split; [reflexivity|].
  exact (terminate_is_final (λ _, Some []) (λ _, None) (Lost "timeout" true) "1" r eq_refl).
Defined.
