(* ===== verification/Cluster.v ===== *)
(** * The proxy and the runtimes together

    [Ownership] has the proxy, to which a runtime is what it answers; [Runtime] has one
    runtime.  Here a proxy and any number of runtimes run against each other: a call is
    executed by the runtime or lost on the way, with or without having been executed, and
    meanwhile runtimes drop workers and the proxy pools, takes and terminates them.  What
    a worker runs is what it was started with. *)
From Stdlib Require Import ZArith Lia.
From stdpp Require Import functions.
From S2P Require Import Prelude BTree Float64 Types Db Lru Sched Proxy Ownership Interface Executor Runtime RuntimeServer.
Local Open Scope Z_scope.

Section cluster.
Context {CP : Type → Type → Type} {HP : LruCache CP}.
Context {CR : Type → Type → Type} {HR : ExpiringCache CR}.
(** the runtime a connection leads to; several may lead to the same *)
Context (host_of : RuntimeServiceClient → nat).

(** ** The state *)

(** What a worker is started with *)
Record code := { code_app : string; code_config : WorkerConfiguration; code_bundle : bytes }.
Definition code_of (app : AppState) : code :=
  {| code_app := app_id (state_id app); code_config := state_config app; code_bundle := state_bundle app |}.

(** The runtimes and, a ghost, what each instance was started with: an instance is what a
    runtime's table refers to by [handle]. *)
Record cluster := {
  proxy : system (C := CP);
  hosts : nat → history (C := CR);
  started : gmap nat code;
}.

Definition set_proxy (sys : system (C := CP)) (cl : cluster) : cluster :=
  {| proxy := sys; hosts := hosts cl; started := started cl |}.
Definition set_host (k : nat) (s : history (C := CR)) (cl : cluster) : cluster :=
  {| proxy := proxy cl; hosts := <[k := s]> (hosts cl); started := started cl |}.

(** ** Calls *)

(** What a runtime brings to a spawn: the time, the handle it draws, the new cell, and
    how the start of the instance ends *)
Record spawn_choice := {
  sp_now : Z;
  sp_handle : WorkerHandle;
  sp_cell : nat;
  sp_start : string → WorkerConfiguration → bytes → option (GenericResult nat);
}.

Definition host_spawn (net : transport) (p : spawn_choice) (client : RuntimeServiceClient)
    (appid : string) (configuration : WorkerConfiguration) (bundle : bytes) (cl : cluster)
    : RpcResult (GenericResult WorkerHandle) * cluster :=
  let k := host_of client in
  let s := hosts cl k in
  let outcome := sp_start p appid configuration bundle in
  let '(reply, rt') := spawn (sp_now p) (sp_handle p) (sp_cell p) outcome (rt s) in
  let cl' := {|
    proxy := proxy cl;
    hosts := <[k := {| rt := rt'; generated := {[sp_handle p]} ∪ generated s; removed := removed s |}]> (hosts cl);
    started := match outcome with
               | Some (Ok n) => <[n := {| code_app := appid; code_config := configuration; code_bundle := bundle |}]> (started cl)
               | _ => started cl
               end |} in
  match net with
  | Delivered => (Ok reply, cl')
  | Lost e executed => (Err e, if executed then cl' else cl)
  end.

(** [sent] and [answer]: what the channels of the instances do *)
Definition host_fetch (net : transport) (now : Z) (sent : nat → bool)
    (answer : nat → option (ExecutionResult ResponseObject)) (inst : ReadyInstance) (cl : cluster)
    : RpcResult (ExecutionResult ResponseObject) * cluster :=
  let k := host_of (inst_client inst) in
  let s := hosts cl k in
  let '(reply, rt') := fetch now (inst_handle inst) sent answer (rt s) in
  let cl' := set_host k {| rt := rt'; generated := generated s; removed := removed s |} cl in
  match net with
  | Delivered => (Ok reply, cl')
  | Lost e executed => (Err e, if executed then cl' else cl)
  end.

(** A request takes the worker it has spawned. *)
Definition hold (app : AppState) (inst : ReadyInstance) (sys : system (C := CP)) : system :=
  {| sched := sched sys; known := known sys; held := (app, inst) :: held sys;
     origin := <[inst_handle inst := app]> (origin sys) |}.

(** The spawn of [get_instance] *)
Definition proxy_spawn (net : transport) (p : spawn_choice) (rtid : RuntimeId) (client : RuntimeServiceClient) (now : Z)
    (app : AppState) (cl : cluster) : cluster :=
  match host_spawn net p client (app_id (state_id app)) (state_config app) (state_bundle app) cl with
  | (Ok (Ok h), cl) =>
      set_proxy (hold app {| inst_rtid := rtid; last_active := now; inst_handle := h; inst_client := client |} (proxy cl)) cl
  | (_, cl) => cl
  end.

(** ** Interleavings

    Handles are 128 random bits and taken to be distinct, as in [Ownership], but now where
    they are drawn; an instance is a new object. *)
Definition choice_ok (p : spawn_choice) (cl : cluster) : Prop :=
  (∀ k, sp_handle p ∉ generated (hosts cl k)) ∧
  ∀ a c b n, sp_start p a c b = Some (Ok n) → started cl !! n = None.

Inductive cluster_step (cl : cluster) : cluster → Prop :=
  (* a step of the proxy that asks no runtime *)
  | cl_proxy sys' :
      step (proxy cl) sys' → origin sys' = origin (proxy cl) → cluster_step cl (set_proxy sys' cl)
  (* a step of a runtime that starts no worker: fetches, terminations, time-outs, evictions *)
  | cl_host k s' :
      runtime_step (hosts cl k) s' → generated s' = generated (hosts cl k) →
      cluster_step cl (set_host k s' cl)
  | cl_spawn net p rtid client now app :
      app ∈ known (proxy cl) → choice_ok p cl → cluster_step cl (proxy_spawn net p rtid client now app cl).

Definition cluster_initial (cl : cluster) : Prop :=
  initial (proxy cl) ∧ (∀ k, ∃ rng conf, hosts cl k = history_init rng conf) ∧ started cl = ∅.

(** ** The invariant *)
Definition in_table (cl : cluster) (k : nat) (h : WorkerHandle) (v : WorkerState) : Prop :=
  ec_holds h v (instances (rt (hosts cl k))).

Record cluster_ok (sys0 : system (C := CP)) (cl : cluster) : Prop := {
  k_run : rtc step sys0 (proxy cl);
  k_origin h app : origin (proxy cl) !! h = Some app → ∃ k, h ∈ generated (hosts cl k);
  k_generated k h v : in_table cl k h v → h ∈ generated (hosts cl k);
  k_code k h v : in_table cl k h v →
    ∃ x, started cl !! handle v = Some x ∧ ∀ app, origin (proxy cl) !! h = Some app → x = code_of app;
  k_inj k h v k' h' v' :
    in_table cl k h v → in_table cl k' h' v' → handle v = handle v' → h = h';
}.

Lemma runtime_step_shrinks (s s' : history (C := CR)) h v :
  runtime_step s s' → generated s' = generated s → ec_holds h v (instances (rt s')) → ec_holds h v (instances (rt s)).
Proof.
  intros Hstep Hg Hh. destruct Hstep; simpl in *.
  - set_solver.
  - unfold terminate in Hh. destruct (ec_remove h0 (instances (rt s))) as [o c] eqn:E. simpl in Hh.
    apply (ec_holds_remove h0). by rewrite E.
  - by apply ec_holds_remove in Hh as [_ ?].
  - unfold monitor_timeout in Hh. destruct (ec_remove h0 (instances (rt s))) as [o c] eqn:E. simpl in Hh.
    apply (ec_holds_remove h0). by rewrite E.
  - unfold fetch in Hh. destruct (ec_get now h0 (instances (rt s))) as [o c] eqn:E. simpl in Hh.
    apply (ec_holds_get now h0). by rewrite E.
  - unfold update_stats in Hh. by case_decide.
  - unfold statistics_update_worker in *. destruct (statistics_update (rt s)) as [|[]]; [done|]. by simplify_eq.
  - unfold lru_gc in Hh. destruct (ec_notify_get now _ (instances (rt s))) as [[o l] c] eqn:E. simpl in Hh.
    eapply (ec_holds_notify_get now). by rewrite E.
Qed.

(** What one execution of a spawn adds to the tables *)
Lemma in_table_spawn net p client a c b cl reply cl' :
  host_spawn net p client a c b cl = (reply, cl') → choice_ok p cl →
  proxy cl' = proxy cl ∧
  (∀ k, generated (hosts cl k) ⊆ generated (hosts cl' k)) ∧
  (∀ n x, started cl !! n = Some x → started cl' !! n = Some x) ∧
  (∀ k h v, in_table cl' k h v → in_table cl k h v ∨
     k = host_of client ∧ h = sp_handle p ∧ h ∈ generated (hosts cl' k) ∧
     started cl !! handle v = None ∧ started cl' !! handle v = Some {| code_app := a; code_config := c; code_bundle := b |}) ∧
  (∀ h, reply = Ok (Ok h) → h = sp_handle p ∧ h ∈ generated (hosts cl' (host_of client))).
Proof.
  unfold host_spawn. intros Hs [Hfresh Hnew].

  destruct (spawn (sp_now p) (sp_handle p) (sp_cell p) (sp_start p a c b) (rt (hosts cl (host_of client)))) as [rep rt'] eqn:Esp.
  match type of Hs with
  | match _ with Delivered => (_, ?x) | Lost _ _ => _ end = _ => set (cl1 := x) in *
  end.
  assert (H1 : (∀ k, generated (hosts cl k) ⊆ generated (hosts cl1 k)) ∧
    (∀ n x, started cl !! n = Some x → started cl1 !! n = Some x) ∧
    (∀ k h v, in_table cl1 k h v → in_table cl k h v ∨
       k = host_of client ∧ h = sp_handle p ∧ h ∈ generated (hosts cl1 k) ∧
       started cl !! handle v = None ∧ started cl1 !! handle v = Some {| code_app := a; code_config := c; code_bundle := b |}) ∧
    (∀ h, rep = Ok h → h = sp_handle p ∧ h ∈ generated (hosts cl1 (host_of client)))).
  { unfold cl1, in_table. simpl. split_and!.
    - intros k. destruct (decide (k = host_of client)) as [->|Hne]; [rewrite fn_lookup_insert; simpl; set_solver|by rewrite fn_lookup_insert_ne].
    - intros n x Hn. destruct (sp_start p a c b) as [[n'|]|] eqn:Est; try done.
      rewrite lookup_insert_ne; [done|]. intros ->. by rewrite (Hnew _ _ _ _ Est) in Hn.
    - intros k h v Hh. destruct (decide (k = host_of client)) as [->|Hne]; [|rewrite fn_lookup_insert_ne in Hh by done; by left].
      rewrite fn_lookup_insert in *. simpl in *. unfold spawn in Esp.
      destruct (sp_start p a c b) as [[n|e]|] eqn:Est; simplify_eq/=; [|by left..].
      apply ec_holds_insert in Hh as [[-> ->]|[_ Hh]]; [right|by left]. simpl.
      split_and!; [done|done|set_solver|by eapply Hnew|by rewrite lookup_insert_eq].
    - intros h ->. unfold spawn in Esp. rewrite fn_lookup_insert. simpl.
      destruct (sp_start p a c b) as [[n|e]|]; simplify_eq. set_solver. }
  destruct H1 as (Hg & Hst & Htab & Hrep). destruct net as [|e []]; simplify_eq; (split; [done|]).
  - split_and!; [done..|]. intros h [= ->]. by apply Hrep.
  - by split_and!.
  - split_and!; [done..| |done]. intros k h v Hh. by left.
Qed.
(** ** Preservation *)
Lemma cluster_ok_shrink sys0 cl cl' :
  cluster_ok sys0 cl → rtc step (proxy cl) (proxy cl') → origin (proxy cl') = origin (proxy cl) →
  started cl' = started cl → (∀ k, generated (hosts cl' k) = generated (hosts cl k)) →
  (∀ k h v, in_table cl' k h v → in_table cl k h v) → cluster_ok sys0 cl'.
Proof.
  intros Hok Hrun Ho Hst Hg Ht. split.
  - by etrans; [apply Hok|].
  - rewrite Ho. intros h app [k Hk]%(k_origin _ _ Hok). exists k. by rewrite Hg.
  - intros k h v Hv%Ht%(k_generated _ _ Hok). by rewrite Hg.
  - intros k h v Hv%Ht. rewrite Ho, Hst. by eapply k_code.
  - intros k h v k' h' v' Hv%Ht Hv'%Ht. by eapply k_inj.
Qed.

(** A spawn whose handle the proxy does not come to know *)
Lemma cluster_ok_spawn sys0 net p client a c b cl reply cl' :
  host_spawn net p client a c b cl = (reply, cl') → choice_ok p cl → cluster_ok sys0 cl →
  cluster_ok sys0 cl' ∧ origin (proxy cl) !! sp_handle p = None.
Proof.
  intros Hs Hch Hok. pose proof Hch as [Hfresh _].
  destruct (in_table_spawn _ _ _ _ _ _ _ _ _ Hs Hch) as (Hp & Hg & Hst & Ht & _).
  assert (Hnew : origin (proxy cl) !! sp_handle p = None).
  { apply eq_None_not_Some. intros [app [k Hk]%(k_origin _ _ Hok)]. by apply (Hfresh k). }
  split; [|done]. split; rewrite ?Hp.
  - apply Hok.
  - intros h app [k Hk]%(k_origin _ _ Hok). exists k. by apply Hg.
  - intros k h v [Hv%(k_generated _ _ Hok)|(-> & _ & Hh & _)]%Ht; [by apply Hg|done].
  - intros k h v [Hv|(_ & -> & _ & _ & Hx)]%Ht.
    + destruct (k_code _ _ Hok _ _ _ Hv) as (x & Hx & Happ). exists x. split; [by apply Hst|done].
    + eexists. split; [done|]. intros app. by rewrite Hnew.
  - assert (Hdiff : ∀ k h v v', in_table cl k h v → started cl !! handle v' = None → handle v ≠ handle v').
    { intros k h v v' (x & Hx & _)%(k_code _ _ Hok) Hn Heq. rewrite Heq in Hx. congruence. }
    intros k h v k' h' v' [Hv|(_ & -> & _ & Hn & _)]%Ht [Hv'|(_ & -> & _ & Hn' & _)]%Ht Heq; [|exfalso..|done].
    + by eapply (k_inj _ _ Hok).
    + by eapply (Hdiff k h v v').
    + by eapply (Hdiff k' h' v' v).
Qed.

Lemma cluster_ok_hold sys0 cl app inst :
  cluster_ok sys0 cl → app ∈ known (proxy cl) → origin (proxy cl) !! inst_handle inst = None →
  (∃ k, inst_handle inst ∈ generated (hosts cl k)) →
  (∀ k v, in_table cl k (inst_handle inst) v → started cl !! handle v = Some (code_of app)) →
  cluster_ok sys0 (set_proxy (hold app inst (proxy cl)) cl).
Proof.
  intros Hok Happ Hnew Hgen Hcode. split; simpl.
  - eapply rtc_r; [apply Hok|]. by apply Ownership.step_spawn.
  - intros h app' [[<- _]|[_ Ho]]%lookup_insert_Some; [done|]. by eapply (k_origin _ _ Hok).
  - apply Hok.
  - intros k h v Hv. change (in_table cl k h v) in Hv.
    destruct (k_code _ _ Hok _ _ _ Hv) as (x & Hx & Ho). exists x. split; [done|].
    intros app' [[<- <-]|[_ ?]]%lookup_insert_Some; [|by apply Ho].
    rewrite (Hcode _ _ Hv) in Hx. congruence.
  - apply Hok.
Qed.

Lemma cluster_step_ok sys0 cl cl' : cluster_step cl cl' → cluster_ok sys0 cl → cluster_ok sys0 cl'.
Proof.
  intros Hstep Hok. destruct Hstep as [sys' Hs Ho|k s' Hs Hg|net p rtid client now app Happ Hch].
  - eapply cluster_ok_shrink; [exact Hok|by apply rtc_once|done..].
  - eapply cluster_ok_shrink; [exact Hok|done..| |]; unfold set_host, in_table; simpl; intros k'.
    + destruct (decide (k' = k)) as [->|?]; [by rewrite fn_lookup_insert|by rewrite fn_lookup_insert_ne].
    + intros h v. destruct (decide (k' = k)) as [->|?]; [|by rewrite fn_lookup_insert_ne].
      rewrite fn_lookup_insert. by apply runtime_step_shrinks.
  - unfold proxy_spawn. destruct (host_spawn _ _ _ _ _ _ _) as [reply cl1] eqn:Es.
    destruct (cluster_ok_spawn _ _ _ _ _ _ _ _ _ _ Es Hch Hok) as [Hok1 Hnew].
    destruct (in_table_spawn _ _ _ _ _ _ _ _ _ Es Hch) as (Hp & _ & _ & Ht & Hrep).
    destruct reply as [[h|]|]; [|done..]. destruct (Hrep h eq_refl) as [-> Hgen].
    apply cluster_ok_hold; rewrite ?Hp; [done..|by eexists|]. simpl. intros k v [Hv|(_ & _ & _ & _ & Hx)]%Ht; [|done].
    exfalso. destruct Hch as [Hf _]. by apply (Hf k), (k_generated _ _ Hok _ _ v).
Qed.

Lemma cluster_initial_ok cl : cluster_initial cl → cluster_ok (proxy cl) cl.
Proof.
  intros ((_ & _ & _ & _ & Ho) & Hh & Hs).
  assert (Ht : ∀ k h v, ¬ in_table cl k h v).
  { intros k h v. unfold in_table. destruct (Hh k) as (rng & conf & ->). apply ec_holds_new. }
  split; [done|..]; intros * Hv; exfalso; [by rewrite Ho, lookup_empty in Hv|by eapply Ht..].
Qed.
Lemma cluster_reachable_ok cl0 cl : cluster_initial cl0 → rtc cluster_step cl0 cl → cluster_ok (proxy cl0) cl.
Proof. intros Hi Hs. eapply (rtc_invariant cluster_step); [apply cluster_step_ok|exact Hs|by apply cluster_initial_ok]. Qed.

(** ** [get_instance] against the runtimes is made of these steps *)
Lemma host_spawn_proxy net p client a c b cl : proxy (host_spawn net p client a c b cl).2 = proxy cl.
Proof. unfold host_spawn. destruct (spawn _ _ _ _ _). by destruct net as [|? []]. Qed.

Lemma get_instance_cluster {Distribution} (weighted_index_new : Datatypes.list Z → option Distribution) sample
    net p clock now rng app cl r s' :
  app ∈ known (proxy cl) → choice_ok p cl →
  get_instance weighted_index_new sample (λ client a c b, (host_spawn net p client a c b cl).1)
    clock now rng app (sched (proxy cl)) = (r, s') →
  ∃ cl', rtc cluster_step cl cl' ∧ sched (proxy cl') = s' ∧
    match r with
    | Ok inst => held (proxy cl') = (app, inst) :: held (proxy cl)
    | Err _ => held (proxy cl') = held (proxy cl)
    end.
Proof.
  intros Happ Hch. unfold get_instance. set (s1 := gc_ready_instances clock app (sched (proxy cl))).
  set (cl1 := set_proxy (with_sched s1 (proxy cl)) cl).
  assert (H1 : cluster_step cl cl1) by (apply cl_proxy; [by apply step_gc|done]).
  destruct (pop_ready now app s1) as [[inst s2]|] eqn:Ep.
  { intros [= <- <-].
    exists (set_proxy {| sched := s2; known := known (proxy cl); held := (app, inst) :: held (proxy cl);
                         origin := origin (proxy cl) |} cl1).
    split; [|done]. eapply rtc_l; [exact H1|]. apply rtc_once, cl_proxy; [|done].
    exact (step_pop (proxy cl1) now app inst s2 Happ Ep). }
  intros [= Hr <-]. destruct (choose_runtime _ _ _ _) as [[rtid rst]|e]; simpl in Hr.
  2: { subst r. exists cl1. split; [by apply rtc_once|done]. }
  exists (proxy_spawn net p rtid (rt_client rst) now app cl1). split.
  { eapply rtc_l; [exact H1|]. apply rtc_once. by apply cl_spawn. }
  assert (Hsame : (host_spawn net p (rt_client rst) (app_id (state_id app)) (state_config app) (state_bundle app) cl).1 =
                  (host_spawn net p (rt_client rst) (app_id (state_id app)) (state_config app) (state_bundle app) cl1).1).
  { unfold host_spawn, cl1. simpl. destruct (spawn _ _ _ _ _). by destruct net. }
  rewrite Hsame in Hr. unfold proxy_spawn.
  pose proof (host_spawn_proxy net p (rt_client rst) (app_id (state_id app)) (state_config app) (state_bundle app) cl1) as Hp.
  destruct (host_spawn _ _ _ _ _ _ cl1) as [[[h|e]|e] cl2]; simpl in *; subst r; simpl; by rewrite Hp.
Qed.

(** ** Isolation *)

(** A request that gets through is answered by the instance its worker's handle leads to. *)
Lemma host_fetch_answered net now sent answer inst cl res :
  (host_fetch net now sent answer inst cl).1 = Ok (Ok res) →
  ∃ v, in_table cl (host_of (inst_client inst)) (inst_handle inst) v ∧ answer (handle v) = Some (Ok res).
Proof.
  unfold host_fetch, fetch, in_table.
  destruct (ec_get now (inst_handle inst) _) as [found c] eqn:Eg. destruct net; [|done]. simpl.
  destruct found as [v|]; [|done]. intros [= Hf]. exists v. split; [by eapply (ec_get_holds now); rewrite Eg|].
  unfold InstanceHandle_fetch in Hf. simpl in Hf. destruct (sent (handle v)); [|done].
  destruct (answer (handle v)) as [[|]|]; naive_solver.
Qed.

Lemma cluster_ok_owned sys0 cl : cluster_ok sys0 cl → initial sys0 → owned (proxy cl).
Proof. intros Hok Hi. eapply (rtc_invariant step); [apply step_owned|apply Hok|by apply initial_owned]. Qed.

Lemma host_fetch_own_code (answers : code → ResponseObject → Prop) sys0 cl app inst net now sent answer res :
  cluster_ok sys0 cl → owned (proxy cl) → (app, inst) ∈ held (proxy cl) →
  (∀ n x, started cl !! n = Some x → ∀ res, answer n = Some (Ok res) → answers x res) →
  (host_fetch net now sent answer inst cl).1 = Ok (Ok res) → answers (code_of app) res.
Proof.
  intros Hok Ho Hheld Hans (v & Hv & Ha)%host_fetch_answered.
  destruct (k_code _ _ Hok _ _ _ Hv) as (x & Hx & Happ).
  destruct (owned_held _ Ho _ _ Hheld) as [_ Horig]. rewrite <-(Happ app Horig). by eapply Hans.
Qed.

(** C4. However requests, spawns, calls that get lost before or after they were executed,
    time-outs and evictions of any number of runtimes interleave, the proxy only does what
    [Ownership] allows it to; a request that is answered is answered by a worker that was
    started with the bundle and the configuration of the app the request is for; and two
    requests under way are never with the same instance of any runtime. *)
Theorem cluster_isolation (answers : code → ResponseObject → Prop) cl0 cl :
  cluster_initial cl0 → rtc cluster_step cl0 cl →
  rtc step (proxy cl0) (proxy cl) ∧
  (∀ app inst net now sent answer res,
     (app, inst) ∈ held (proxy cl) →
     (∀ n x, started cl !! n = Some x → ∀ res, answer n = Some (Ok res) → answers x res) →
     (host_fetch net now sent answer inst cl).1 = Ok (Ok res) → answers (code_of app) res) ∧
  ∀ i j app app' inst inst' v v',
    held (proxy cl) !! i = Some (app, inst) → held (proxy cl) !! j = Some (app', inst') →
    in_table cl (host_of (inst_client inst)) (inst_handle inst) v →
    in_table cl (host_of (inst_client inst')) (inst_handle inst') v' →
    handle v = handle v' → i = j.
Proof.
  intros Hi Hs. pose proof (cluster_reachable_ok _ _ Hi Hs) as Hok.
  pose proof (cluster_ok_owned _ _ Hok (proj1 Hi)) as Ho. split; [apply Hok|]. split.
  - intros. by eapply host_fetch_own_code.
  - intros i j app app' inst inst' v v' Hi' Hj Hv Hv' Heq.
    pose proof (k_inj _ _ Hok _ _ _ _ _ _ Hv Hv' Heq) as Hh.
    pose proof (owned_nodup _ Ho) as Hnd. unfold reach in Hnd. rewrite !fmap_app in Hnd.
    apply NoDup_app in Hnd as (_ & _ & Hnd). apply NoDup_app in Hnd as (Hnd & _ & _).
    eapply (NoDup_lookup _ i j); [exact Hnd|..]; rewrite !list_lookup_fmap; [by rewrite Hi'|].
    rewrite Hj. simpl. by rewrite Hh.
Qed.
End cluster.

(** ** A run: two apps on one runtime; the answer to the first spawn is lost *)
Module ClusterRun.
Definition host_of (client : RuntimeServiceClient) : nat := 0.
Definition app (id : string) (l : positive) : AppState :=
  {| state_id := {| app_id := id |}; state_config := Run.wc; state_bundle_id := id; state_bundle := [];
     ready_instances := l; start_time := 0 |}.
Definition a : AppState := app "a" 1.
Definition b : AppState := app "b" 2.
Definition choice (h : string) (n : nat) : spawn_choice :=
  {| sp_now := 0; sp_handle := {| handle_id := h |}; sp_cell := n; sp_start _ _ _ := Some (Ok n) |}.
Definition rtid : RuntimeId := {| runtime_id := "r" |}.
Definition client : RuntimeServiceClient := {| connection := 1 |}.

Definition c0 : cluster (CP := LruList.cache) (CR := LruList.cache) :=
  {| proxy := Run.sys0; hosts _ := history_init rtid RuntimeRun.conf; started := ∅ |}.
Definition load (x : AppState) (cl : cluster (CP := LruList.cache) (CR := LruList.cache)) : cluster :=
  set_proxy {| sched := (new_deque (sched (proxy cl))).2; known := x :: known (proxy cl);
               held := held (proxy cl); origin := origin (proxy cl) |} cl.
Definition c1 : cluster := load a c0.
Definition c2 : cluster := load b c1.
Definition c3 : cluster := proxy_spawn host_of (Lost "timeout" true) (choice "1" 1) rtid client 5 a c2.
Definition c4 : cluster := proxy_spawn host_of Delivered (choice "2" 2) rtid client 6 a c3.
Definition c5 : cluster := proxy_spawn host_of Delivered (choice "3" 3) rtid client 7 b c4.

Lemma load_step x (cl : cluster) :
  (new_deque (sched (proxy cl))).1 = ready_instances x → cluster_step host_of cl (load x cl).
Proof.
  intros Hx. apply cl_proxy; [|done]. apply (step_load (proxy cl) x).
  destruct (new_deque (sched (proxy cl))). simpl in *. by subst.
Qed.

Ltac fresh_choice :=
  split; [intros [|k]; (apply (bool_decide_unpack _); vm_compute; exact I)|intros ? ? ? ? [= <-]; vm_compute; reflexivity].

Lemma cluster_run : rtc (cluster_step host_of) c0 c5.
Proof.
  eapply rtc_l; [exact (load_step a c0 eq_refl)|]. eapply rtc_l; [exact (load_step b c1 eq_refl)|].
  assert (Ha : a ∈ [b; a]) by (right; by left).
  eapply rtc_l; [apply (cl_spawn host_of c2 (Lost "timeout" true) (choice "1" 1) rtid client 5 a Ha); fresh_choice|].
  eapply rtc_l; [apply (cl_spawn host_of c3 Delivered (choice "2" 2) rtid client 6 a Ha); fresh_choice|].
  apply rtc_once. apply (cl_spawn host_of c4 Delivered (choice "3" 3) rtid client 7 b); [by left|fresh_choice].
Qed.

(** A worker says which app it runs. *)
Definition page (id : string) : ResponseObject :=
  {| res_headers := []; res_status := 200; res_body := Binary (String.list_byte_of_string id) |}.
Definition answer (n : nat) : option (ExecutionResult ResponseObject) :=
  (λ x, Ok (page (code_app x))) <$> started c5 !! n.
End ClusterRun.

Example cluster_isolation_holds :
  cluster_initial ClusterRun.c0 ∧ rtc (cluster_step ClusterRun.host_of) ClusterRun.c0 ClusterRun.c5 ∧
  (length (held (proxy ClusterRun.c5)), dom (started ClusterRun.c5)) = (2%nat, {[1; 2; 3]}%nat) ∧
  (λ x, (host_fetch ClusterRun.host_of Delivered 9 (λ _, true) ClusterRun.answer x.2 ClusterRun.c5).1) <$>
    held (proxy ClusterRun.c5) = [Ok (Ok (ClusterRun.page "b")); Ok (Ok (ClusterRun.page "a"))] ∧
  ∀ app inst res, (app, inst) ∈ held (proxy ClusterRun.c5) →
    (host_fetch ClusterRun.host_of Delivered 9 (λ _, true) ClusterRun.answer inst ClusterRun.c5).1 = Ok (Ok res) →
    res = ClusterRun.page (app_id (state_id app)).
Proof.
  assert (Hi : cluster_initial ClusterRun.c0).
  { split; [done|]. split; [|done]. intros k. by exists ClusterRun.rtid, RuntimeRun.conf. }
  split; [exact Hi|]. split; [exact ClusterRun.cluster_run|]. split; [vm_compute; reflexivity|].
  split; [vm_compute; reflexivity|]. intros app inst res Hin.
  apply (cluster_isolation ClusterRun.host_of (λ x res, res = ClusterRun.page (code_app x)) _ _ Hi ClusterRun.cluster_run).
  - exact Hin.
  - intros n x Hx res'. unfold ClusterRun.answer. rewrite Hx. intros [= <-]. reflexivity.
Defined.
