(* ===== verification/Request.v ===== *)
(** * One request among everything else

    The retry loop of [handle_request] as a process: between any two of the locks it takes
    and the calls it makes, other requests, the tasks of the proxy and the runtimes of
    [Cluster] go on.  What the client gets in the end is an answer of the code of its app. *)
From Stdlib Require Import ZArith Lia.
From stdpp Require Import functions.
From S2P Require Import Prelude BTree Float64 Types Db Lru Sched Proxy ProxyFacts Ownership Interface Executor Runtime RuntimeServer Cluster.
Local Open Scope Z_scope.

Section request.
Context {HH : Http} {CP : Type → Type → Type} {HP : LruCache CP}.
Context {CR : Type → Type → Type} {HR : ExpiringCache CR}.
Context (host_of : RuntimeServiceClient → nat).
Context {Distribution : Type} (weighted_index_new : Datatypes.list Z → option Distribution)
        (sample : Distribution → Z → nat).
(** the app of the request, the request for the backend, and what a worker that runs some
    code may answer to it *)
Context (app : AppState) (target : RequestObject) (answers : code → RequestObject → ResponseObject → Prop).

Abbreviation reply := (RpcResult (ExecutionResult ResponseObject)).
Abbreviation outcome := (result ProxyError Response).
Abbreviation cluster := (cluster (CP := CP) (CR := CR)).

(** Where the loop is; [n] attempts are left after the present one *)
Inductive phase :=
  | Trying (n : nat)
  | Collected (n : nat)                              (* the pool is collected *)
  | Spawning (n : nat)                               (* the pool was empty *)
  | Asking (n : nat) (inst : ReadyInstance)
  | Answered (n : nat) (inst : ReadyInstance) (r : reply)
  | Pooling (r : outcome) (inst : ReadyInstance)
  | Collecting (r : outcome)
  | Done (r : outcome).

(** The instance the request holds *)
Definition holds (ph : phase) : option ReadyInstance :=
  match ph with Asking _ inst | Answered _ inst _ | Pooling _ inst => Some inst | _ => None end.

(** What becomes of an answer: the loop goes on or is over, and the instance is pooled or
    dropped. *)
Definition settle (n : nat) (inst : ReadyInstance) (r : reply) (s : Scheduler CP) : Scheduler CP * phase :=
  match r with
  | Err _ => (set_clients (bt_remove (inst_rtid inst)) s, Trying n)
  | Ok (Err NoSuchWorker) => (s, Trying n)
  | Ok (Err e) =>
      let r := Err (Sched RequestFailedAfterRetries) in
      (s, if terminates_worker e then Done r else Pooling r inst)
  | Ok (Ok res) => (s, Pooling (build_reply res) inst)
  end.

Definition set_sched (s : Scheduler CP) (cl : cluster) : cluster := set_proxy (with_sched s (proxy cl)) cl.
Definition set_held (s : Scheduler CP) (h : Datatypes.list (AppState * ReadyInstance)) (cl : cluster) : cluster :=
  set_proxy {| sched := s; known := known (proxy cl); held := h; origin := origin (proxy cl) |} cl.

(** What a step of the request takes from outside: readings of the clock, random numbers and
    the replies to its calls *)
Inductive own_event :=
  | EvNone
  | EvClock (clock : nat → Z)
  | EvPop (now : Z)
  | EvRandom (rng : Z)
  | EvSpawn (rng now : Z) (client : RuntimeServiceClient) (spawned : RpcResult (GenericResult WorkerHandle))
  | EvFetch (inst : ReadyInstance) (r : reply)
  | EvSample (x : f32)
  | EvPoolClock (clock : nat → Z).

(** The steps of the request itself *)
Inductive own_step (cl : cluster) : phase → own_event → cluster * phase → Prop :=
  | own_exhausted :
      own_step cl (Trying 0) EvNone (cl, Done (Err (Sched RequestFailedAfterRetries)))
  | own_collect clock n :
      own_step cl (Trying (S n)) (EvClock clock) (set_sched (gc_ready_instances clock app (sched (proxy cl))) cl, Collected n)
  | own_pop now n inst s :
      pop_ready now app (sched (proxy cl)) = Some (inst, s) →
      own_step cl (Collected n) (EvPop now) (set_held s ((app, inst) :: held (proxy cl)) cl, Asking n inst)
  | own_empty n :
      pop_ready 0 app (sched (proxy cl)) = None → own_step cl (Collected n) EvNone (cl, Spawning n)
  | own_no_runtime n rng e :
      choose_runtime weighted_index_new sample rng (clients (sched (proxy cl))) = Err e →
      own_step cl (Spawning n) (EvRandom rng) (cl, Done (Err e))
  | own_spawn n rng rtid rst net p now :
      choose_runtime weighted_index_new sample rng (clients (sched (proxy cl))) = Ok (rtid, rst) →
      choice_ok p cl →
      let spawned := host_spawn host_of net p (rt_client rst) (app_id (state_id app)) (state_config app)
                       (state_bundle app) cl in
      own_step cl (Spawning n) (EvSpawn rng now (rt_client rst) spawned.1)
        (proxy_spawn host_of net p rtid (rt_client rst) now app cl,
         match spawned.1 with
         | Ok (Ok h) => Asking n {| inst_rtid := rtid; last_active := now; inst_handle := h; inst_client := rt_client rst |}
         | Ok (Err e) => Done (Err (Sched.Spawn e))
         | Err e => Done (Err (Rpc e))
         end)
  | own_ask n inst net now sent answer :
      (∀ k x, started cl !! k = Some x → ∀ res, answer k = Some (Ok res) → answers x target res) →
      let asked := host_fetch host_of net now sent answer inst cl in
      own_step cl (Asking n inst) (EvFetch inst asked.1) (asked.2, Answered n inst asked.1)
  | own_settle n inst r l1 l2 :
      held (proxy cl) = l1 ++ (app, inst) :: l2 →
      let settled := settle n inst r (sched (proxy cl)) in
      own_step cl (Answered n inst r) EvNone
        (set_held settled.1 (match settled.2 with Pooling _ _ => held (proxy cl) | _ => l1 ++ l2 end) cl, settled.2)
  | own_push r inst l1 l2 x :
      held (proxy cl) = l1 ++ (app, inst) :: l2 → f64_gt x (dropout_rate (local_config (sched (proxy cl)))) = true →
      own_step cl (Pooling r inst) (EvSample x) (set_held (push_ready app inst (sched (proxy cl))) (l1 ++ l2) cl, Collecting r)
  | own_drop_out r inst l1 l2 x :
      held (proxy cl) = l1 ++ (app, inst) :: l2 → f64_gt x (dropout_rate (local_config (sched (proxy cl)))) = false →
      let s := sched (proxy cl) in
      own_step cl (Pooling r inst) (EvSample x)
        (set_held (set_pools (try_send inst (terminate_queue s)) (ready_store s) s) (l1 ++ l2) cl, Collecting r)
  | own_collect_after r clock :
      own_step cl (Collecting r) (EvPoolClock clock) (set_sched (gc_ready_instances clock app (sched (proxy cl))) cl, Done r).

(** Meanwhile everything else happens, except that nobody takes the instance away. *)
Inductive request_step : cluster * phase → cluster * phase → Prop :=
  | rs_own cl ph ev c : own_step cl ph ev c → request_step (cl, ph) c
  | rs_other cl cl' ph :
      cluster_step host_of cl cl' →
      (∀ inst, holds ph = Some inst → (app, inst) ∈ held (proxy cl) → (app, inst) ∈ held (proxy cl')) →
      request_step (cl, ph) (cl', ph).

(** ** The request does what [Cluster] allows *)
Implicit Types (cl : cluster).
Lemma cluster_step_known cl cl' : cluster_step host_of cl cl' → known (proxy cl) ⊆ known (proxy cl').
Proof.
  intros [sys' Hs _|k s' _ _|net p rtid client now a _ _]; simpl; [|done|].
  - destruct Hs; simpl; try done. set_solver.
  - unfold proxy_spawn.
    pose proof (host_spawn_proxy host_of net p client (app_id (state_id a)) (state_config a) (state_bundle a) cl) as Hp.
    destruct (host_spawn _ _ _ _ _ _ _ _) as [[[h|]|] cl1]; simpl in *; by rewrite Hp.
Qed.

Lemma cl_quiet sys (cl : cluster) : step (proxy cl) sys → origin sys = origin (proxy cl) → cluster_step host_of cl (set_proxy sys cl).
Proof. apply cl_proxy. Qed.

Lemma set_proxy_same (cl : cluster) : set_proxy (proxy cl) cl = cl.
Proof. by destruct cl. Qed.

Lemma host_fetch_steps net now sent answer inst cl :
  rtc (cluster_step host_of) cl (host_fetch host_of net now sent answer inst cl).2 ∧
  proxy (host_fetch host_of net now sent answer inst cl).2 = proxy cl.
Proof.
  unfold host_fetch. set (k := host_of (inst_client inst)).
  pose proof (step_fetch (hosts cl k) now (inst_handle inst) sent answer) as Hf.
  destruct (fetch now (inst_handle inst) sent answer (rt (hosts cl k))) as [r rt'] eqn:E. simpl in Hf.
  assert (Hs : cluster_step host_of cl (set_host k {| rt := rt'; generated := generated (hosts cl k); removed := removed (hosts cl k) |} cl)).
  { apply cl_host; [exact Hf|done]. }
  destruct net as [|e []]; (split; [|done]); [by apply rtc_once..|done].
Qed.

Lemma settle_pools n inst r s :
  ready_store (settle n inst r s).1 = ready_store s ∧ terminate_queue (settle n inst r s).1 = terminate_queue s.
Proof. destruct r as [[res|[]]|e]; done. Qed.

Lemma settle_phase n inst r s :
  (settle n inst r s).2 = Trying n ∨ (∃ r', (settle n inst r s).2 = Done r') ∨ ∃ r', (settle n inst r s).2 = Pooling r' inst.
Proof. destruct r as [[res|[]]|e]; simpl; eauto. Qed.

Lemma own_step_cluster cl ph ev c :
  own_step cl ph ev c → app ∈ known (proxy cl) → (∀ inst, holds ph = Some inst → (app, inst) ∈ held (proxy cl)) →
  rtc (cluster_step host_of) cl c.1 ∧ ∀ inst, holds c.2 = Some inst → (app, inst) ∈ held (proxy c.1).
Proof.
  destruct 1 as [|clock n|now n inst s Hpop|n Hpop|n rng e Hc|n rng rtid rst net p now Hc Hch spawned
                |n inst net now sent answer Hans asked|n inst r l1 l2 Hh settled|r inst l1 l2 x Hh Hx|r inst l1 l2 x Hh Hx s|r clock];
    intros Happ Hheld; simpl; try done.
  - split; [|done]. apply rtc_once, cl_quiet; [by apply step_gc|done].
  - split; [|intros ? [= <-]; by left]. apply rtc_once, cl_quiet; [exact (step_pop _ now app inst s Happ Hpop)|done].
  - split; [apply rtc_once; by apply cl_spawn|]. subst spawned. unfold proxy_spawn.
    destruct (host_spawn _ _ _ _ _ _ _ _) as [[[h|]|] cl1]; simpl; intros ? [= <-]. by left.
  - destruct (host_fetch_steps net now sent answer inst cl) as [Hs Hp]. split; [done|].
    subst asked. rewrite Hp. exact Hheld.
  - destruct (settle_pools n inst r (sched (proxy cl))) as [Hr Hq]. fold settled in Hr, Hq.
    set (cl1 := set_sched settled.1 cl).
    assert (H1 : cluster_step host_of cl cl1) by (apply cl_quiet; [by apply step_tables|done]).
    assert (H2 : cluster_step host_of cl1 (set_held settled.1 (l1 ++ l2) cl)).
    { exact (cl_quiet _ cl1 (step_abandon (proxy cl1) app inst l1 l2 Hh) eq_refl). }
    pose proof (settle_phase n inst r (sched (proxy cl))) as Hph. fold settled in Hph.
    destruct Hph as [-> |[[r' ->]|[r' ->]]]; simpl; [split; [by eapply rtc_l, rtc_once|done]..|].
    split; [by apply rtc_once|exact Hheld].
  - split; [|done]. apply rtc_once, cl_quiet; [exact (step_push _ app inst l1 l2 Hh)|done].
  - split; [|done]. apply rtc_once, cl_quiet; [exact (step_drop_out _ app inst l1 l2 Hh)|done].
  - split; [|done]. apply rtc_once, cl_quiet; [by apply step_gc|done].
Qed.

(** ** What the client gets *)

(** A response that is made of an answer of the app's own code *)
Definition served (r : outcome) : Prop :=
  ∀ response, r = Ok response → ∃ res, answers (code_of app) target res ∧ build_reply res = Ok response.

Definition phase_ok (ph : phase) : Prop :=
  match ph with
  | Answered _ _ r => ∀ res, r = Ok (Ok res) → answers (code_of app) target res
  | Pooling r _ | Collecting r | Done r => served r
  | _ => True
  end.

Record request_ok (sys0 : system (C := CP)) (c : cluster * phase) : Prop := {
  q_cluster : cluster_ok sys0 c.1;
  q_known : app ∈ known (proxy c.1);
  q_held inst : holds c.2 = Some inst → (app, inst) ∈ held (proxy c.1);
  q_phase : phase_ok c.2;
}.

Lemma served_Err e : served (Err e).
Proof. by intros response. Qed.

Lemma settle_served n inst r s : phase_ok (Answered n inst r) → phase_ok (settle n inst r s).2.
Proof.
  intros Hr. destruct r as [[res|[]]|e]; simpl; try apply served_Err; [|done..].
  intros response Hb. exists res. split; [by apply Hr|done].
Qed.

Lemma own_step_phase_ok sys0 cl ph ev c :
  initial sys0 → own_step cl ph ev c → request_ok sys0 (cl, ph) → phase_ok c.2.
Proof.
  intros Hi Hstep [Hok Happ Hheld Hph]. simpl in *.
  destruct Hstep as [|clock n|now n inst s Hpop|n Hpop|n rng e Hc|n rng rtid rst net p now Hc Hch spawned
                |n inst net now sent answer Hans asked|n inst r l1 l2 Hh settled|r inst l1 l2 x Hh Hx|r inst l1 l2 x Hh Hx s|r clock];
    simpl; try done; try apply served_Err.
  - destruct spawned.1 as [[h|e]|e]; simpl; [done|apply served_Err..].
  - intros res Hr. eapply (host_fetch_own_code host_of (λ x, answers x target)); [exact Hok| | |exact Hans|exact Hr].
    + by eapply cluster_ok_owned.
    + by apply Hheld.
  - by apply settle_served.
Qed.

Lemma request_step_ok sys0 c c' : initial sys0 → request_step c c' → request_ok sys0 c → request_ok sys0 c'.
Proof.
  intros Hi Hstep Hq. destruct Hstep as [cl ph ev c Hown|cl cl' ph Hstep Hkeep].
  - destruct (own_step_cluster cl ph ev c Hown (q_known _ _ Hq) (q_held _ _ Hq)) as [Hs Hheld]. split; [| |done|].
    + eapply (rtc_invariant (cluster_step host_of)); [apply cluster_step_ok|exact Hs|apply Hq].
    + assert (Hk : known (proxy cl) ⊆ known (proxy c.1)).
      { clear -Hs. induction Hs as [|a b d H _ IH]; [done|]. etrans; [by apply cluster_step_known|done]. }
      apply Hk, Hq.
    + by eapply own_step_phase_ok.
  - split; simpl.
    + eapply cluster_step_ok; [done|apply Hq].
    + apply (cluster_step_known _ _ Hstep), Hq.
    + intros inst Hi'. apply Hkeep; [done|]. by apply (q_held _ _ Hq).
    + apply Hq.
Qed.

(** C3. The answer to a client comes from the code of its app: however the attempts of a
    request interleave with other requests, with the tasks of the proxy and with any number
    of runtimes that lose calls, drop workers and start others, a response that the loop
    ends with is built from what a worker answered that was started with the bundle and
    the configuration of the app of the request. *)
Theorem request_served_by_own_code cl0 cl cl' response :
  cluster_initial cl0 → rtc (cluster_step host_of) cl0 cl → app ∈ known (proxy cl) →
  rtc request_step (cl, Trying max_attempts) (cl', Done (Ok response)) →
  ∃ res, answers (code_of app) target res ∧ build_reply res = Ok response.
Proof.
  intros Hi Hs Happ Hrun. pose proof (proj1 Hi) as Hi0.
  assert (Hq : request_ok (proxy cl0) (cl', Done (Ok response))).
  { eapply (rtc_invariant request_step); [intros ? ?; by apply request_step_ok|exact Hrun|].
    split; [by eapply cluster_reachable_ok|done|done|done]. }
  by apply (q_phase _ _ Hq).
Qed.

(** ** Alone, the process is the loop of [Proxy.attempts] *)


(** In the environment [E] a step of attempt [i] hears what [E] has for that attempt. *)
Definition heard (E : Environment) (i : nat) (ev : own_event) : Prop :=
  match ev with
  | EvNone => True
  | EvClock clock => clock = get_clock E i
  | EvPop now => now = Proxy.now E i
  | EvRandom rng => rng = Proxy.rng E i
  | EvSpawn rng now client spawned =>
      rng = Proxy.rng E i ∧ now = Proxy.now E i ∧
      spawned = spawn_worker E i client (app_id (state_id app)) (state_config app) (state_bundle app)
  | EvFetch inst r => r = Proxy.fetch E i inst target
  | EvSample x => x = open01 E i
  | EvPoolClock clock => clock = pool_clock E i
  end.

Definition fetched (ev : own_event) : Datatypes.list (ReadyInstance * RequestObject) :=
  match ev with EvFetch inst _ => [(inst, target)] | _ => [] end.

(** The request alone in the environment [E], with the number of the attempt and the calls
    it has made *)
Inductive alone (E : Environment) : relation (nat * Datatypes.list (ReadyInstance * RequestObject) * (cluster * phase)) :=
  | alone_step i tr cl ph ev c :
      own_step cl ph ev c → heard E i ev →
      alone E (i, tr, (cl, ph)) (match c.2 with Trying _ => S i | _ => i end, tr ++ fetched ev, c).

Local Abbreviation attempts := (attempts weighted_index_new sample).

(** An attempt of [attempts] after its instance is found *)
Definition after_fetch (E : Environment) (n i : nat) (inst : ReadyInstance) (s : Scheduler CP) :=
  let call := (inst, target) in
  match Proxy.fetch E i inst target with
  | Err _ =>
      let '(r, s, tr) := attempts E n (S i) app target (set_clients (bt_remove (inst_rtid inst)) s) in (r, s, call :: tr)
  | Ok (Err NoSuchWorker) => let '(r, s, tr) := attempts E n (S i) app target s in (r, s, call :: tr)
  | Ok (Err e) =>
      (Err (Sched RequestFailedAfterRetries), if terminates_worker e then s else Proxy.pool E i app inst s, [call])
  | Ok (Ok res) => (build_reply res, Proxy.pool E i app inst s, [call])
  end.

Lemma attempts_S E n i (s : Scheduler CP) :
  attempts E (S n) i app target s =
  match get_instance weighted_index_new sample (spawn_worker E i) (get_clock E i) (Proxy.now E i) (rng E i) app s with
  | (Err e, s) => (Err e, s, [])
  | (Ok inst, s) => after_fetch E n i inst s
  end.
Proof. done. Qed.

Ltac peel H :=
  apply rtc_inv in H as [?|(? & Hst & H)]; [by simplify_eq|];
  inversion Hst as [? ? ? ? ? ? Hown Hh]; subst; clear Hst; inversion Hown; subst; clear Hown; simpl in Hh, H.

Lemma alone_done E i tr cl r j tr' cl' r' :
  rtc (alone E) (i, tr, (cl, Done r)) (j, tr', (cl', Done r')) → tr' = tr ∧ cl' = cl ∧ r' = r.
Proof. intros H. apply rtc_inv in H as [?|(? & Hst & _)]; [by simplify_eq|]. inversion Hst as [? ? ? ? ? ? Hown _]. inversion Hown. Qed.

(** The end of a request that pools its instance *)
Lemma alone_pooling E i tr cl r inst j tr' cl' r' :
  rtc (alone E) (i, tr, (cl, Pooling r inst)) (j, tr', (cl', Done r')) →
  tr' = tr ∧ sched (proxy cl') = Proxy.pool E i app inst (sched (proxy cl)) ∧ r' = r.
Proof.
  intros H. peel H; rename Hh into Hx; peel H; apply alone_done in H as (-> & -> & ->);
    rewrite !app_nil_r; (split; [done|]); subst; unfold Proxy.pool, pool_instance;
    match goal with Hx : f64_gt _ _ = _ |- _ => by rewrite Hx end.
Qed.

Lemma pop_ready_None now now' (s : Scheduler CP) : pop_ready now app s = None → pop_ready now' app s = None.
Proof. unfold pop_ready. by destruct (ready_of app s). Qed.

Lemma proxy_spawn_sched net p rtid client now cl :
  sched (proxy (proxy_spawn host_of net p rtid client now app cl)) = sched (proxy cl).
Proof.
  unfold proxy_spawn.
  pose proof (host_spawn_proxy host_of net p client (app_id (state_id app)) (state_config app) (state_bundle app) cl) as Hp.
  destruct (host_spawn _ _ _ _ _ _ _ _) as [[[h|]|] cl1]; simpl in *; by rewrite Hp.
Qed.

(** The part of an attempt after its instance is found *)
Lemma alone_asking E n i tr cl inst j tr' cl' r :
  (∀ i tr cl, rtc (alone E) (i, tr, (cl, Trying n)) (j, tr', (cl', Done r)) →
     ∃ calls, tr' = tr ++ calls ∧ attempts E n i app target (sched (proxy cl)) = (r, sched (proxy cl'), calls)) →
  rtc (alone E) (i, tr, (cl, Asking n inst)) (j, tr', (cl', Done r)) →
  ∃ calls, tr' = tr ++ calls ∧ after_fetch E n i inst (sched (proxy cl)) = (r, sched (proxy cl'), calls).
Proof.
  intros IH H. peel H. rewrite <-(proj2 (host_fetch_steps net now sent answer inst cl)). fold asked in Hh, H |- *.
  set (rep := asked.1) in *. set (cl1 := asked.2) in *. clearbody rep cl1. clear asked.
  rewrite Hh in H. clear Hh. peel H. unfold after_fetch. rewrite app_nil_r in H.
  assert (Hstop : ∀ x y z, (x, y, z) = (r, sched (proxy cl'), [(inst, target)]) → tr' = tr ++ [(inst, target)] →
            ∃ calls, tr' = tr ++ calls ∧ (x, y, z) = (r, sched (proxy cl'), calls)) by (intros; by eexists).
  assert (Hpooled : ∀ i' r' cl2, rtc (alone E) (i', tr ++ [(inst, target)], (cl2, Pooling r' inst)) (j, tr', (cl', Done r)) →
            i' = i → sched (proxy cl2) = sched (proxy cl1) →
            ∃ calls, tr' = tr ++ calls ∧
              (r', Proxy.pool E i app inst (sched (proxy cl1)), [(inst, target)]) = (r, sched (proxy cl'), calls)).
  { intros i' r' cl2 (-> & Hs & ->)%alone_pooling -> Hc. rewrite Hc in Hs. rewrite <-Hs. by apply Hstop. }
  destruct (Proxy.fetch E i inst target) as [[res|e]|e]; simpl in *.
  - by apply Hpooled in H.
  - destruct e; simpl in *;
      try (by apply Hpooled in H);
      try (apply alone_done in H as (-> & -> & ->); by apply Hstop).
    destruct (IH _ _ _ H) as (calls & -> & Ha). simpl in Ha. rewrite Ha. exists ((inst, target) :: calls). by rewrite <-app_assoc.
  - destruct (IH _ _ _ H) as (calls & -> & Ha). simpl in Ha. rewrite Ha. exists ((inst, target) :: calls). by rewrite <-app_assoc.
Qed.

Lemma alone_attempts E n i tr cl j tr' cl' r :
  rtc (alone E) (i, tr, (cl, Trying n)) (j, tr', (cl', Done r)) →
  ∃ calls, tr' = tr ++ calls ∧ attempts E n i app target (sched (proxy cl)) = (r, sched (proxy cl'), calls).
Proof.
  revert i tr cl. induction n as [|n IH]; intros i tr cl H.
  { peel H. apply alone_done in H as (-> & -> & ->). rewrite app_nil_r. exists []. by rewrite app_nil_r. }
  peel H. subst. rewrite app_nil_r in H. rewrite attempts_S. unfold get_instance. peel H.
  - subst. rewrite app_nil_r in H. simpl in *.
    match goal with Hp : pop_ready _ app _ = _ |- _ => rewrite Hp end.
    by apply (alone_asking E n i tr _ inst j) in H.
  - clear Hh. rewrite app_nil_r in H. simpl in *. rewrite pop_ready_None with (now := 0) by done. peel H.
    + subst. apply alone_done in H as (-> & -> & ->). exists []. split; [by rewrite !app_nil_r|].
      match goal with Hc : choose_runtime _ _ _ _ = _ |- _ => simpl in Hc; rewrite Hc end. done.
    + destruct Hh as (-> & -> & Hsp). rewrite app_nil_r in H. subst spawned.
      match goal with Hc : choose_runtime _ _ _ _ = _ |- _ => simpl in Hc; rewrite Hc end. simpl.
      rewrite <-Hsp. set (cl1 := set_sched _ cl) in *.
      pose proof (proxy_spawn_sched net p rtid (rt_client rst) (Proxy.now E i) cl1) as Hsch.
      destruct (host_spawn _ _ _ _ _ _ _ _).1 as [[h|e]|e]; simpl in *.
      * apply (alone_asking E n i tr _ _ j) in H; [|done]. by rewrite Hsch in H.
      * apply alone_done in H as (-> & -> & ->). exists []. by rewrite app_nil_r, Hsch.
      * apply alone_done in H as (-> & -> & ->). exists []. by rewrite app_nil_r, Hsch.
Qed.

(** C34. A request that nothing else interferes with is the retry loop of the model of
    [handle_request]: in any environment, that is for any readings of the clock, random
    numbers and replies of the runtimes at each attempt, a run of the process that hears
    them ends with the result and the scheduler that [attempts] computes from them, after
    the same calls. *)
Theorem request_alone_is_attempts E n cl j tr cl' r :
  rtc (alone E) (0%nat, [], (cl, Trying n)) (j, tr, (cl', Done r)) →
  attempts E n 0 app target (sched (proxy cl)) = (r, sched (proxy cl'), tr).
Proof. intros (calls & -> & Ha)%alone_attempts. exact Ha. Qed.
End request.

(** ** A run: while the request spawns its worker another app gets one. *)
Module RequestRun.
Import ClusterRun.
Abbreviation cluster := (cluster (CP := LruList.cache) (CR := LruList.cache)).
Definition widx (ws : Datatypes.list Z) : option (Datatypes.list Z) := Some ws.
Definition first (ws : Datatypes.list Z) (rng : Z) : nat := 0.
Definition answers (x : code) (req : RequestObject) (res : ResponseObject) : Prop := res = page (code_app x).
Definition req : RequestObject := RequestObject_default.

Abbreviation rstep := (request_step (HH := HttpList.http_list) host_of widx first a req answers).

Definition clock (n : nat) : Z := 8.
Definition e1 : cluster := set_sched (gc_ready_instances clock a (sched (proxy c2))) c2.
Definition e2 : cluster := proxy_spawn host_of Delivered (choice "5" 5) rtid client 7 b e1.
Definition e3 : cluster := proxy_spawn host_of Delivered (choice "6" 6) rtid client 8 a e2.
Definition inst : ReadyInstance :=
  {| inst_rtid := rtid; last_active := 8; inst_handle := {| handle_id := "6" |}; inst_client := client |}.
Definition answer (n : nat) : option (ExecutionResult ResponseObject) := (λ x, Ok (page (code_app x))) <$> started e3 !! n.
Definition e4 : cluster := (host_fetch host_of Delivered 9 (λ _, true) answer inst e3).2.
Definition e5 : cluster := set_held (sched (proxy e4)) (held (proxy e4)) e4.
Definition e6 : cluster :=
  set_held (set_pools (try_send inst (terminate_queue (sched (proxy e5)))) (ready_store (sched (proxy e5))) (sched (proxy e5)))
    (tail (held (proxy e5))) e5.
Definition e7 : cluster := set_sched (gc_ready_instances clock a (sched (proxy e6))) e6.
Definition response : Response (HH := HttpList.http_list) :=
  {| status := 200; response_headers := hm_insert (Http := HttpList.http_list) "server" (as_bytes "rworkers") (hm_empty (Http := HttpList.http_list)); response_body := String.list_byte_of_string "a" |}.

Lemma request_run : rtc rstep (c2, Trying 3) (e7, Done (Ok response)).
Proof.
  eapply rtc_l; [eapply rs_own, (own_collect host_of widx first a req answers c2 clock 2)|]. fold e1.
  eapply rtc_l.
  { apply (rs_other host_of widx first a req answers e1 e2 (Collected 2)); [|done].
    apply (cl_spawn host_of e1 Delivered (choice "5" 5) rtid client 7 b); [by left|fresh_choice]. }
  eapply rtc_l; [eapply rs_own, own_empty; vm_compute; reflexivity|].
  eapply rtc_l.
  { eapply rs_own, (own_spawn host_of widx first a req answers e2 2 0 rtid Run.rt Delivered (choice "6" 6) 8);
      [vm_compute; reflexivity|fresh_choice]. }
  change (rtc rstep (e3, Asking 2 inst) (e7, Done (Ok response))).
  eapply rtc_l; [eapply rs_own, (own_ask host_of widx first a req answers e3 2 inst Delivered 9 (λ _, true) answer)|].
  { intros k x Hx res. unfold answer. rewrite Hx. intros [= <-]. reflexivity. }
  change (rtc rstep (e4, Answered 2 inst (Ok (Ok (page "a")))) (e7, Done (Ok response))).
  eapply rtc_l.
  { eapply rs_own, (own_settle host_of widx first a req answers e4 2 inst (Ok (Ok (page "a"))) [] (tail (held (proxy e4)))).
    vm_compute. reflexivity. }
  change (rtc rstep (e5, Pooling (Ok response) inst) (e7, Done (Ok response))).
  eapply rtc_l.
  { eapply rs_own, (own_drop_out host_of widx first a req answers e5 (Ok response) inst [] (tail (held (proxy e5))) f64_one);
      vm_compute; reflexivity. }
  eapply rtc_once, rs_own, (own_collect_after host_of widx first a req answers e6 (Ok response) clock).
Qed.
End RequestRun.

Example request_served_by_own_code_holds :
  cluster_initial ClusterRun.c0 ∧ rtc (cluster_step ClusterRun.host_of) ClusterRun.c0 ClusterRun.c2 ∧
  ClusterRun.a ∈ known (proxy ClusterRun.c2) ∧
  rtc (request_step (HH := HttpList.http_list) ClusterRun.host_of RequestRun.widx RequestRun.first ClusterRun.a
         RequestRun.req RequestRun.answers) (ClusterRun.c2, Trying max_attempts) (RequestRun.e7, Done (Ok RequestRun.response)) ∧
  ∃ res, RequestRun.answers (code_of ClusterRun.a) RequestRun.req res ∧
    build_reply (HH := HttpList.http_list) res = Ok RequestRun.response.
Proof.
  assert (Hi : cluster_initial ClusterRun.c0).
  { split; [done|]. split; [|done]. intros k. by exists ClusterRun.rtid, RuntimeRun.conf. }
  assert (Hs : rtc (cluster_step ClusterRun.host_of) ClusterRun.c0 ClusterRun.c2).
  { eapply rtc_l; [exact (ClusterRun.load_step ClusterRun.a ClusterRun.c0 eq_refl)|].
    apply rtc_once. exact (ClusterRun.load_step ClusterRun.b ClusterRun.c1 eq_refl). }
  assert (Ha : ClusterRun.a ∈ known (proxy ClusterRun.c2)) by (right; by left).
  split; [exact Hi|]. split; [exact Hs|]. split; [exact Ha|]. split; [exact RequestRun.request_run|].
  exact (request_served_by_own_code (HH := HttpList.http_list) ClusterRun.host_of RequestRun.widx RequestRun.first
           ClusterRun.a RequestRun.req RequestRun.answers _ _ _ _ Hi Hs Ha RequestRun.request_run).
Defined.

(** The run without the step of the other app, in an environment where the worker throws *)
Module AloneRun.
Import ClusterRun RequestRun.
Definition f3 : cluster := proxy_spawn host_of Delivered (choice "6" 6) rtid client 8 a e1.
Definition f4 : cluster := (host_fetch host_of Delivered 9 (λ _, true) (λ _, None) inst f3).2.
Definition f5 : cluster := set_held (sched (proxy f4)) [] f4.
Definition failed : result ProxyError (Response (HH := HttpList.http_list)) := Err (Sched RequestFailedAfterRetries).
Definition env : Environment :=
  {| lookup_route_sent := true; lookup_app_sent := true; app_loaded_at := 0; get_clock _ := clock; pool_clock _ := clock;
     Proxy.now _ := 8; rng _ := 0; open01 _ := f64_one; spawn_worker _ _ _ _ _ := Ok (Ok {| handle_id := "6" |});
     Proxy.fetch _ _ _ := Ok (Err RuntimeThrowsException) |}.
Abbreviation ralone := (alone (HH := HttpList.http_list) host_of widx first a req answers env).
Abbreviation at_phase i tr cl ph := (i%nat, tr, (cl, ph)) (only parsing).

Lemma alone_run : rtc ralone (at_phase 0 [] c2 (Trying 3)) (at_phase 0 [(inst, req)] f5 (Done failed)).
Proof.
  eapply rtc_l; [apply (alone_step _ _ _ _ _ _ _ 0 [] c2 (Trying 3) (EvClock clock) (e1, Collected 2)); [apply own_collect|done]|].
  eapply rtc_l; [apply (alone_step _ _ _ _ _ _ _ 0 [] e1 (Collected 2) EvNone (e1, Spawning 2)); [apply own_empty; vm_compute; reflexivity|done]|].
  eapply rtc_l.
  { eapply alone_step; [apply (own_spawn host_of widx first a req answers e1 2 0 rtid Run.rt Delivered (choice "6" 6) 8);
      [vm_compute; reflexivity|fresh_choice]|vm_compute; done]. }
  change (rtc ralone (at_phase 0 [] f3 (Asking 2 inst)) (at_phase 0 [(inst, req)] f5 (Done failed))).
  eapply rtc_l.
  { eapply alone_step; [apply (own_ask host_of widx first a req answers f3 2 inst Delivered 9 (λ _, true) (λ _, None)); done|].
    vm_compute. reflexivity. }
  change (rtc ralone (at_phase 0 [(inst, req)] f4 (Answered 2 inst (Ok (Err RuntimeThrowsException)))) (at_phase 0 [(inst, req)] f5 (Done failed))).
  eapply rtc_l.
  { eapply alone_step.
    - apply (own_settle host_of widx first a req answers f4 2 inst (Ok (Err RuntimeThrowsException)) [] []). vm_compute. reflexivity.
    - exact I. }
  apply rtc_refl.
Qed.
End AloneRun.

Example request_alone_is_attempts_holds :
  rtc AloneRun.ralone (0%nat, [], (ClusterRun.c2, Trying 3)) (0%nat, [(RequestRun.inst, RequestRun.req)], (AloneRun.f5, Done AloneRun.failed)) ∧
  attempts (HH := HttpList.http_list) RequestRun.widx RequestRun.first AloneRun.env 3 0 ClusterRun.a RequestRun.req
    (sched (proxy ClusterRun.c2)) = (AloneRun.failed, sched (proxy AloneRun.f5), [(RequestRun.inst, RequestRun.req)]).
Proof.
  split; [exact AloneRun.alone_run|].
  exact (request_alone_is_attempts (HH := HttpList.http_list) ClusterRun.host_of RequestRun.widx RequestRun.first
           ClusterRun.a RequestRun.req RequestRun.answers AloneRun.env 3 _ _ _ _ _ AloneRun.alone_run).
Defined.
