(* ===== verification/Metrics.v ===== *)
(** * Metric descriptors: [prometheus/src/plain_model.rs], [errors.rs], [metrics.rs],
    [desc.rs] and [value.rs]

    The data of an exposition, the options of a metric and the descriptor that
    identifies it.  A Rust [char] outside ASCII is a sequence of bytes from 0x80 up
    here, which the character classes below reject as they reject the [char]. *)
From Stdlib Require Import ZArith Lia Sorted Ascii.
From S2P Require Import Prelude BTree Float64.
Local Open Scope Z_scope.

(** ** Data *)
Inductive MetricsError :=
  | AlreadyReg
  | InconsistentCardinality (expect got : nat)
  | Msg (s : string)
  | IoError (s : string).

Abbreviation MetricsResult := (result MetricsError).

Inductive MetricType := COUNTER | GAUGE | SUMMARY | UNTYPED | HISTOGRAM.

Record LabelPair := { lp_name : string; lp_value : string }.

Record Quantile := { quantile : f64; q_value : f64 }.
Record Summary := { s_sample_count : Z; s_sample_sum : f64; s_quantile : list Quantile }.
Record Bucket := { cumulative_count : Z; upper_bound : f64 }.
Record HistogramProto := { sample_count : Z; sample_sum : f64; bucket : list Bucket }.

(** [counter] and [gauge] are the single fields of the messages of that name *)
Record Metric := {
  label : list LabelPair;
  gauge : f64;
  counter : f64;
  summary : Summary;
  histogram : HistogramProto;
  timestamp_ms : Z;
}.

Record MetricFamily := {
  mf_name : string;
  mf_help : string;
  field_type : MetricType;
  metric : list Metric;
}.

#[export] Instance LabelPair_eq_dec : EqDecision LabelPair.
Proof. solve_decision. Defined.
#[export] Instance MetricType_eq_dec : EqDecision MetricType.
Proof. solve_decision. Defined.

Definition Summary_default : Summary := {| s_sample_count := 0; s_sample_sum := f64_zero; s_quantile := [] |}.
Definition HistogramProto_default : HistogramProto :=
  {| sample_count := 0; sample_sum := f64_zero; bucket := [] |}.
Definition Metric_default : Metric :=
  {| label := []; gauge := f64_zero; counter := f64_zero; summary := Summary_default;
     histogram := HistogramProto_default; timestamp_ms := 0 |}.

Definition set_label (v : list LabelPair) (m : Metric) : Metric :=
  {| label := v; gauge := gauge m; counter := counter m; summary := summary m; histogram := histogram m;
     timestamp_ms := timestamp_ms m |}.
Definition set_gauge (v : f64) (m : Metric) : Metric :=
  {| label := label m; gauge := v; counter := counter m; summary := summary m; histogram := histogram m;
     timestamp_ms := timestamp_ms m |}.
Definition set_counter (v : f64) (m : Metric) : Metric :=
  {| label := label m; gauge := gauge m; counter := v; summary := summary m; histogram := histogram m;
     timestamp_ms := timestamp_ms m |}.
Definition set_histogram (v : HistogramProto) (m : Metric) : Metric :=
  {| label := label m; gauge := gauge m; counter := counter m; summary := summary m; histogram := v;
     timestamp_ms := timestamp_ms m |}.
Definition set_name (v : string) (mf : MetricFamily) : MetricFamily :=
  {| mf_name := v; mf_help := mf_help mf; field_type := field_type mf; metric := metric mf |}.
Definition set_metric (v : list Metric) (mf : MetricFamily) : MetricFamily :=
  {| mf_name := mf_name mf; mf_help := mf_help mf; field_type := field_type mf; metric := v |}.

(** ** Sorting: [slice::sort_by], which is stable *)
Section sorting.
Context {A : Type} (cmp : A → A → comparison).

Fixpoint sort_insert (x : A) (l : list A) : list A :=
  match l with
  | [] => [x]
  | y :: l => match cmp x y with Gt => y :: sort_insert x l | _ => x :: y :: l end
  end.
Definition sort_by (l : list A) : list A := foldr sort_insert [] l.

Definition cmp_le (x y : A) : Prop := cmp x y ≠ Gt.

Lemma sort_insert_perm x l : sort_insert x l ≡ₚ x :: l.
Proof.
  induction l as [|y l IH]; simpl; [done|]. destruct (cmp x y); [done..|].
  rewrite IH. apply Permutation_swap.
Qed.

Lemma sort_by_perm l : sort_by l ≡ₚ l.
Proof. induction l as [|x l IH]; simpl; [done|]. by rewrite sort_insert_perm, IH. Qed.

Lemma sort_insert_sorted x l :
  (∀ x y, cmp x y = Gt → cmp y x = Lt) → Sorted cmp_le l → Sorted cmp_le (sort_insert x l).
Proof.
  intros Hcmp. induction 1 as [|y l' Hs IH Hd]; simpl; [by repeat constructor|].
  destruct (cmp x y) eqn:E; try (constructor; [by constructor|]; constructor; unfold cmp_le; congruence).
  constructor; [done|]. destruct l' as [|z l']; simpl.
  - constructor. unfold cmp_le. by rewrite (Hcmp _ _ E).
  - apply HdRel_inv in Hd. destruct (cmp x z); constructor; unfold cmp_le; rewrite ?(Hcmp _ _ E); done.
Qed.

Lemma sort_by_sorted l :
  (∀ x y, cmp x y = Gt → cmp y x = Lt) → Sorted cmp_le (sort_by l).
Proof. intros Hcmp. induction l; simpl; [constructor|by apply sort_insert_sorted]. Qed.
End sorting.

(** [Ord for LabelPair]: by name *)
Definition lp_cmp (a b : LabelPair) : comparison := String.compare (lp_name a) (lp_name b).

(** ** Names *)
Definition in_range (lo hi c : ascii) : bool :=
  (nat_of_ascii lo <=? nat_of_ascii c)%nat && (nat_of_ascii c <=? nat_of_ascii hi)%nat.
Definition is_ascii_alphabetic (c : ascii) : bool := in_range "a" "z" c || in_range "A" "Z" c.
(** [c.is_digit(10)] *)
Definition is_digit (c : ascii) : bool := in_range "0" "9" c.

Definition matches_charset_without_colon (c : ascii) : bool := is_ascii_alphabetic c || Ascii.eqb c "_".
Definition matches_charset_with_colon (c : ascii) : bool := matches_charset_without_colon c || Ascii.eqb c ":".

Definition is_valid_ident (input : string) (charset_validator : ascii → bool) : bool :=
  match String.list_ascii_of_string input with
  | zeroth :: chars =>
      if charset_validator zeroth then forallb (λ c, charset_validator c || is_digit c) chars else false
  | [] => false
  end.

Definition is_valid_metric_name (name : string) : bool := is_valid_ident name matches_charset_with_colon.
Definition is_valid_label_name (name : string) : bool := is_valid_ident name matches_charset_without_colon.

Definition SEPARATOR_BYTE : Byte.byte := Byte.xff.

Definition build_fq_name (namespace subsystem name : string) : string :=
  if decide (name = "") then "" else
  if decide (namespace ≠ "" ∧ subsystem ≠ "") then
    String.append namespace (String "_" (String.append subsystem (String "_" name)))
  else if decide (namespace ≠ "") then String.append namespace (String "_" name)
  else if decide (subsystem ≠ "") then String.append subsystem (String "_" name)
  else name.

(** ** Options *)
Record Opts := {
  namespace : string;
  subsystem : string;
  name : string;
  help : string;
  const_labels : gmap string string;
  variable_labels : list string;
}.

Definition Opts_new (name help : string) : Opts :=
  {| namespace := ""; subsystem := ""; name := name; help := help; const_labels := ∅; variable_labels := [] |}.

Definition set_variable_labels (v : list string) (o : Opts) : Opts :=
  {| namespace := namespace o; subsystem := subsystem o; name := name o; help := help o;
     const_labels := const_labels o; variable_labels := v |}.

Definition const_label (n v : string) (o : Opts) : Opts :=
  {| namespace := namespace o; subsystem := subsystem o; name := name o; help := help o;
     const_labels := <[n := v]> (const_labels o); variable_labels := variable_labels o |}.

Definition fq_name (o : Opts) : string := build_fq_name (namespace o) (subsystem o) (name o).

(** ** Descriptors *)
Record Desc := {
  d_fq_name : string;
  d_help : string;
  const_label_pairs : list LabelPair;
  d_variable_labels : list string;
  id : Z;
  dim_hash : Z;
}.

(** The bytes a hasher is fed: each string and a separator *)
Definition separated (l : list string) : bytes := l ≫= λ s, as_bytes s ++ [SEPARATOR_BYTE].

Section desc.
(** [fnv::FnvHasher]: the hash of all the bytes written to it *)
Context (fnv : bytes → Z).

Fixpoint check_const_labels (names : list string) (label_names : list (string * unit))
    : MetricsResult (list (string * unit)) :=
  match names with
  | [] => Ok label_names
  | n :: names =>
      if negb (is_valid_label_name n) then
        Err (Msg (String.append "'" (String.append n "' is not a valid label name"))) else
      if bt_contains_key n label_names then Err (Msg (String.append "duplicate const label name " n)) else
      check_const_labels names (bt_insert n tt label_names)
  end.

Fixpoint check_variable_labels (names : list string) (label_names : list (string * unit))
    : MetricsResult (list (string * unit)) :=
  match names with
  | [] => Ok label_names
  | n :: names =>
      if negb (is_valid_label_name n) then
        Err (Msg (String.append "'" (String.append n "' is not a valid label name"))) else
      if bt_contains_key (String "$" n) label_names
      then Err (Msg (String.append "duplicate variable label name " n)) else
      check_variable_labels names (bt_insert (String "$" n) tt label_names)
  end.

(** the pairs of the map, which Rust yields in an arbitrary order *)
Definition pairs_of (m : gmap string string) : list LabelPair :=
  (λ kv, {| lp_name := kv.1; lp_value := kv.2 |}) <$> map_to_list m.

Definition Desc_new (fq_name help : string) (variable_labels : list string)
    (const_labels : gmap string string) : MetricsResult Desc :=
  if decide (help = "") then Err (Msg "empty help string") else
  if negb (is_valid_metric_name fq_name) then
    Err (Msg (String.append "'" (String.append fq_name "' is not a valid metric name"))) else
  label_names ← check_const_labels (map_to_list const_labels).*1 [];
  let label_values := fq_name :: ((λ kv, default "" (const_labels !! kv.1)) <$> label_names) in
  label_names ← check_variable_labels variable_labels label_names;
  Ok {| d_fq_name := fq_name;
        d_help := help;
        const_label_pairs := sort_by lp_cmp (pairs_of const_labels);
        d_variable_labels := variable_labels;
        id := fnv (separated label_values);
        dim_hash := fnv (separated (help :: label_names.*1)) |}.

Definition describe (o : Opts) : MetricsResult Desc :=
  Desc_new (fq_name o) (help o) (variable_labels o) (const_labels o).
End desc.

(** ** Label pairs of a metric *)
Definition make_label_pairs (desc : Desc) (label_values : list string) : MetricsResult (list LabelPair) :=
  if decide (length (d_variable_labels desc) ≠ length label_values) then
    Err (InconsistentCardinality (length (d_variable_labels desc)) (length label_values)) else
  let total_len := (length (d_variable_labels desc) + length (const_label_pairs desc))%nat in
  if decide (total_len = 0)%nat then Ok [] else
  if decide (d_variable_labels desc = []) then Ok (const_label_pairs desc) else
  Ok (sort_by lp_cmp (zip_with Build_LabelPair (d_variable_labels desc) label_values ++ const_label_pairs desc)).
