(* ===== verification/MetricsFacts.v ===== *)
(** * What descriptors identify, and which are accepted

    The hash of a descriptor is taken over strings that are each followed by a byte
    no UTF-8 string has, so it is the hash of an injective encoding. *)
From Stdlib Require Import ZArith Lia Sorted Ascii.
From stdpp Require Import sorting.
From S2P Require Import Prelude BTree Float64 Metrics.
Local Open Scope Z_scope.

(** ** The encoding with separators *)

(** what [&str] guarantees of its bytes *)
Definition utf8 (s : string) : Prop := SEPARATOR_BYTE ∉ as_bytes s.

#[export] Instance utf8_dec s : Decision (utf8 s).
Proof. unfold utf8. apply _. Defined.

Lemma app_sep_inj {A} (x : A) a b r s :
  x ∉ a → x ∉ b → a ++ x :: r = b ++ x :: s → a = b ∧ r = s.
Proof.
  revert b. induction a as [|y a IH]; intros [|z b] Ha Hb Heq; simpl in *; simplify_eq; [done|..].
  - destruct Hb. apply elem_of_cons. by left.
  - destruct Ha. apply elem_of_cons. by left.
  - rewrite elem_of_cons in Ha, Hb. destruct (IH b) as [-> ->]; naive_solver.
Qed.

Lemma cons_eq_iff {A} (a b : A) l k : a :: l = b :: k ↔ a = b ∧ l = k.
Proof. split; [by intros [= -> ->]|by intros [-> ->]]. Qed.

Lemma as_bytes_inj a b : as_bytes a = as_bytes b → a = b.
Proof. intros Heq. by rewrite <-(of_bytes_as_bytes a), Heq, of_bytes_as_bytes. Qed.

Lemma separated_cons s l : separated (s :: l) = as_bytes s ++ SEPARATOR_BYTE :: separated l.
Proof. unfold separated. simpl. by rewrite <-app_assoc. Qed.

Lemma separated_inj l1 l2 :
  Forall utf8 l1 → Forall utf8 l2 → separated l1 = separated l2 → l1 = l2.
Proof.
  intros H1. revert l2. induction H1 as [|a l1 Ha H1 IH]; intros [|b l2] H2 Heq; [done|..].
  - rewrite separated_cons in Heq. by destruct (as_bytes b).
  - rewrite separated_cons in Heq. by destruct (as_bytes a).
  - rewrite !separated_cons in Heq. apply Forall_cons in H2 as [Hb H2].
    apply app_sep_inj in Heq as [Hab Heq]; [|done..]. apply as_bytes_inj in Hab as ->. f_equal. by apply IH.
Qed.

Lemma separated_iff l1 l2 :
  Forall utf8 l1 → Forall utf8 l2 → separated l1 = separated l2 ↔ l1 = l2.
Proof. intros. split; [by apply separated_inj|by intros ->]. Qed.

(** ** Names *)

Lemma as_bytes_ascii s : as_bytes s = byte_of_ascii <$> String.list_ascii_of_string s.
Proof. reflexivity. Qed.

Lemma label_char_ascii c :
  matches_charset_without_colon c || is_digit c = true → byte_of_ascii c ≠ SEPARATOR_BYTE.
Proof. destruct c as [[] [] [] [] [] [] [] []]; intros Hc Heq; vm_compute in Hc, Heq; congruence. Qed.

Lemma valid_label_utf8 s : is_valid_label_name s = true → utf8 s.
Proof.
  unfold is_valid_label_name, is_valid_ident, utf8. rewrite as_bytes_ascii.
  destruct (String.list_ascii_of_string s) as [|z cs]; [done|].
  destruct (matches_charset_without_colon z) eqn:Hz; [|done]. rewrite forallb_forall. intros Hcs Hin.
  apply list_elem_of_fmap in Hin as (c & Heq & Hin). symmetry in Heq. revert Heq. apply label_char_ascii.
  apply elem_of_cons in Hin as [->|Hin]; [by rewrite Hz|]. by apply Hcs, list_elem_of_In.
Qed.

Lemma valid_label_no_dollar s t : is_valid_label_name s = true → s ≠ String "$" t.
Proof. by intros Hs ->. Qed.

Lemma dollar_utf8 s : utf8 s → utf8 (String "$" s).
Proof.
  unfold utf8. change (as_bytes (String "$" s)) with (Byte.x24 :: as_bytes s).
  rewrite elem_of_cons. intros Hs [Heq|Hin]; [discriminate|done].
Qed.

(** ** The two loops over label names *)

Definition keys (l : list (string * unit)) : gset string := list_to_set l.*1.

Lemma elem_of_bt_insert n (l : list (string * unit)) : keys (bt_insert n tt l) = {[n]} ∪ keys l.
Proof. apply set_eq. intros k. unfold keys. rewrite elem_of_list_to_set, bt_insert_keys. set_solver. Qed.

Lemma bt_contains_keys n (l : list (string * unit)) : bt_contains_key n l = true ↔ n ∈ keys l.
Proof.
  unfold bt_contains_key, keys. rewrite elem_of_list_to_set.
  destruct (bt_get n l) as [u|] eqn:E.
  - split; [|done]. intros _. apply bt_get_Some_elem in E. apply list_elem_of_fmap. by exists (n, u).
  - apply bt_get_None in E. done.
Qed.

(** Both loops: accepted exactly when the names are valid, new and distinct, and
    then the set grows by them. *)
Lemma check_const_labels_spec names l :
  bt_sorted l →
  match check_const_labels names l with
  | Ok l' => bt_sorted l' ∧ keys l' = list_to_set names ∪ keys l
  | Err _ => True
  end ∧
  (is_ok (check_const_labels names l) = true ↔
   Forall (λ n, is_valid_label_name n = true ∧ n ∉ keys l) names ∧ NoDup names).
Proof.
  revert l. induction names as [|n names IH]; intros l Hs; simpl.
  { split; [split; [done|set_solver]|]. split; [|done]. by repeat constructor. }
  rewrite Forall_cons, NoDup_cons.
  destruct (is_valid_label_name n) eqn:Hv; simpl; [|split; [done|naive_solver]].
  destruct (bt_contains_key n l) eqn:Hc; simpl.
  { apply bt_contains_keys in Hc. split; [done|naive_solver]. }
  assert (Hn : n ∉ keys l) by (rewrite <-bt_contains_keys; congruence).
  destruct (IH (bt_insert n tt l)) as [Hok Hiff]; [by apply bt_insert_sorted|].
  rewrite elem_of_bt_insert in Hok, Hiff. split.
  - destruct (check_const_labels _ _); [|done]. destruct Hok as [? ->]. set_solver.
  - rewrite Hiff. rewrite !Forall_forall. set_solver.
Qed.

Lemma dollar_inj a b : String "$" a = String "$" b → a = b.
Proof. by intros [= ->]. Qed.

Lemma check_variable_labels_spec names l :
  bt_sorted l →
  match check_variable_labels names l with
  | Ok l' => bt_sorted l' ∧ keys l' = list_to_set (String "$" <$> names) ∪ keys l
  | Err _ => True
  end ∧
  (is_ok (check_variable_labels names l) = true ↔
   Forall (λ n, is_valid_label_name n = true ∧ String "$" n ∉ keys l) names ∧ NoDup names).
Proof.
  revert l. induction names as [|n names IH]; intros l Hs; simpl.
  { split; [split; [done|set_solver]|]. split; [|done]. by repeat constructor. }
  rewrite Forall_cons, NoDup_cons.
  destruct (is_valid_label_name n) eqn:Hv; simpl; [|split; [done|naive_solver]].
  destruct (bt_contains_key (String "$" n) l) eqn:Hc; simpl.
  { apply bt_contains_keys in Hc. split; [done|naive_solver]. }
  assert (Hn : String "$" n ∉ keys l) by (rewrite <-bt_contains_keys; congruence).
  destruct (IH (bt_insert (String "$" n) tt l)) as [Hok Hiff]; [by apply bt_insert_sorted|].
  rewrite elem_of_bt_insert in Hok, Hiff. split.
  - destruct (check_variable_labels _ _); [|done]. destruct Hok as [? ->]. set_solver.
  - rewrite Hiff. rewrite !Forall_forall. pose proof dollar_inj. set_solver.
Qed.

(** a strictly sorted list of names is determined by its set *)
Lemma sorted_keys_eq (l1 l2 : list (string * unit)) :
  bt_sorted l1 → bt_sorted l2 → l1.*1 = l2.*1 ↔ keys l1 = keys l2.
Proof.
  intros H1 H2. unfold keys. split; [by intros ->|]. intros Heq.
  apply (StronglySorted_unique_strong klt).
  - intros x y _ _ Hxy Hyx. destruct (klt_irrefl x). by eapply klt_trans.
  - done.
  - done.
  - assert (HN : ∀ l : list (string * unit), bt_sorted l → NoDup l.*1).
    { intros l Hl. unfold bt_sorted in Hl. induction Hl as [|x xs Hx IHx Hf]; constructor; [|done].
      intros Hin. rewrite Forall_forall in Hf. by destruct (klt_irrefl x (Hf x Hin)). }
    apply NoDup_Permutation; [by apply HN..|]. set_solver.
Qed.

(** ** Descriptors *)

Definition name_list (l : list string) : list (string * unit) := bt_from_list ((λ n, (n, tt)) <$> l).

Lemma name_list_keys l : keys (name_list l) = list_to_set l.
Proof.
  unfold name_list. induction l as [|n l IH] using rev_ind; [done|].
  rewrite fmap_app. simpl. rewrite bt_from_list_app_one, elem_of_bt_insert, IH. set_solver.
Qed.

Definition const_names (cl : gmap string string) : list string := (name_list (map_to_list cl).*1).*1.
Definition const_values (cl : gmap string string) : list string :=
  (λ n, default "" (cl !! n)) <$> const_names cl.

(** What the two hashes are taken of *)
Definition id_key (fq_name : string) (cl : gmap string string) : bytes :=
  separated (fq_name :: const_values cl).
Definition dim_key (help : string) (vars : list string) (cl : gmap string string) : bytes :=
  separated (help :: (name_list ((map_to_list cl).*1 ++ (String "$" <$> vars))).*1).

Definition desc_valid (fq_name help : string) (vars : list string) (cl : gmap string string) : Prop :=
  help ≠ "" ∧ is_valid_metric_name fq_name = true ∧
  (∀ n, n ∈ dom cl → is_valid_label_name n = true) ∧
  Forall (λ n, is_valid_label_name n = true) vars ∧ NoDup vars.

Lemma elem_of_map_names (cl : gmap string string) n : n ∈ (map_to_list cl).*1 ↔ n ∈ dom cl.
Proof.
  rewrite list_elem_of_fmap, elem_of_dom. split.
  - intros ([n' v] & -> & Hin). apply elem_of_map_to_list in Hin. by exists v.
  - intros [v Hv]. exists (n, v). split; [done|]. by apply elem_of_map_to_list.
Qed.

Section desc.
Context (fnv : bytes → Z).

Lemma Desc_new_cases fq help vars cl :
  match Desc_new fnv fq help vars cl with
  | Ok d => desc_valid fq help vars cl ∧ d_fq_name d = fq ∧ d_help d = help ∧ d_variable_labels d = vars ∧
            const_label_pairs d = sort_by lp_cmp (pairs_of cl) ∧
            id d = fnv (id_key fq cl) ∧ dim_hash d = fnv (dim_key help vars cl)
  | Err _ => ¬ desc_valid fq help vars cl
  end.
Proof.
  unfold Desc_new, desc_valid. case_decide as Hh; [by intros (? & _)|].
  destruct (is_valid_metric_name fq) eqn:Hm; simpl; [|by intros (_ & ? & _)].
  destruct (check_const_labels_spec (map_to_list cl).*1 [] bt_sorted_nil) as [Hc Hciff].
  destruct (check_const_labels (map_to_list cl).*1 []) as [l1|e] eqn:El; simpl in *.
  2:{ intros (_ & _ & Hcl & _). enough (false = true) by done. apply Hciff. split.
      - apply Forall_forall. intros n Hn. split; [by apply Hcl, elem_of_map_names|]. unfold keys. set_solver.
      - apply NoDup_fst_map_to_list. }
  destruct Hc as [Hs1 Hk1]. destruct Hciff as [[Hf1 _] _]; [done|]. rewrite Forall_forall in Hf1.
  assert (Hcl : ∀ n, n ∈ dom cl → is_valid_label_name n = true).
  { intros n Hn. by apply Hf1, elem_of_map_names. }
  assert (Hd1 : keys l1 = dom cl).
  { rewrite Hk1. apply set_eq. intros n. rewrite elem_of_union, elem_of_list_to_set, elem_of_map_names.
    unfold keys. set_solver. }
  destruct (check_variable_labels_spec vars l1 Hs1) as [Hv Hviff].
  destruct (check_variable_labels vars l1) as [l2|e] eqn:El2; simpl in *.
  - destruct Hv as [Hs2 Hk2]. destruct Hviff as [[Hf2 Hnd] _]; [done|].
    split; [|split; [done|split; [done|split; [done|split; [done|]]]]].
    { split; [done|]. split; [done|]. split; [done|]. split; [|done]. eapply Forall_impl; [done|]. by intros n [? _]. }
    assert (H1 : l1.*1 = const_names cl).
    { apply sorted_keys_eq; [done|apply bt_from_list_sorted|]. rewrite name_list_keys, Hk1. unfold keys. set_solver. }
    split; [unfold id_key, const_values; by rewrite <-H1, <-list_fmap_compose|].
    unfold dim_key.
    enough (l2.*1 = (name_list ((map_to_list cl).*1 ++ (String "$" <$> vars))).*1) as -> by done.
    apply sorted_keys_eq; [done|apply bt_from_list_sorted|].
    rewrite name_list_keys, Hk2, Hk1. unfold keys. set_solver.
  - intros (_ & _ & _ & Hv1 & Hnd). enough (false = true) by done. apply Hviff. split; [|done].
    rewrite Forall_forall in *. intros n Hn. split; [by apply Hv1|]. rewrite Hd1. intros Hin.
    by apply Hcl in Hin.
Qed.

(** A descriptor is made exactly from a non-empty help text, a valid metric name and
    valid label names without a repetition among the variable ones. *)
Theorem Desc_new_accepts fq help vars cl :
  is_ok (Desc_new fnv fq help vars cl) = true ↔ desc_valid fq help vars cl.
Proof.
  pose proof (Desc_new_cases fq help vars cl) as Hc. destruct (Desc_new _ _ _ _ _); simpl; [tauto|].
  split; [done|]. intros Hv. by destruct Hc.
Qed.

Lemma const_values_utf8 cl : (∀ n v, cl !! n = Some v → utf8 v) → Forall utf8 (const_values cl).
Proof.
  intros Hcl. apply Forall_forall. intros v (n & -> & _)%list_elem_of_fmap.
  destruct (cl !! n) as [v|] eqn:E; simpl; [by eapply Hcl|]. by apply not_elem_of_nil.
Qed.

Lemma elem_of_names n l : n ∈ (name_list l).*1 ↔ n ∈ l.
Proof. pose proof (name_list_keys l) as Hk. unfold keys in Hk. set_solver. Qed.

Lemma names_utf8 fq help vars cl :
  desc_valid fq help vars cl → Forall utf8 (name_list ((map_to_list cl).*1 ++ (String "$" <$> vars))).*1.
Proof.
  intros (_ & _ & Hcl & Hv & _). apply Forall_forall. intros n.
  rewrite elem_of_names, elem_of_app, elem_of_map_names. rewrite Forall_forall in Hv.
  intros [Hn|(m & -> & Hm)%list_elem_of_fmap]; [|apply dollar_utf8]; apply valid_label_utf8; auto.
Qed.

Lemma names_eq_iff fq1 help1 fq2 help2 vars1 vars2 cl1 cl2 :
  desc_valid fq1 help1 vars1 cl1 → desc_valid fq2 help2 vars2 cl2 →
  (name_list ((map_to_list cl1).*1 ++ (String "$" <$> vars1))).*1 =
  (name_list ((map_to_list cl2).*1 ++ (String "$" <$> vars2))).*1 ↔
  dom cl1 = dom cl2 ∧ ∀ n, n ∈ vars1 ↔ n ∈ vars2.
Proof.
  intros (_ & _ & H1 & _) (_ & _ & H2 & _).
  rewrite sorted_keys_eq, !name_list_keys by apply bt_from_list_sorted.
  rewrite set_eq. setoid_rewrite elem_of_list_to_set. setoid_rewrite elem_of_app.
  setoid_rewrite elem_of_map_names. setoid_rewrite list_elem_of_fmap. split.
  - intros Heq. split.
    + apply set_eq. intros n. specialize (Heq n). split; intros Hn.
      * destruct Heq as [[|(m & -> & _)] _]; [by left|done|]. by apply H1 in Hn.
      * destruct Heq as [_ [|(m & -> & _)]]; [by left|done|]. by apply H2 in Hn.
    + intros n. specialize (Heq (String "$" n)). split; intros Hn.
      * destruct Heq as [[Hd|(m & [= ->] & ?)] _]; [right; eauto|by apply H2 in Hd|done].
      * destruct Heq as [_ [Hd|(m & [= ->] & ?)]]; [right; eauto|by apply H1 in Hd|done].
  - intros [-> Hv] n. setoid_rewrite Hv. done.
Qed.

(** What the hashes of a descriptor stand for.  The [id] of two descriptors is taken
    of the same bytes exactly if they have the same name and the same constant label
    values in the order of the label names, and the [dim_hash] exactly if they have
    the same help text and the same sets of constant and variable label names. *)
Theorem desc_identity fq1 help1 vars1 cl1 d1 fq2 help2 vars2 cl2 d2 :
  Forall utf8 [fq1; help1; fq2; help2] →
  (∀ n v, cl1 !! n = Some v → utf8 v) → (∀ n v, cl2 !! n = Some v → utf8 v) →
  Desc_new fnv fq1 help1 vars1 cl1 = Ok d1 → Desc_new fnv fq2 help2 vars2 cl2 = Ok d2 →
  (id d1 = fnv (id_key fq1 cl1) ∧ dim_hash d1 = fnv (dim_key help1 vars1 cl1)) ∧
  (id_key fq1 cl1 = id_key fq2 cl2 ↔ fq1 = fq2 ∧ const_values cl1 = const_values cl2) ∧
  (dim_key help1 vars1 cl1 = dim_key help2 vars2 cl2 ↔
   help1 = help2 ∧ dom cl1 = dom cl2 ∧ ∀ n, n ∈ vars1 ↔ n ∈ vars2).
Proof.
  rewrite !Forall_cons. intros (Hq1 & Hh1 & Hq2 & Hh2 & _) Hu1 Hu2 Hd1 Hd2.
  pose proof (Desc_new_cases fq1 help1 vars1 cl1) as Hc1. rewrite Hd1 in Hc1.
  pose proof (Desc_new_cases fq2 help2 vars2 cl2) as Hc2. rewrite Hd2 in Hc2.
  destruct Hc1 as (Hv1 & _ & _ & _ & _ & Hi1 & Hj1), Hc2 as (Hv2 & _).
  split; [done|]. unfold id_key, dim_key. split.
  - rewrite separated_iff by (constructor; [done|by apply const_values_utf8]). apply cons_eq_iff.
  - rewrite separated_iff by (constructor; [done|by eapply names_utf8]).
    rewrite <-(names_eq_iff fq1 help1 fq2 help2) by done. apply cons_eq_iff.
Qed.
End desc.

Example desc_identity_holds :
  let hash (b : bytes) := Z.of_nat (length b) in
  let cl : gmap string string := {[ "zone" := "z1" ]} in
  let d1 := {| d_fq_name := "requests"; d_help := "Requests."; d_variable_labels := ["code"; "method"];
               const_label_pairs := [{| lp_name := "zone"; lp_value := "z1" |}];
               id := 12; dim_hash := 29 |} in
  Desc_new hash "requests" "Requests." ["code"; "method"] cl = Ok d1 ∧
  dim_key "Requests." ["code"; "method"] cl = dim_key "Requests." ["method"; "code"] cl.
Proof.
  intros hash cl d1.
  assert (Hu : ∀ n v, cl !! n = Some v → utf8 v).
  { intros n v Hn. apply lookup_singleton_Some in Hn as [_ <-]. apply (bool_decide_unpack (utf8 _)); vm_compute; exact I. }
  assert (Hd1 : Desc_new hash "requests" "Requests." ["code"; "method"] cl = Ok d1) by (vm_compute; reflexivity).
  split; [exact Hd1|].
  eapply (desc_identity hash "requests" "Requests." ["code"; "method"] cl d1
            "requests" "Requests." ["method"; "code"] cl).
  - repeat apply List.Forall_cons; [..|apply List.Forall_nil]; apply (bool_decide_unpack (utf8 _)); vm_compute; exact I.
  - exact Hu.
  - exact Hu.
  - exact Hd1.
  - vm_compute. reflexivity.
  - split; [reflexivity|]. split; [reflexivity|]. intros n. rewrite !elem_of_cons. split; tauto.
Defined.
