(* ===== verification/Atomics.v ===== *)
(** * The clock and single metrics: [prometheus/src/timer.rs], [value.rs], [counter.rs]
    and [gauge.rs]

    The clock of [timer.rs] is a loop around compare-and-exchange that other threads may
    interrupt anywhere.  A number has the arithmetic of its [Atomic], the representation
    and concurrency of which are the subject of [Atomic64]. *)
From Stdlib Require Import ZArith Lia.
From S2P Require Import Prelude BTree Float64 Metrics.
Local Open Scope Z_scope.

(** ** Compare-and-exchange loops *)
Section cas.
(** The cell's values and what a thread is to do: [update u v] is the value to write
    over [v], [None] to leave without writing *)
Context {V U : Type} (update : U → V → option V).

Record thread := { job : U; loaded : option V }.

(** [left] and [log] are ghosts: the jobs that left, and those that wrote, in order. *)
Record cell_state := {
  cell : V;
  active : list thread;
  left : list U;
  log : list U;
}.

Inductive cas_step (s : cell_state) : cell_state → Prop :=
  | cas_start u :
      cas_step s {| cell := cell s; active := {| job := u; loaded := None |} :: active s;
                    left := left s; log := log s |}
  | cas_load l1 l2 u :
      active s = l1 ++ {| job := u; loaded := None |} :: l2 →
      cas_step s {| cell := cell s; active := l1 ++ {| job := u; loaded := Some (cell s) |} :: l2;
                    left := left s; log := log s |}
  | cas_ok l1 l2 u new :
      active s = l1 ++ {| job := u; loaded := Some (cell s) |} :: l2 → update u (cell s) = Some new →
      cas_step s {| cell := new; active := l1 ++ l2; left := left s; log := log s ++ [u] |}
  (* the exchange fails, possibly spuriously; the thread reads the cell again *)
  | cas_fail l1 l2 u current new :
      active s = l1 ++ {| job := u; loaded := Some current |} :: l2 → update u current = Some new →
      cas_step s {| cell := cell s; active := l1 ++ {| job := u; loaded := Some (cell s) |} :: l2;
                    left := left s; log := log s |}
  | cas_leave l1 l2 u current :
      active s = l1 ++ {| job := u; loaded := Some current |} :: l2 → update u current = None →
      cas_step s {| cell := cell s; active := l1 ++ l2; left := u :: left s; log := log s |}.

Definition cas_init (v : V) : cell_state := {| cell := v; active := []; left := []; log := [] |}.

End cas.

(** *** The clock: [now_millis] on the elapsed time [t] it measured *)
Definition now_millis (t recent : Z) : option Z := if decide (t < recent) then None else Some t.

(** [duration_to_millis] on a duration in nanoseconds *)
Definition duration_to_millis (dur : Z) : Z :=
  wrapping_add 64 (wrap 64 (dur / 1000000000 * 1000)) (dur mod 1000000000 / 1000000).

(** [recent_millis] never goes back, although the times the threads measured may be
    written in any order. *)
Theorem recent_millis_monotone s s' :
  rtc (cas_step now_millis) s s' → cell s <= cell s'.
Proof.
  intros Hrun. eapply (rtc_invariant (cas_step now_millis) (λ x, cell s <= cell x)); [|done|done].
  intros a b [] Hle; simpl; try done. unfold now_millis in *. case_decide; [done|]. simplify_eq. lia.
Qed.

(** ** Numbers: the trait [Number], and the arithmetic of the trait [Atomic] *)
Record Number (T : Type) := {
  from_i64 : Z → T;
  into_f64 : T → f64;
  inc_by : T → T → T;          (* the value, then the delta *)
  dec_by : T → T → T;
  num_eqb : T → T → bool;      (* [PartialEq] *)
}.
Arguments from_i64 {T} _ _.
Arguments into_f64 {T} _ _.
Arguments inc_by {T} _ _ _.
Arguments dec_by {T} _ _ _.
Arguments num_eqb {T} _ _ _.

Definition f64_neg (x : f64) : f64 := SpecFloat.SFopp x.
Definition wrap_i64 (z : Z) : Z := wrap 64 (z + 2 ^ 63) - 2 ^ 63.

Definition i64_number : Number Z :=
  {| from_i64 v := v; into_f64 := f64_of_Z; inc_by a d := wrap_i64 (a + d); dec_by a d := wrap_i64 (a - d);
     num_eqb := Z.eqb |}.
Definition u64_number : Number Z :=
  {| from_i64 v := wrap 64 v; into_f64 := f64_of_Z; inc_by := wrapping_add 64; dec_by := wrapping_sub 64;
     num_eqb := Z.eqb |}.
Definition f64_number : Number f64 :=
  {| from_i64 := f64_of_Z; into_f64 x := x; inc_by := f64_add; dec_by a d := f64_add a (f64_neg d);
     num_eqb := f64_eq |}.

(** ** Values, counters and gauges *)
Inductive ValueType := VCounter | VGauge.

Definition metric_type (t : ValueType) : MetricType :=
  match t with VCounter => COUNTER | VGauge => GAUGE end.

Section value.
Context (fnv : bytes → Z) {T : Type} (N : Number T).

Record Value := { v_desc : Desc; val : T; val_type : ValueType; label_pairs : list LabelPair }.

Definition Value_new (describer : Opts) (t : ValueType) (v : T) (label_values : list string)
    : MetricsResult Value :=
  desc ← describe fnv describer;
  label_pairs ← make_label_pairs desc label_values;
  Ok {| v_desc := desc; val := v; val_type := t; label_pairs := label_pairs |}.

Definition Value_set (x : T) (v : Value) : Value :=
  {| v_desc := v_desc v; val := x; val_type := val_type v; label_pairs := label_pairs v |}.
Definition Value_inc_by (d : T) (v : Value) : Value := Value_set (inc_by N (val v) d) v.
Definition Value_dec_by (d : T) (v : Value) : Value := Value_set (dec_by N (val v) d) v.
Definition Value_inc : Value → Value := Value_inc_by (from_i64 N 1).
Definition Value_dec : Value → Value := Value_dec_by (from_i64 N 1).

Definition Value_metric (v : Value) : Metric :=
  let m := set_label (label_pairs v) Metric_default in
  match val_type v with
  | VCounter => set_counter (into_f64 N (val v)) m
  | VGauge => set_gauge (into_f64 N (val v)) m
  end.

Definition Value_collect (v : Value) : MetricFamily :=
  {| mf_name := d_fq_name (v_desc v); mf_help := d_help (v_desc v);
     field_type := metric_type (val_type v); metric := [Value_metric v] |}.

(** [GenericCounter] and [GenericGauge] share their [Value]. *)
Definition counter_with_opts_and_label_values (opts : Opts) (label_values : list string) :=
  Value_new opts VCounter (from_i64 N 0) label_values.
Definition gauge_with_opts_and_label_values (opts : Opts) (label_values : list string) :=
  Value_new opts VGauge (from_i64 N 0) label_values.
Definition counter_reset (v : Value) : Value := Value_set (from_i64 N 0) v.

(** ** Local counters

    A [GenericLocalCounter] is a value of its own beside the shared counter. *)
Definition local_inc_by (v : T) (l : T) : T := inc_by N l v.
Definition local_inc (l : T) : T := inc_by N l (from_i64 N 1).
Definition local_new : T := from_i64 N 0.

(** [flush] on the local value and the counter *)
Definition local_flush (l : T) (counter : Value) : T * Value :=
  if num_eqb N l (from_i64 N 0) then (l, counter)
  else (from_i64 N 0, Value_inc_by l counter).

(** [MayFlush::try_flush]: the time of the last flush, and whether to flush *)
Definition try_flush (now last_flush flush_interval_millis : Z) : bool * Z :=
  if decide (now < wrapping_add 64 last_flush flush_interval_millis) then (false, last_flush) else (true, now).
End value.
Arguments Value T : clear implicits.

(** *** Local integer counters lose nothing *)

(** A counter with any number of local ones; [total] is the sum of the increments. *)
Record counters := { shared : Value Z; locals : list Z; total : Z }.

Inductive counters_step (s : counters) : counters → Prop :=
  | step_local : counters_step s {| shared := shared s; locals := local_new u64_number :: locals s; total := total s |}
  | step_inc_by l1 l l2 v :
      locals s = l1 ++ l :: l2 →
      counters_step s {| shared := shared s; locals := l1 ++ local_inc_by u64_number v l :: l2; total := total s + v |}
  | step_shared_inc_by v :
      counters_step s {| shared := Value_inc_by u64_number v (shared s); locals := locals s; total := total s + v |}
  | step_flush l1 l l2 :
      locals s = l1 ++ l :: l2 →
      counters_step s {| shared := (local_flush u64_number l (shared s)).2;
                         locals := l1 ++ (local_flush u64_number l (shared s)).1 :: l2; total := total s |}.

Fixpoint sum_Z (l : list Z) : Z := match l with [] => 0 | x :: l => x + sum_Z l end.

Lemma sum_Z_app l k : sum_Z (l ++ k) = sum_Z l + sum_Z k.
Proof. induction l; simpl; lia. Qed.

(** The shared counter and the unflushed local ones always add up to the increments
    made, modulo 2^64: flushing neither loses an increment nor counts one twice. *)
Theorem local_counters_conserved (s0 s : counters) :
  fits 64 (val (shared s0)) → locals s0 = [] → total s0 = val (shared s0) →
  rtc counters_step s0 s →
  (val (shared s) + sum_Z (locals s)) mod 2 ^ 64 = total s mod 2 ^ 64.
Proof.
  intros Hf Hl Ht Hrun.
  eapply (rtc_invariant counters_step
            (λ s, (val (shared s) + sum_Z (locals s)) mod 2 ^ 64 = total s mod 2 ^ 64)); [|done|].
  2:{ rewrite Hl, Ht. simpl. by rewrite Z.add_0_r. }
  intros a b Hstep Heq.
  assert (Hadd : ∀ x y z, (wrapping_add 64 x y + z) mod 2 ^ 64 = (x + y + z) mod 2 ^ 64).
  { intros x y z. unfold wrapping_add, wrap. by rewrite Z.add_mod_idemp_l. }
  assert (Hmod : ∀ v, (total a + v) mod 2 ^ 64 = (val (shared a) + sum_Z (locals a) + v) mod 2 ^ 64).
  { intros v. by rewrite <-Z.add_mod_idemp_l, <-Heq, Z.add_mod_idemp_l by done. }
  destruct Hstep as [|l1 l l2 v Hls|v|l1 l l2 Hls]; simpl.
  - exact Heq.
  - rewrite Hmod, Hls, !sum_Z_app. simpl.
    replace (val (shared a) + (sum_Z l1 + (wrapping_add 64 l v + sum_Z l2)))
      with (wrapping_add 64 l v + (val (shared a) + sum_Z l1 + sum_Z l2)) by lia.
    rewrite Hadd. f_equal. lia.
  - rewrite Hmod, Hadd. f_equal. lia.
  - rewrite Hls, sum_Z_app in Heq. simpl in Heq. rewrite <-Heq. unfold local_flush. rewrite sum_Z_app.
    destruct (num_eqb u64_number l (from_i64 u64_number 0)); simpl; [done|].
    rewrite Hadd. f_equal. change (wrap 64 0) with 0. lia.
Qed.

Example recent_millis_monotone_holds :
  ∃ s s', rtc (cas_step now_millis) (cas_init 5) s ∧ rtc (cas_step now_millis) s s' ∧
    cell s = 9 ∧ cell s <= cell s' ∧ left s' = [7].
Proof.
  pose (s := {| cell := 9; active := [{| job := 7; loaded := Some 5 |}]; left := []; log := [9] |}).
  pose (s' := {| cell := 9; active := []; left := [7]; log := [9] |}).
  assert (Hrun : rtc (cas_step now_millis) (cas_init 5) s).
  { eapply rtc_l; [exact (cas_start now_millis (cas_init 5) 9)|].
    eapply rtc_l; [eapply (cas_load now_millis _ [] [] 9); reflexivity|].
    eapply rtc_l; [eapply (cas_start now_millis _ 7)|].
    eapply rtc_l; [eapply (cas_load now_millis _ [] _ 7); reflexivity|].
    apply rtc_once. eapply (cas_ok now_millis
      {| cell := 5; active := [{| job := 7; loaded := Some 5 |}; {| job := 9; loaded := Some 5 |}]; left := []; log := [] |}
      [{| job := 7; loaded := Some 5 |}] [] 9); reflexivity. }
  assert (Hrun' : rtc (cas_step now_millis) s s').
  { eapply rtc_l; [eapply (cas_fail now_millis s [] [] 7); reflexivity|].
    apply rtc_once. eapply (cas_leave now_millis
      {| cell := 9; active := [{| job := 7; loaded := Some 9 |}]; left := []; log := [9] |} [] [] 7); reflexivity. }
  exists s, s'. split; [exact Hrun|]. split; [exact Hrun'|]. split; [reflexivity|].
  split; [exact (recent_millis_monotone s s' Hrun')|reflexivity].
Defined.

Example local_counters_conserved_holds :
  let v0 := {| v_desc := {| d_fq_name := "c"; d_help := "h"; const_label_pairs := []; d_variable_labels := [];
                            id := 0; dim_hash := 0 |};
               val := 3; val_type := VCounter; label_pairs := [] |} in
  let s0 := {| shared := v0; locals := []; total := 3 |} in
  ∃ s, rtc counters_step s0 s ∧ val (shared s) = 10 ∧
    (val (shared s) + sum_Z (locals s)) mod 2 ^ 64 = total s mod 2 ^ 64.
Proof.
  intros v0 s0.
  pose (s := {| shared := Value_set 10 v0; locals := [0]; total := 10 |}).
  assert (Hrun : rtc counters_step s0 s).
  { eapply rtc_l; [exact (step_local s0)|].
    eapply rtc_l; [eapply (step_inc_by _ [] 0 [] 7); reflexivity|].
    apply rtc_once.
    eapply (step_flush {| shared := v0; locals := [7]; total := 10 |} [] 7 []). reflexivity. }
  exists s. split; [exact Hrun|]. split; [reflexivity|].
  apply (local_counters_conserved s0 s); [split; simpl; lia|reflexivity|reflexivity|exact Hrun].
Defined.
