(* ===== verification/Atomic64.v ===== *)
(** * Atomic numbers: [prometheus/src/atomic64.rs]

    The three implementations of the trait [Atomic] over their cell, in which a float is
    kept as its bits.  Operations on the integers are single operations of the hardware;
    [inc_by] of the float is a loop around compare-and-exchange that other threads may
    interrupt anywhere.  Against the trait: every interleaving is a sequence of operations
    of the number. *)
From Stdlib Require Import ZArith Lia.
From S2P Require Import Prelude BTree Float64 FloatBits Metrics Atomics.
Local Open Scope Z_scope.

(** ** The code, on the value of [inner] *)
Definition u64_to_f64 (val : Z) : f64 := of_bits val.
Definition f64_to_u64 (val : f64) : Z := to_bits val.

Definition AtomicF64_new (val : f64) : Z := f64_to_u64 val.
Definition AtomicF64_set (val : f64) (inner : Z) : Z := f64_to_u64 val.
Definition AtomicF64_get (inner : Z) : f64 := u64_to_f64 inner.
(** what the loop writes over the value it has loaded *)
Definition AtomicF64_inc_by (delta : f64) (current : Z) : Z := f64_to_u64 (f64_add (u64_to_f64 current) delta).
Definition AtomicF64_dec_by (delta : f64) : Z → Z := AtomicF64_inc_by (f64_neg delta).
Definition AtomicF64_swap (val : f64) (inner : Z) : f64 * Z := (u64_to_f64 inner, f64_to_u64 val).

(** [fetch_add] and [fetch_sub] wrap around. *)
Definition AtomicI64_new (val : Z) : Z := val.
Definition AtomicI64_set (val inner : Z) : Z := val.
Definition AtomicI64_get (inner : Z) : Z := inner.
Definition AtomicI64_inc_by (delta inner : Z) : Z := wrap_i64 (inner + delta).
Definition AtomicI64_dec_by (delta inner : Z) : Z := wrap_i64 (inner - delta).

Definition AtomicU64_new (val : Z) : Z := val.
Definition AtomicU64_set (val inner : Z) : Z := val.
Definition AtomicU64_get (inner : Z) : Z := inner.
Definition AtomicU64_inc_by_with_ordering (delta inner : Z) : Z := wrapping_add 64 inner delta.
Definition AtomicU64_inc_by (delta inner : Z) : Z := AtomicU64_inc_by_with_ordering delta inner.
Definition AtomicU64_dec_by (delta inner : Z) : Z := wrapping_sub 64 inner delta.
Definition AtomicU64_swap (val inner : Z) : Z * Z := (inner, val).
(** [Err] has the current value; the exchange may fail although the values are equal. *)
Definition AtomicU64_compare_exchange_weak (spurious : bool) (current new inner : Z) : (Z + Z) * Z :=
  if decide (inner = current) then if spurious then (inr inner, inner) else (inl inner, new) else (inr inner, inner).

(** ** The trait [Atomic]

    [instant] is an operation that is one step, with the cell afterwards; the others are
    loops, and [update] is what they write. *)
Inductive atomic_op (T : Type) := OpSet (val : T) | OpGet | OpSwap (val : T) | OpIncBy (delta : T) | OpDecBy (delta : T).
Arguments OpSet {T} val.
Arguments OpGet {T}.
Arguments OpSwap {T} val.
Arguments OpIncBy {T} delta.
Arguments OpDecBy {T} delta.

Class Atomic (T : Type) := {
  number : Number T;
  atomic_new : T → Z;
  atomic_get : Z → T;
  instant : atomic_op T → Z → option Z;
  update : atomic_op T → Z → Z;
}.

(** What an operation makes of a number *)
Definition apply_op {T} (N : Number T) (o : atomic_op T) (x : T) : T :=
  match o with
  | OpSet val | OpSwap val => val
  | OpGet => x
  | OpIncBy delta => inc_by N x delta
  | OpDecBy delta => dec_by N x delta
  end.

(** [rep x]: the type has the number [x]. *)
Class AtomicLaws (T : Type) `{Atomic T} := {
  rep : T → Prop;
  op_rep : atomic_op T → Prop;
  rep_get x : rep x → atomic_get (atomic_new x) = x;
  apply_rep o x : rep x → op_rep o → rep (apply_op number o x);
  instant_ok o x i : rep x → op_rep o → instant o (atomic_new x) = Some i → i = atomic_new (apply_op number o x);
  update_ok o x : rep x → op_rep o → instant o (atomic_new x) = None → update o (atomic_new x) = atomic_new (apply_op number o x);
  instant_cell o i j : instant o i = None → instant o j = None;
}.

#[export] Instance AtomicF64 : Atomic f64 := {|
  number := f64_number;
  atomic_new := AtomicF64_new;
  atomic_get := AtomicF64_get;
  instant o inner :=
    match o with
    | OpSet val => Some (AtomicF64_set val inner)
    | OpGet => Some inner
    | OpSwap val => Some (AtomicF64_swap val inner).2
    | OpIncBy _ | OpDecBy _ => None
    end;
  update o current :=
    match o with
    | OpIncBy delta => AtomicF64_inc_by delta current
    | OpDecBy delta => AtomicF64_dec_by delta current
    | _ => current
    end;
|}.

#[export] Instance AtomicI64 : Atomic Z | 10 := {|
  number := i64_number;
  atomic_new := AtomicI64_new;
  atomic_get := AtomicI64_get;
  instant o inner :=
    match o with
    | OpSet val => Some (AtomicI64_set val inner)
    | OpGet => Some inner
    | OpSwap _ => None (* it has no [swap] *)
    | OpIncBy delta => Some (AtomicI64_inc_by delta inner)
    | OpDecBy delta => Some (AtomicI64_dec_by delta inner)
    end;
  update _ current := current;
|}.

Definition AtomicU64 : Atomic Z := {|
  number := u64_number;
  atomic_new := AtomicU64_new;
  atomic_get := AtomicU64_get;
  instant o inner :=
    match o with
    | OpSet val => Some (AtomicU64_set val inner)
    | OpGet => Some inner
    | OpSwap val => Some (AtomicU64_swap val inner).2
    | OpIncBy delta => Some (AtomicU64_inc_by delta inner)
    | OpDecBy delta => Some (AtomicU64_dec_by delta inner)
    end;
  update _ current := current;
|}.

(** *** The laws *)
Definition op_args {T} (R : T → Prop) (o : atomic_op T) : Prop :=
  match o with OpSet v | OpSwap v | OpIncBy v | OpDecBy v => R v | OpGet => True end.

#[export] Program Instance AtomicF64_laws : AtomicLaws f64 :=
  {| rep x := valid x = true; op_rep := op_args (λ x, valid x = true) |}.
Next Obligation. exact of_to_bits. Qed.
Next Obligation.
  intros o x Hx Ho. destruct o as [v| |v|d|d]; simpl in *; try done; apply f64_add_valid; try done. by destruct d.
Qed.
Next Obligation. by intros [v| |v|d|d] x i _ _ [= <-]. Qed.
Next Obligation.
  intros o x Hx Ho. destruct o as [v| |v|d|d]; simpl; try done; intros _;
    unfold AtomicF64_dec_by, AtomicF64_inc_by, AtomicF64_new, u64_to_f64, f64_to_u64; by rewrite of_to_bits.
Qed.
Next Obligation. by intros []. Qed.

Definition in_i64 (x : Z) : Prop := - 2 ^ 63 <= x < 2 ^ 63.
Lemma wrap_i64_range z : in_i64 (wrap_i64 z).
Proof. unfold wrap_i64, wrap, in_i64. pose proof (Z.mod_pos_bound (z + 2 ^ 63) (2 ^ 64) ltac:(lia)). lia. Qed.

Definition i64_op (o : atomic_op Z) : Prop := match o with OpSwap _ => False | _ => op_args in_i64 o end.

#[export] Program Instance AtomicI64_laws : AtomicLaws Z (H := AtomicI64) := {| rep := in_i64; op_rep := i64_op |}.
Next Obligation. done. Qed.
Next Obligation. intros [v| |v|d|d] x Hx Ho; simpl in *; try done; apply wrap_i64_range. Qed.
Next Obligation. intros [v| |v|d|d] x i H1 H2 Hi; simpl in *; first [done | by inversion Hi]. Qed.
Next Obligation. by intros []. Qed.
Next Obligation. by intros []. Qed.

#[export] Program Instance AtomicU64_laws : AtomicLaws Z (H := AtomicU64) := {| rep := fits 64; op_rep := op_args (fits 64) |}.
Next Obligation. done. Qed.
Next Obligation.
  intros [v| |v|d|d] x Hx Ho; simpl in *; try done; unfold wrapping_add, wrapping_sub, wrap; apply Z.mod_pos_bound; lia.
Qed.
Next Obligation. by intros [v| |v|d|d] x i _ _ [= <-]. Qed.
Next Obligation. by intros []. Qed.
Next Obligation. by intros []. Qed.

(** ** Threads *)
Section threads.
Context {T : Type} `{AtomicLaws T}.

(** a thread in the loop of its operation: what it has loaded, or that it has not *)
Record looping := { l_op : atomic_op T; l_current : option Z }.

(** [called] and [log] are ghosts: the operations that were called, and those that have
    taken effect, in order, with the number each has found. *)
Record atomic_state := {
  inner : Z;
  loops : list looping;
  called : list (atomic_op T);
  log : list (atomic_op T * T);
}.

Definition atomic_init (x : T) : atomic_state := {| inner := atomic_new x; loops := []; called := []; log := [] |}.

Inductive atomic_step (s : atomic_state) : atomic_state → Prop :=
  | step_instant o i :
      op_rep o → instant o (inner s) = Some i →
      atomic_step s {| inner := i; loops := loops s; called := called s ++ [o]; log := log s ++ [(o, atomic_get (inner s))] |}
  | step_enter o :
      op_rep o → instant o (inner s) = None →
      atomic_step s {| inner := inner s; loops := {| l_op := o; l_current := None |} :: loops s;
                       called := called s ++ [o]; log := log s |}
  | step_load l1 l2 o :
      loops s = l1 ++ {| l_op := o; l_current := None |} :: l2 →
      atomic_step s {| inner := inner s; loops := l1 ++ {| l_op := o; l_current := Some (inner s) |} :: l2;
                       called := called s; log := log s |}
  | step_exchange l1 l2 o current r i :
      loops s = l1 ++ {| l_op := o; l_current := Some current |} :: l2 →
      AtomicU64_compare_exchange_weak false current (update o current) (inner s) = (inl r, i) →
      atomic_step s {| inner := i; loops := l1 ++ l2; called := called s; log := log s ++ [(o, atomic_get current)] |}
  | step_exchange_failed l1 l2 o current spurious r i :
      loops s = l1 ++ {| l_op := o; l_current := Some current |} :: l2 →
      AtomicU64_compare_exchange_weak spurious current (update o current) (inner s) = (inr r, i) →
      atomic_step s {| inner := i; loops := l1 ++ {| l_op := o; l_current := None |} :: l2;
                       called := called s; log := log s |}.

(** The operations of [l], one after the other, take [x] to [y], and each finds what the
    ones before it have left. *)
Fixpoint explains (x : T) (l : list (atomic_op T * T)) (y : T) : Prop :=
  match l with
  | [] => y = x
  | (o, found) :: l => found = x ∧ explains (apply_op number o x) l y
  end.

Lemma explains_snoc x l y o : explains x l y → explains x (l ++ [(o, y)]) (apply_op number o y).
Proof.
  revert x. induction l as [|[o' f] l IH]; intros x; simpl; [by intros ->|]. intros [-> Hl]. split; [done|by apply IH].
Qed.

Record atomic_inv (x : T) (s : atomic_state) (y : T) : Prop := {
  i_rep : rep y;
  i_inner : inner s = atomic_new y;
  i_log : explains x (log s) y;
  i_loops : Forall (λ l, op_rep (l_op l) ∧ ∀ i, instant (l_op l) i = None) (loops s);
  i_called : called s ≡ₚ (log s).*1 ++ (l_op <$> loops s);
}.

Lemma atomic_step_inv x s s' y : atomic_inv x s y → atomic_step s s' → ∃ y', atomic_inv x s' y'.
Proof.
  intros [Hr Hi Hl Hf Hc] Hstep.
  destruct Hstep as [o i Ho E|o Ho E|l1 l2 o E|l1 l2 o current r i E Hx|l1 l2 o current sp r i E Hx].
  - exists (apply_op number o y). rewrite Hi in E. rewrite Hi, rep_get by done. split; simpl; try done.
    + by apply apply_rep.
    + by apply instant_ok.
    + by apply explains_snoc.
    + rewrite Hc, fmap_app, <-!app_assoc. apply Permutation_app_head, Permutation_app_comm.
  - exists y. split; simpl; try done.
    + constructor; [|done]. split; [done|]. intros j. by eapply instant_cell.
    + rewrite Hc, <-app_assoc. apply Permutation_app_head, (Permutation_app_comm _ [o]).
  - exists y. split; simpl; try done; rewrite E in *; [|by rewrite fmap_app in *].
    by rewrite Forall_app, Forall_cons in *.
  - unfold AtomicU64_compare_exchange_weak in Hx. case_decide as Hcur; [|done]. injection Hx as <- <-.
    rewrite E, Forall_app, Forall_cons in Hf. destruct Hf as (Hf1 & [Ho Hn] & Hf2). simpl in *.
    exists (apply_op number o y). rewrite <-Hcur, Hi, rep_get by done. split; simpl.
    + by apply apply_rep.
    + by apply update_ok.
    + by apply explains_snoc.
    + by apply Forall_app.
    + rewrite Hc, E, !fmap_app, fmap_cons, <-!app_assoc. simpl. apply Permutation_app_head. by rewrite Permutation_middle.
  - unfold AtomicU64_compare_exchange_weak in Hx.
    assert (i = inner s) as -> by (repeat case_decide; repeat case_match; by simplify_eq).
    exists y. split; simpl; try done; rewrite E in *; [|by rewrite fmap_app in *].
    by rewrite Forall_app, Forall_cons in *.
Qed.

Lemma atomic_run_inv x s : rep x → rtc atomic_step (atomic_init x) s → ∃ y, atomic_inv x s y.
Proof.
  intros Hx Hrun. eapply (rtc_invariant atomic_step (λ s, ∃ y, atomic_inv x s y)); [|exact Hrun|exists x; by split].
  intros a b Hab [y Ha]. by eapply atomic_step_inv.
Qed.

(** A thread that runs alone finishes its operation. *)
Lemma loops_finish s : ∃ s', rtc atomic_step s s' ∧ loops s' = [] ∧ called s' = called s.
Proof.
  destruct s as [i ls cs lg]. revert i lg. induction ls as [|[o c] ls IH]; intros i lg; [by eexists|].
  destruct (IH (update o i) (lg ++ [(o, atomic_get i)])) as (s' & Hrun & Hl & Hc).
  exists s'. split; [|done].
  pose (st c := {| inner := i; loops := {| l_op := o; l_current := c |} :: ls; called := cs; log := lg |}).
  set (s1 := st (Some i)). trans s1.
  { trans (st None); [|apply rtc_once; exact (step_load (st None) [] ls o eq_refl)].
    destruct c as [c|]; [|done]. apply rtc_once.
    apply (step_exchange_failed (st (Some c)) [] ls o c true i i); [done|].
    unfold AtomicU64_compare_exchange_weak. by case_decide. }
  eapply rtc_l; [|exact Hrun]. apply (step_exchange s1 [] ls o i i); [done|].
  unfold AtomicU64_compare_exchange_weak. simpl. by rewrite decide_True.
Qed.
End threads.

(** What any interleaving of threads does to an atomic number *)
Definition linearizable {T} `{AtomicLaws T} : Prop :=
  ∀ (x : T) s, rep x → rtc atomic_step (atomic_init x) s →
    explains x (log s) (atomic_get (inner s)) ∧ called s ≡ₚ (log s).*1 ++ (l_op <$> loops s) ∧
    ∃ s', rtc atomic_step s s' ∧ loops s' = [] ∧ called s' = called s.

Lemma atomic_linearizable {T} `{AtomicLaws T} : linearizable.
Proof.
  intros x s Hx Hrun. destruct (atomic_run_inv x s Hx Hrun) as [y [Hr Hi Hl _ Hc]].
  rewrite Hi, rep_get by done. split; [done|]. split; [done|]. apply loops_finish.
Qed.

(** C40. However threads interleave their calls of [set], [get], [swap], [inc_by] and
    [dec_by] on a float, signed or unsigned atomic number, each call that has finished
    took effect exactly once, in an order in which every call finds what those before it
    have left, calls still in their loop have had no effect, and the loops can finish. *)
Theorem atomics_linearizable :
  linearizable (H0 := AtomicF64_laws) ∧ linearizable (H0 := AtomicI64_laws) ∧ linearizable (H0 := AtomicU64_laws).
Proof. split_and!; apply atomic_linearizable. Qed.

(** Two threads add 1 and 2 to a float; the exchange of the first fails because the second
    gets in between. *)
Example atomics_linearizable_holds :
  let one := f64_of_Z 1 in let two := f64_of_Z 2 in
  ∃ s : atomic_state, rtc atomic_step (atomic_init f64_zero) s ∧
    log s = [(OpIncBy two, f64_zero); (OpIncBy one, two)] ∧ atomic_get (inner s) = f64_of_Z 3 ∧
    explains f64_zero (log s) (atomic_get (inner s)).
Proof.
  intros one two. pose (z := atomic_new f64_zero).
  pose (loop o c := {| l_op := OpIncBy o; l_current := c |} : looping (T := f64)).
  pose (st ls cs := {| inner := z; loops := ls; called := cs; log := [] |} : atomic_state (T := f64)).
  pose (both := [OpIncBy two; OpIncBy one]).
  pose (s1 := st [loop one (Some z); loop two (Some z)] both).
  pose (i := update (OpIncBy two) z). pose (lg := [(OpIncBy two, atomic_get z)]).
  pose (s2 c := {| inner := i; loops := [loop one (Some c)]; called := [OpIncBy two; OpIncBy one]; log := lg |}).
  pose (s3 := {| inner := update (OpIncBy one) i; loops := []; called := [OpIncBy two; OpIncBy one];
                 log := lg ++ [(OpIncBy one, atomic_get i)] |} : atomic_state (T := f64)).
  assert (Hrun : rtc atomic_step (atomic_init f64_zero) s3).
  { eapply rtc_l with (st [loop two None] [OpIncBy two]); [exact (step_enter (atomic_init f64_zero) (OpIncBy two) eq_refl eq_refl)|].
    eapply rtc_l with (st [loop two (Some z)] [OpIncBy two]);
      [exact (step_load (st [loop two None] [OpIncBy two]) [] [] (OpIncBy two) eq_refl)|].
    eapply rtc_l with (st [loop one None; loop two (Some z)] both);
      [exact (step_enter (st [loop two (Some z)] [OpIncBy two]) (OpIncBy one) eq_refl eq_refl)|].
    eapply rtc_l with s1;
      [exact (step_load (st [loop one None; loop two (Some z)] both) [] [loop two (Some z)] (OpIncBy one) eq_refl)|].
    eapply rtc_l with (s2 z); [eapply (step_exchange s1 [loop one (Some z)] [] (OpIncBy two) z z); reflexivity|].
    pose (failed := {| inner := i; loops := [loop one None]; called := both; log := lg |} : atomic_state (T := f64)).
    eapply rtc_l with failed; [eapply (step_exchange_failed (s2 z) [] [] (OpIncBy one) z false i); vm_compute; reflexivity|].
    eapply rtc_l with (s2 i); [exact (step_load failed [] [] (OpIncBy one) eq_refl)|].
    apply rtc_once. eapply (step_exchange (s2 i) [] [] (OpIncBy one) i i); vm_compute; reflexivity. }
  exists s3. split; [exact Hrun|]. split; [vm_compute; reflexivity|]. split; [vm_compute; reflexivity|].
  exact (proj1 (proj1 atomics_linearizable f64_zero s3 eq_refl Hrun)).
Defined.
