(* ===== verification/MetricVec.v ===== *)
(** * Vectors of metrics: [prometheus/src/vec.rs]

    A vector builds one metric per combination of label values on first use.  The
    kind of metric is a builder; a metric is shared, so [M] are references and the
    builder extends the store [S] they point to. *)
From Stdlib Require Import ZArith Lia.
From S2P Require Import Prelude BTree Metrics MetricsFacts.
Local Open Scope Z_scope.

Section vec.
Context (fnv : bytes → Z).
(** [MetricVecBuilder] *)
Context {M P S : Type} (build : P → list string → S → MetricsResult (M * S)) (metric_of : M → S → Metric).
(** how a missing combination is printed *)
Context (debug_vals : list string → string) (debug_labels : gmap string string → string).

Record MetricVecCore := {
  children : gmap Z M;
  v_desc : Desc;
  v_metric_type : MetricType;
  opts : P;
}.

Definition set_children (c : gmap Z M) (v : MetricVecCore) : MetricVecCore :=
  {| children := c; v_desc := v_desc v; v_metric_type := v_metric_type v; opts := opts v |}.

(** [MetricVec::create] *)
Definition create (describe : P → MetricsResult Desc) (t : MetricType) (opts : P) : MetricsResult MetricVecCore :=
  desc ← describe opts;
  Ok {| children := ∅; v_desc := desc; v_metric_type := t; opts := opts |}.

(** the children in the order the map yields them *)
Definition collect (v : MetricVecCore) (s : S) : MetricFamily :=
  {| mf_name := d_fq_name (v_desc v); mf_help := d_help (v_desc v); field_type := v_metric_type v;
     metric := (λ kv, metric_of kv.2 s) <$> map_to_list (children v) |}.

Definition variables (v : MetricVecCore) : list string := d_variable_labels (v_desc v).

Definition hash_label_values (v : MetricVecCore) (vals : list string) : MetricsResult Z :=
  if decide (length vals ≠ length (variables v)) then
    Err (InconsistentCardinality (length (variables v)) (length vals)) else
  Ok (fnv (vals ≫= as_bytes)).

(** the values of a label map in the order of the names; [hash_labels] writes them
    as it finds them *)
Fixpoint get_label_values (names : list string) (labels : gmap string string) : MetricsResult (list string) :=
  match names with
  | [] => Ok []
  | n :: names =>
      val ← ok_or (labels !! n) (Msg (String.append "label name " (String.append n " missing in label map")));
      vals ← get_label_values names labels;
      Ok (val :: vals)
  end.

Definition hash_labels (v : MetricVecCore) (labels : gmap string string) : MetricsResult Z :=
  if decide (size labels ≠ length (variables v)) then
    Err (InconsistentCardinality (length (variables v)) (size labels)) else
  vals ← get_label_values (variables v) labels;
  Ok (fnv (vals ≫= as_bytes)).

Definition get_or_create_metric (v : MetricVecCore) (hash : Z) (label_values : list string) (s : S)
    : MetricsResult M * MetricVecCore * S :=
  match children v !! hash with
  | Some metric => (Ok metric, v, s)
  | None =>
      match build (opts v) label_values s with
      | Ok (metric, s') => (Ok metric, set_children (<[hash := metric]> (children v)) v, s')
      | Err e => (Err e, v, s)
      end
  end.

Definition get_metric_with_label_values (v : MetricVecCore) (vals : list string) (s : S)
    : MetricsResult M * MetricVecCore * S :=
  match hash_label_values v vals with
  | Err e => (Err e, v, s)
  | Ok h =>
      match children v !! h with
      | Some metric => (Ok metric, v, s)
      | None => get_or_create_metric v h vals s
      end
  end.

Definition get_metric_with (v : MetricVecCore) (labels : gmap string string) (s : S)
    : MetricsResult M * MetricVecCore * S :=
  match hash_labels v labels with
  | Err e => (Err e, v, s)
  | Ok h =>
      match children v !! h with
      | Some metric => (Ok metric, v, s)
      | None =>
          match get_label_values (variables v) labels with
          | Err e => (Err e, v, s)
          | Ok vals => get_or_create_metric v h vals s
          end
      end
  end.

Definition remove_child (h : Z) (missing : string) (v : MetricVecCore) : MetricsResult unit * MetricVecCore :=
  match children v !! h with
  | None => (Err (Msg missing), v)
  | Some _ => (Ok tt, set_children (delete h (children v)) v)
  end.

Definition delete_label_values (v : MetricVecCore) (vals : list string) : MetricsResult unit * MetricVecCore :=
  match hash_label_values v vals with
  | Err e => (Err e, v)
  | Ok h => remove_child h (String.append "missing label values " (debug_vals vals)) v
  end.

Definition delete_labels (v : MetricVecCore) (labels : gmap string string) : MetricsResult unit * MetricVecCore :=
  match hash_labels v labels with
  | Err e => (Err e, v)
  | Ok h => remove_child h (String.append "missing labels " (debug_labels labels)) v
  end.

Definition reset (v : MetricVecCore) : MetricVecCore := set_children ∅ v.

(** ** Facts *)

Lemma get_twice v vals s :
  get_metric_with_label_values v vals s =
    match hash_label_values v vals with
    | Err e => (Err e, v, s)
    | Ok h => get_or_create_metric v h vals s
    end.
Proof.
  unfold get_metric_with_label_values. destruct (hash_label_values v vals) as [h|]; [|done].
  unfold get_or_create_metric. by destruct (children v !! h).
Qed.

Lemma hash_label_values_children c v vals : hash_label_values (set_children c v) vals = hash_label_values v vals.
Proof. done. Qed.

(** Asking again, for the same values or for any whose bytes run together to the same
    string, gives the metric that was built the first time and builds nothing. *)
Lemma get_again v vals vals' s m v' s' s'' :
  get_metric_with_label_values v vals s = (Ok m, v', s') →
  length vals' = length vals → vals' ≫= as_bytes = vals ≫= as_bytes →
  get_metric_with_label_values v' vals' s'' = (Ok m, v', s'').
Proof.
  rewrite !get_twice. intros Hget Hlen Hb.
  destruct (hash_label_values v vals) as [h|] eqn:Eh; [|done].
  assert (Hh : hash_label_values v' vals' = Ok h ∧ children v' !! h = Some m).
  { unfold get_or_create_metric in Hget. unfold hash_label_values in *. rewrite Hlen, Hb.
    destruct (children v !! h) as [m0|] eqn:Ec; [by simplify_eq|].
    destruct (build (opts v) vals s) as [[m0 s0]|]; simplify_eq. simpl. by rewrite lookup_insert_eq. }
  destruct Hh as [-> Hc]. unfold get_or_create_metric. by rewrite Hc.
Qed.

(** The same combination of label values is always the same metric, built once. *)
Theorem vec_get_stable v vals s m v' s' s'' :
  get_metric_with_label_values v vals s = (Ok m, v', s') →
  get_metric_with_label_values v' vals s'' = (Ok m, v', s'').
Proof. intros Hget. by eapply get_again. Qed.

(** Values are told apart only by the bytes they run together to: [["ab"; "c"]] and
    [["a"; "bc"]] are counted in one metric, under the labels of whichever came first. *)
Theorem vec_label_collision v vals vals' s m v' s' s'' :
  get_metric_with_label_values v vals s = (Ok m, v', s') →
  length vals' = length vals → vals' ≫= as_bytes = vals ≫= as_bytes →
  get_metric_with_label_values v' vals' s'' = (Ok m, v', s'').
Proof. apply get_again. Qed.

Lemma get_label_values_Ok names labels vals :
  Forall2 (λ n x, labels !! n = Some x) names vals → get_label_values names labels = Ok vals.
Proof. induction 1 as [|n x names vals Hx H IH]; simpl; [done|]. by rewrite Hx, IH. Qed.

Lemma Forall2_zip_map names vals :
  NoDup names → length names = length vals →
  Forall2 (λ n x, (list_to_map (zip names vals) : gmap string string) !! n = Some x) names vals.
Proof.
  intros Hnd Hlen. apply Forall2_same_length_lookup. split; [done|]. intros i n x Hn Hx.
  apply elem_of_list_to_map_1.
  - rewrite fst_zip by lia. done.
  - apply list_elem_of_lookup. exists i. by rewrite lookup_zip_with, Hn; simpl; rewrite Hx.
Qed.

Lemma size_zip_map names (vals : list string) :
  NoDup names → length names = length vals →
  size (list_to_map (zip names vals) : gmap string string) = length names.
Proof.
  intros Hnd Hlen. rewrite <-size_dom, dom_list_to_map_L, fst_zip by lia. by apply size_list_to_set.
Qed.

(** A map from the label names to values is the list of the values in the order of
    the names: both ways of asking give the same metric and the same vector. *)
Theorem vec_labels_agree v vals s :
  NoDup (variables v) → length vals = length (variables v) →
  get_metric_with v (list_to_map (zip (variables v) vals)) s = get_metric_with_label_values v vals s.
Proof.
  intros Hnd Hlen. unfold get_metric_with, get_metric_with_label_values, hash_labels, hash_label_values.
  rewrite size_zip_map, !decide_False by (done || lia).
  rewrite (get_label_values_Ok _ _ vals) by by apply Forall2_zip_map. done.
Qed.

(** After a deletion the combination is built anew; the other metrics stay. *)
Theorem vec_delete_spec v vals h :
  hash_label_values v vals = Ok h → is_Some (children v !! h) →
  ∃ v', delete_label_values v vals = (Ok tt, v') ∧
    (∀ s, get_metric_with_label_values v' vals s =
          match build (opts v) vals s with
          | Ok (m, s') => (Ok m, set_children (<[h := m]> (children v)) v, s')
          | Err e => (Err e, v', s)
          end) ∧
    ∀ h', h' ≠ h → children v' !! h' = children v !! h'.
Proof.
  intros Hh [m Hm]. unfold delete_label_values, remove_child. rewrite Hh, Hm. eexists. split; [done|]. split.
  - intros s. rewrite get_twice, hash_label_values_children, Hh. unfold get_or_create_metric. simpl.
    rewrite lookup_delete_eq. destruct (build (opts v) vals s) as [[m' s']|]; [|done].
    unfold set_children. simpl. by rewrite insert_delete_eq.
  - intros h' Hne. simpl. by rewrite lookup_delete_ne.
Qed.
End vec.

(** ** A vector of two labels, with numbers for references *)
Module VecRun.
Definition hash (b : bytes) : Z := foldl (λ h x, h * 256 + Z.of_N (Byte.to_N x) + 1) 0 b.
Definition build (_ : unit) (_ : list string) (s : nat) : MetricsResult (nat * nat) := Ok (s, S s).
Definition desc : Desc :=
  {| d_fq_name := "requests"; d_help := "h"; const_label_pairs := []; d_variable_labels := ["code"; "method"];
     id := 0; dim_hash := 0 |}.
Definition v0 : MetricVecCore (M := nat) (P := unit) :=
  {| children := ∅; v_desc := desc; v_metric_type := COUNTER; opts := tt |}.
Definition get (v : MetricVecCore (M := nat)) := get_metric_with_label_values hash build v.
Definition v1 : MetricVecCore := (get v0 ["ab"; "c"] 0%nat).1.2.
End VecRun.

Example vec_get_stable_holds :
  VecRun.get VecRun.v0 ["ab"; "c"] 0%nat = (Ok 0%nat, VecRun.v1, 1%nat) ∧
  VecRun.get VecRun.v1 ["ab"; "c"] 1%nat = (Ok 0%nat, VecRun.v1, 1%nat).
Proof.
  assert (H0 : VecRun.get VecRun.v0 ["ab"; "c"] 0%nat = (Ok 0%nat, VecRun.v1, 1%nat)) by reflexivity.
  split; [exact H0|].
  exact (vec_get_stable VecRun.hash VecRun.build VecRun.v0 ["ab"; "c"] 0%nat 0%nat VecRun.v1 1%nat 1%nat H0).
Defined.

Example vec_label_collision_holds :
  VecRun.get VecRun.v0 ["ab"; "c"] 0%nat = (Ok 0%nat, VecRun.v1, 1%nat) ∧
  VecRun.get VecRun.v1 ["a"; "bc"] 1%nat = (Ok 0%nat, VecRun.v1, 1%nat).
Proof.
  assert (H0 : VecRun.get VecRun.v0 ["ab"; "c"] 0%nat = (Ok 0%nat, VecRun.v1, 1%nat)) by reflexivity.
  split; [exact H0|].
  exact (vec_label_collision VecRun.hash VecRun.build VecRun.v0 ["ab"; "c"] ["a"; "bc"] 0%nat 0%nat VecRun.v1
           1%nat 1%nat H0 eq_refl eq_refl).
Defined.

Example vec_labels_agree_holds :
  NoDup (variables VecRun.v0) ∧
  get_metric_with VecRun.hash VecRun.build VecRun.v0 {[ "code" := "200"; "method" := "GET" ]} 0%nat =
  VecRun.get VecRun.v0 ["200"; "GET"] 0%nat.
Proof.
  assert (Hnd : NoDup (variables VecRun.v0)) by (apply (bool_decide_unpack _); vm_compute; exact I).
  split; [exact Hnd|].
  exact (vec_labels_agree VecRun.hash VecRun.build VecRun.v0 ["200"; "GET"] 0%nat Hnd eq_refl).
Defined.

Example vec_delete_spec_holds :
  let h := VecRun.hash (as_bytes "abc") in
  hash_label_values VecRun.hash VecRun.v1 ["ab"; "c"] = Ok h ∧ is_Some (children VecRun.v1 !! h) ∧
  ∃ v', delete_label_values VecRun.hash (λ _, "") VecRun.v1 ["ab"; "c"] = (Ok tt, v') ∧
    (VecRun.get v' ["ab"; "c"] 5%nat).1.1 = Ok 5%nat.
Proof.
  intros h.
  assert (Hh : hash_label_values VecRun.hash VecRun.v1 ["ab"; "c"] = Ok h) by reflexivity.
  assert (Hs : is_Some (children VecRun.v1 !! h)) by (exists 0%nat; reflexivity).
  split; [exact Hh|]. split; [exact Hs|].
  destruct (vec_delete_spec VecRun.hash VecRun.build (λ _, "") VecRun.v1 ["ab"; "c"] h Hh Hs)
    as (v' & Hd & Hg & _).
  exists v'. split; [exact Hd|]. unfold VecRun.get. rewrite (Hg 5%nat). reflexivity.
Defined.
