(* ===== verification/Registry.v ===== *)
(** * The metric registry: [prometheus/src/registry.rs]

    A registered collector is anything with descriptors and a way to collect; what
    collecting returns depends on the metrics at that moment and is a parameter. *)
From Stdlib Require Import ZArith Lia Sorted Ascii.
From S2P Require Import Prelude BTree Metrics.
Local Open Scope Z_scope.

(** The trait [Collector] *)
Class Collector (C : Type) := {
  desc : C → list Desc;
  collect : C → list MetricFamily;
}.

Section registry.
Context `{Collector C}.

Record RegistryCore := {
  collectors_by_id : gmap Z C;
  dim_hashes_by_name : gmap string Z;
  desc_ids : gset Z;
  labels : option (gmap string string);
  prefix : option string;
}.

Definition RegistryCore_default : RegistryCore :=
  {| collectors_by_id := ∅; dim_hashes_by_name := ∅; desc_ids := ∅; labels := None; prefix := None |}.

Definition new_custom (prefix : option string) (labels : option (gmap string string)) : MetricsResult RegistryCore :=
  if decide (prefix = Some "") then Err (Msg "empty prefix namespace") else
  Ok {| collectors_by_id := ∅; dim_hashes_by_name := ∅; desc_ids := ∅; labels := labels; prefix := prefix |}.

Definition set_dims (d : gmap string Z) (r : RegistryCore) : RegistryCore :=
  {| collectors_by_id := collectors_by_id r; dim_hashes_by_name := d; desc_ids := desc_ids r;
     labels := labels r; prefix := prefix r |}.

Definition contains (c : C) (r : RegistryCore) : bool :=
  existsb (λ d, bool_decide (id d ∈ desc_ids r)) (desc c).

(** how descriptors and strings are printed with [{:?}] *)
Context (debug_desc : Desc → string) (debug_descs : list Desc → string) (debug_string : string → string).

(** The loop of [register] over the descriptors; [dim_hashes_by_name] is extended as
    it goes, also when it fails later on. *)
Fixpoint register_descs (ds : list Desc) (desc_id_set : gset Z) (collector_id : Z) (r : RegistryCore)
    : MetricsResult (gset Z * Z) * RegistryCore :=
  match ds with
  | [] => (Ok (desc_id_set, collector_id), r)
  | d :: ds =>
      if decide (id d ∈ desc_ids r) then (Err AlreadyReg, r) else
      if match dim_hashes_by_name r !! d_fq_name d with
         | Some hash => bool_decide (hash ≠ dim_hash d)
         | None => false
         end then
        (Err (Msg (String.append "a previously registered descriptor with the same fully-qualified name as "
                    (String.append (debug_desc d) " has different label names or a different help string"))), r) else
      let r := set_dims (<[d_fq_name d := dim_hash d]> (dim_hashes_by_name r)) r in
      if decide (id d ∈ desc_id_set) then
        (Err (Msg (String.append "a duplicate descriptor within the same collector the same fully-qualified name: "
                    (debug_string (d_fq_name d)))), r) else
      register_descs ds ({[id d]} ∪ desc_id_set) (wrapping_add 64 collector_id (id d)) r
  end.

Definition register (c : C) (r : RegistryCore) : MetricsResult unit * RegistryCore :=
  match register_descs (desc c) ∅ 0 r with
  | (Ok (desc_id_set, collector_id), r) =>
      match collectors_by_id r !! collector_id with
      | None =>
          (Ok tt, {| collectors_by_id := <[collector_id := c]> (collectors_by_id r);
                     dim_hashes_by_name := dim_hashes_by_name r;
                     desc_ids := desc_id_set ∪ desc_ids r; labels := labels r; prefix := prefix r |})
      | Some _ => (Err AlreadyReg, r)
      end
  | (Err e, r) => (Err e, r)
  end.

Definition unregister_ids (ds : list Desc) : list Z * Z :=
  foldl (λ '(id_set, collector_id) d,
           if decide (id d ∈ id_set) then (id_set, collector_id)
           else (id_set ++ [id d], wrapping_add 64 collector_id (id d))) ([], 0) ds.

Definition unregister (c : C) (r : RegistryCore) : MetricsResult unit * RegistryCore :=
  let '(id_set, collector_id) := unregister_ids (desc c) in
  match collectors_by_id r !! collector_id with
  | None => (Err (Msg (String.append "collector " (String.append (debug_descs (desc c)) " is not registered"))), r)
  | Some _ =>
      (Ok tt, {| collectors_by_id := delete collector_id (collectors_by_id r);
                 dim_hashes_by_name := dim_hashes_by_name r;
                 desc_ids := foldl (λ ids i, ids ∖ {[i]}) (desc_ids r) id_set;
                 labels := labels r; prefix := prefix r |})
  end.

(** ** Gathering *)

Definition add_family (mf_by_name : list (string * MetricFamily)) (mf : MetricFamily)
    : list (string * MetricFamily) :=
  if decide (length (metric mf) = 0%nat) then mf_by_name else
  match bt_get (mf_name mf) mf_by_name with
  | None => bt_insert (mf_name mf) mf mf_by_name
  | Some existent_mf =>
      bt_insert (mf_name mf) (set_metric (metric existent_mf ++ metric mf) existent_mf) mf_by_name
  end.

(** the loop over the pairs of label values *)
Fixpoint values_cmp (lps1 lps2 : list LabelPair) : comparison :=
  match lps1, lps2 with
  | lp1 :: lps1, lp2 :: lps2 =>
      match String.compare (lp_value lp1) (lp_value lp2) with
      | Eq => values_cmp lps1 lps2
      | o => o
      end
  | _, _ => Eq
  end.

Definition metric_cmp (m1 m2 : Metric) : comparison :=
  if decide (length (label m1) ≠ length (label m2))
  then Nat.compare (length (label m1)) (length (label m2)) else
  match values_cmp (label m1) (label m2) with
  | Eq => Z.compare (timestamp_ms m1) (timestamp_ms m2)
  | o => o
  end.

Definition pairs_of_labels (hmap : gmap string string) : list LabelPair :=
  (λ kv, {| lp_name := kv.1; lp_value := kv.2 |}) <$> map_to_list hmap.

(** the namespace prefix and the common labels of the registry *)
Definition decorate (r : RegistryCore) (m : MetricFamily) : MetricFamily :=
  let m := match prefix r with
           | Some namespace => set_name (String.append namespace (String "_" (mf_name m))) m
           | None => m
           end in
  match labels r with
  | Some hmap => set_metric ((λ x, set_label (label x ++ pairs_of_labels hmap) x) <$> metric m) m
  | None => m
  end.

Definition collected (r : RegistryCore) : list MetricFamily :=
  (map_to_list (collectors_by_id r)).*2 ≫= collect.

(** what [gather] makes of the families that the collectors return *)
Definition gather_families (r : RegistryCore) (fams : list MetricFamily) : list MetricFamily :=
  let mf_by_name := foldl add_family [] fams in
  (λ kv, decorate r (set_metric (sort_by metric_cmp (metric kv.2)) kv.2)) <$> mf_by_name.

Definition gather (r : RegistryCore) : list MetricFamily := gather_families r (collected r).
End registry.
Arguments RegistryCore C : clear implicits.
