(* ===== verification/RegistryFacts.v ===== *)
(** * Facts about the registry: its invariant, registration and its inverse, and what
    gathering returns *)
From Stdlib Require Import ZArith Lia Sorted Ascii.
From S2P Require Import Prelude BTree Float64 Metrics Registry.
Local Open Scope Z_scope.

Set Default Proof Using "Type".

Section registry.
Context `{Collector C}.
Implicit Types (c : C) (r : RegistryCore C).

Definition ids (ds : list Desc) : list Z := id <$> ds.
Definition id_sum (acc : Z) (l : list Z) : Z := foldl (wrapping_add 64) acc l.

(** The registered descriptor ids are those of the registered collectors, no two
    collectors share one, and every registered name has its one [dim_hash]. *)
Record registry_ok r : Prop := {
  ok_key k c : collectors_by_id r !! k = Some c → NoDup (ids (desc c)) ∧ k = id_sum 0 (ids (desc c));
  ok_ids i : i ∈ desc_ids r ↔ ∃ k c, collectors_by_id r !! k = Some c ∧ i ∈ ids (desc c);
  ok_disjoint k1 c1 k2 c2 i :
    collectors_by_id r !! k1 = Some c1 → collectors_by_id r !! k2 = Some c2 →
    i ∈ ids (desc c1) → i ∈ ids (desc c2) → k1 = k2;
  ok_dims k c d :
    collectors_by_id r !! k = Some c → d ∈ desc c → dim_hashes_by_name r !! d_fq_name d = Some (dim_hash d);
}.

Lemma registry_ok_default : registry_ok RegistryCore_default.
Proof. split; simpl; set_solver. Qed.

Context (debug_desc : Desc → string) (debug_string : string → string).

(** The loop of [register] *)
Lemma register_descs_spec ds S cid r res r' :
  register_descs debug_desc debug_string ds S cid r = (res, r') →
  (collectors_by_id r' = collectors_by_id r ∧ desc_ids r' = desc_ids r ∧ labels r' = labels r ∧ prefix r' = prefix r) ∧
  dim_hashes_by_name r ⊆ dim_hashes_by_name r' ∧
  match res with
  | Ok (S', cid') =>
      S' = list_to_set (ids ds) ∪ S ∧ cid' = id_sum cid (ids ds) ∧ NoDup (ids ds) ∧
      (∀ i, i ∈ ids ds → i ∉ S ∧ i ∉ desc_ids r) ∧
      ∀ d, d ∈ ds → dim_hashes_by_name r' !! d_fq_name d = Some (dim_hash d)
  | Err _ => True
  end.
Proof.
  revert S cid r. induction ds as [|d ds IH]; intros S cid r; simpl.
  { intros [= <- <-]. repeat split; try done; [set_solver|constructor|set_solver..]. }
  case_decide as Hid; [by intros [= <- <-]|].
  destruct (match dim_hashes_by_name r !! d_fq_name d with Some _ => _ | None => _ end) eqn:Em;
    [by intros [= <- <-]|].
  assert (Hsub : dim_hashes_by_name r ⊆ <[d_fq_name d := dim_hash d]> (dim_hashes_by_name r)).
  { destruct (dim_hashes_by_name r !! d_fq_name d) as [h|] eqn:Eh; [|by apply insert_subseteq].
    apply bool_decide_eq_false, dec_stable in Em. subst h. by rewrite insert_id. }
  case_decide as Hdup; [by intros [= <- <-]|]. intros Hrest.
  destruct (IH _ _ _ Hrest) as ((Hc & Hi & Hl & Hp) & Hd & Hres). simpl in *.
  split; [done|]. split; [by etrans|]. destruct res as [[S' cid']|]; [|done].
  destruct Hres as (HS & Hcid & Hnd & Hfresh & Hdims). split; [subst S'; set_solver|]. split; [done|].
  split; [|split].
  - constructor; [|done]. intros Hin. destruct (Hfresh _ Hin). set_solver.
  - intros i Hin. apply elem_of_cons in Hin as [->|Hin]; [done|]. destruct (Hfresh i Hin). set_solver.
  - intros d' Hin. apply elem_of_cons in Hin as [->|Hin]; [|by apply Hdims].
    eapply lookup_weaken; [|exact Hd]. apply lookup_insert_eq.
Qed.

Lemma registry_ok_weaken r r' :
  collectors_by_id r' = collectors_by_id r → desc_ids r' = desc_ids r →
  dim_hashes_by_name r ⊆ dim_hashes_by_name r' → registry_ok r → registry_ok r'.
Proof.
  intros Hc Hi Hd [H1 H2 H3 H4]. split; rewrite ?Hc, ?Hi; try done.
  intros k c d Hk Hin. eapply lookup_weaken; [by eapply H4|done].
Qed.

(** What a successful registration has found and what it changes *)
Lemma register_Ok c r r' :
  register debug_desc debug_string c r = (Ok tt, r') →
  let k := id_sum 0 (ids (desc c)) in
  NoDup (ids (desc c)) ∧ (∀ i, i ∈ ids (desc c) → i ∉ desc_ids r) ∧ collectors_by_id r !! k = None ∧
  collectors_by_id r' = <[k := c]> (collectors_by_id r) ∧
  desc_ids r' = list_to_set (ids (desc c)) ∪ desc_ids r ∧
  dim_hashes_by_name r ⊆ dim_hashes_by_name r' ∧
  (∀ d, d ∈ desc c → dim_hashes_by_name r' !! d_fq_name d = Some (dim_hash d)) ∧
  labels r' = labels r ∧ prefix r' = prefix r.
Proof.
  unfold register. destruct (register_descs _ _ _ _ _ _) as [res r1] eqn:E.
  apply register_descs_spec in E as ((Hc & Hi & Hl & Hp) & Hd & Hres).
  destruct res as [[S cid]|]; [|done]. destruct Hres as (-> & -> & Hnd & Hfresh & Hdims).
  destruct (collectors_by_id r1 !! _) eqn:Ek; [done|]. intros [= <-]. simpl. rewrite Hc in *. rewrite Hi.
  split; [done|]. split; [intros i Hin; by apply Hfresh|]. repeat split; try done. set_solver.
Qed.

(** Registering and the invariant *)
Lemma register_keeps c r res r' :
  registry_ok r → register debug_desc debug_string c r = (res, r') →
  registry_ok r' ∧
  match res with
  | Ok _ => collectors_by_id r' !! id_sum 0 (ids (desc c)) = Some c ∧
            (∀ k c', collectors_by_id r !! k = Some c' → collectors_by_id r' !! k = Some c')
  | Err _ => collectors_by_id r' = collectors_by_id r ∧ desc_ids r' = desc_ids r
  end.
Proof.
  intros Hok Hreg. destruct res as [[]|e].
  - apply register_Ok in Hreg as (Hnd & Hfresh & Hk & Hc & Hi & Hd & Hdims & _). split.
    2:{ rewrite Hc. split; [by rewrite lookup_insert_eq|]. intros k c' Hk'. rewrite lookup_insert_ne; congruence. }
    destruct Hok as [H1 H2 H3 H4].
    assert (Hsome : ∀ k c', collectors_by_id r' !! k = Some c' ↔
      (k = id_sum 0 (ids (desc c)) ∧ c' = c) ∨ collectors_by_id r !! k = Some c').
    { intros k c'. rewrite Hc, lookup_insert_Some. split; [naive_solver|].
      intros [[-> ->]|Hl]; [by left|]. right. split; [congruence|done]. }
    split.
    + intros k c' [[-> ->]|Hl]%Hsome; [done|by apply H1].
    + intros i. rewrite Hi, elem_of_union, elem_of_list_to_set, H2. setoid_rewrite Hsome. naive_solver.
    + intros k1 c1 k2 c2 i [[-> ->]|Hl1]%Hsome [[-> ->]|Hl2]%Hsome Hi1 Hi2; [done|..|by eapply H3].
      * destruct (Hfresh i Hi1). apply H2. eauto.
      * destruct (Hfresh i Hi2). apply H2. eauto.
    + intros k c' d [[-> ->]|Hl]%Hsome Hin; [by apply Hdims|].
      eapply lookup_weaken; [by eapply H4|done].
  - unfold register in Hreg. destruct (register_descs _ _ _ _ _ _) as [res r1] eqn:E.
    apply register_descs_spec in E as ((Hc & Hi & _) & Hd & _).
    assert (r' = r1) as ->.
    { destruct res as [[S cid]|]; [destruct (collectors_by_id r1 !! cid)|]; by simplify_eq. }
    split; [by eapply registry_ok_weaken|done].
Qed.

(** C29. Registering keeps the registry consistent whether it succeeds or not; a failure
    changes neither the collectors nor the descriptor ids. *)
Theorem register_spec c r res r' :
  registry_ok r → register debug_desc debug_string c r = (res, r') →
  registry_ok r' ∧
  match res with
  | Ok _ => collectors_by_id r' !! id_sum 0 (ids (desc c)) = Some c ∧
            (∀ k c', collectors_by_id r !! k = Some c' → collectors_by_id r' !! k = Some c')
  | Err _ => collectors_by_id r' = collectors_by_id r ∧ desc_ids r' = desc_ids r
  end.
Proof. apply register_keeps. Qed.

Lemma unregister_ids_spec ds :
  NoDup (ids ds) → unregister_ids ds = (ids ds, id_sum 0 (ids ds)).
Proof.
  unfold unregister_ids. induction ds as [|d ds IH] using rev_ind; [done|].
  unfold ids, id_sum in *. rewrite fmap_app, foldl_app. intros (Hnd & Hni & _)%NoDup_app.
  rewrite IH by done. simpl. rewrite decide_False, foldl_app; [done|].
  intros Hin. apply (Hni _ Hin). simpl. apply list_elem_of_singleton. done.
Qed.

Lemma foldl_difference (l : list Z) (s : gset Z) : foldl (λ ids i, ids ∖ {[i]}) s l = s ∖ list_to_set l.
Proof. revert s. induction l as [|i l IH]; intros s; simpl; [set_solver|]. rewrite IH. set_solver. Qed.

Context (debug_descs : list Desc → string).

(** Unregistering what was registered last gives the former collectors and ids back;
    only the dimensions recorded for its names stay. *)
Theorem register_unregister c r r' :
  registry_ok r → register debug_desc debug_string c r = (Ok tt, r') →
  ∃ r'', unregister debug_descs c r' = (Ok tt, r'') ∧
    collectors_by_id r'' = collectors_by_id r ∧ desc_ids r'' = desc_ids r ∧
    dim_hashes_by_name r ⊆ dim_hashes_by_name r'' ∧ labels r'' = labels r ∧ prefix r'' = prefix r.
Proof.
  intros Hok Hreg. apply register_Ok in Hreg as (Hnd & Hfresh & Hk & Hc & Hi & Hd & _ & Hl & Hp).
  unfold unregister. rewrite unregister_ids_spec, Hc, lookup_insert_eq by done. eexists. split; [done|]. simpl.
  rewrite delete_insert_id, Hi, foldl_difference by done. repeat split; try done. set_solver.
Qed.

(** Where every collector has one descriptor, the key of a collector is its id: then
    unregistering removes the collector with that descriptor and nothing else. *)
Lemma unregister_keeps_single c d r res r' :
  desc c = [d] → fits 64 (id d) →
  (∀ k c', collectors_by_id r !! k = Some c' → ∃ d', desc c' = [d'] ∧ fits 64 (id d')) →
  registry_ok r → unregister debug_descs c r = (res, r') →
  registry_ok r' ∧ labels r' = labels r ∧ prefix r' = prefix r ∧
  match res with
  | Ok _ => is_Some (collectors_by_id r !! id d) ∧ collectors_by_id r' = delete (id d) (collectors_by_id r)
  | Err _ => r' = r ∧ collectors_by_id r !! id d = None
  end.
Proof.
  intros Hd Hfit Hone Hok. unfold unregister. rewrite unregister_ids_spec by (rewrite Hd; apply NoDup_singleton).
  assert (Hkey : ∀ d, fits 64 (id d) → id_sum 0 (ids [d]) = id d).
  { intros d' Hf. unfold id_sum, ids. simpl. unfold wrapping_add. by rewrite Z.add_0_l, wrap_id. }
  rewrite Hd, Hkey by done. destruct (collectors_by_id r !! id d) as [c0|] eqn:E; intros [= <- <-]; [|by split_and!].
  split; [|by split_and!]. destruct Hok as [H1 H2 H3 H4].
  destruct (Hone _ _ E) as (d0 & Hd0 & Hf0). destruct (H1 _ _ E) as [_ Hk0]. rewrite Hd0, Hkey in Hk0 by done.
  split; simpl.
  - intros k c' [Hne Hc]%lookup_delete_Some. by apply H1.
  - intros i. rewrite elem_of_difference, H2, elem_of_singleton. split.
    + intros [(k & c' & Hc & Hi) Hne]. exists k, c'. split; [|done]. apply lookup_delete_Some. split; [|done].
      intros <-. rewrite E in Hc. injection Hc as <-. rewrite Hd0 in Hi. unfold ids in Hi.
      apply list_elem_of_singleton in Hi. congruence.
    + intros (k & c' & [Hne Hc]%lookup_delete_Some & Hi). split; [by eauto|]. intros ->.
      apply Hne. symmetry. apply (H3 k c' (id d) c0 (id d)); [done|done|done|].
      rewrite Hd0, Hk0. unfold ids. apply list_elem_of_singleton. done.
  - intros k1 c1 k2 c2 i [_ Hc1]%lookup_delete_Some [_ Hc2]%lookup_delete_Some. by eapply H3.
  - intros k c' d' [_ Hc]%lookup_delete_Some. by eapply H4.
Qed.

(** A collector with a descriptor that is registered is refused. *)
Lemma register_twice c r d :
  d ∈ desc c → id d ∈ desc_ids r → ∃ e r', register debug_desc debug_string c r = (Err e, r').
Proof.
  intros Hd Hid. destruct (register debug_desc debug_string c r) as [[[]|e] r'] eqn:E; [|by eauto].
  apply register_Ok in E as (_ & Hfresh & _). destruct (Hfresh (id d)); [|done].
  apply list_elem_of_fmap. by exists d.
Qed.

Lemma contains_spec c r : contains c r = true ↔ ∃ d, d ∈ desc c ∧ id d ∈ desc_ids r.
Proof.
  unfold contains. rewrite existsb_exists. setoid_rewrite bool_decide_eq_true.
  by setoid_rewrite <-list_elem_of_In.
Qed.

(** ** Gathering *)




(** all the metrics of the families of a name, in order *)
Definition metrics_named (n : string) (fams : list MetricFamily) : list Metric :=
  fams ≫= λ mf, if decide (mf_name mf = n) then metric mf else [].

Lemma metrics_named_snoc n fams mf :
  metrics_named n (fams ++ [mf]) = metrics_named n fams ++ if decide (mf_name mf = n) then metric mf else [].
Proof. unfold metrics_named. rewrite bind_app. simpl. by rewrite app_nil_r. Qed.

Definition families_ok (fams : list MetricFamily) (acc : list (string * MetricFamily)) : Prop :=
  bt_sorted acc ∧
  (∀ n mf, bt_get n acc = Some mf → mf_name mf = n ∧ metric mf = metrics_named n fams ∧ metric mf ≠ []) ∧
  (∀ n, bt_get n acc = None → metrics_named n fams = []).

Lemma add_family_ok fams acc mf : families_ok fams acc → families_ok (fams ++ [mf]) (add_family acc mf).
Proof.
  intros (Hs & Hsome & Hnone). unfold add_family. case_decide as Hlen.
  { apply nil_length_inv in Hlen.
    assert (Hm : ∀ n, metrics_named n (fams ++ [mf]) = metrics_named n fams).
    { intros n. rewrite metrics_named_snoc, Hlen. case_decide; apply app_nil_r. }
    split; [done|]. split; intros n; rewrite Hm; auto. }
  assert (Hne : metric mf ≠ []) by by destruct (metric mf).
  destruct (bt_get (mf_name mf) acc) as [ex|] eqn:E.
  - destruct (Hsome _ _ E) as (Hn & Hm & Hx). split; [by apply bt_insert_sorted|].
    split; intros n; rewrite bt_get_insert, metrics_named_snoc; case_decide as Heq; subst.
    + intros mf' [= <-]. simpl. rewrite decide_True, Hm by done. split; [done|]. split; [done|].
      rewrite <-Hm. by destruct (metric ex).
    + intros mf' Hget. rewrite decide_False, app_nil_r by congruence. by apply Hsome.
    + done.
    + intros Hget. rewrite decide_False, app_nil_r by congruence. by apply Hnone.
  - split; [by apply bt_insert_sorted|].
    split; intros n; rewrite bt_get_insert, metrics_named_snoc; case_decide as Heq; subst.
    + intros mf' [= <-]. rewrite decide_True, (Hnone _ E) by done. done.
    + intros mf' Hget. rewrite decide_False, app_nil_r by congruence. by apply Hsome.
    + done.
    + intros Hget. rewrite decide_False, app_nil_r by congruence. by apply Hnone.
Qed.

Lemma families_ok_collected fams : families_ok fams (foldl add_family [] fams).
Proof.
  induction fams as [|mf fams IH] using rev_ind; [by split; [constructor|split]|].
  rewrite foldl_app. by apply add_family_ok.
Qed.

Lemma add_families_distinct acc fams :
  NoDup (mf_name <$> fams) → (∀ mf, mf ∈ fams → bt_get (mf_name mf) acc = None ∧ metric mf ≠ []) →
  foldl add_family acc fams = foldl (λ m kv, bt_insert kv.1 kv.2 m) acc ((λ mf, (mf_name mf, mf)) <$> fams).
Proof.
  revert acc. induction fams as [|mf fams IH]; intros acc Hnd Hall; [done|].
  rewrite fmap_cons in *. apply NoDup_cons in Hnd as [Hni Hnd]. cbn [foldl fst snd].
  destruct (Hall mf) as [Hn Hm]; [by left|].
  assert (Ha : add_family acc mf = bt_insert (mf_name mf) mf acc).
  { unfold add_family. rewrite decide_False by (intros ?%nil_length_inv; done). by rewrite Hn. }
  rewrite Ha. apply IH; [done|]. intros mf' Hin. rewrite bt_get_insert.
  rewrite decide_False; [apply Hall; by right|].
  intros Heq. apply Hni, list_elem_of_fmap. by exists mf'.
Qed.

(** Families with names of their own and one metric each are gathered as they are, in
    the order of their names. *)
Lemma gather_distinct r fams :
  labels r = None → prefix r = None → collected r ≡ₚ fams →
  StronglySorted klt (mf_name <$> fams) → (∀ mf, mf ∈ fams → ∃ m, metric mf = [m]) →
  gather r = fams.
Proof.
  intros Hl Hp Hperm Hs Hone.
  assert (Hnd : NoDup (mf_name <$> fams)).
  { clear -Hs. induction Hs as [|x xs _ IH Hf]; constructor; [|done]. rewrite Forall_forall in Hf.
    intros Hin. by destruct (klt_irrefl x (Hf x Hin)). }
  set (named := λ mf, (mf_name mf, mf)).
  assert (Hkeys : ∀ l : list MetricFamily, (named <$> l).*1 = mf_name <$> l)
    by (intros l; by rewrite <-list_fmap_compose).
  assert (Hacc : foldl add_family [] (collected r) = named <$> fams).
  { rewrite add_families_distinct.
    - apply bt_sorted_ext; [apply bt_from_list_sorted|unfold bt_sorted; by rewrite Hkeys|].
      intros [n mf]. rewrite <-(bt_get_elem_iff n mf (foldl _ _ _)) by apply bt_from_list_sorted.
      change (foldl _ [] ?l) with (bt_from_list l). rewrite bt_from_list_NoDup by by rewrite Hkeys, Hperm.
      by rewrite Hperm.
    - by rewrite Hperm.
    - intros mf Hin. split; [done|]. rewrite Hperm in Hin. destruct (Hone mf Hin) as [m ->]. done. }
  unfold gather, gather_families. rewrite Hacc. rewrite <-list_fmap_compose. rewrite <-(list_fmap_id fams) at 2.
  apply list_fmap_ext. intros i mf Hi. unfold decorate. rewrite Hl, Hp. simpl.
  destruct (Hone mf) as [m Hm]; [by apply list_elem_of_lookup_2 in Hi|]. rewrite Hm. simpl.
  destruct mf. simpl in *. by subst.
Qed.

(** *** The metrics with the names of their families *)
Definition named (fams : list MetricFamily) : list (string * Metric) :=
  fams ≫= λ mf, (λ m, (mf_name mf, m)) <$> metric mf.

Lemma named_app l k : named (l ++ k) = named l ++ named k.
Proof. apply bind_app. Qed.

Lemma named_perm l k : l ≡ₚ k → named l ≡ₚ named k.
Proof. intros Hp. unfold named. by rewrite Hp. Qed.

Lemma named_add_family acc mf :
  bt_sorted acc → (∀ n mf', bt_get n acc = Some mf' → mf_name mf' = n) →
  named (add_family acc mf).*2 ≡ₚ named acc.*2 ++ named [mf].
Proof.
  intros Hs Hn. unfold add_family. case_decide as Hlen.
  { apply nil_length_inv in Hlen. unfold named at 3. simpl. by rewrite Hlen, app_nil_r. }
  destruct (bt_get (mf_name mf) acc) as [ex|] eqn:E.
  - set (mf' := set_metric (metric ex ++ metric mf) ex).
    pose proof (bt_insert_split (mf_name mf) mf' acc Hs) as Hi. rewrite E in Hi. destruct Hi as (l1 & l2 & Ha & Hi).
    rewrite Hi, Ha, !fmap_app, !fmap_cons, !named_app. cbn [snd].
    change (named (mf' :: l2.*2)) with (named ([mf'] ++ l2.*2)). change (named (ex :: l2.*2)) with (named ([ex] ++ l2.*2)).
    rewrite !named_app, <-!app_assoc. apply Permutation_app_head. rewrite (Permutation_app_comm (named l2.*2)).
    rewrite app_assoc. apply Permutation_app_tail. unfold named. simpl. rewrite !app_nil_r, fmap_app.
    by rewrite (Hn _ _ E).
  - pose proof (bt_insert_split (mf_name mf) mf acc Hs) as Hi. rewrite E in Hi.
    rewrite (named_perm _ _ (fmap_Permutation snd _ _ Hi)). rewrite fmap_cons.
    change (named (?x :: ?l)) with (named ([x] ++ l)). rewrite named_app. apply Permutation_app_comm.
Qed.

Lemma named_collected fams : named (foldl add_family [] fams).*2 ≡ₚ named fams.
Proof.
  induction fams as [|mf fams IH] using rev_ind; [done|]. rewrite foldl_app. cbn [foldl].
  destruct (families_ok_collected fams) as (Hs & Hsome & _).
  rewrite named_add_family, IH, named_app; [done|done|]. intros n mf' Hg. by destruct (Hsome _ _ Hg).
Qed.

(** the prefix and the common labels of a registry *)
Definition prefixed r (n : string) : string :=
  match prefix r with Some namespace => String.append namespace (String "_" n) | None => n end.
Definition with_common r (m : Metric) : Metric :=
  match labels r with Some hmap => set_label (label m ++ pairs_of_labels hmap) m | None => m end.
Definition decorate_named r (nm : string * Metric) : string * Metric := (prefixed r nm.1, with_common r nm.2).

Lemma named_decorate r fams : named (decorate r <$> fams) = decorate_named r <$> named fams.
Proof.
  unfold named. rewrite list_fmap_bind. induction fams as [|mf fams IH]; [done|].
  cbn [mbind list_bind]. rewrite fmap_app. f_equal; [|exact IH]. unfold decorate, decorate_named, prefixed, with_common.
  destruct (prefix r), (labels r); simpl; rewrite <-!list_fmap_compose; by apply list_fmap_ext.
Qed.

(** Gathering loses no metric and invents none: it returns those collected, under the
    prefixed names and with the common labels. *)
Lemma gather_families_named r fams : named (gather_families r fams) ≡ₚ decorate_named r <$> named fams.
Proof.
  unfold gather_families. rewrite <-(named_collected fams).
  generalize (foldl add_family [] fams) as acc. intros acc.
  rewrite (list_fmap_compose (λ kv : string * MetricFamily, set_metric (sort_by metric_cmp (metric kv.2)) kv.2) (decorate r)).
  rewrite named_decorate. apply fmap_Permutation. unfold named. rewrite !list_fmap_bind.
  induction acc as [|[n mf] acc IH]; [done|]. cbn [mbind list_bind]. apply Permutation_app; [|exact IH].
  simpl. apply fmap_Permutation, sort_by_perm.
Qed.

End registry.

(** The invariant only depends on the descriptors of the registered collectors. *)
Lemma registry_ok_ext {C} (H1 H2 : Collector C) (r : RegistryCore C) :
  (∀ k c, collectors_by_id r !! k = Some c → desc (Collector := H1) c = desc (Collector := H2) c) →
  registry_ok (H := H1) r → registry_ok (H := H2) r.
Proof.
  intros Heq [P1 P2 P3 P4]. split.
  - intros k c Hc. rewrite <-(Heq k c Hc). by apply P1.
  - intros i. rewrite P2. split; intros (k & c & Hc & Hi); exists k, c; split; try done.
    + by rewrite <-(Heq k c Hc).
    + by rewrite (Heq k c Hc).
  - intros k1 c1 k2 c2 i Hc1 Hc2. rewrite <-(Heq _ _ Hc1), <-(Heq _ _ Hc2). by apply P3.
  - intros k c d Hc. rewrite <-(Heq _ _ Hc). by eapply P4.
Qed.

(** ** Concrete collectors: their descriptors and what collecting returns *)
Module RegRun.
Definition collector : Type := list Desc * list MetricFamily.
#[global] Instance collector_Collector : Collector collector := {| desc := fst; collect := snd |}.
Definition mk_desc (n : string) (i dim : Z) : Desc :=
  {| d_fq_name := n; d_help := "h"; const_label_pairs := []; d_variable_labels := []; id := i; dim_hash := dim |}.
Definition c12 : collector := ([mk_desc "a" 1 7; mk_desc "b" 2 7], []).
Definition c3 : collector := ([mk_desc "c" 3 7], []).
Definition reg (c : collector) (r : RegistryCore collector) := register (λ _, "d") (λ s, s) c r.
Definition unreg (c : collector) (r : RegistryCore collector) := unregister (λ _, "d") c r.
Definition r1 : RegistryCore collector := (reg c12 RegistryCore_default).2.
End RegRun.

Example register_spec_holds :
  registry_ok (RegistryCore_default (C := RegRun.collector)) ∧
  RegRun.reg RegRun.c12 RegistryCore_default = (Ok tt, RegRun.r1) ∧
  registry_ok RegRun.r1 ∧ collectors_by_id RegRun.r1 !! 3 = Some RegRun.c12.
Proof.
  assert (H0 : registry_ok (RegistryCore_default (C := RegRun.collector))) by apply registry_ok_default.
  assert (Hr : RegRun.reg RegRun.c12 RegistryCore_default = (Ok tt, RegRun.r1)) by reflexivity.
  split; [exact H0|]. split; [exact Hr|].
  destruct (register_spec (λ _, "d") (λ s, s) RegRun.c12 RegistryCore_default (Ok tt) RegRun.r1 H0 Hr)
    as [Hok [Hc _]].
  split; [exact Hok|exact Hc].
Defined.

Example register_unregister_holds :
  ∃ r2, RegRun.reg RegRun.c12 RegistryCore_default = (Ok tt, RegRun.r1) ∧
    RegRun.unreg RegRun.c12 RegRun.r1 = (Ok tt, r2) ∧ desc_ids r2 = ∅.
Proof.
  assert (Hr : RegRun.reg RegRun.c12 RegistryCore_default = (Ok tt, RegRun.r1)) by reflexivity.
  destruct (register_unregister (λ _, "d") (λ s, s) (λ _, "d") RegRun.c12 RegistryCore_default RegRun.r1
              registry_ok_default Hr) as (r2 & Hu & _ & Hi & _).
  exists r2. split; [exact Hr|]. split; [exact Hu|exact Hi].
Defined.

(** Collectors are keyed by the sum of their descriptor ids, so unregistering a
    collector that was never registered can remove another one, whose ids then stay
    taken: it cannot be registered again. *)
Lemma unregister_by_sum :
  ∃ r2, RegRun.unreg RegRun.c3 RegRun.r1 = (Ok tt, r2) ∧ contains RegRun.c3 RegRun.r1 = false ∧
    collectors_by_id r2 = ∅ ∧ RegRun.reg RegRun.c12 r2 = (Err AlreadyReg, r2).
Proof. eexists. repeat split; vm_compute; reflexivity. Qed.

(** A registration that fails has recorded the dimensions of the names before the
    failing descriptor: they bar a later collector that was fine before. *)
Lemma failed_register_leaves_dimensions :
  let bad : RegRun.collector := ([RegRun.mk_desc "x" 8 5; RegRun.mk_desc "y" 1 5], []) in
  let good : RegRun.collector := ([RegRun.mk_desc "x" 9 6], []) in
  is_ok (RegRun.reg good RegRun.r1).1 = true ∧
  (RegRun.reg bad RegRun.r1).1 = Err AlreadyReg ∧
  is_ok (RegRun.reg good (RegRun.reg bad RegRun.r1).2).1 = false.
Proof. repeat split; vm_compute; reflexivity. Qed.
