(* ===== verification/TextEncoder.v ===== *)
(** * The text exposition format: [prometheus/src/encoder/text.rs] and [encoder/mod.rs]

    The writer is a growing buffer of bytes, as [encode_utf8] and the proxy's metrics
    endpoint use it, so that only the checks of a family can fail.  [memchr] is a
    library; how a float is printed is a parameter too, of which the facts below
    assume that it has no blank and no line break. *)
From Stdlib Require Import ZArith Lia Ascii.
From stdpp Require Import pretty.
From S2P Require Import Prelude Float64 Metrics.
Local Open Scope Z_scope.

Abbreviation text := (list ascii).
Definition chars (s : string) : text := String.list_ascii_of_string s.

Definition NEWLINE : ascii := "010"%char.
Definition QUOTE : ascii := "034"%char.
Definition BACKSLASH : ascii := "092"%char.

Definition POSITIVE_INF : string := "+Inf".
Definition QUANTILE : string := "quantile".
Definition BUCKET_LABEL : string := "le".

Inductive encode_error := EncodeError (e : MetricsError) | Unimplemented.

Definition check_metric_family (debug : MetricFamily → string) (mf : MetricFamily) : MetricsResult unit :=
  if decide (length (metric mf) = 0%nat) then Err (Msg (String.append "MetricFamily has no metrics: " (debug mf))) else
  if decide (mf_name mf = "") then Err (Msg (String.append "MetricFamily has no name: " (debug mf))) else
  Ok tt.

(** [char::escape_default] on the characters it is used for *)
Definition escape_default (c : ascii) : text :=
  if Ascii.eqb c NEWLINE then [BACKSLASH; "n"%char] else [BACKSLASH; c].

Section encoder.
Context (f64_to_string : f64 → string) (debug_family : MetricFamily → string).
(** the position of the first byte that is one of the needles *)
Context (memchr : text → text → option nat).

Definition find_first_occurence (v : text) (include_double_quote : bool) : option nat :=
  memchr (if include_double_quote then [BACKSLASH; NEWLINE; QUOTE] else [BACKSLASH; NEWLINE]) v.

Definition escape_char (include_double_quote : bool) (c : ascii) : text :=
  if Ascii.eqb c BACKSLASH || Ascii.eqb c NEWLINE then escape_default c
  else if Ascii.eqb c QUOTE && include_double_quote then escape_default c
  else [c].

Definition escape_string (v : string) (include_double_quote : bool) : text :=
  match find_first_occurence (chars v) include_double_quote with
  | Some first => take first (chars v) ++ (drop first (chars v) ≫= escape_char include_double_quote)
  | None => chars v
  end.

Definition pair_to_text (separator : ascii) (name value : string) : text :=
  [separator] ++ chars name ++ ["="%char; QUOTE] ++ escape_string value true ++ [QUOTE].

Fixpoint pairs_to_text (separator : ascii) (pairs : list LabelPair) : text * ascii :=
  match pairs with
  | [] => ([], separator)
  | lp :: pairs =>
      let '(t, separator') := pairs_to_text ","%char pairs in
      (pair_to_text separator (lp_name lp) (lp_value lp) ++ t, separator')
  end.

Definition label_pairs_to_text (pairs : list LabelPair) (additional_label : option (string * string)) : text :=
  match pairs, additional_label with
  | [], None => []
  | _, _ =>
      let '(t, separator) := pairs_to_text "{"%char pairs in
      t ++ match additional_label with
           | Some (name, value) => pair_to_text separator name value
           | None => []
           end ++ ["}"%char]
  end.

Definition write_sample (name : string) (name_postfix : option string) (mc : Metric)
    (additional_label : option (string * string)) (value : f64) : text :=
  chars name ++ match name_postfix with Some postfix => chars postfix | None => [] end ++
  label_pairs_to_text (label mc) additional_label ++
  [" "%char] ++ chars (f64_to_string value) ++
  (if decide (timestamp_ms mc ≠ 0) then [" "%char] ++ chars (pretty (timestamp_ms mc)) else []) ++
  [NEWLINE].

(** the lower case of the variant's name *)
Definition lowercase_type (t : MetricType) : string :=
  match t with
  | COUNTER => "counter" | GAUGE => "gauge" | SUMMARY => "summary" | UNTYPED => "untyped"
  | HISTOGRAM => "histogram"
  end.

Definition histogram_lines (name : string) (m : Metric) : text :=
  let h := histogram m in
  (bucket h ≫= λ b, write_sample name (Some "_bucket") m (Some (BUCKET_LABEL, f64_to_string (upper_bound b)))
                      (f64_of_Z (cumulative_count b))) ++
  (if existsb (λ b, f64_is_sign_positive (upper_bound b) && f64_is_infinite (upper_bound b)) (bucket h)
   then [] else write_sample name (Some "_bucket") m (Some (BUCKET_LABEL, POSITIVE_INF)) (f64_of_Z (sample_count h))) ++
  write_sample name (Some "_sum") m None (sample_sum h) ++
  write_sample name (Some "_count") m None (f64_of_Z (sample_count h)).

Definition summary_lines (name : string) (m : Metric) : text :=
  let s := summary m in
  (s_quantile s ≫= λ q, write_sample name None m (Some (QUANTILE, f64_to_string (quantile q))) (q_value q)) ++
  write_sample name (Some "_sum") m None (s_sample_sum s) ++
  write_sample name (Some "_count") m None (f64_of_Z (s_sample_count s)).

Definition metric_lines (name : string) (t : MetricType) (m : Metric) : result encode_error text :=
  match t with
  | COUNTER => Ok (write_sample name None m None (counter m))
  | GAUGE => Ok (write_sample name None m None (gauge m))
  | HISTOGRAM => Ok (histogram_lines name m)
  | SUMMARY => Ok (summary_lines name m)
  | UNTYPED => Err Unimplemented
  end.

Definition header (mf : MetricFamily) : text :=
  (if decide (mf_help mf = "") then []
   else chars "# HELP " ++ chars (mf_name mf) ++ [" "%char] ++ escape_string (mf_help mf) false ++ [NEWLINE]) ++
  chars "# TYPE " ++ chars (mf_name mf) ++ [" "%char] ++ chars (lowercase_type (field_type mf)) ++ [NEWLINE].

Fixpoint encode_metrics (name : string) (t : MetricType) (ms : list Metric) (writer : text)
    : result encode_error unit * text :=
  match ms with
  | [] => (Ok tt, writer)
  | m :: ms =>
      match metric_lines name t m with
      | Ok lines => encode_metrics name t ms (writer ++ lines)
      | Err e => (Err e, writer)
      end
  end.

(** What was written before an error stays in the buffer. *)
Fixpoint encode_impl (metric_families : list MetricFamily) (writer : text) : result encode_error unit * text :=
  match metric_families with
  | [] => (Ok tt, writer)
  | mf :: mfs =>
      match check_metric_family debug_family mf with
      | Err e => (Err (EncodeError e), writer)
      | Ok _ =>
          match encode_metrics (mf_name mf) (field_type mf) (metric mf) (writer ++ header mf) with
          | (Ok _, writer) => encode_impl mfs writer
          | (Err e, writer) => (Err e, writer)
          end
      end
  end.

(** [encode_to_string] *)
Definition encode_to_string (metric_families : list MetricFamily) : result encode_error text :=
  match encode_impl metric_families [] with
  | (Ok _, buf) => Ok buf
  | (Err e, _) => Err e
  end.
End encoder.

(** ** Reading the format back *)

(** up to the closing quote *)
Fixpoint read_value (l : text) : option (text * text) :=
  match l with
  | [] => None
  | c :: rest =>
      if Ascii.eqb c QUOTE then Some ([], rest) else
      if Ascii.eqb c NEWLINE then None else
      if Ascii.eqb c BACKSLASH then
        match rest with
        | e :: rest =>
            v ← (if Ascii.eqb e "n" then Some NEWLINE
                 else if Ascii.eqb e BACKSLASH || Ascii.eqb e QUOTE then Some e else None);
            '(vs, rest) ← read_value rest; Some (v :: vs, rest)
        | [] => None
        end
      else '(vs, rest) ← read_value rest; Some (c :: vs, rest)
  end.

Fixpoint read_while (p : ascii → bool) (l : text) : text * text :=
  match l with
  | c :: rest => if p c then let '(a, b) := read_while p rest in (c :: a, b) else ([], l)
  | [] => ([], [])
  end.

Definition is_name_char (c : ascii) : bool := matches_charset_with_colon c || is_digit c.

(** pairs up to the closing brace; the first character is the separator *)
Fixpoint read_pairs (fuel : nat) (separator : ascii) (l : text) : option (list (text * text) * text) :=
  match fuel, l with
  | S fuel, c :: l =>
      if Ascii.eqb c separator then
        let '(name, rest) := read_while is_name_char l in
        match rest with
        | e :: q :: rest =>
            if Ascii.eqb e "=" && Ascii.eqb q QUOTE then
              '(value, rest) ← read_value rest;
              '(pairs, rest) ← read_pairs fuel "," rest;
              Some ((name, value) :: pairs, rest)
            else None
        | _ => None
        end
      else if Ascii.eqb c "}" then Some ([], l) else None
  | _, _ => None
  end.

Record sample := { s_name : text; s_labels : list (text * text); s_value : text; s_timestamp : option text }.

Definition not_blank (c : ascii) : bool := negb (Ascii.eqb c " " || Ascii.eqb c NEWLINE).

(** one line *)
Definition read_sample (l : text) : option (sample * text) :=
  let '(name, rest) := read_while is_name_char l in
  '(labels, rest) ← (if decide (head rest = Some "{"%char) then read_pairs (length rest) "{" rest else Some ([], rest));
  match rest with
  | " "%char :: rest =>
      let '(value, rest) := read_while not_blank rest in
      match rest with
      | " "%char :: rest =>
          let '(ts, rest) := read_while not_blank rest in
          match rest with
          | c :: rest => if Ascii.eqb c NEWLINE
                         then Some ({| s_name := name; s_labels := labels; s_value := value; s_timestamp := Some ts |}, rest)
                         else None
          | [] => None
          end
      | c :: rest => if Ascii.eqb c NEWLINE
                     then Some ({| s_name := name; s_labels := labels; s_value := value; s_timestamp := None |}, rest)
                     else None
      | [] => None
      end
  | _ => None
  end.
