(* ===== verification/TextEncoderFacts.v ===== *)
(** * The text format can be read back

    Escaping is undone by reading, so no label value can end its line, its quotes or
    its braces early, and a written sample is read back as it was. *)
From Stdlib Require Import ZArith Lia Ascii.
From stdpp Require Import pretty.
From S2P Require Import Prelude Float64 Metrics TextEncoder.
Local Open Scope Z_scope.
Set Default Proof Using "Type".

(** ** Characters *)

Lemma is_name_char_other c : is_name_char c = true → c ≠ "{"%char ∧ c ≠ " "%char ∧ c ≠ "="%char.
Proof. intros Hc. repeat split; intros ->; vm_compute in Hc; discriminate. Qed.

Lemma read_while_app p a b :
  forallb p a = true → (∀ c, head b = Some c → p c = false) → read_while p (a ++ b) = (a, b).
Proof.
  intros Ha Hb. induction a as [|c a IH]; simpl in *.
  - destruct b as [|c b]; simpl; [done|]. by rewrite (Hb c).
  - apply andb_true_iff in Ha as [-> Ha]. by rewrite IH.
Qed.

Lemma read_value_escape v rest :
  read_value ((v ≫= escape_char true) ++ QUOTE :: rest) = Some (v, rest).
Proof.
  induction v as [|c v IH]; [done|]. rewrite bind_cons, <-app_assoc.
  unfold escape_char at 1. unfold escape_default.
  destruct (Ascii.eqb_spec c BACKSLASH) as [->|Hb]; simpl orb; cbv iota.
  { simpl. by rewrite IH. }
  destruct (Ascii.eqb_spec c NEWLINE) as [->|Hn]; cbv iota.
  { simpl. by rewrite IH. }
  destruct (Ascii.eqb_spec c QUOTE) as [->|Hq]; simpl andb; cbv iota.
  { simpl. by rewrite IH. }
  simpl. apply Ascii.eqb_neq in Hb as ->, Hn as ->, Hq as ->. by rewrite IH.
Qed.

(** ** Decimal numbers have no blanks *)

Lemma chars_app a b : chars (a +:+ b) = chars a ++ chars b.
Proof. unfold chars. induction a as [|c a IH]; [done|]. simpl. f_equal. exact IH. Qed.

Lemma pretty_N_go_not_blank x s : forallb not_blank (chars s) = true → forallb not_blank (chars (pretty_N_go x s)) = true.
Proof.
  revert s. induction (N.lt_wf_0 x) as [x _ IH]. intros s Hs.
  destruct (decide (x = 0%N)) as [->|Hx]; [by rewrite pretty_N_go_0|].
  rewrite pretty_N_go_step by lia. apply IH; [apply N.div_lt; lia|].
  change (not_blank (pretty_N_char (x `mod` 10)) && forallb not_blank (chars s) = true). rewrite Hs, andb_true_r.
  assert (Hm : (x `mod` 10 < 10)%N) by by apply N.mod_lt.
  assert (Hc : ∀ d, (d < 10)%N → not_blank (pretty_N_char d) = true); [|by apply Hc].
  intros d Hd. destruct d as [|p]; [done|]. do 4 (destruct p as [p|p|]; try done); lia.
Qed.

Lemma pretty_Z_not_blank (z : Z) : forallb not_blank (chars (pretty z)) = true.
Proof.
  assert (HN : ∀ x : N, forallb not_blank (chars (pretty x)) = true).
  { intros x. unfold pretty, pretty_N. case_decide; [done|]. by apply pretty_N_go_not_blank. }
  destruct z as [|p|p]; simpl; [done|..].
  - apply HN.
  - change (forallb not_blank (chars ("-" +:+ pretty (N.pos p))) = true). rewrite chars_app, forallb_app.
    by rewrite HN.
Qed.

Definition needles (include : bool) : text :=
  if include then [BACKSLASH; NEWLINE; QUOTE] else [BACKSLASH; NEWLINE].

Lemma escape_char_other include c :
  c ∉ needles include →
  escape_char include c = [c].
Proof.
  intros Hc. unfold escape_char.
  destruct (Ascii.eqb_spec c BACKSLASH) as [->|]; [destruct Hc; destruct include; unfold needles; set_solver|].
  destruct (Ascii.eqb_spec c NEWLINE) as [->|]; [destruct Hc; destruct include; unfold needles; set_solver|]. simpl.
  destruct (Ascii.eqb_spec c QUOTE) as [->|]; [|done]. destruct include; [destruct Hc; unfold needles; set_solver|done].
Qed.

Lemma escape_none include l :
  (∀ c, c ∈ l → c ∉ needles include) →
  l ≫= escape_char include = l.
Proof.
  induction l as [|c l IH]; intros Hl; [done|]. rewrite bind_cons.
  rewrite escape_char_other by (apply Hl, elem_of_cons; by left). simpl. f_equal.
  apply IH. intros c' Hc'. apply Hl, elem_of_cons. by right.
Qed.

Section facts.
Context (f64_to_string : f64 → string).
Hypothesis f64_to_string_not_blank : ∀ x, forallb not_blank (chars (f64_to_string x)) = true.
Context (memchr : text → text → option nat).
Hypothesis memchr_spec : ∀ needles v, memchr needles v = fst <$> list_find (λ c, c ∈ needles) v.

(** Looking for the first special character first does not change the result. *)
Lemma escape_string_eq v include :
  escape_string memchr v include = chars v ≫= escape_char include.
Proof using memchr_spec.
  unfold escape_string, find_first_occurence. fold (needles include). rewrite memchr_spec.
  destruct (list_find _ (chars v)) as [[i c]|] eqn:E; simpl.
  - apply list_find_Some in E as (_ & _ & Hbefore).
    rewrite <-(take_drop i (chars v)) at 3. rewrite bind_app. f_equal. symmetry. apply escape_none.
    intros c' (j & Hj & Hlt)%elem_of_take. by apply (Hbefore j c').
  - apply list_find_None in E. rewrite Forall_forall in E. symmetry. by apply escape_none.
Qed.

Definition name_ok (n : string) : Prop := forallb is_name_char (chars n) = true.

Lemma read_pair separator n v fuel rest :
  name_ok n → separator ≠ "}"%char →
  read_pairs (S fuel) separator (pair_to_text memchr separator n v ++ rest) =
    '(pairs, rest) ← read_pairs fuel "," rest; Some ((chars n, chars v) :: pairs, rest).
Proof using memchr_spec.
  intros Hn Hs. unfold pair_to_text. rewrite escape_string_eq, <-!app_assoc. simpl.
  rewrite Ascii.eqb_refl, (read_while_app _ (chars n)); [|done|by intros ? [= <-]]. simpl.
  by rewrite read_value_escape.
Qed.

Lemma read_pairs_text pairs separator fuel rest :
  Forall (λ lp, name_ok (lp_name lp)) pairs → separator ≠ "}"%char → (length pairs < fuel)%nat →
  read_pairs fuel separator ((pairs_to_text memchr separator pairs).1 ++ "}"%char :: rest) =
    Some ((λ lp, (chars (lp_name lp), chars (lp_value lp))) <$> pairs, rest).
Proof using memchr_spec.
  intros Hp. revert separator fuel. induction Hp as [|lp pairs Hlp Hp IH]; intros separator fuel Hs Hf.
  - destruct fuel as [|fuel]; [simpl in Hf; lia|]. cbn [pairs_to_text fst app read_pairs].
    assert (Ascii.eqb "}" separator = false) as -> by by apply Ascii.eqb_neq. done.
  - destruct fuel as [|fuel]; [simpl in Hf; lia|]. cbn [pairs_to_text].
    destruct (pairs_to_text memchr "," pairs) as [t sep] eqn:E. cbn [fst].
    rewrite <-app_assoc, read_pair by done. specialize (IH ","%char fuel). rewrite E in IH. simpl in IH, Hf.
    by rewrite IH by (done || lia).
Qed.

Definition extra (additional : option (string * string)) : list LabelPair :=
  match additional with Some (n, v) => [{| lp_name := n; lp_value := v |}] | None => [] end.

Lemma pairs_to_text_app sep l n v :
  (pairs_to_text memchr sep (l ++ [{| lp_name := n; lp_value := v |}])).1 =
  (pairs_to_text memchr sep l).1 ++ pair_to_text memchr (pairs_to_text memchr sep l).2 n v.
Proof.
  revert sep. induction l as [|lp l IH]; intros sep; simpl; [by rewrite app_nil_r|].
  specialize (IH ","%char). destruct (pairs_to_text memchr "," (l ++ _)) as [t s].
  destruct (pairs_to_text memchr "," l) as [t' s']. simpl in *. by rewrite IH, app_assoc.
Qed.

(** the labels as one list of pairs *)
Lemma label_pairs_eq pairs additional :
  label_pairs_to_text memchr pairs additional =
    match pairs ++ extra additional with
    | [] => []
    | ps => (pairs_to_text memchr "{"%char ps).1 ++ ["}"%char]
    end.
Proof.
  unfold label_pairs_to_text. destruct additional as [[n v]|]; simpl extra.
  - assert (Heq : ∀ ps, match ps ++ [{| lp_name := n; lp_value := v |}] with
                        | [] => []
                        | qs => (pairs_to_text memchr "{"%char qs).1 ++ ["}"%char]
                        end = (pairs_to_text memchr "{"%char (ps ++ [{| lp_name := n; lp_value := v |}])).1 ++ ["}"%char]).
    { by intros []. }
    rewrite Heq, pairs_to_text_app.
    destruct pairs as [|lp pairs]; [done|].
    destruct (pairs_to_text memchr "{" (lp :: pairs)) as [t s]. cbn [fst snd]. by rewrite <-app_assoc.
  - rewrite app_nil_r. destruct pairs as [|lp pairs]; [done|].
    by destruct (pairs_to_text memchr "{" (lp :: pairs)) as [t s].
Qed.

Lemma pairs_to_text_length ps s : (length ps <= length (pairs_to_text memchr s ps).1)%nat.
Proof.
  revert s. induction ps as [|x ps IH]; intros s; cbn [pairs_to_text length]; [lia|].
  specialize (IH ","%char). destruct (pairs_to_text memchr "," ps) as [t s']. cbn [fst] in *.
  unfold pair_to_text. rewrite !length_app. cbn [length]. lia.
Qed.

Lemma pairs_head lp ps rest :
  head ((pairs_to_text memchr "{" (lp :: ps)).1 ++ rest) = Some "{"%char.
Proof. cbn [pairs_to_text]. by destruct (pairs_to_text memchr "," ps). Qed.

Lemma read_labels pairs additional rest :
  Forall (λ lp, name_ok (lp_name lp)) (pairs ++ extra additional) → head rest = Some " "%char →
  let l := label_pairs_to_text memchr pairs additional ++ rest in
  (if decide (head l = Some "{"%char) then read_pairs (length l) "{" l else Some ([], l)) =
    Some ((λ lp, (chars (lp_name lp), chars (lp_value lp))) <$> pairs ++ extra additional, rest).
Proof using memchr_spec.
  intros Hp Hr. cbv zeta. rewrite label_pairs_eq. revert Hp. generalize (pairs ++ extra additional) as ps.
  intros ps Hp. destruct ps as [|lp ps].
  { cbn [app]. rewrite decide_False by congruence. done. }
  rewrite <-app_assoc. cbn [app]. rewrite decide_True by apply pairs_head.
  apply read_pairs_text; [done|done|]. rewrite length_app. cbn [length].
  pose proof (pairs_to_text_length (lp :: ps) "{"%char) as Hlen. cbn [length] in Hlen. lia.
Qed.

(** C12. A sample that was written is read back: its name, every label with its exact
    value, whatever characters that has, the printed value and the timestamp.  What
    follows the line is left. *)
Theorem sample_roundtrip name postfix m additional value rest :
  name_ok name → name_ok (default "" postfix) →
  Forall (λ lp, name_ok (lp_name lp)) (label m ++ extra additional) →
  read_sample (write_sample f64_to_string memchr name postfix m additional value ++ rest) =
    Some ({| s_name := chars name ++ chars (default "" postfix);
             s_labels := (λ lp, (chars (lp_name lp), chars (lp_value lp))) <$> label m ++ extra additional;
             s_value := chars (f64_to_string value);
             s_timestamp := if decide (timestamp_ms m ≠ 0) then Some (chars (pretty (timestamp_ms m))) else None |},
          rest).
Proof using memchr_spec f64_to_string_not_blank.
  intros Hn Hpost Hl. unfold write_sample.
  assert (Hname : forallb is_name_char (chars name ++ chars (default "" postfix)) = true).
  { by rewrite forallb_app, Hn, Hpost. }
  replace (match postfix with Some postfix => chars postfix | None => [] end) with (chars (default "" postfix))
    by by destruct postfix.
  set (tail := (if decide (timestamp_ms m ≠ 0) then [" "%char] ++ chars (pretty (timestamp_ms m)) else [])).
  rewrite <-!app_assoc. rewrite (app_assoc (chars name)). unfold read_sample.
  set (line := label_pairs_to_text memchr (label m) additional ++ _).
  rewrite (read_while_app _ (chars name ++ chars (default "" postfix))); [|done|].
  2:{ intros c. unfold line. rewrite label_pairs_eq.
      destruct (label m ++ extra additional) as [|lp ps]; [by intros [= <-]|].
      rewrite <-app_assoc, pairs_head. by intros [= <-]. }
  unfold line. rewrite read_labels by done. cbn [mbind option_bind app].
  assert (Hv : ∀ k, (∀ c, head k = Some c → not_blank c = false) →
    read_while not_blank (chars (f64_to_string value) ++ k) = (chars (f64_to_string value), k)).
  { intros k Hk. by apply read_while_app. }
  unfold tail. case_decide as Hts; cbn [app].
  - rewrite Hv by (by intros ? [= <-]). rewrite read_while_app; [done|apply pretty_Z_not_blank|by intros ? [= <-]].
  - rewrite Hv by (by intros ? [= <-]). done.
Qed.
End facts.

(** ** The whole exposition *)
Section encode.
Context (f64_to_string : f64 → string) (debug_family : MetricFamily → string)
        (memchr : text → text → option nat).

Definition lines (mf : MetricFamily) (m : Metric) : text :=
  default [] (ok (metric_lines f64_to_string memchr (mf_name mf) (field_type mf) m)).
Definition family_text (mf : MetricFamily) : text := header memchr mf ++ (metric mf ≫= lines mf).
Definition encodable (mf : MetricFamily) : Prop := metric mf ≠ [] ∧ mf_name mf ≠ "" ∧ field_type mf ≠ UNTYPED.

Lemma metric_lines_ok mf m :
  field_type mf ≠ UNTYPED → metric_lines f64_to_string memchr (mf_name mf) (field_type mf) m = Ok (lines mf m).
Proof. unfold lines. by destruct (field_type mf). Qed.

Lemma encode_metrics_ok mf ms w :
  field_type mf ≠ UNTYPED →
  encode_metrics f64_to_string memchr (mf_name mf) (field_type mf) ms w = (Ok tt, w ++ (ms ≫= lines mf)).
Proof.
  intros Ht. revert w. induction ms as [|m ms IH]; intros w; simpl; [by rewrite app_nil_r|].
  by rewrite metric_lines_ok, IH, <-app_assoc by done.
Qed.

Lemma encode_impl_family mf mfs w :
  encodable mf →
  encode_impl f64_to_string debug_family memchr (mf :: mfs) w =
    encode_impl f64_to_string debug_family memchr mfs (w ++ family_text mf).
Proof.
  intros (Hm & Hn & Ht). simpl. unfold check_metric_family.
  rewrite decide_False by (intros ?%nil_length_inv; done). rewrite decide_False by done.
  rewrite encode_metrics_ok by done. unfold family_text. by rewrite <-app_assoc.
Qed.

Lemma encode_impl_refused mf mfs w :
  ¬ encodable mf → ∃ e w', encode_impl f64_to_string debug_family memchr (mf :: mfs) w = (Err e, w').
Proof.
  intros Hne. simpl. unfold check_metric_family.
  case_decide as Hm; [by eauto|]. case_decide as Hn; [by eauto|].
  destruct (decide (field_type mf = UNTYPED)) as [Ht|Ht].
  - rewrite Ht. destruct (metric mf) as [|m ms]; [done|]. simpl. eauto.
  - destruct Hne. split; [by destruct (metric mf)|done].
Qed.

(** Encoding succeeds exactly on families that have metrics, a name and a type other
    than [UNTYPED]; then the text is the families' texts in order, each a header
    followed by the lines of its metrics. *)
Theorem encode_to_string_spec mfs t :
  encode_to_string f64_to_string debug_family memchr mfs = Ok t ↔
  Forall encodable mfs ∧ t = mfs ≫= family_text.
Proof.
  unfold encode_to_string.
  assert (Hgen : ∀ w w', encode_impl f64_to_string debug_family memchr mfs w = (Ok tt, w') ↔
                    Forall encodable mfs ∧ w' = w ++ (mfs ≫= family_text)).
  { induction mfs as [|mf mfs IH]; intros w w'.
    - simpl. rewrite app_nil_r. split; [by intros [= <-]|by intros [_ ->]].
    - assert (Decision (encodable mf)) as [He|He] by (unfold encodable; apply _).
      + rewrite encode_impl_family, IH, Forall_cons, bind_cons, app_assoc by done. tauto.
      + destruct (encode_impl_refused mf mfs w He) as (e & w'' & ->).
        split; [done|]. by intros [[? _]%Forall_cons _]. }
  specialize (Hgen [] t). simpl app in Hgen. rewrite <-Hgen.
  destruct (encode_impl f64_to_string debug_family memchr mfs []) as [[[]|e] w]; split; by intros [= ->].
Qed.
End encode.

Definition memchr_impl (ns v : text) : option nat := fst <$> list_find (λ c, c ∈ ns) v.

Example sample_roundtrip_holds :
  let value_string (_ : f64) : string := "1" in
  let m := set_label [{| lp_name := "path"; lp_value := String QUOTE (String BACKSLASH (String NEWLINE "}")) |}]
             Metric_default in
  (∀ x, forallb not_blank (chars (value_string x)) = true) ∧
  ∃ s, read_sample (write_sample value_string memchr_impl "hits" None m None f64_one) = Some (s, []) ∧
    s_labels s = [(chars "path", [QUOTE; BACKSLASH; NEWLINE; "}"%char])].
Proof.
  intros value_string m.
  assert (Hv : ∀ x, forallb not_blank (chars (value_string x)) = true) by (intros x; reflexivity).
  split; [exact Hv|]. eexists. split.
  - rewrite <-(app_nil_r (write_sample _ _ _ _ _ _ _)).
    apply (sample_roundtrip value_string Hv memchr_impl (λ ns v, eq_refl) "hits" None m None f64_one []).
    + reflexivity.
    + reflexivity.
    + repeat constructor.
  - reflexivity.
Defined.
