(* ===== verification/Exporter.v ===== *)
(** * The metrics of the proxy: the gauge task and the endpoint of
    [rusty-workers-proxy/src/main.rs], with [IntGauge] of [prometheus/src/gauge.rs]

    Three parts of the Prometheus client meet here: the gauges ([Atomics]), the default
    registry ([Registry]) and the text encoder ([TextEncoder]).  A registered collector is
    a clone of the gauge that the task sets, so both share one value: the registry holds
    names, [ProxyGauge], and what collecting yields is looked up when it happens. *)
From Stdlib Require Import ZArith Lia Sorted Ascii.
From S2P Require Import Prelude BTree Float64 Types Db Lru Sched SchedFacts Proxy Metrics Atomics Registry RegistryFacts TextEncoder TextEncoderFacts.
Local Open Scope Z_scope.

(** ** State *)
Inductive ProxyGauge := APP_NUM | APP_LAST_TIME | READY_INSTANCE.

#[export] Instance ProxyGauge_eq_dec : EqDecision ProxyGauge.
Proof. solve_decision. Defined.

Definition gauge_name (g : ProxyGauge) : string :=
  match g with APP_NUM => "APP_NUM" | APP_LAST_TIME => "APP_LAST_TIME" | READY_INSTANCE => "READY_INSTANCE" end.
Definition gauge_help (g : ProxyGauge) : string :=
  match g with
  | APP_NUM => "the number of apps running on rusty-workers"
  | APP_LAST_TIME => "the running time  of apps running on rusty-workers"
  | READY_INSTANCE => "the usage of memory of rusty-workers"
  end.

(** The gauges' values, and the process-wide registry *)
Record Exporter := {
  app_num : Value Z;
  app_last_time : Value Z;
  ready_instance : Value Z;
  default_registry : RegistryCore ProxyGauge;
}.

Definition gauge_of (g : ProxyGauge) (e : Exporter) : Value Z :=
  match g with
  | APP_NUM => app_num e
  | APP_LAST_TIME => app_last_time e
  | READY_INSTANCE => ready_instance e
  end.

(** [GenericGauge::set] *)
Definition set_gauge_value (g : ProxyGauge) (x : Z) (e : Exporter) : Exporter :=
  {| app_num := if decide (g = APP_NUM) then Value_set x (app_num e) else app_num e;
     app_last_time := if decide (g = APP_LAST_TIME) then Value_set x (app_last_time e) else app_last_time e;
     ready_instance := if decide (g = READY_INSTANCE) then Value_set x (ready_instance e) else ready_instance e;
     default_registry := default_registry e |}.

(** [impl Collector for GenericGauge] *)
Definition gauge_collector (e : Exporter) : Collector ProxyGauge :=
  {| desc g := [Atomics.v_desc (gauge_of g e)]; collect g := [Value_collect i64_number (gauge_of g e)] |}.

Section exporter.
Context (fnv : bytes → Z).
Context (debug_desc : Desc → string) (debug_string : string → string).

(** [IntGauge::new(name, help)] *)
Definition gauge_new (name help : string) : MetricsResult (Value Z) :=
  gauge_with_opts_and_label_values fnv i64_number (Opts_new name help) [].

(** The statics; their [unwrap]s panic, [None]. *)
Definition exporter_init : option Exporter :=
  n ← ok (gauge_new (gauge_name APP_NUM) (gauge_help APP_NUM));
  t ← ok (gauge_new (gauge_name APP_LAST_TIME) (gauge_help APP_LAST_TIME));
  r ← ok (gauge_new (gauge_name READY_INSTANCE) (gauge_help READY_INSTANCE));
  Some {| app_num := n; app_last_time := t; ready_instance := r; default_registry := RegistryCore_default |}.

(** ** The task *)

(** [if !contains(g) { register(g).unwrap() }] *)
Definition ensure_registered (g : ProxyGauge) (e : Exporter) : option Exporter :=
  let H := gauge_collector e in
  if contains g (default_registry e) then Some e else
  match register debug_desc debug_string g (default_registry e) with
  | (Ok _, r) => Some {| app_num := app_num e; app_last_time := app_last_time e;
                         ready_instance := ready_instance e; default_registry := r |}
  | (Err _, _) => None
  end.

(** [(Instant::now() - start).as_secs() as i64], in nanoseconds *)
Definition elapsed_secs (now start : Z) : Z := wrap_i64 (Z.max 0 (now - start) / 1000000000).

Context {C : Type → Type → Type} {HC : LruCache C}.

(** the loop over the cached apps, one reading of the clock for each *)
Fixpoint export_apps (clock : nat → Z) (apps : list (AppId * AppState)) (s : Scheduler C) (e : Exporter)
    : option Exporter :=
  match apps with
  | [] => Some e
  | (_, appstate) :: apps =>
      e ← ensure_registered APP_LAST_TIME e;
      e ← ensure_registered READY_INSTANCE e;
      let e := set_gauge_value APP_LAST_TIME (elapsed_secs (clock O) (start_time appstate)) e in
      let e := set_gauge_value READY_INSTANCE (wrap_i64 (Z.of_nat (length (ready_of appstate s)))) e in
      export_apps (λ i, clock (S i)) apps s e
  end.

(** One turn; [iter] marks the apps as used. *)
Definition export_turn (clock : nat → Z) (s : Scheduler C) (e : Exporter) : option (Exporter * Scheduler C) :=
  e ← ensure_registered APP_NUM e;
  let e := set_gauge_value APP_NUM (wrap_i64 (Z.of_nat (length (lru_iter (app_cache s))))) e in
  e ← export_apps clock (lru_iter (app_cache s)) s e;
  Some (e, set_app_cache (lru_touch (app_cache s)) s).

(** ** The endpoint: [prometheus_serve_req] *)
Definition TEXT_FORMAT : string := "text/plain; version=0.0.4".

Context {HH : Http} (f64_to_string : f64 → string) (debug_family : MetricFamily → string)
        (memchr : text → text → option nat).

(** A failure of [encode] would panic. *)
Definition prometheus_serve_req (e : Exporter) : option Response :=
  let metric_families := gather (H := gauge_collector e) (default_registry e) in
  match encode_impl f64_to_string debug_family memchr metric_families [] with
  | (Ok _, buffer) =>
      Some {| status := 200;
              response_headers := hm_append "content-type" (as_bytes TEXT_FORMAT) hm_empty;
              response_body := Ascii.byte_of_ascii <$> buffer |}
  | (Err _, _) => None
  end.

(** ** The invariant *)
Definition gid (e : Exporter) (g : ProxyGauge) : Z := id (Atomics.v_desc (gauge_of g e)).

(** [gs] are the registered gauges. *)
Record exporter_ok (gs : list ProxyGauge) (e : Exporter) : Prop := {
  eo_name g : d_fq_name (Atomics.v_desc (gauge_of g e)) = gauge_name g;
  eo_help g : d_help (Atomics.v_desc (gauge_of g e)) = gauge_help g;
  eo_type g : val_type (gauge_of g e) = VGauge;
  eo_labels g : label_pairs (gauge_of g e) = [];
  eo_fits g : fits 64 (gid e g);
  eo_nodup : NoDup (gid e <$> gs);
  eo_collectors : collectors_by_id (default_registry e) = list_to_map ((λ g, (gid e g, g)) <$> gs);
  eo_ids : desc_ids (default_registry e) = list_to_set (gid e <$> gs);
  eo_dims n h : dim_hashes_by_name (default_registry e) !! n = Some h →
    ∃ g, n = gauge_name g ∧ h = dim_hash (Atomics.v_desc (gauge_of g e));
  eo_plain : labels (default_registry e) = None ∧ prefix (default_registry e) = None;
}.

Lemma gauge_name_inj g g' : gauge_name g = gauge_name g' → g = g'.
Proof. by destruct g, g'. Qed.

Lemma set_gauge_same g x e g' :
  Atomics.v_desc (gauge_of g' (set_gauge_value g x e)) = Atomics.v_desc (gauge_of g' e) ∧
  val_type (gauge_of g' (set_gauge_value g x e)) = val_type (gauge_of g' e) ∧
  label_pairs (gauge_of g' (set_gauge_value g x e)) = label_pairs (gauge_of g' e).
Proof. by destruct g, g'. Qed.

Lemma exporter_ok_same gs e e' :
  (∀ g, Atomics.v_desc (gauge_of g e') = Atomics.v_desc (gauge_of g e) ∧
        val_type (gauge_of g e') = val_type (gauge_of g e) ∧
        label_pairs (gauge_of g e') = label_pairs (gauge_of g e)) →
  default_registry e' = default_registry e → exporter_ok gs e → exporter_ok gs e'.
Proof.
  intros Hg Hr [Hn Hh Ht Hl Hf Hnd Hc Hi Hd Hp].
  assert (Hid : ∀ g, gid e' g = gid e g) by (intros g; unfold gid; by destruct (Hg g) as [-> _]).
  assert (Hids : gid e' <$> gs = gid e <$> gs) by (apply list_fmap_ext; intros; apply Hid).
  assert (Hcs : (λ g, (gid e' g, g)) <$> gs = (λ g, (gid e g, g)) <$> gs)
    by (apply list_fmap_ext; intros; by rewrite Hid).
  split; rewrite ?Hr, ?Hids, ?Hcs; try done.
  1-4: intros g; destruct (Hg g) as (Hde & Htl & Hlp); by rewrite ?Hde, ?Htl, ?Hlp.
  - intros g. by rewrite Hid.
  - intros n h Hnh. destruct (Hd n h Hnh) as (g & Hgn & Hgh). exists g. by destruct (Hg g) as [-> _].
Qed.

Lemma set_gauge_ok gs g x e : exporter_ok gs e → exporter_ok gs (set_gauge_value g x e).
Proof. apply exporter_ok_same; [apply set_gauge_same|done]. Qed.

Lemma exporter_init_ok : (∀ b, fits 64 (fnv b)) → ∃ e, exporter_init = Some e ∧ exporter_ok [] e.
Proof.
  intros Hfnv. eexists. split; [reflexivity|].
  split; try (intros []; done); try done.
  - intros []; apply Hfnv.
  - constructor.
Qed.

(** Registering cannot fail, and afterwards a gauge with this id is registered. *)
Lemma ensure_registered_ok gs g e :
  exporter_ok gs e →
  ∃ gs' e', ensure_registered g e = Some e' ∧ exporter_ok gs' e' ∧
    (∀ g', gauge_of g' e' = gauge_of g' e) ∧ gid e g ∈ gid e <$> gs' ∧ gs ⊆ gs'.
Proof.
  intros Hok. pose proof Hok as [Hn Hh Ht Hl Hf Hnd Hc Hi Hd [Hp1 Hp2]].
  unfold ensure_registered, contains. cbn [desc gauge_collector existsb]. rewrite orb_false_r.
  case_bool_decide as Hin.
  { exists gs, e. rewrite Hi, elem_of_list_to_set in Hin. by split_and!. }
  unfold register. cbn [desc gauge_collector register_descs]. rewrite decide_False by done.
  set (d := Atomics.v_desc (gauge_of g e)) in *.
  assert (Hdim : match dim_hashes_by_name (default_registry e) !! d_fq_name d with
                 | Some hash => bool_decide (hash ≠ dim_hash d) | None => false end = false).
  { destruct (_ !! d_fq_name d) as [h|] eqn:Eh; [|done]. destruct (Hd _ _ Eh) as (g' & Hg' & ->).
    apply bool_decide_eq_false. intros Hne. apply Hne. unfold d in Hg' |- *. rewrite Hn in Hg'.
    by apply gauge_name_inj in Hg' as ->. }
  rewrite Hdim. rewrite decide_False by set_solver.
  assert (Hk : wrapping_add 64 0 (id d) = gid e g) by (destruct (Hf g); by apply (wrapping_add_small 64 0)).
  rewrite Hk. cbn [collectors_by_id set_dims].
  assert (Hni : gid e g ∉ gid e <$> gs) by (rewrite Hi, elem_of_list_to_set in Hin; exact Hin).
  assert (Hnone : collectors_by_id (default_registry e) !! gid e g = None).
  { rewrite Hc. apply not_elem_of_list_to_map_1. by rewrite <-list_fmap_compose. }
  rewrite Hnone. eexists (g :: gs), _. split; [reflexivity|]. split; [|split_and!].
  - split; cbn [default_registry collectors_by_id dim_hashes_by_name desc_ids labels prefix set_dims]; try done.
    + by rewrite fmap_cons, NoDup_cons.
    + rewrite fmap_cons. simpl. by rewrite Hc.
    + rewrite fmap_cons, Hi. simpl. set_solver.
    + intros n h Hnh. apply lookup_insert_Some in Hnh as [[<- <-]|[_ Hnh]]; [|by apply Hd].
      exists g. split; [apply Hn|done].
  - by intros [].
  - rewrite fmap_cons. by left.
  - set_solver.
Qed.

(** ** What is served *)

(** in the order of their names *)
Definition sorted_gauges (gs : list ProxyGauge) : list ProxyGauge :=
  filter (λ g, g ∈ gs) [APP_LAST_TIME; APP_NUM; READY_INSTANCE].

Lemma sorted_gauges_perm gs : NoDup gs → sorted_gauges gs ≡ₚ gs.
Proof.
  intros Hnd. apply NoDup_Permutation; [|done|].
  - apply NoDup_filter. repeat constructor; set_solver.
  - intros g. unfold sorted_gauges. rewrite list_elem_of_filter. split; [by intros [? _]|].
    intros Hg. split; [done|]. destruct g; set_solver.
Qed.

Lemma sorted_gauges_names gs : StronglySorted klt (gauge_name <$> sorted_gauges gs).
Proof.
  unfold sorted_gauges. rewrite !filter_cons. repeat case_decide; simpl; repeat constructor.
Qed.

Definition gauge_family (g : ProxyGauge) (x : Z) : MetricFamily :=
  {| mf_name := gauge_name g; mf_help := gauge_help g; field_type := GAUGE;
     metric := [set_gauge (f64_of_Z x) (set_label [] Metric_default)] |}.

Lemma collect_gauge gs e g :
  exporter_ok gs e → Value_collect i64_number (gauge_of g e) = gauge_family g (val (gauge_of g e)).
Proof.
  intros [Hn Hh Ht Hl _ _ _ _ _ _]. unfold Value_collect, Value_metric. by rewrite Hn, Hh, Ht, Hl.
Qed.

Definition report (gs : list ProxyGauge) (e : Exporter) : list MetricFamily :=
  (λ g, gauge_family g (val (gauge_of g e))) <$> sorted_gauges gs.

Lemma gather_report gs e :
  exporter_ok gs e → gather (H := gauge_collector e) (default_registry e) = report gs e.
Proof.
  intros Hok. pose proof Hok as [_ _ _ _ _ Hnd Hc _ _ [Hp1 Hp2]].
  assert (Hgs : NoDup gs) by by eapply NoDup_fmap_1.
  apply gather_distinct; [done|done|..].
  - unfold collected, report. rewrite Hc, map_to_list_to_map by by rewrite <-list_fmap_compose.
    rewrite <-list_fmap_compose, (sorted_gauges_perm gs) by done.
    change ((snd ∘ (λ g, (gid e g, g))) <$> gs) with (Datatypes.id <$> gs). rewrite list_fmap_id.
    assert (Hb : ∀ l, l ≫= collect (Collector := gauge_collector e) =
                      (λ g, gauge_family g (val (gauge_of g e))) <$> l).
    { induction l as [|g l IH]; [done|]. rewrite bind_cons, fmap_cons, IH. cbn [collect gauge_collector].
      by rewrite (collect_gauge gs). }
    by rewrite Hb.
  - unfold report. rewrite <-list_fmap_compose. apply sorted_gauges_names.
  - intros mf (g & -> & _)%list_elem_of_fmap. by eexists.
Qed.

(** The endpoint never panics: the families it encodes have a name and a metric each. *)
Lemma served_report gs e :
  exporter_ok gs e →
  prometheus_serve_req e =
    Some {| status := 200; response_headers := hm_append "content-type" (as_bytes TEXT_FORMAT) hm_empty;
            response_body := Ascii.byte_of_ascii <$> (report gs e ≫= family_text f64_to_string memchr) |}.
Proof.
  intros Hok. unfold prometheus_serve_req. rewrite (gather_report gs e Hok).
  assert (He : encode_to_string f64_to_string debug_family memchr (report gs e) =
               Ok (report gs e ≫= family_text f64_to_string memchr)).
  { apply encode_to_string_spec. split; [|done]. apply Forall_forall.
    intros mf (g & -> & _)%list_elem_of_fmap. by destruct g. }
  unfold encode_to_string in He. destruct (encode_impl _ _ _ _ _) as [[[]|err] w]; by simplify_eq.
Qed.

(** ** The task and the endpoint together *)

(** what the task does between two requests *)
Inductive exporter_step : Exporter → Exporter → Prop :=
  | step_register g e e' : ensure_registered g e = Some e' → exporter_step e e'
  | step_set g x e : exporter_step e (set_gauge_value g x e).

Lemma exporter_step_ok gs e e' :
  exporter_ok gs e → exporter_step e e' → ∃ gs', exporter_ok gs' e' ∧ (∀ g, gid e' g = gid e g).
Proof.
  intros Hok Hstep. destruct Hstep as [g e e' He|g x e].
  - destruct (ensure_registered_ok gs g e Hok) as (gs' & e1 & He1 & Hok1 & Hsame & _).
    rewrite He in He1. injection He1 as ->. exists gs'. split; [done|]. intros g'. unfold gid. by rewrite Hsame.
  - exists gs. split; [by apply set_gauge_ok|]. intros g'. unfold gid. by destruct (set_gauge_same g x e g') as [-> _].
Qed.

Lemma exporter_reachable_ok e0 e :
  (∃ gs, exporter_ok gs e0) → rtc exporter_step e0 e → ∃ gs, exporter_ok gs e ∧ ∀ g, gid e g = gid e0 g.
Proof.
  intros H0 Hrun. revert H0. induction Hrun as [e|e e1 e2 Hstep _ IH]; intros [gs Hok]; [by exists gs|].
  destruct (exporter_step_ok gs e e1 Hok Hstep) as (gs' & Hok' & Hid).
  destruct IH as (gs2 & Hok2 & Hid2); [by exists gs'|]. exists gs2. split; [done|]. intros g. by rewrite Hid2.
Qed.

(** The metrics of the proxy never panic: the statics can be created; whenever the
    endpoint is asked, between whichever two steps of the task, it answers; and
    registering always succeeds, even if the hashes of two gauges collide. *)
Theorem exporter_never_panics :
  (∀ b, fits 64 (fnv b)) →
  ∃ e0, exporter_init = Some e0 ∧
    ∀ e, rtc exporter_step e0 e →
      (∀ g, is_Some (ensure_registered g e)) ∧ ∃ res, prometheus_serve_req e = Some res ∧ status res = 200.
Proof.
  intros (e0 & Hinit & H0)%exporter_init_ok. exists e0. split; [done|]. intros e Hrun.
  destruct (exporter_reachable_ok e0 e) as (gs & Hok & _); [by exists []|done|]. split.
  - intros g. destruct (ensure_registered_ok gs g e Hok) as (gs' & e' & -> & _). by eexists.
  - rewrite (served_report gs e Hok). by eexists.
Qed.

(** ** One turn *)
Lemma ensure_step g e gs :
  exporter_ok gs e → NoDup (gid e <$> [APP_NUM; APP_LAST_TIME; READY_INSTANCE]) →
  ∃ gs' e', ensure_registered g e = Some e' ∧ exporter_step e e' ∧ exporter_ok gs' e' ∧
    (∀ g', gauge_of g' e' = gauge_of g' e) ∧ g ∈ gs' ∧ gs ⊆ gs'.
Proof.
  intros Hok Hnd. destruct (ensure_registered_ok gs g e Hok) as (gs' & e' & He & Hok' & Hsame & Hin & Hsub).
  exists gs', e'. split_and!; [done|by eapply step_register|done|done| |done].
  apply list_elem_of_fmap in Hin as (g' & Hg & Hin). enough (g = g') as -> by done.
  rewrite !fmap_cons, !NoDup_cons in Hnd. destruct Hnd as (H1 & H2 & _).
  rewrite fmap_nil in *. rewrite !not_elem_of_cons in *. destruct g, g'; naive_solver.
Qed.

(** no collision among the hashes of the three descriptors *)
Definition distinct_ids (e : Exporter) : Prop := NoDup (gid e <$> [APP_NUM; APP_LAST_TIME; READY_INSTANCE]).

#[export] Instance distinct_ids_dec e : Decision (distinct_ids e).
Proof. unfold distinct_ids. apply _. Defined.

Lemma distinct_ids_same e e' : (∀ g, gid e' g = gid e g) → distinct_ids e → distinct_ids e'.
Proof. intros Hid. unfold distinct_ids. by rewrite !fmap_cons, !Hid. Qed.

(** the values after one app *)
Definition app_exported (now : Z) (st : AppState) (s : Scheduler C) (e e' : Exporter) : Prop :=
  val (app_num e') = val (app_num e) ∧ val (app_last_time e') = elapsed_secs now (start_time st) ∧
  val (ready_instance e') = wrap_i64 (Z.of_nat (length (ready_of st s))).

Lemma export_app clock i st rest s e gs :
  exporter_ok gs e → distinct_ids e →
  ∃ gs' e', export_apps clock ((i, st) :: rest) s e = export_apps (λ i, clock (S i)) rest s e' ∧
    rtc exporter_step e e' ∧ exporter_ok gs' e' ∧ distinct_ids e' ∧ app_exported (clock O) st s e e' ∧
    gs ⊆ gs' ∧ APP_LAST_TIME ∈ gs' ∧ READY_INSTANCE ∈ gs'.
Proof.
  intros Hok Hnd. cbn [export_apps].
  destruct (ensure_step APP_LAST_TIME e gs Hok Hnd) as (gs1 & e1 & -> & Hs1 & Hok1 & Hsame1 & Hin1 & Hsub1).
  assert (Hnd1 : distinct_ids e1) by (eapply distinct_ids_same; [|done]; intros g; unfold gid; by rewrite Hsame1).
  cbn [mbind option_bind].
  destruct (ensure_step READY_INSTANCE e1 gs1 Hok1 Hnd1) as (gs2 & e2 & -> & Hs2 & Hok2 & Hsame2 & Hin2 & Hsub2).
  cbn [mbind option_bind]. set (e3 := set_gauge_value APP_LAST_TIME _ e2). set (e4 := set_gauge_value READY_INSTANCE _ e3).
  exists gs2, e4. split; [done|]. split_and!.
  - eapply rtc_l; [exact Hs1|]. eapply rtc_l; [exact Hs2|]. eapply rtc_l; [apply step_set|]. apply rtc_once, step_set.
  - by apply set_gauge_ok, set_gauge_ok.
  - eapply distinct_ids_same; [|exact Hnd1]. intros g. unfold gid.
    unfold e4, e3. by rewrite !(proj1 (set_gauge_same _ _ _ _)), Hsame2.
  - split; [|done]. pose proof (Hsame1 APP_NUM) as H1. pose proof (Hsame2 APP_NUM) as H2. simpl in *. congruence.
  - set_solver.
  - set_solver.
  - set_solver.
Qed.

Lemma export_apps_last pre clock i st s e gs :
  exporter_ok gs e → distinct_ids e →
  ∃ gs' e', export_apps clock (pre ++ [(i, st)]) s e = Some e' ∧ rtc exporter_step e e' ∧ exporter_ok gs' e' ∧
    app_exported (clock (length pre)) st s e e' ∧ gs ⊆ gs' ∧ APP_LAST_TIME ∈ gs' ∧ READY_INSTANCE ∈ gs'.
Proof.
  revert clock e gs. induction pre as [|[j x] pre IH]; intros clock e gs Hok Hnd; simpl app; simpl length.
  - destruct (export_app clock i st [] s e gs Hok Hnd) as (gs' & e' & -> & Hrun & Hok' & _ & Hex & Hin).
    by exists gs', e'.
  - destruct (export_app clock j x (pre ++ [(i, st)]) s e gs Hok Hnd)
      as (gs1 & e1 & -> & Hrun1 & Hok1 & Hnd1 & [Hnum1 _] & Hsub1 & _).
    destruct (IH (λ i, clock (S i)) e1 gs1 Hok1 Hnd1) as (gs2 & e2 & -> & Hrun2 & Hok2 & (Hnum2 & Hex) & Hsub2 & Hin).
    exists gs2, e2. split; [done|]. split; [by etrans|]. split; [done|].
    split; [split; [congruence|done]|]. split; [set_solver|done].
Qed.

(** After a turn of the task with at least one app in the cache the endpoint reports
    the number of cached apps, and under the other two names the running time and the
    number of ready instances of the app that the cache yields last: these gauges have
    no label for the app, so those of every other app are overwritten. *)
Theorem export_turn_report e0 e clock s pre i st :
  (∀ b, fits 64 (fnv b)) → exporter_init = Some e0 → distinct_ids e0 → rtc exporter_step e0 e →
  lru_iter (app_cache s) = pre ++ [(i, st)] →
  ∃ e', export_turn clock s e = Some (e', set_app_cache (lru_touch (app_cache s)) s) ∧ rtc exporter_step e e' ∧
    prometheus_serve_req e' =
      Some {| status := 200; response_headers := hm_append "content-type" (as_bytes TEXT_FORMAT) hm_empty;
              response_body := Ascii.byte_of_ascii <$>
                ([gauge_family APP_LAST_TIME (elapsed_secs (clock (length pre)) (start_time st));
                  gauge_family APP_NUM (wrap_i64 (Z.of_nat (S (length pre))));
                  gauge_family READY_INSTANCE (wrap_i64 (Z.of_nat (length (ready_of st s))))]
                 ≫= family_text f64_to_string memchr) |}.
Proof.
  intros Hfnv Hinit Hnd Hrun Happs.
  destruct (exporter_init_ok Hfnv) as (e0' & Hinit' & H0). rewrite Hinit in Hinit'. injection Hinit' as <-.
  destruct (exporter_reachable_ok e0 e) as (gs & Hok & Hid); [by exists []|done|].
  assert (Hnde : distinct_ids e) by by eapply distinct_ids_same.
  unfold export_turn. destruct (ensure_step APP_NUM e gs Hok Hnde) as (gs1 & e1 & -> & Hs1 & Hok1 & Hsame1 & Hin1 & _).
  cbn [mbind option_bind]. rewrite Happs.
  set (x := wrap_i64 (Z.of_nat (length (pre ++ [(i, st)])))). set (e2 := set_gauge_value APP_NUM x e1).
  assert (Hnd2 : distinct_ids e2).
  { eapply distinct_ids_same; [|exact Hnde]. intros g. unfold gid.
    unfold e2. by rewrite (proj1 (set_gauge_same _ _ _ _)), Hsame1. }
  destruct (export_apps_last pre clock i st s e2 gs1) as (gs3 & e3 & -> & Hrun3 & Hok3 & (Hn & Ht & Hr) & Hsub & Hi1 & Hi2);
    [by apply set_gauge_ok|done|].
  cbn [mbind option_bind]. exists e3. split; [done|]. split.
  { eapply rtc_l; [exact Hs1|]. apply (rtc_l _ e1 e2 e3); [apply step_set|exact Hrun3]. }
  rewrite (served_report gs3 e3 Hok3). do 3 f_equal. unfold report, sorted_gauges.
  rewrite !filter_cons, !decide_True by set_solver. simpl. rewrite Hn, Ht, Hr. simpl.
  unfold x. rewrite length_app. simpl. by rewrite Nat.add_1_r.
Qed.
End exporter.

(** ** A proxy with two cached apps *)
Module ExportRun.
(** FNV-1a *)
Definition fnv (b : bytes) : Z :=
  foldl (λ h x, wrap 64 (Z.lxor h (Z.of_N (Byte.to_N x)) * 1099511628211)) 14695981039346656037 b.
Lemma fnv_fits b : fits 64 (fnv b).
Proof.
  unfold fnv. assert (H0 : fits 64 14695981039346656037) by by split. revert H0.
  generalize 14695981039346656037 as h. induction b as [|x b IH]; intros h Hh; [done|].
  cbn [foldl]. apply IH. apply Z.mod_pos_bound. lia.
Qed.
(** the gauges as they are created *)
Definition e0 : Exporter :=
  ltac:(let x := eval vm_compute in (exporter_init fnv) in match x with Some ?e => exact e end).

Definition app (name : string) (l : positive) (start : Z) : AppId * AppState :=
  ({| app_id := name |},
   {| state_id := {| app_id := name |}; state_config := SchedRun.wc; state_bundle_id := "b"; state_bundle := [];
      ready_instances := l; start_time := start |}).
Definition s : Scheduler LruList.cache :=
  set_app_cache (lru_insert (app "a" 1 0).1 (app "a" 1 0).2
                  (lru_insert (app "b" 2 5000000000).1 (app "b" 2 5000000000).2 (lru_empty 5)))
    (Scheduler_new SchedRun.wc SchedRun.cfg).
End ExportRun.

(** [a] has run for 100 seconds and [b] for 95; the report has the time of [b] alone. *)
Example export_turn_report_holds :
  exporter_init ExportRun.fnv = Some ExportRun.e0 ∧ distinct_ids ExportRun.e0 ∧
  ∃ e', export_turn (λ _, "") (λ _, "") (λ _, 100000000000) ExportRun.s ExportRun.e0 =
          Some (e', set_app_cache (lru_touch (app_cache ExportRun.s)) ExportRun.s) ∧
    val (app_num e') = 2 ∧ val (app_last_time e') = 95 ∧
    is_Some (prometheus_serve_req (HH := HttpList.http_list) (λ _, "1") (λ _, "") memchr_impl e').
Proof.
  assert (Hinit : exporter_init ExportRun.fnv = Some ExportRun.e0) by (vm_compute; reflexivity).
  assert (Hnd : distinct_ids ExportRun.e0) by (apply (bool_decide_unpack (distinct_ids ExportRun.e0)); vm_compute; exact I).
  assert (Happs : lru_iter (app_cache ExportRun.s) = [ExportRun.app "a" 1 0] ++ [ExportRun.app "b" 2 5000000000])
    by (vm_compute; reflexivity).
  split; [exact Hinit|]. split; [exact Hnd|].
  destruct (export_turn_report ExportRun.fnv (λ _, "") (λ _, "") (HH := HttpList.http_list) (λ _, "1") (λ _, "") memchr_impl
    ExportRun.e0 ExportRun.e0 (λ _, 100000000000) ExportRun.s [ExportRun.app "a" 1 0] {| app_id := "b" |}
    (ExportRun.app "b" 2 5000000000).2 ExportRun.fnv_fits Hinit Hnd (rtc_refl _ _) Happs) as (e' & He & _ & Hserve).
  exists e'. split; [exact He|]. split; [|split; [|rewrite Hserve; by eexists]].
  - vm_compute in He. injection He as <-. reflexivity.
  - vm_compute in He. injection He as <-. reflexivity.
Defined.
