(* ===== verification/ProtoWire.v ===== *)
(** * What generated messages need of the [protobuf] crate

    [prometheus/proto/proto_model.rs] implements [protobuf::Message] for each message of
    an exposition on top of the crate's coded streams.  The crate is not part of the
    repository: its primitives are the class [ProtobufRuntime], what the messages rely on
    is [ProtobufLaws], and [ProtoFormat] has an instance with the documented wire format.
    A stream that is read is the list of the bytes left up to its limit; a stream that is
    written is a growing buffer, which cannot fail.

    Here are also the parts that all the messages share: the loop of [merge_from], and
    nested and repeated messages. *)
From Stdlib Require Import ZArith Lia Floats.SpecFloat.
From S2P Require Import Prelude Float64.
Local Open Scope Z_scope.

(** [protobuf::wire_format::WireType] *)
Inductive WireType :=
  | WireTypeVarint
  | WireTypeFixed64
  | WireTypeLengthDelimited
  | WireTypeStartGroup
  | WireTypeEndGroup
  | WireTypeFixed32.

#[export] Instance WireType_eq_dec : EqDecision WireType.
Proof. solve_decision. Defined.

(** ** The interface of the crate *)
Class ProtobufRuntime := {
  ProtobufError : Type;
  unexpected_wire_type : WireType → ProtobufError;
  (** [UnknownFields] *)
  UnknownFields : Type;
  unknown_fields_new : UnknownFields;
  unknown_fields_clear : UnknownFields → UnknownFields;
  (** [CodedOutputStream] *)
  write_tag : Z → WireType → bytes;
  write_raw_varint32 : Z → bytes;
  write_string : Z → string → bytes;
  write_double : Z → f64 → bytes;
  write_uint64 : Z → Z → bytes;
  write_int64 : Z → Z → bytes;
  write_enum : Z → Z → bytes;
  write_unknown_fields : UnknownFields → bytes;
  (** [rt]: sizes; [value_size] at [u64] and at [i64] *)
  string_size : Z → string → Z;
  value_size_u64 : Z → Z → WireType → Z;
  value_size_i64 : Z → Z → WireType → Z;
  enum_size : Z → Z → Z;
  compute_raw_varint32_size : Z → Z;
  unknown_fields_size : UnknownFields → Z;
  (** [CodedInputStream] *)
  read_tag_unpack : bytes → result ProtobufError (Z * WireType * bytes);
  read_double : bytes → result ProtobufError (f64 * bytes);
  read_uint64 : bytes → result ProtobufError (Z * bytes);
  read_int64 : bytes → result ProtobufError (Z * bytes);
  (** [rt]: readers into a field *)
  read_singular_string_into : WireType → bytes → option string → result ProtobufError (option string * bytes);
  read_proto2_enum_with_unknown_fields_into : ∀ {A}, (Z → option A) → WireType → bytes → option A → Z →
    UnknownFields → result ProtobufError (option A * UnknownFields * bytes);
  read_unknown_or_skip_group : Z → WireType → bytes → UnknownFields → result ProtobufError (UnknownFields * bytes);
  (** how far an embedded message reaches, and what is behind it *)
  read_message_limit : WireType → bytes → result ProtobufError (bytes * bytes);
  (** [SingularPtrField::set_default]: what an embedded message is merged into *)
  set_default : ∀ {M}, M → option M → M;
}.

(** A reader hands back no more than it was given. *)
Definition shrinks {E A} (f : bytes → result E (A * bytes)) : Prop :=
  ∀ inp x inp', f inp = Ok (x, inp') → (length inp' ≤ length inp)%nat.

(** What was written under a tag is read back by [read], whatever follows. *)
Definition reads_back `{ProtobufRuntime} {E A} (n : Z) (wt : WireType) (written : bytes)
    (read : bytes → result E (A * bytes)) (v : A) : Prop :=
  ∃ payload, written = write_tag n wt ++ payload ∧ ∀ rest, read (payload ++ rest) = Ok (v, rest).

(** The messages have fields up to 7, whose tags take one byte; 2 GiB is the limit of the
    format for what it delimits. *)
Definition field_number (n : Z) : Prop := 1 <= n <= 15.
Definition small (b : bytes) : Prop := Z.of_nat (length b) < 2 ^ 31.
Definition i64 (v : Z) : Prop := - 2 ^ 63 <= v < 2 ^ 63.
Definition i32 (v : Z) : Prop := - 2 ^ 31 <= v < 2 ^ 31.

Class ProtobufLaws `{ProtobufRuntime} := {
  (** reading *)
  read_tag_shrinks inp t inp' : read_tag_unpack inp = Ok (t, inp') → (length inp' < length inp)%nat;
  read_double_shrinks : shrinks read_double;
  read_uint64_shrinks : shrinks read_uint64;
  read_int64_shrinks : shrinks read_int64;
  read_string_shrinks wt old : shrinks (λ inp, read_singular_string_into wt inp old);
  read_enum_shrinks {A} (from : Z → option A) wt old n uf :
    shrinks (λ inp, read_proto2_enum_with_unknown_fields_into from wt inp old n uf);
  read_unknown_shrinks n wt uf : shrinks (λ inp, read_unknown_or_skip_group n wt inp uf);
  read_limit_shrinks wt inp sub inp' :
    read_message_limit wt inp = Ok (sub, inp') → (length sub + length inp' ≤ length inp)%nat;
  (** reading what was written *)
  read_write_tag n wt rest : field_number n → read_tag_unpack (write_tag n wt ++ rest) = Ok (n, wt, rest);
  write_tag_length n wt : field_number n → length (write_tag n wt) = 1%nat;
  read_write_double n v : field_number n → valid_binary 53 1024 v = true →
    reads_back n WireTypeFixed64 (write_double n v) read_double v;
  read_write_uint64 n v : field_number n → fits 64 v →
    reads_back n WireTypeVarint (write_uint64 n v) read_uint64 v;
  read_write_int64 n v : field_number n → i64 v →
    reads_back n WireTypeVarint (write_int64 n v) read_int64 v;
  read_write_string n v : field_number n → valid_utf8 (as_bytes v) = true → small (as_bytes v) →
    reads_back n WireTypeLengthDelimited (write_string n v)
      (λ inp, read_singular_string_into WireTypeLengthDelimited inp None) (Some v);
  read_write_enum {A} (from : Z → option A) n v a uf : field_number n → i32 v → from v = Some a →
    reads_back n WireTypeVarint (write_enum n v)
      (λ inp, read_proto2_enum_with_unknown_fields_into from WireTypeVarint inp None n uf) (Some a, uf);
  read_write_message body rest : small body →
    read_message_limit WireTypeLengthDelimited
      (write_raw_varint32 (Z.of_nat (length body)) ++ body ++ rest) = Ok (body, rest);
  set_default_None {M} (d : M) : set_default d None = d;
  (** sizes *)
  write_double_length n v : field_number n → length (write_double n v) = 9%nat;
  string_size_spec n v : field_number n → small (write_string n v) →
    string_size n v = Z.of_nat (length (write_string n v));
  value_size_u64_spec n v : field_number n → fits 64 v →
    value_size_u64 n v WireTypeVarint = Z.of_nat (length (write_uint64 n v));
  value_size_i64_spec n v : field_number n → i64 v →
    value_size_i64 n v WireTypeVarint = Z.of_nat (length (write_int64 n v));
  enum_size_spec n v : field_number n → i32 v → enum_size n v = Z.of_nat (length (write_enum n v));
  varint32_size_spec v : fits 32 v → compute_raw_varint32_size v = Z.of_nat (length (write_raw_varint32 v));
  write_raw_varint32_nonempty v : write_raw_varint32 v ≠ [];
  write_string_length n v : (length (as_bytes v) ≤ length (write_string n v))%nat;
  (** unknown fields: none *)
  write_unknown_fields_new : write_unknown_fields unknown_fields_new = [];
  unknown_fields_size_new : unknown_fields_size unknown_fields_new = 0;
}.

(** ** [trait Message], as the messages implement it *)
Inductive MergeError `{ProtobufRuntime} :=
  | WireError (e : ProtobufError)
  | OutOfFuel.  (* of the model: [merge_from] never returns it, see [merge_from_total] *)

Class Message `{ProtobufRuntime} (M : Type) := {
  message_new : M;
  is_initialized : M → bool;
  (** the body of the loop of [merge_from] *)
  merge_field : Z → WireType → M → bytes → result MergeError (M * bytes);
  (** the size, and the message with the [cached_size]s set *)
  compute_size : M → Z * M;
  get_cached_size : M → Z;
  write_to_with_cached_sizes : M → bytes;
}.

Section message.
Context `{ProtobufRuntime}.

Definition lift {A} (r : result ProtobufError A) : result MergeError A := map_err WireError r.

Section one.
Context `{!Message M}.

(** [while !is.eof()? { let (field_number, wire_type) = is.read_tag_unpack()?; .. }] *)
Fixpoint merge_loop (fuel : nat) (m : M) (inp : bytes) : result MergeError M :=
  match inp with
  | [] => Ok m
  | _ =>
      match fuel with
      | O => Err OutOfFuel
      | S fuel =>
          '(field_number, wire_type, inp) ← lift (read_tag_unpack inp);
          '(m, inp) ← merge_field field_number wire_type m inp;
          merge_loop fuel m inp
      end
  end.

Definition merge_from (m : M) (inp : bytes) : result MergeError M := merge_loop (length inp) m inp.

(** [rt::read_singular_message_into], [rt::read_repeated_message_into] *)
Definition read_singular_message_into (wt : WireType) (inp : bytes) (target : option M)
    : result MergeError (option M * bytes) :=
  '(sub, inp) ← lift (read_message_limit wt inp);
  m ← merge_from (set_default message_new target) sub;
  Ok (Some m, inp).

Definition read_repeated_message_into (wt : WireType) (inp : bytes) (target : list M)
    : result MergeError (list M * bytes) :=
  '(sub, inp) ← lift (read_message_limit wt inp);
  m ← merge_from message_new sub;
  Ok (target ++ [m], inp).

(** [my_size += 1 + compute_raw_varint32_size(len) + len] for each embedded message *)
Definition embedded_size (my_size len : Z) : Z :=
  wrapping_add 32 my_size (wrapping_add 32 (wrapping_add 32 1 (compute_raw_varint32_size len)) len).

Fixpoint compute_sizes (my_size : Z) (l : list M) : Z * list M :=
  match l with
  | [] => (my_size, [])
  | v :: l =>
      let '(len, v) := compute_size v in
      let '(my_size, l) := compute_sizes (embedded_size my_size len) l in
      (my_size, v :: l)
  end.

Definition compute_size_opt (my_size : Z) (o : option M) : Z * option M :=
  match o with
  | None => (my_size, None)
  | Some v => let '(len, v) := compute_size v in (embedded_size my_size len, Some v)
  end.

Definition write_message (n : Z) (v : M) : bytes :=
  write_tag n WireTypeLengthDelimited ++ write_raw_varint32 (get_cached_size v) ++ write_to_with_cached_sizes v.
End one.

(** [if wire_type != .. { return Err(unexpected_wire_type(wire_type)); } let tmp = is.read_..()?;] *)
Definition read_checked {A} (expected wt : WireType) (read : bytes → result ProtobufError (A * bytes)) (inp : bytes)
    : result MergeError (A * bytes) :=
  if decide (wt = expected) then lift (read inp) else Err (WireError (unexpected_wire_type wt)).

(** [if let Some(v) = field { my_size += size(v) }], and the same for writing *)
Definition size_opt {A} (my_size : Z) (o : option A) (size : A → Z) : Z :=
  match o with Some v => wrapping_add 32 my_size (size v) | None => my_size end.
Definition write_opt {A} (o : option A) (write : A → bytes) : bytes :=
  match o with Some v => write v | None => [] end.
End message.
