(* ===== verification/ProtoLaws.v ===== *)
(** * What a message promises, and how messages are put together

    [MessageLaws] is the contract of an implementation of [Message]: parsing ends on any
    input, [compute_size] is the length of what is written after it, and what is written
    is read back.  The lemmas here establish it field by field; [ProtoFacts] applies them
    to each message. *)
From Stdlib Require Import ZArith Lia Floats.SpecFloat.
From S2P Require Import Prelude Float64 ProtoWire.
Local Open Scope Z_scope.

Create HintDb proto.

Section wire.
Context `{ProtobufLaws}.

(** what a Rust [String] and an [f64] can be *)
Definition string_ok (s : string) : Prop := valid_utf8 (as_bytes s) = true.
Definition double_ok (v : f64) : Prop := valid_binary 53 1024 v = true.

(** ** Parsing ends *)

(** A reader of a field does not run out of fuel and never gives back more input. *)
Definition good {A} (inp : bytes) (r : result MergeError (A * bytes)) : Prop :=
  match r with Ok (_, inp') => (length inp' ≤ length inp)%nat | Err e => e ≠ OutOfFuel end.

Lemma good_lift {A} (f : bytes → result ProtobufError (A * bytes)) inp : shrinks f → good inp (lift (f inp)).
Proof. intros Hf. unfold good, lift. specialize (Hf inp). destruct (f inp) as [[a inp']|e]; simpl; [by eapply Hf|done]. Qed.

Lemma good_bind {A B} inp (r : result MergeError (A * bytes)) (k : A * bytes → result MergeError (B * bytes)) :
  good inp r → (∀ a inp', good inp' (k (a, inp'))) → good inp (r ≫= k).
Proof.
  destruct r as [[a inp']|e]; simpl; [|done]. intros Hr Hk. specialize (Hk a inp').
  destruct (k (a, inp')) as [[b inp'']|e]; simpl in *; [lia|done].
Qed.

Lemma good_ok {A} inp (a : A) : good inp (Ok (a, inp)).
Proof. simpl. lia. Qed.

Lemma good_read_checked {A} expected wt (f : bytes → result ProtobufError (A * bytes)) inp :
  shrinks f → good inp (read_checked expected wt f inp).
Proof. intros. unfold read_checked. case_decide; [by apply good_lift|done]. Qed.

Section one.
Context `{!Message M}.
Hypothesis merge_field_good : ∀ n wt m inp, good inp (merge_field n wt m inp).

Lemma merge_loop_total fuel m inp : (length inp ≤ fuel)%nat → merge_loop fuel m inp ≠ Err OutOfFuel.
Proof.
  revert m inp. induction fuel as [|fuel IH]; intros m [|b inp] Hle; simpl in *; try done; [lia|].
  pose proof (read_tag_shrinks (b :: inp)) as Ht. simpl in Ht.
  destruct (read_tag_unpack (b :: inp)) as [[[n wt] inp']|e]; [|done]. specialize (Ht _ _ eq_refl). simpl.
  pose proof (merge_field_good n wt m inp') as Hg.
  destruct (merge_field n wt m inp') as [[m' inp'']|e]; simpl in *; [|congruence]. apply IH. lia.
Qed.

Lemma good_message wt inp m :
  good inp ('(sub, inp) ← lift (read_message_limit wt inp); m ← merge_from m sub; Ok (m, inp)).
Proof.
  pose proof (read_limit_shrinks wt inp) as Hl.
  destruct (read_message_limit wt inp) as [[sub inp']|e]; [|done]. specialize (Hl _ _ eq_refl). simpl.
  pose proof (merge_loop_total (length sub) m sub ltac:(done)) as Ht. unfold merge_from.
  destruct (merge_loop (length sub) m sub); simpl; [lia|congruence].
Qed.

Lemma good_singular wt inp target : good inp (read_singular_message_into wt inp target).
Proof.
  unfold read_singular_message_into. pose proof (good_message wt inp (set_default message_new target)) as Hg.
  destruct (lift (read_message_limit wt inp)) as [[sub inp']|e]; simpl in *; [|done].
  by destruct (merge_from _ sub).
Qed.

Lemma good_repeated wt inp target : good inp (read_repeated_message_into wt inp target).
Proof.
  unfold read_repeated_message_into. pose proof (good_message wt inp message_new) as Hg.
  destruct (lift (read_message_limit wt inp)) as [[sub inp']|e]; simpl in *; [|done].
  by destruct (merge_from _ sub).
Qed.
End one.

(** ** Sizes *)
Lemma small_app a b : small (a ++ b) → small a ∧ small b.
Proof. unfold small. rewrite length_app. lia. Qed.

Definition sizes (n : Z) (b : bytes) : Prop := small b → n = Z.of_nat (length b).

Lemma sizes_nil : sizes 0 [].
Proof. done. Qed.

Lemma sizes_app n b k c : sizes n b → sizes k c → sizes (wrapping_add 32 n k) (b ++ c).
Proof.
  intros Hn Hk Hs. pose proof (small_app _ _ Hs) as [Hb Hc]. rewrite (Hn Hb), (Hk Hc).
  unfold small in Hs. rewrite length_app in *. rewrite wrapping_add_small by lia. lia.
Qed.

Lemma sizes_opt {A} n b (o : option A) size write :
  sizes n b → (∀ v, o = Some v → sizes (size v) (write v)) → sizes (size_opt n o size) (b ++ write_opt o write).
Proof. intros Hb Ho. destruct o; simpl; [apply sizes_app; auto|by rewrite app_nil_r]. Qed.

Lemma sizes_string n v : field_number n → sizes (string_size n v) (write_string n v).
Proof. intros Hn Hs. by apply string_size_spec. Qed.
Lemma sizes_double n v : field_number n → sizes 9 (write_double n v).
Proof. intros Hn _. by rewrite write_double_length. Qed.
Lemma sizes_uint64 n v : field_number n → fits 64 v → sizes (value_size_u64 n v WireTypeVarint) (write_uint64 n v).
Proof. intros Hn Hv _. by apply value_size_u64_spec. Qed.
Lemma sizes_int64 n v : field_number n → i64 v → sizes (value_size_i64 n v WireTypeVarint) (write_int64 n v).
Proof. intros Hn Hv _. by apply value_size_i64_spec. Qed.
Lemma sizes_enum n v : field_number n → i32 v → sizes (enum_size n v) (write_enum n v).
Proof. intros Hn Hv _. by apply enum_size_spec. Qed.

Lemma sizes_unknown n b uf :
  sizes n b → uf = unknown_fields_new →
  sizes (wrapping_add 32 n (unknown_fields_size uf)) (b ++ write_unknown_fields uf).
Proof.
  intros Hb ->. apply sizes_app; [done|]. intros _. by rewrite unknown_fields_size_new, write_unknown_fields_new.
Qed.

(** ** Parsing what was written

    [parses m b m']: a message [m] that is merged with [b], and then with more, is [m']
    merged with the rest. *)
Definition parses `{!Message M} (m : M) (b : bytes) (m' : M) : Prop :=
  ∀ rest fuel, (length (b ++ rest) ≤ fuel)%nat →
    ∃ fuel', (length rest ≤ fuel')%nat ∧ merge_loop fuel m (b ++ rest) = merge_loop fuel' m' rest.

(** ** The contract *)
Definition written `{!Message M} (m : M) : bytes := write_to_with_cached_sizes (compute_size m).2.

End wire.

Class MessageLaws `{ProtobufRuntime} (M : Type) `{!Message M} := {
  (** no unknown fields, and every value in the range of its type *)
  well_formed : M → Prop;
  (** the same message with no size computed yet *)
  erase : M → M;
  merge_field_good n wt (m : M) inp : good inp (merge_field n wt m inp);
  compute_size_cached (m : M) : get_cached_size (compute_size m).2 = (compute_size m).1;
  compute_size_written (m : M) : well_formed m → sizes (compute_size m).1 (written m);
  merge_written (m : M) : well_formed m → small (written m) → parses message_new (written m) (erase m);
}.

Section fields.
Context `{ProtobufLaws}.

Section one.
Context `{!Message M}.
Implicit Types m : M.

Lemma parses_nil m : parses m [] m.
Proof. intros rest fuel Hle. by exists fuel. Qed.

Lemma parses_app m b m1 b' m' : parses m b m1 → parses m1 b' m' → parses m (b ++ b') m'.
Proof.
  intros H1 H2 rest fuel Hle. rewrite <-app_assoc in *. destruct (H1 _ _ Hle) as (f1 & Hf1 & ->). by apply H2.
Qed.

Lemma parses_from m b m' : parses m b m' → merge_from m b = Ok m'.
Proof.
  intros Hp. destruct (Hp [] (length b)) as (f & _ & Hf); [by rewrite app_nil_r|].
  rewrite app_nil_r in Hf. unfold merge_from. rewrite Hf. by destruct f.
Qed.

(** One field: what [merge_field] does with its tag *)
Lemma parses_tag n wt payload m m' :
  field_number n → (∀ rest, merge_field n wt m (payload ++ rest) = Ok (m', rest)) →
  parses m (write_tag n wt ++ payload) m'.
Proof.
  intros Hn Hf rest fuel Hle. pose proof (write_tag_length n wt Hn) as Hl.
  pose proof (read_write_tag n wt (payload ++ rest) Hn) as Ht.
  destruct fuel as [|fuel]; rewrite <-?app_assoc, ?length_app in *; [lia|].
  exists fuel. split; [lia|]. destruct (write_tag n wt) as [|b t] eqn:E; [done|].
  simpl app in *. simpl merge_loop. rewrite Ht. simpl. by rewrite Hf.
Qed.

Lemma parses_read {A} n wt b (read : bytes → result ProtobufError (A * bytes)) v m (put : A → M) :
  reads_back n wt b read v → field_number n →
  (∀ inp, merge_field n wt m inp = '(v, inp) ← lift (read inp); Ok (put v, inp)) →
  parses m b (put v).
Proof.
  intros (payload & -> & Hr) Hn Hf. apply parses_tag; [done|]. intros rest. by rewrite Hf, Hr.
Qed.

(** Each kind of field, from a message that does not have it *)
Lemma string_opt n o (set : option string → M) :
  field_number n → from_option string_ok True o → small (write_opt o (write_string n)) →
  (∀ inp, merge_field n WireTypeLengthDelimited (set None) inp =
    '(v, inp) ← lift (read_singular_string_into WireTypeLengthDelimited inp None); Ok (set v, inp)) →
  parses (set None) (write_opt o (write_string n)) (set o).
Proof.
  intros Hn Ho Hs Hf. destruct o as [v|]; simpl in *; [|apply parses_nil].
  eapply (parses_read n _ _ _ (Some v)); [apply read_write_string; [done..|]|done|done].
  pose proof (write_string_length n v). unfold small in *. lia.
Qed.

Lemma double_opt n o (set : option f64 → M) :
  field_number n → from_option double_ok True o →
  (∀ inp, merge_field n WireTypeFixed64 (set None) inp =
    '(v, inp) ← lift (read_double inp); Ok (set (Some v), inp)) →
  parses (set None) (write_opt o (write_double n)) (set o).
Proof.
  intros Hn Ho Hf. destruct o as [v|]; simpl in *; [|apply parses_nil].
  by eapply (parses_read n _ _ _ v _ (λ v, set (Some v))); [apply read_write_double| |].
Qed.

Lemma uint64_opt n o (set : option Z → M) :
  field_number n → from_option (fits 64) True o →
  (∀ inp, merge_field n WireTypeVarint (set None) inp =
    '(v, inp) ← lift (read_uint64 inp); Ok (set (Some v), inp)) →
  parses (set None) (write_opt o (write_uint64 n)) (set o).
Proof.
  intros Hn Ho Hf. destruct o as [v|]; simpl in *; [|apply parses_nil].
  by eapply (parses_read n _ _ _ v _ (λ v, set (Some v))); [apply read_write_uint64| |].
Qed.

Lemma int64_opt n o (set : option Z → M) :
  field_number n → from_option i64 True o →
  (∀ inp, merge_field n WireTypeVarint (set None) inp =
    '(v, inp) ← lift (read_int64 inp); Ok (set (Some v), inp)) →
  parses (set None) (write_opt o (write_int64 n)) (set o).
Proof.
  intros Hn Ho Hf. destruct o as [v|]; simpl in *; [|apply parses_nil].
  by eapply (parses_read n _ _ _ v _ (λ v, set (Some v))); [apply read_write_int64| |].
Qed.

Lemma enum_opt {A} (from : Z → option A) (value : A → Z) n o (set : option A → M) uf put :
  field_number n → (∀ v, i32 (value v) ∧ from (value v) = Some v) →
  (∀ v, put (v, uf) = set v) →
  (∀ inp, merge_field n WireTypeVarint (set None) inp =
    '(v, inp) ← lift (read_proto2_enum_with_unknown_fields_into from WireTypeVarint inp None n uf); Ok (put v, inp)) →
  parses (set None) (write_opt o (λ v, write_enum n (value v))) (set o).
Proof.
  intros Hn Ho Hp Hf. destruct o as [v|]; simpl in *; [|apply parses_nil]. rewrite <-(Hp (Some v)).
  destruct (Ho v). by eapply (parses_read n _ _ _ (Some v, uf)); [eapply (read_write_enum from)| |].
Qed.

Lemma parses_unknown m m' uf : m = m' → uf = unknown_fields_new → parses m (write_unknown_fields uf) m'.
Proof. intros -> ->. rewrite write_unknown_fields_new. apply parses_nil. Qed.

End one.

(** ** Embedded messages *)
Section embedded.
Context {R M : Type} `{!Message R, !Message M, !MessageLaws M}.

Lemma write_message_written n (v : M) :
  write_message n (compute_size v).2 =
  write_tag n WireTypeLengthDelimited ++ write_raw_varint32 (compute_size v).1 ++ written v.
Proof. unfold write_message. by rewrite compute_size_cached. Qed.

Lemma sizes_message k b n (v : M) :
  field_number n → sizes k b → well_formed v →
  sizes (embedded_size k (compute_size v).1) (b ++ write_message n (compute_size v).2).
Proof.
  intros Hn Hb Hv Hs. rewrite write_message_written in *.
  pose proof (small_app _ _ Hs) as [_ [_ [_ Hw]%small_app]%small_app].
  pose proof (compute_size_written v Hv Hw) as E. revert Hs. rewrite E. intros Hs. revert Hs.
  change (sizes (embedded_size k (Z.of_nat (length (written v))))
    (b ++ write_tag n WireTypeLengthDelimited ++ write_raw_varint32 (Z.of_nat (length (written v))) ++ written v)).
  unfold embedded_size. apply sizes_app; [done|]. rewrite app_assoc. apply sizes_app; [|done].
  apply sizes_app; [intros _; by rewrite write_tag_length|]. intros _. apply varint32_size_spec.
  unfold small in Hw. unfold fits. lia.
Qed.

Lemma compute_sizes_spec k (l : list M) :
  (compute_sizes k l).2 = (λ v, (compute_size v).2) <$> l ∧
  ∀ n b, field_number n → sizes k b → Forall well_formed l →
    sizes (compute_sizes k l).1 (b ++ ((compute_sizes k l).2 ≫= write_message n)).
Proof.
  revert k. induction l as [|v l IH]; intros k; simpl.
  { split; [done|]. intros. by rewrite app_nil_r. }
  destruct (compute_size v) as [len v'] eqn:E. specialize (IH (embedded_size k len)) as [IH1 IH2].
  destruct (compute_sizes (embedded_size k len) l) as [k' l']. simpl in *. rewrite IH1. split; [done|].
  intros n b Hn Hb [Hv Hl]%Forall_cons. rewrite <-IH1, app_assoc. apply IH2; [done| |done].
  pose proof (sizes_message k b n v Hn Hb Hv) as Hm. by rewrite E in Hm.
Qed.

Lemma compute_size_opt_spec k (o : option M) :
  (compute_size_opt k o).2 = (λ v, (compute_size v).2) <$> o ∧
  ∀ n b, field_number n → sizes k b → from_option well_formed True o →
    sizes (compute_size_opt k o).1 (b ++ write_opt (compute_size_opt k o).2 (write_message n)).
Proof.
  destruct o as [v|]; simpl; [|by split; [|intros; rewrite app_nil_r]].
  destruct (compute_size v) as [len v'] eqn:E. split; [done|]. intros n b Hn Hb Hv.
  pose proof (sizes_message k b n v Hn Hb Hv) as Hm. by rewrite E in Hm.
Qed.


(** What the reader of an embedded message finds, and makes of it *)
Lemma read_embedded n (v : M) :
  well_formed v → small (write_message n (compute_size v).2) →
  ∃ payload, write_message n (compute_size v).2 = write_tag n WireTypeLengthDelimited ++ payload ∧
    ∀ rest, read_message_limit WireTypeLengthDelimited (payload ++ rest) = Ok (written v, rest) ∧
      merge_from message_new (written v) = Ok (erase v).
Proof.
  rewrite write_message_written. intros Hv Hs.
  pose proof (small_app _ _ Hs) as [_ [_ Hw]%small_app].
  exists (write_raw_varint32 (compute_size v).1 ++ written v). split; [done|]. intros rest'.
  rewrite (compute_size_written v Hv Hw), <-app_assoc, (read_write_message _ _ Hw). split; [done|].
  by apply parses_from, merge_written.
Qed.

Lemma parses_singular n (v : M) (set : option M → R) :
  field_number n → well_formed v → small (write_message n (compute_size v).2) →
  (∀ inp, merge_field n WireTypeLengthDelimited (set None) inp =
    '(o, inp) ← read_singular_message_into WireTypeLengthDelimited inp None; Ok (set o, inp)) →
  parses (set None) (write_message n (compute_size v).2) (set (Some (erase v))).
Proof.
  intros Hn Hv Hs Hf. destruct (read_embedded n v Hv Hs) as (payload & -> & Hr).
  apply parses_tag; [done|]. intros rest. destruct (Hr rest) as [Hl Hm].
  rewrite Hf. unfold read_singular_message_into. by rewrite Hl, set_default_None; simpl; rewrite Hm.
Qed.

Lemma parses_repeated n (l : list M) (set : list M → R) :
  field_number n → Forall well_formed l →
  small (((λ v, (compute_size v).2) <$> l) ≫= write_message n) →
  (∀ pre inp, merge_field n WireTypeLengthDelimited (set pre) inp =
    '(o, inp) ← read_repeated_message_into WireTypeLengthDelimited inp pre; Ok (set o, inp)) →
  ∀ pre, parses (set pre) (((λ v, (compute_size v).2) <$> l) ≫= write_message n) (set (pre ++ (erase <$> l))).
Proof.
  intros Hn Hl Hs Hf. induction Hl as [|v l Hv Hl IH]; intros pre.
  { rewrite app_nil_r. apply parses_nil. }
  rewrite !fmap_cons, !bind_cons in *. apply small_app in Hs as [Hs1 Hs2].
  rewrite (cons_middle (erase v) pre), app_assoc.
  eapply parses_app; [|by apply IH].
  destruct (read_embedded n v Hv Hs1) as (payload & -> & Hr).
  apply parses_tag; [done|]. intros rest. destruct (Hr rest) as [Hr1 Hr2].
  rewrite Hf. unfold read_repeated_message_into. by rewrite Hr1; simpl; rewrite Hr2.
Qed.

Lemma parses_optional n (o : option M) (set : option M → R) :
  field_number n → from_option well_formed True o →
  small (write_opt ((λ v, (compute_size v).2) <$> o) (write_message n)) →
  (∀ inp, merge_field n WireTypeLengthDelimited (set None) inp =
    '(o, inp) ← read_singular_message_into WireTypeLengthDelimited inp None; Ok (set o, inp)) →
  parses (set None) (write_opt ((λ v, (compute_size v).2) <$> o) (write_message n)) (set (erase <$> o)).
Proof. intros. destruct o; simpl in *; [by apply parses_singular|apply parses_nil]. Qed.

End embedded.
End fields.

#[export] Hint Resolve good_ok : proto.
#[export] Hint Resolve read_double_shrinks read_uint64_shrinks read_int64_shrinks read_string_shrinks
  read_enum_shrinks read_unknown_shrinks : proto.
#[export] Hint Resolve sizes_string sizes_double sizes_uint64 sizes_int64 sizes_enum : proto.

(** ** The tactics that prove the contract of one message *)

(** [merge_field_good]: each arm reads its field *)
Tactic Notation "merge_good" reference(body) :=
  intros n wt m inp; simpl; unfold body;
  repeat match goal with |- good _ (match ?x with _ => _ end) => destruct x end;
  (apply good_bind; [|intros; repeat case_match; auto with proto]);
  first [ match goal with |- good ?i (lift ?r) =>
            match eval pattern i in r with ?f _ => apply (good_lift f); auto with proto end end
        | apply good_read_checked; auto with proto
        | apply good_singular, merge_field_good
        | apply good_repeated, merge_field_good ].

(** [compute_size_cached] *)
Tactic Notation "cached_size" reference(cs) :=
  intros m; unfold compute_size; simpl; unfold cs; by repeat case_match.

Ltac field_num := unfold field_number; lia.

(** [compute_size_written] *)
Tactic Notation "sizes_start" reference(cs) reference(wr) :=
  unfold written, compute_size, write_to_with_cached_sizes; simpl; unfold cs, wr.
Ltac sizes_embedded spec :=
  match goal with
  | |- context [compute_sizes ?k ?l] =>
      let Hk := fresh "Hk" in
      pose proof (proj2 (spec k l)) as Hk; destruct (compute_sizes k l) as [? ?]; cbn [fst snd] in Hk
  | |- context [compute_size_opt ?k ?o] =>
      let Hk := fresh "Hk" in
      pose proof (proj2 (spec k o)) as Hk; destruct (compute_size_opt k o) as [? ?]; cbn [fst snd] in Hk
  end.
Ltac some_ok :=
  match goal with
  | Ho : ?o = Some _, Hx : from_option _ True ?o |- _ => rewrite Ho in Hx; exact Hx
  end.
Ltac sizes_fields :=
  cbn -[compute_size];
  match goal with |- sizes ?n ?b => change (sizes n ([] ++ b)) end;
  rewrite !app_assoc; apply sizes_unknown; [|assumption];
  repeat first
    [ apply sizes_nil
    | apply sizes_opt; [|intros; first
        [ apply sizes_double; field_num | apply sizes_string; field_num
        | apply sizes_uint64; [field_num|some_ok] | apply sizes_int64; [field_num|some_ok]
        | apply sizes_enum; [field_num|] ] ]
    | match goal with Hk : ∀ n b, _ → sizes _ b → _ → sizes ?k _ |- sizes ?k _ =>
        apply Hk; [field_num| |assumption] end ].

(** [merge_written] *)
Tactic Notation "written_start" reference(cs) reference(wr) :=
  unfold written, compute_size, write_to_with_cached_sizes in *; simpl in *; unfold cs in *;
  repeat match goal with
  | |- context [compute_sizes ?k ?l] =>
      let E := fresh in pose proof (proj1 (compute_sizes_spec k l)) as E; destruct (compute_sizes k l) as [? ?];
      cbn [snd] in E; subst
  | |- context [compute_size_opt ?k ?o] =>
      let E := fresh in pose proof (proj1 (compute_size_opt_spec k o)) as E;
      destruct (compute_size_opt k o) as [? ?]; cbn [snd] in E; subst
  end;
  cbn -[compute_size] in *; unfold wr in *; cbn -[compute_size] in *.
Ltac next_field :=
  match goal with Hs : small (_ ++ _) |- _ => apply small_app in Hs as [? Hs] end;
  eapply parses_app.
Ltac field_with tac := next_field; [match goal with |- parses ?m _ _ => tac m end|cbv beta].
Ltac string_field n put H :=
  field_with ltac:(fun m => apply (string_opt n _ (λ o, put o m)); [field_num|exact H|assumption|reflexivity]).
Ltac double_field n put H :=
  field_with ltac:(fun m => apply (double_opt n _ (λ o, put o m)); [field_num|exact H|reflexivity]).
Ltac uint64_field n put H :=
  field_with ltac:(fun m => apply (uint64_opt n _ (λ o, put o m)); [field_num|exact H|reflexivity]).
Ltac int64_field n put H :=
  field_with ltac:(fun m => apply (int64_opt n _ (λ o, put o m)); [field_num|exact H|reflexivity]).
Ltac repeated_field n put H :=
  field_with ltac:(fun m =>
    eapply (parses_repeated n _ (λ l, put l m)) with (pre := []); [field_num|exact H|assumption|reflexivity]).
Ltac embedded_field n put H :=
  field_with ltac:(fun m =>
    apply (parses_optional n _ (λ o, put o m)); [field_num|exact H|assumption|reflexivity]).
Ltac written_end m := apply parses_unknown; [|assumption]; destruct m; simpl in *; by subst.
