(* ===== verification/Proto.v ===== *)
(** * The messages of an exposition: [prometheus/proto/proto_model.rs]

    The default build of the client uses these messages, generated from
    [proto_model.proto]; [plain_model.rs] replaces them without the [protobuf] feature.
    A [SingularField], [SingularPtrField] or [Option] is an [option], a [RepeatedField] a
    list; every message has the fields it did not know and the size computed last.  A
    [mut_..] hands out a reference: here it takes what is done through it.  Reflection
    ([descriptor], [as_any], [Debug]) is not modelled. *)
From Stdlib Require Import ZArith Lia.
From S2P Require Import Prelude Float64 ProtoWire.
Local Open Scope Z_scope.

(** ** [MetricType] *)
Inductive MetricType := COUNTER | GAUGE | SUMMARY | UNTYPED | HISTOGRAM.

Definition MetricType_value (t : MetricType) : Z :=
  match t with COUNTER => 0 | GAUGE => 1 | SUMMARY => 2 | UNTYPED => 3 | HISTOGRAM => 4 end.

Definition MetricType_from_i32 (value : Z) : option MetricType :=
  match value with
  | 0 => Some COUNTER
  | 1 => Some GAUGE
  | 2 => Some SUMMARY
  | 3 => Some UNTYPED
  | 4 => Some HISTOGRAM
  | _ => None
  end.

Definition MetricType_values : list MetricType := [COUNTER; GAUGE; SUMMARY; UNTYPED; HISTOGRAM].

Section messages.
Context `{ProtobufRuntime}.

(** ** [LabelPair] *)
Record LabelPair := {
  LabelPair_name : option string;
  LabelPair_value : option string;
  LabelPair_unknown_fields : UnknownFields;
  LabelPair_cached_size : Z;
}.

Definition LabelPair_new : LabelPair :=
  {| LabelPair_name := None; LabelPair_value := None; LabelPair_unknown_fields := unknown_fields_new;
     LabelPair_cached_size := 0 |}.

Definition LabelPair_with_name (v : option string) (m : LabelPair) : LabelPair :=
  {| LabelPair_name := v; LabelPair_value := LabelPair_value m; LabelPair_unknown_fields :=
     LabelPair_unknown_fields m; LabelPair_cached_size := LabelPair_cached_size m |}.
Definition LabelPair_with_value (v : option string) (m : LabelPair) : LabelPair :=
  {| LabelPair_name := LabelPair_name m; LabelPair_value := v; LabelPair_unknown_fields :=
     LabelPair_unknown_fields m; LabelPair_cached_size := LabelPair_cached_size m |}.
Definition LabelPair_with_unknown_fields (v : UnknownFields) (m : LabelPair) : LabelPair :=
  {| LabelPair_name := LabelPair_name m; LabelPair_value := LabelPair_value m; LabelPair_unknown_fields := v;
     LabelPair_cached_size := LabelPair_cached_size m |}.
Definition LabelPair_with_cached_size (v : Z) (m : LabelPair) : LabelPair :=
  {| LabelPair_name := LabelPair_name m; LabelPair_value := LabelPair_value m; LabelPair_unknown_fields :=
     LabelPair_unknown_fields m; LabelPair_cached_size := v |}.

Definition LabelPair_clear_name (m : LabelPair) : LabelPair := LabelPair_with_name None m.
Definition LabelPair_has_name (m : LabelPair) : bool := bool_decide (is_Some (LabelPair_name m)).
Definition LabelPair_set_name (v : string) (m : LabelPair) : LabelPair := LabelPair_with_name (Some v) m.
Definition LabelPair_mut_name (f : string → string) (m : LabelPair) : LabelPair :=
  LabelPair_with_name (Some (f (default "" (LabelPair_name m)))) m.
Definition LabelPair_take_name (m : LabelPair) : string * LabelPair :=
  (default "" (LabelPair_name m), LabelPair_with_name None m).
Definition LabelPair_get_name (m : LabelPair) : string := default "" (LabelPair_name m).

Definition LabelPair_clear_value (m : LabelPair) : LabelPair := LabelPair_with_value None m.
Definition LabelPair_has_value (m : LabelPair) : bool := bool_decide (is_Some (LabelPair_value m)).
Definition LabelPair_set_value (v : string) (m : LabelPair) : LabelPair := LabelPair_with_value (Some v) m.
Definition LabelPair_mut_value (f : string → string) (m : LabelPair) : LabelPair :=
  LabelPair_with_value (Some (f (default "" (LabelPair_value m)))) m.
Definition LabelPair_take_value (m : LabelPair) : string * LabelPair :=
  (default "" (LabelPair_value m), LabelPair_with_value None m).
Definition LabelPair_get_value (m : LabelPair) : string := default "" (LabelPair_value m).

Definition LabelPair_clear (m : LabelPair) : LabelPair :=
  let m := LabelPair_clear_value (LabelPair_clear_name m) in LabelPair_with_unknown_fields (unknown_fields_clear
     (LabelPair_unknown_fields m)) m.

Definition LabelPair_is_initialized (m : LabelPair) : bool := true.

Definition LabelPair_merge_field (field_number : Z) (wire_type : WireType) (m : LabelPair) (inp : bytes)
    : result MergeError (LabelPair * bytes) :=
  match field_number with
  | 1 => '(v, inp) ← lift (read_singular_string_into wire_type inp (LabelPair_name m));
        Ok (LabelPair_with_name v m, inp)
  | 2 => '(v, inp) ← lift (read_singular_string_into wire_type inp (LabelPair_value m));
        Ok (LabelPair_with_value v m, inp)
  | _ => '(uf, inp) ← lift (read_unknown_or_skip_group field_number wire_type inp (LabelPair_unknown_fields m));
        Ok (LabelPair_with_unknown_fields uf m, inp)
  end.

Definition LabelPair_compute_size (m : LabelPair) : Z * LabelPair :=
  let my_size := 0 in
  let my_size := size_opt my_size (LabelPair_name m) (string_size 1) in
  let my_size := size_opt my_size (LabelPair_value m) (string_size 2) in
  let my_size := wrapping_add 32 my_size (unknown_fields_size (LabelPair_unknown_fields m)) in
  (my_size, LabelPair_with_cached_size my_size m).

Definition LabelPair_write_to_with_cached_sizes (m : LabelPair) : bytes :=
  write_opt (LabelPair_name m) (write_string 1) ++
  write_opt (LabelPair_value m) (write_string 2) ++
  write_unknown_fields (LabelPair_unknown_fields m).

#[export] Instance LabelPair_message : Message LabelPair := {|
  message_new := LabelPair_new;
  is_initialized := LabelPair_is_initialized;
  merge_field := LabelPair_merge_field;
  compute_size := LabelPair_compute_size;
  get_cached_size := LabelPair_cached_size;
  write_to_with_cached_sizes := LabelPair_write_to_with_cached_sizes;
|}.

(** ** [Gauge] *)
Record Gauge := {
  Gauge_value : option f64;
  Gauge_unknown_fields : UnknownFields;
  Gauge_cached_size : Z;
}.

Definition Gauge_new : Gauge :=
  {| Gauge_value := None; Gauge_unknown_fields := unknown_fields_new; Gauge_cached_size := 0 |}.

Definition Gauge_with_value (v : option f64) (m : Gauge) : Gauge :=
  {| Gauge_value := v; Gauge_unknown_fields := Gauge_unknown_fields m; Gauge_cached_size := Gauge_cached_size m
     |}.
Definition Gauge_with_unknown_fields (v : UnknownFields) (m : Gauge) : Gauge :=
  {| Gauge_value := Gauge_value m; Gauge_unknown_fields := v; Gauge_cached_size := Gauge_cached_size m |}.
Definition Gauge_with_cached_size (v : Z) (m : Gauge) : Gauge :=
  {| Gauge_value := Gauge_value m; Gauge_unknown_fields := Gauge_unknown_fields m; Gauge_cached_size := v |}.

Definition Gauge_clear_value (m : Gauge) : Gauge := Gauge_with_value None m.
Definition Gauge_has_value (m : Gauge) : bool := bool_decide (is_Some (Gauge_value m)).
Definition Gauge_set_value (v : f64) (m : Gauge) : Gauge := Gauge_with_value (Some v) m.
Definition Gauge_get_value (m : Gauge) : f64 := default f64_zero (Gauge_value m).

Definition Gauge_clear (m : Gauge) : Gauge :=
  let m := Gauge_clear_value m in Gauge_with_unknown_fields (unknown_fields_clear (Gauge_unknown_fields m)) m.

Definition Gauge_is_initialized (m : Gauge) : bool := true.

Definition Gauge_merge_field (field_number : Z) (wire_type : WireType) (m : Gauge) (inp : bytes)
    : result MergeError (Gauge * bytes) :=
  match field_number with
  | 1 => '(tmp, inp) ← read_checked WireTypeFixed64 wire_type read_double inp;
        Ok (Gauge_set_value tmp m, inp)
  | _ => '(uf, inp) ← lift (read_unknown_or_skip_group field_number wire_type inp (Gauge_unknown_fields m));
        Ok (Gauge_with_unknown_fields uf m, inp)
  end.

Definition Gauge_compute_size (m : Gauge) : Z * Gauge :=
  let my_size := 0 in
  let my_size := size_opt my_size (Gauge_value m) (λ _, 9) in
  let my_size := wrapping_add 32 my_size (unknown_fields_size (Gauge_unknown_fields m)) in
  (my_size, Gauge_with_cached_size my_size m).

Definition Gauge_write_to_with_cached_sizes (m : Gauge) : bytes :=
  write_opt (Gauge_value m) (write_double 1) ++
  write_unknown_fields (Gauge_unknown_fields m).

#[export] Instance Gauge_message : Message Gauge := {|
  message_new := Gauge_new;
  is_initialized := Gauge_is_initialized;
  merge_field := Gauge_merge_field;
  compute_size := Gauge_compute_size;
  get_cached_size := Gauge_cached_size;
  write_to_with_cached_sizes := Gauge_write_to_with_cached_sizes;
|}.

(** ** [Counter] *)
Record Counter := {
  Counter_value : option f64;
  Counter_unknown_fields : UnknownFields;
  Counter_cached_size : Z;
}.

Definition Counter_new : Counter :=
  {| Counter_value := None; Counter_unknown_fields := unknown_fields_new; Counter_cached_size := 0 |}.

Definition Counter_with_value (v : option f64) (m : Counter) : Counter :=
  {| Counter_value := v; Counter_unknown_fields := Counter_unknown_fields m; Counter_cached_size :=
     Counter_cached_size m |}.
Definition Counter_with_unknown_fields (v : UnknownFields) (m : Counter) : Counter :=
  {| Counter_value := Counter_value m; Counter_unknown_fields := v; Counter_cached_size := Counter_cached_size m
     |}.
Definition Counter_with_cached_size (v : Z) (m : Counter) : Counter :=
  {| Counter_value := Counter_value m; Counter_unknown_fields := Counter_unknown_fields m; Counter_cached_size
     := v |}.

Definition Counter_clear_value (m : Counter) : Counter := Counter_with_value None m.
Definition Counter_has_value (m : Counter) : bool := bool_decide (is_Some (Counter_value m)).
Definition Counter_set_value (v : f64) (m : Counter) : Counter := Counter_with_value (Some v) m.
Definition Counter_get_value (m : Counter) : f64 := default f64_zero (Counter_value m).

Definition Counter_clear (m : Counter) : Counter :=
  let m := Counter_clear_value m in Counter_with_unknown_fields (unknown_fields_clear (Counter_unknown_fields
     m)) m.

Definition Counter_is_initialized (m : Counter) : bool := true.

Definition Counter_merge_field (field_number : Z) (wire_type : WireType) (m : Counter) (inp : bytes)
    : result MergeError (Counter * bytes) :=
  match field_number with
  | 1 => '(tmp, inp) ← read_checked WireTypeFixed64 wire_type read_double inp;
        Ok (Counter_set_value tmp m, inp)
  | _ => '(uf, inp) ← lift (read_unknown_or_skip_group field_number wire_type inp (Counter_unknown_fields m));
        Ok (Counter_with_unknown_fields uf m, inp)
  end.

Definition Counter_compute_size (m : Counter) : Z * Counter :=
  let my_size := 0 in
  let my_size := size_opt my_size (Counter_value m) (λ _, 9) in
  let my_size := wrapping_add 32 my_size (unknown_fields_size (Counter_unknown_fields m)) in
  (my_size, Counter_with_cached_size my_size m).

Definition Counter_write_to_with_cached_sizes (m : Counter) : bytes :=
  write_opt (Counter_value m) (write_double 1) ++
  write_unknown_fields (Counter_unknown_fields m).

#[export] Instance Counter_message : Message Counter := {|
  message_new := Counter_new;
  is_initialized := Counter_is_initialized;
  merge_field := Counter_merge_field;
  compute_size := Counter_compute_size;
  get_cached_size := Counter_cached_size;
  write_to_with_cached_sizes := Counter_write_to_with_cached_sizes;
|}.

(** ** [Quantile] *)
Record Quantile := {
  Quantile_quantile : option f64;
  Quantile_value : option f64;
  Quantile_unknown_fields : UnknownFields;
  Quantile_cached_size : Z;
}.

Definition Quantile_new : Quantile :=
  {| Quantile_quantile := None; Quantile_value := None; Quantile_unknown_fields := unknown_fields_new;
     Quantile_cached_size := 0 |}.

Definition Quantile_with_quantile (v : option f64) (m : Quantile) : Quantile :=
  {| Quantile_quantile := v; Quantile_value := Quantile_value m; Quantile_unknown_fields :=
     Quantile_unknown_fields m; Quantile_cached_size := Quantile_cached_size m |}.
Definition Quantile_with_value (v : option f64) (m : Quantile) : Quantile :=
  {| Quantile_quantile := Quantile_quantile m; Quantile_value := v; Quantile_unknown_fields :=
     Quantile_unknown_fields m; Quantile_cached_size := Quantile_cached_size m |}.
Definition Quantile_with_unknown_fields (v : UnknownFields) (m : Quantile) : Quantile :=
  {| Quantile_quantile := Quantile_quantile m; Quantile_value := Quantile_value m; Quantile_unknown_fields := v;
     Quantile_cached_size := Quantile_cached_size m |}.
Definition Quantile_with_cached_size (v : Z) (m : Quantile) : Quantile :=
  {| Quantile_quantile := Quantile_quantile m; Quantile_value := Quantile_value m; Quantile_unknown_fields :=
     Quantile_unknown_fields m; Quantile_cached_size := v |}.

Definition Quantile_clear_quantile (m : Quantile) : Quantile := Quantile_with_quantile None m.
Definition Quantile_has_quantile (m : Quantile) : bool := bool_decide (is_Some (Quantile_quantile m)).
Definition Quantile_set_quantile (v : f64) (m : Quantile) : Quantile := Quantile_with_quantile (Some v) m.
Definition Quantile_get_quantile (m : Quantile) : f64 := default f64_zero (Quantile_quantile m).

Definition Quantile_clear_value (m : Quantile) : Quantile := Quantile_with_value None m.
Definition Quantile_has_value (m : Quantile) : bool := bool_decide (is_Some (Quantile_value m)).
Definition Quantile_set_value (v : f64) (m : Quantile) : Quantile := Quantile_with_value (Some v) m.
Definition Quantile_get_value (m : Quantile) : f64 := default f64_zero (Quantile_value m).

Definition Quantile_clear (m : Quantile) : Quantile :=
  let m := Quantile_clear_value (Quantile_clear_quantile m) in Quantile_with_unknown_fields
     (unknown_fields_clear (Quantile_unknown_fields m)) m.

Definition Quantile_is_initialized (m : Quantile) : bool := true.

Definition Quantile_merge_field (field_number : Z) (wire_type : WireType) (m : Quantile) (inp : bytes)
    : result MergeError (Quantile * bytes) :=
  match field_number with
  | 1 => '(tmp, inp) ← read_checked WireTypeFixed64 wire_type read_double inp;
        Ok (Quantile_set_quantile tmp m, inp)
  | 2 => '(tmp, inp) ← read_checked WireTypeFixed64 wire_type read_double inp;
        Ok (Quantile_set_value tmp m, inp)
  | _ => '(uf, inp) ← lift (read_unknown_or_skip_group field_number wire_type inp (Quantile_unknown_fields m));
        Ok (Quantile_with_unknown_fields uf m, inp)
  end.

Definition Quantile_compute_size (m : Quantile) : Z * Quantile :=
  let my_size := 0 in
  let my_size := size_opt my_size (Quantile_quantile m) (λ _, 9) in
  let my_size := size_opt my_size (Quantile_value m) (λ _, 9) in
  let my_size := wrapping_add 32 my_size (unknown_fields_size (Quantile_unknown_fields m)) in
  (my_size, Quantile_with_cached_size my_size m).

Definition Quantile_write_to_with_cached_sizes (m : Quantile) : bytes :=
  write_opt (Quantile_quantile m) (write_double 1) ++
  write_opt (Quantile_value m) (write_double 2) ++
  write_unknown_fields (Quantile_unknown_fields m).

#[export] Instance Quantile_message : Message Quantile := {|
  message_new := Quantile_new;
  is_initialized := Quantile_is_initialized;
  merge_field := Quantile_merge_field;
  compute_size := Quantile_compute_size;
  get_cached_size := Quantile_cached_size;
  write_to_with_cached_sizes := Quantile_write_to_with_cached_sizes;
|}.

(** ** [Summary] *)
Record Summary := {
  Summary_sample_count : option Z;
  Summary_sample_sum : option f64;
  Summary_quantile : list Quantile;
  Summary_unknown_fields : UnknownFields;
  Summary_cached_size : Z;
}.

Definition Summary_new : Summary :=
  {| Summary_sample_count := None; Summary_sample_sum := None; Summary_quantile := []; Summary_unknown_fields :=
     unknown_fields_new; Summary_cached_size := 0 |}.

Definition Summary_with_sample_count (v : option Z) (m : Summary) : Summary :=
  {| Summary_sample_count := v; Summary_sample_sum := Summary_sample_sum m; Summary_quantile := Summary_quantile
     m; Summary_unknown_fields := Summary_unknown_fields m; Summary_cached_size := Summary_cached_size m |}.
Definition Summary_with_sample_sum (v : option f64) (m : Summary) : Summary :=
  {| Summary_sample_count := Summary_sample_count m; Summary_sample_sum := v; Summary_quantile :=
     Summary_quantile m; Summary_unknown_fields := Summary_unknown_fields m; Summary_cached_size :=
     Summary_cached_size m |}.
Definition Summary_with_quantile (v : list Quantile) (m : Summary) : Summary :=
  {| Summary_sample_count := Summary_sample_count m; Summary_sample_sum := Summary_sample_sum m;
     Summary_quantile := v; Summary_unknown_fields := Summary_unknown_fields m; Summary_cached_size :=
     Summary_cached_size m |}.
Definition Summary_with_unknown_fields (v : UnknownFields) (m : Summary) : Summary :=
  {| Summary_sample_count := Summary_sample_count m; Summary_sample_sum := Summary_sample_sum m;
     Summary_quantile := Summary_quantile m; Summary_unknown_fields := v; Summary_cached_size :=
     Summary_cached_size m |}.
Definition Summary_with_cached_size (v : Z) (m : Summary) : Summary :=
  {| Summary_sample_count := Summary_sample_count m; Summary_sample_sum := Summary_sample_sum m;
     Summary_quantile := Summary_quantile m; Summary_unknown_fields := Summary_unknown_fields m;
     Summary_cached_size := v |}.

Definition Summary_clear_sample_count (m : Summary) : Summary := Summary_with_sample_count None m.
Definition Summary_has_sample_count (m : Summary) : bool := bool_decide (is_Some (Summary_sample_count m)).
Definition Summary_set_sample_count (v : Z) (m : Summary) : Summary := Summary_with_sample_count (Some v) m.
Definition Summary_get_sample_count (m : Summary) : Z := default 0 (Summary_sample_count m).

Definition Summary_clear_sample_sum (m : Summary) : Summary := Summary_with_sample_sum None m.
Definition Summary_has_sample_sum (m : Summary) : bool := bool_decide (is_Some (Summary_sample_sum m)).
Definition Summary_set_sample_sum (v : f64) (m : Summary) : Summary := Summary_with_sample_sum (Some v) m.
Definition Summary_get_sample_sum (m : Summary) : f64 := default f64_zero (Summary_sample_sum m).

Definition Summary_clear_quantile (m : Summary) : Summary := Summary_with_quantile [] m.
Definition Summary_set_quantile (v : list Quantile) (m : Summary) : Summary := Summary_with_quantile v m.
Definition Summary_mut_quantile (f : list Quantile → list Quantile) (m : Summary) : Summary :=
  Summary_with_quantile (f (Summary_quantile m)) m.
Definition Summary_take_quantile (m : Summary) : list Quantile * Summary :=
  (Summary_quantile m, Summary_with_quantile [] m).
Definition Summary_get_quantile (m : Summary) : list Quantile := Summary_quantile m.

Definition Summary_clear (m : Summary) : Summary :=
  let m := Summary_clear_quantile (Summary_clear_sample_sum (Summary_clear_sample_count m)) in
     Summary_with_unknown_fields (unknown_fields_clear (Summary_unknown_fields m)) m.

Definition Summary_is_initialized (m : Summary) : bool := forallb is_initialized (Summary_quantile m).

Definition Summary_merge_field (field_number : Z) (wire_type : WireType) (m : Summary) (inp : bytes)
    : result MergeError (Summary * bytes) :=
  match field_number with
  | 1 => '(tmp, inp) ← read_checked WireTypeVarint wire_type read_uint64 inp;
        Ok (Summary_set_sample_count tmp m, inp)
  | 2 => '(tmp, inp) ← read_checked WireTypeFixed64 wire_type read_double inp;
        Ok (Summary_set_sample_sum tmp m, inp)
  | 3 => '(v, inp) ← read_repeated_message_into wire_type inp (Summary_quantile m);
        Ok (Summary_with_quantile v m, inp)
  | _ => '(uf, inp) ← lift (read_unknown_or_skip_group field_number wire_type inp (Summary_unknown_fields m));
        Ok (Summary_with_unknown_fields uf m, inp)
  end.

Definition Summary_compute_size (m : Summary) : Z * Summary :=
  let my_size := 0 in
  let my_size := size_opt my_size (Summary_sample_count m) (λ v, value_size_u64 1 v WireTypeVarint) in
  let my_size := size_opt my_size (Summary_sample_sum m) (λ _, 9) in
  let '(my_size, quantile) := compute_sizes my_size (Summary_quantile m) in
  let my_size := wrapping_add 32 my_size (unknown_fields_size (Summary_unknown_fields m)) in
  let m := Summary_with_quantile quantile m in
  (my_size, Summary_with_cached_size my_size m).

Definition Summary_write_to_with_cached_sizes (m : Summary) : bytes :=
  write_opt (Summary_sample_count m) (write_uint64 1) ++
  write_opt (Summary_sample_sum m) (write_double 2) ++
  (Summary_quantile m ≫= write_message 3) ++
  write_unknown_fields (Summary_unknown_fields m).

#[export] Instance Summary_message : Message Summary := {|
  message_new := Summary_new;
  is_initialized := Summary_is_initialized;
  merge_field := Summary_merge_field;
  compute_size := Summary_compute_size;
  get_cached_size := Summary_cached_size;
  write_to_with_cached_sizes := Summary_write_to_with_cached_sizes;
|}.

(** ** [Untyped] *)
Record Untyped := {
  Untyped_value : option f64;
  Untyped_unknown_fields : UnknownFields;
  Untyped_cached_size : Z;
}.

Definition Untyped_new : Untyped :=
  {| Untyped_value := None; Untyped_unknown_fields := unknown_fields_new; Untyped_cached_size := 0 |}.

Definition Untyped_with_value (v : option f64) (m : Untyped) : Untyped :=
  {| Untyped_value := v; Untyped_unknown_fields := Untyped_unknown_fields m; Untyped_cached_size :=
     Untyped_cached_size m |}.
Definition Untyped_with_unknown_fields (v : UnknownFields) (m : Untyped) : Untyped :=
  {| Untyped_value := Untyped_value m; Untyped_unknown_fields := v; Untyped_cached_size := Untyped_cached_size m
     |}.
Definition Untyped_with_cached_size (v : Z) (m : Untyped) : Untyped :=
  {| Untyped_value := Untyped_value m; Untyped_unknown_fields := Untyped_unknown_fields m; Untyped_cached_size
     := v |}.

Definition Untyped_clear_value (m : Untyped) : Untyped := Untyped_with_value None m.
Definition Untyped_has_value (m : Untyped) : bool := bool_decide (is_Some (Untyped_value m)).
Definition Untyped_set_value (v : f64) (m : Untyped) : Untyped := Untyped_with_value (Some v) m.
Definition Untyped_get_value (m : Untyped) : f64 := default f64_zero (Untyped_value m).

Definition Untyped_clear (m : Untyped) : Untyped :=
  let m := Untyped_clear_value m in Untyped_with_unknown_fields (unknown_fields_clear (Untyped_unknown_fields
     m)) m.

Definition Untyped_is_initialized (m : Untyped) : bool := true.

Definition Untyped_merge_field (field_number : Z) (wire_type : WireType) (m : Untyped) (inp : bytes)
    : result MergeError (Untyped * bytes) :=
  match field_number with
  | 1 => '(tmp, inp) ← read_checked WireTypeFixed64 wire_type read_double inp;
        Ok (Untyped_set_value tmp m, inp)
  | _ => '(uf, inp) ← lift (read_unknown_or_skip_group field_number wire_type inp (Untyped_unknown_fields m));
        Ok (Untyped_with_unknown_fields uf m, inp)
  end.

Definition Untyped_compute_size (m : Untyped) : Z * Untyped :=
  let my_size := 0 in
  let my_size := size_opt my_size (Untyped_value m) (λ _, 9) in
  let my_size := wrapping_add 32 my_size (unknown_fields_size (Untyped_unknown_fields m)) in
  (my_size, Untyped_with_cached_size my_size m).

Definition Untyped_write_to_with_cached_sizes (m : Untyped) : bytes :=
  write_opt (Untyped_value m) (write_double 1) ++
  write_unknown_fields (Untyped_unknown_fields m).

#[export] Instance Untyped_message : Message Untyped := {|
  message_new := Untyped_new;
  is_initialized := Untyped_is_initialized;
  merge_field := Untyped_merge_field;
  compute_size := Untyped_compute_size;
  get_cached_size := Untyped_cached_size;
  write_to_with_cached_sizes := Untyped_write_to_with_cached_sizes;
|}.

(** ** [Bucket] *)
Record Bucket := {
  Bucket_cumulative_count : option Z;
  Bucket_upper_bound : option f64;
  Bucket_unknown_fields : UnknownFields;
  Bucket_cached_size : Z;
}.

Definition Bucket_new : Bucket :=
  {| Bucket_cumulative_count := None; Bucket_upper_bound := None; Bucket_unknown_fields := unknown_fields_new;
     Bucket_cached_size := 0 |}.

Definition Bucket_with_cumulative_count (v : option Z) (m : Bucket) : Bucket :=
  {| Bucket_cumulative_count := v; Bucket_upper_bound := Bucket_upper_bound m; Bucket_unknown_fields :=
     Bucket_unknown_fields m; Bucket_cached_size := Bucket_cached_size m |}.
Definition Bucket_with_upper_bound (v : option f64) (m : Bucket) : Bucket :=
  {| Bucket_cumulative_count := Bucket_cumulative_count m; Bucket_upper_bound := v; Bucket_unknown_fields :=
     Bucket_unknown_fields m; Bucket_cached_size := Bucket_cached_size m |}.
Definition Bucket_with_unknown_fields (v : UnknownFields) (m : Bucket) : Bucket :=
  {| Bucket_cumulative_count := Bucket_cumulative_count m; Bucket_upper_bound := Bucket_upper_bound m;
     Bucket_unknown_fields := v; Bucket_cached_size := Bucket_cached_size m |}.
Definition Bucket_with_cached_size (v : Z) (m : Bucket) : Bucket :=
  {| Bucket_cumulative_count := Bucket_cumulative_count m; Bucket_upper_bound := Bucket_upper_bound m;
     Bucket_unknown_fields := Bucket_unknown_fields m; Bucket_cached_size := v |}.

Definition Bucket_clear_cumulative_count (m : Bucket) : Bucket := Bucket_with_cumulative_count None m.
Definition Bucket_has_cumulative_count (m : Bucket) : bool := bool_decide (is_Some (Bucket_cumulative_count m)).
Definition Bucket_set_cumulative_count (v : Z) (m : Bucket) : Bucket := Bucket_with_cumulative_count (Some v) m.
Definition Bucket_get_cumulative_count (m : Bucket) : Z := default 0 (Bucket_cumulative_count m).

Definition Bucket_clear_upper_bound (m : Bucket) : Bucket := Bucket_with_upper_bound None m.
Definition Bucket_has_upper_bound (m : Bucket) : bool := bool_decide (is_Some (Bucket_upper_bound m)).
Definition Bucket_set_upper_bound (v : f64) (m : Bucket) : Bucket := Bucket_with_upper_bound (Some v) m.
Definition Bucket_get_upper_bound (m : Bucket) : f64 := default f64_zero (Bucket_upper_bound m).

Definition Bucket_clear (m : Bucket) : Bucket :=
  let m := Bucket_clear_upper_bound (Bucket_clear_cumulative_count m) in Bucket_with_unknown_fields
     (unknown_fields_clear (Bucket_unknown_fields m)) m.

Definition Bucket_is_initialized (m : Bucket) : bool := true.

Definition Bucket_merge_field (field_number : Z) (wire_type : WireType) (m : Bucket) (inp : bytes)
    : result MergeError (Bucket * bytes) :=
  match field_number with
  | 1 => '(tmp, inp) ← read_checked WireTypeVarint wire_type read_uint64 inp;
        Ok (Bucket_set_cumulative_count tmp m, inp)
  | 2 => '(tmp, inp) ← read_checked WireTypeFixed64 wire_type read_double inp;
        Ok (Bucket_set_upper_bound tmp m, inp)
  | _ => '(uf, inp) ← lift (read_unknown_or_skip_group field_number wire_type inp (Bucket_unknown_fields m));
        Ok (Bucket_with_unknown_fields uf m, inp)
  end.

Definition Bucket_compute_size (m : Bucket) : Z * Bucket :=
  let my_size := 0 in
  let my_size := size_opt my_size (Bucket_cumulative_count m) (λ v, value_size_u64 1 v WireTypeVarint) in
  let my_size := size_opt my_size (Bucket_upper_bound m) (λ _, 9) in
  let my_size := wrapping_add 32 my_size (unknown_fields_size (Bucket_unknown_fields m)) in
  (my_size, Bucket_with_cached_size my_size m).

Definition Bucket_write_to_with_cached_sizes (m : Bucket) : bytes :=
  write_opt (Bucket_cumulative_count m) (write_uint64 1) ++
  write_opt (Bucket_upper_bound m) (write_double 2) ++
  write_unknown_fields (Bucket_unknown_fields m).

#[export] Instance Bucket_message : Message Bucket := {|
  message_new := Bucket_new;
  is_initialized := Bucket_is_initialized;
  merge_field := Bucket_merge_field;
  compute_size := Bucket_compute_size;
  get_cached_size := Bucket_cached_size;
  write_to_with_cached_sizes := Bucket_write_to_with_cached_sizes;
|}.

(** ** [Histogram] *)
Record Histogram := {
  Histogram_sample_count : option Z;
  Histogram_sample_sum : option f64;
  Histogram_bucket : list Bucket;
  Histogram_unknown_fields : UnknownFields;
  Histogram_cached_size : Z;
}.

Definition Histogram_new : Histogram :=
  {| Histogram_sample_count := None; Histogram_sample_sum := None; Histogram_bucket := [];
     Histogram_unknown_fields := unknown_fields_new; Histogram_cached_size := 0 |}.

Definition Histogram_with_sample_count (v : option Z) (m : Histogram) : Histogram :=
  {| Histogram_sample_count := v; Histogram_sample_sum := Histogram_sample_sum m; Histogram_bucket :=
     Histogram_bucket m; Histogram_unknown_fields := Histogram_unknown_fields m; Histogram_cached_size :=
     Histogram_cached_size m |}.
Definition Histogram_with_sample_sum (v : option f64) (m : Histogram) : Histogram :=
  {| Histogram_sample_count := Histogram_sample_count m; Histogram_sample_sum := v; Histogram_bucket :=
     Histogram_bucket m; Histogram_unknown_fields := Histogram_unknown_fields m; Histogram_cached_size :=
     Histogram_cached_size m |}.
Definition Histogram_with_bucket (v : list Bucket) (m : Histogram) : Histogram :=
  {| Histogram_sample_count := Histogram_sample_count m; Histogram_sample_sum := Histogram_sample_sum m;
     Histogram_bucket := v; Histogram_unknown_fields := Histogram_unknown_fields m; Histogram_cached_size :=
     Histogram_cached_size m |}.
Definition Histogram_with_unknown_fields (v : UnknownFields) (m : Histogram) : Histogram :=
  {| Histogram_sample_count := Histogram_sample_count m; Histogram_sample_sum := Histogram_sample_sum m;
     Histogram_bucket := Histogram_bucket m; Histogram_unknown_fields := v; Histogram_cached_size :=
     Histogram_cached_size m |}.
Definition Histogram_with_cached_size (v : Z) (m : Histogram) : Histogram :=
  {| Histogram_sample_count := Histogram_sample_count m; Histogram_sample_sum := Histogram_sample_sum m;
     Histogram_bucket := Histogram_bucket m; Histogram_unknown_fields := Histogram_unknown_fields m;
     Histogram_cached_size := v |}.

Definition Histogram_clear_sample_count (m : Histogram) : Histogram := Histogram_with_sample_count None m.
Definition Histogram_has_sample_count (m : Histogram) : bool := bool_decide (is_Some (Histogram_sample_count m)).
Definition Histogram_set_sample_count (v : Z) (m : Histogram) : Histogram := Histogram_with_sample_count (Some v) m.
Definition Histogram_get_sample_count (m : Histogram) : Z := default 0 (Histogram_sample_count m).

Definition Histogram_clear_sample_sum (m : Histogram) : Histogram := Histogram_with_sample_sum None m.
Definition Histogram_has_sample_sum (m : Histogram) : bool := bool_decide (is_Some (Histogram_sample_sum m)).
Definition Histogram_set_sample_sum (v : f64) (m : Histogram) : Histogram := Histogram_with_sample_sum (Some v) m.
Definition Histogram_get_sample_sum (m : Histogram) : f64 := default f64_zero (Histogram_sample_sum m).

Definition Histogram_clear_bucket (m : Histogram) : Histogram := Histogram_with_bucket [] m.
Definition Histogram_set_bucket (v : list Bucket) (m : Histogram) : Histogram := Histogram_with_bucket v m.
Definition Histogram_mut_bucket (f : list Bucket → list Bucket) (m : Histogram) : Histogram :=
  Histogram_with_bucket (f (Histogram_bucket m)) m.
Definition Histogram_take_bucket (m : Histogram) : list Bucket * Histogram :=
  (Histogram_bucket m, Histogram_with_bucket [] m).
Definition Histogram_get_bucket (m : Histogram) : list Bucket := Histogram_bucket m.

Definition Histogram_clear (m : Histogram) : Histogram :=
  let m := Histogram_clear_bucket (Histogram_clear_sample_sum (Histogram_clear_sample_count m)) in
     Histogram_with_unknown_fields (unknown_fields_clear (Histogram_unknown_fields m)) m.

Definition Histogram_is_initialized (m : Histogram) : bool := forallb is_initialized (Histogram_bucket m).

Definition Histogram_merge_field (field_number : Z) (wire_type : WireType) (m : Histogram) (inp : bytes)
    : result MergeError (Histogram * bytes) :=
  match field_number with
  | 1 => '(tmp, inp) ← read_checked WireTypeVarint wire_type read_uint64 inp;
        Ok (Histogram_set_sample_count tmp m, inp)
  | 2 => '(tmp, inp) ← read_checked WireTypeFixed64 wire_type read_double inp;
        Ok (Histogram_set_sample_sum tmp m, inp)
  | 3 => '(v, inp) ← read_repeated_message_into wire_type inp (Histogram_bucket m);
        Ok (Histogram_with_bucket v m, inp)
  | _ => '(uf, inp) ← lift (read_unknown_or_skip_group field_number wire_type inp (Histogram_unknown_fields m));
        Ok (Histogram_with_unknown_fields uf m, inp)
  end.

Definition Histogram_compute_size (m : Histogram) : Z * Histogram :=
  let my_size := 0 in
  let my_size := size_opt my_size (Histogram_sample_count m) (λ v, value_size_u64 1 v WireTypeVarint) in
  let my_size := size_opt my_size (Histogram_sample_sum m) (λ _, 9) in
  let '(my_size, bucket) := compute_sizes my_size (Histogram_bucket m) in
  let my_size := wrapping_add 32 my_size (unknown_fields_size (Histogram_unknown_fields m)) in
  let m := Histogram_with_bucket bucket m in
  (my_size, Histogram_with_cached_size my_size m).

Definition Histogram_write_to_with_cached_sizes (m : Histogram) : bytes :=
  write_opt (Histogram_sample_count m) (write_uint64 1) ++
  write_opt (Histogram_sample_sum m) (write_double 2) ++
  (Histogram_bucket m ≫= write_message 3) ++
  write_unknown_fields (Histogram_unknown_fields m).

#[export] Instance Histogram_message : Message Histogram := {|
  message_new := Histogram_new;
  is_initialized := Histogram_is_initialized;
  merge_field := Histogram_merge_field;
  compute_size := Histogram_compute_size;
  get_cached_size := Histogram_cached_size;
  write_to_with_cached_sizes := Histogram_write_to_with_cached_sizes;
|}.

(** ** [Metric] *)
Record Metric := {
  Metric_label : list LabelPair;
  Metric_gauge : option Gauge;
  Metric_counter : option Counter;
  Metric_summary : option Summary;
  Metric_untyped : option Untyped;
  Metric_histogram : option Histogram;
  Metric_timestamp_ms : option Z;
  Metric_unknown_fields : UnknownFields;
  Metric_cached_size : Z;
}.

Definition Metric_new : Metric :=
  {| Metric_label := []; Metric_gauge := None; Metric_counter := None; Metric_summary := None; Metric_untyped :=
     None; Metric_histogram := None; Metric_timestamp_ms := None; Metric_unknown_fields := unknown_fields_new;
     Metric_cached_size := 0 |}.

Definition Metric_with_label (v : list LabelPair) (m : Metric) : Metric :=
  {| Metric_label := v; Metric_gauge := Metric_gauge m; Metric_counter := Metric_counter m; Metric_summary :=
     Metric_summary m; Metric_untyped := Metric_untyped m; Metric_histogram := Metric_histogram m;
     Metric_timestamp_ms := Metric_timestamp_ms m; Metric_unknown_fields := Metric_unknown_fields m;
     Metric_cached_size := Metric_cached_size m |}.
Definition Metric_with_gauge (v : option Gauge) (m : Metric) : Metric :=
  {| Metric_label := Metric_label m; Metric_gauge := v; Metric_counter := Metric_counter m; Metric_summary :=
     Metric_summary m; Metric_untyped := Metric_untyped m; Metric_histogram := Metric_histogram m;
     Metric_timestamp_ms := Metric_timestamp_ms m; Metric_unknown_fields := Metric_unknown_fields m;
     Metric_cached_size := Metric_cached_size m |}.
Definition Metric_with_counter (v : option Counter) (m : Metric) : Metric :=
  {| Metric_label := Metric_label m; Metric_gauge := Metric_gauge m; Metric_counter := v; Metric_summary :=
     Metric_summary m; Metric_untyped := Metric_untyped m; Metric_histogram := Metric_histogram m;
     Metric_timestamp_ms := Metric_timestamp_ms m; Metric_unknown_fields := Metric_unknown_fields m;
     Metric_cached_size := Metric_cached_size m |}.
Definition Metric_with_summary (v : option Summary) (m : Metric) : Metric :=
  {| Metric_label := Metric_label m; Metric_gauge := Metric_gauge m; Metric_counter := Metric_counter m;
     Metric_summary := v; Metric_untyped := Metric_untyped m; Metric_histogram := Metric_histogram m;
     Metric_timestamp_ms := Metric_timestamp_ms m; Metric_unknown_fields := Metric_unknown_fields m;
     Metric_cached_size := Metric_cached_size m |}.
Definition Metric_with_untyped (v : option Untyped) (m : Metric) : Metric :=
  {| Metric_label := Metric_label m; Metric_gauge := Metric_gauge m; Metric_counter := Metric_counter m;
     Metric_summary := Metric_summary m; Metric_untyped := v; Metric_histogram := Metric_histogram m;
     Metric_timestamp_ms := Metric_timestamp_ms m; Metric_unknown_fields := Metric_unknown_fields m;
     Metric_cached_size := Metric_cached_size m |}.
Definition Metric_with_histogram (v : option Histogram) (m : Metric) : Metric :=
  {| Metric_label := Metric_label m; Metric_gauge := Metric_gauge m; Metric_counter := Metric_counter m;
     Metric_summary := Metric_summary m; Metric_untyped := Metric_untyped m; Metric_histogram := v;
     Metric_timestamp_ms := Metric_timestamp_ms m; Metric_unknown_fields := Metric_unknown_fields m;
     Metric_cached_size := Metric_cached_size m |}.
Definition Metric_with_timestamp_ms (v : option Z) (m : Metric) : Metric :=
  {| Metric_label := Metric_label m; Metric_gauge := Metric_gauge m; Metric_counter := Metric_counter m;
     Metric_summary := Metric_summary m; Metric_untyped := Metric_untyped m; Metric_histogram :=
     Metric_histogram m; Metric_timestamp_ms := v; Metric_unknown_fields := Metric_unknown_fields m;
     Metric_cached_size := Metric_cached_size m |}.
Definition Metric_with_unknown_fields (v : UnknownFields) (m : Metric) : Metric :=
  {| Metric_label := Metric_label m; Metric_gauge := Metric_gauge m; Metric_counter := Metric_counter m;
     Metric_summary := Metric_summary m; Metric_untyped := Metric_untyped m; Metric_histogram :=
     Metric_histogram m; Metric_timestamp_ms := Metric_timestamp_ms m; Metric_unknown_fields := v;
     Metric_cached_size := Metric_cached_size m |}.
Definition Metric_with_cached_size (v : Z) (m : Metric) : Metric :=
  {| Metric_label := Metric_label m; Metric_gauge := Metric_gauge m; Metric_counter := Metric_counter m;
     Metric_summary := Metric_summary m; Metric_untyped := Metric_untyped m; Metric_histogram :=
     Metric_histogram m; Metric_timestamp_ms := Metric_timestamp_ms m; Metric_unknown_fields :=
     Metric_unknown_fields m; Metric_cached_size := v |}.

Definition Metric_clear_label (m : Metric) : Metric := Metric_with_label [] m.
Definition Metric_set_label (v : list LabelPair) (m : Metric) : Metric := Metric_with_label v m.
Definition Metric_mut_label (f : list LabelPair → list LabelPair) (m : Metric) : Metric :=
  Metric_with_label (f (Metric_label m)) m.
Definition Metric_take_label (m : Metric) : list LabelPair * Metric := (Metric_label m, Metric_with_label [] m).
Definition Metric_get_label (m : Metric) : list LabelPair := Metric_label m.

Definition Metric_clear_gauge (m : Metric) : Metric := Metric_with_gauge None m.
Definition Metric_has_gauge (m : Metric) : bool := bool_decide (is_Some (Metric_gauge m)).
Definition Metric_set_gauge (v : Gauge) (m : Metric) : Metric := Metric_with_gauge (Some v) m.
Definition Metric_mut_gauge (f : Gauge → Gauge) (m : Metric) : Metric :=
  Metric_with_gauge (Some (f (default Gauge_new (Metric_gauge m)))) m.
Definition Metric_take_gauge (m : Metric) : Gauge * Metric :=
  (default Gauge_new (Metric_gauge m), Metric_with_gauge None m).
Definition Metric_get_gauge (m : Metric) : Gauge := default Gauge_new (Metric_gauge m).

Definition Metric_clear_counter (m : Metric) : Metric := Metric_with_counter None m.
Definition Metric_has_counter (m : Metric) : bool := bool_decide (is_Some (Metric_counter m)).
Definition Metric_set_counter (v : Counter) (m : Metric) : Metric := Metric_with_counter (Some v) m.
Definition Metric_mut_counter (f : Counter → Counter) (m : Metric) : Metric :=
  Metric_with_counter (Some (f (default Counter_new (Metric_counter m)))) m.
Definition Metric_take_counter (m : Metric) : Counter * Metric :=
  (default Counter_new (Metric_counter m), Metric_with_counter None m).
Definition Metric_get_counter (m : Metric) : Counter := default Counter_new (Metric_counter m).

Definition Metric_clear_summary (m : Metric) : Metric := Metric_with_summary None m.
Definition Metric_has_summary (m : Metric) : bool := bool_decide (is_Some (Metric_summary m)).
Definition Metric_set_summary (v : Summary) (m : Metric) : Metric := Metric_with_summary (Some v) m.
Definition Metric_mut_summary (f : Summary → Summary) (m : Metric) : Metric :=
  Metric_with_summary (Some (f (default Summary_new (Metric_summary m)))) m.
Definition Metric_take_summary (m : Metric) : Summary * Metric :=
  (default Summary_new (Metric_summary m), Metric_with_summary None m).
Definition Metric_get_summary (m : Metric) : Summary := default Summary_new (Metric_summary m).

Definition Metric_clear_untyped (m : Metric) : Metric := Metric_with_untyped None m.
Definition Metric_has_untyped (m : Metric) : bool := bool_decide (is_Some (Metric_untyped m)).
Definition Metric_set_untyped (v : Untyped) (m : Metric) : Metric := Metric_with_untyped (Some v) m.
Definition Metric_mut_untyped (f : Untyped → Untyped) (m : Metric) : Metric :=
  Metric_with_untyped (Some (f (default Untyped_new (Metric_untyped m)))) m.
Definition Metric_take_untyped (m : Metric) : Untyped * Metric :=
  (default Untyped_new (Metric_untyped m), Metric_with_untyped None m).
Definition Metric_get_untyped (m : Metric) : Untyped := default Untyped_new (Metric_untyped m).

Definition Metric_clear_histogram (m : Metric) : Metric := Metric_with_histogram None m.
Definition Metric_has_histogram (m : Metric) : bool := bool_decide (is_Some (Metric_histogram m)).
Definition Metric_set_histogram (v : Histogram) (m : Metric) : Metric := Metric_with_histogram (Some v) m.
Definition Metric_mut_histogram (f : Histogram → Histogram) (m : Metric) : Metric :=
  Metric_with_histogram (Some (f (default Histogram_new (Metric_histogram m)))) m.
Definition Metric_take_histogram (m : Metric) : Histogram * Metric :=
  (default Histogram_new (Metric_histogram m), Metric_with_histogram None m).
Definition Metric_get_histogram (m : Metric) : Histogram := default Histogram_new (Metric_histogram m).

Definition Metric_clear_timestamp_ms (m : Metric) : Metric := Metric_with_timestamp_ms None m.
Definition Metric_has_timestamp_ms (m : Metric) : bool := bool_decide (is_Some (Metric_timestamp_ms m)).
Definition Metric_set_timestamp_ms (v : Z) (m : Metric) : Metric := Metric_with_timestamp_ms (Some v) m.
Definition Metric_get_timestamp_ms (m : Metric) : Z := default 0 (Metric_timestamp_ms m).

Definition Metric_clear (m : Metric) : Metric :=
  let m := Metric_clear_timestamp_ms (Metric_clear_histogram (Metric_clear_untyped (Metric_clear_summary
     (Metric_clear_counter (Metric_clear_gauge (Metric_clear_label m)))))) in Metric_with_unknown_fields
     (unknown_fields_clear (Metric_unknown_fields m)) m.

Definition Metric_is_initialized (m : Metric) : bool :=
  forallb is_initialized (Metric_label m) && forallb is_initialized (option_list (Metric_gauge m)) && forallb
     is_initialized (option_list (Metric_counter m)) && forallb is_initialized (option_list (Metric_summary m))
     && forallb is_initialized (option_list (Metric_untyped m)) && forallb is_initialized (option_list
     (Metric_histogram m)).

Definition Metric_merge_field (field_number : Z) (wire_type : WireType) (m : Metric) (inp : bytes)
    : result MergeError (Metric * bytes) :=
  match field_number with
  | 1 => '(v, inp) ← read_repeated_message_into wire_type inp (Metric_label m);
        Ok (Metric_with_label v m, inp)
  | 2 => '(v, inp) ← read_singular_message_into wire_type inp (Metric_gauge m);
        Ok (Metric_with_gauge v m, inp)
  | 3 => '(v, inp) ← read_singular_message_into wire_type inp (Metric_counter m);
        Ok (Metric_with_counter v m, inp)
  | 4 => '(v, inp) ← read_singular_message_into wire_type inp (Metric_summary m);
        Ok (Metric_with_summary v m, inp)
  | 5 => '(v, inp) ← read_singular_message_into wire_type inp (Metric_untyped m);
        Ok (Metric_with_untyped v m, inp)
  | 6 => '(tmp, inp) ← read_checked WireTypeVarint wire_type read_int64 inp;
        Ok (Metric_set_timestamp_ms tmp m, inp)
  | 7 => '(v, inp) ← read_singular_message_into wire_type inp (Metric_histogram m);
        Ok (Metric_with_histogram v m, inp)
  | _ => '(uf, inp) ← lift (read_unknown_or_skip_group field_number wire_type inp (Metric_unknown_fields m));
        Ok (Metric_with_unknown_fields uf m, inp)
  end.

Definition Metric_compute_size (m : Metric) : Z * Metric :=
  let my_size := 0 in
  let '(my_size, label) := compute_sizes my_size (Metric_label m) in
  let '(my_size, gauge) := compute_size_opt my_size (Metric_gauge m) in
  let '(my_size, counter) := compute_size_opt my_size (Metric_counter m) in
  let '(my_size, summary) := compute_size_opt my_size (Metric_summary m) in
  let '(my_size, untyped) := compute_size_opt my_size (Metric_untyped m) in
  let '(my_size, histogram) := compute_size_opt my_size (Metric_histogram m) in
  let my_size := size_opt my_size (Metric_timestamp_ms m) (λ v, value_size_i64 6 v WireTypeVarint) in
  let my_size := wrapping_add 32 my_size (unknown_fields_size (Metric_unknown_fields m)) in
  let m := Metric_with_label label m in
  let m := Metric_with_gauge gauge m in
  let m := Metric_with_counter counter m in
  let m := Metric_with_summary summary m in
  let m := Metric_with_untyped untyped m in
  let m := Metric_with_histogram histogram m in
  (my_size, Metric_with_cached_size my_size m).

Definition Metric_write_to_with_cached_sizes (m : Metric) : bytes :=
  (Metric_label m ≫= write_message 1) ++
  write_opt (Metric_gauge m) (write_message 2) ++
  write_opt (Metric_counter m) (write_message 3) ++
  write_opt (Metric_summary m) (write_message 4) ++
  write_opt (Metric_untyped m) (write_message 5) ++
  write_opt (Metric_histogram m) (write_message 7) ++
  write_opt (Metric_timestamp_ms m) (write_int64 6) ++
  write_unknown_fields (Metric_unknown_fields m).

#[export] Instance Metric_message : Message Metric := {|
  message_new := Metric_new;
  is_initialized := Metric_is_initialized;
  merge_field := Metric_merge_field;
  compute_size := Metric_compute_size;
  get_cached_size := Metric_cached_size;
  write_to_with_cached_sizes := Metric_write_to_with_cached_sizes;
|}.

(** ** [MetricFamily] *)
Record MetricFamily := {
  MetricFamily_name : option string;
  MetricFamily_help : option string;
  MetricFamily_field_type : option MetricType;
  MetricFamily_metric : list Metric;
  MetricFamily_unknown_fields : UnknownFields;
  MetricFamily_cached_size : Z;
}.

Definition MetricFamily_new : MetricFamily :=
  {| MetricFamily_name := None; MetricFamily_help := None; MetricFamily_field_type := None; MetricFamily_metric
     := []; MetricFamily_unknown_fields := unknown_fields_new; MetricFamily_cached_size := 0 |}.

Definition MetricFamily_with_name (v : option string) (m : MetricFamily) : MetricFamily :=
  {| MetricFamily_name := v; MetricFamily_help := MetricFamily_help m; MetricFamily_field_type :=
     MetricFamily_field_type m; MetricFamily_metric := MetricFamily_metric m; MetricFamily_unknown_fields :=
     MetricFamily_unknown_fields m; MetricFamily_cached_size := MetricFamily_cached_size m |}.
Definition MetricFamily_with_help (v : option string) (m : MetricFamily) : MetricFamily :=
  {| MetricFamily_name := MetricFamily_name m; MetricFamily_help := v; MetricFamily_field_type :=
     MetricFamily_field_type m; MetricFamily_metric := MetricFamily_metric m; MetricFamily_unknown_fields :=
     MetricFamily_unknown_fields m; MetricFamily_cached_size := MetricFamily_cached_size m |}.
Definition MetricFamily_with_field_type (v : option MetricType) (m : MetricFamily) : MetricFamily :=
  {| MetricFamily_name := MetricFamily_name m; MetricFamily_help := MetricFamily_help m; MetricFamily_field_type
     := v; MetricFamily_metric := MetricFamily_metric m; MetricFamily_unknown_fields :=
     MetricFamily_unknown_fields m; MetricFamily_cached_size := MetricFamily_cached_size m |}.
Definition MetricFamily_with_metric (v : list Metric) (m : MetricFamily) : MetricFamily :=
  {| MetricFamily_name := MetricFamily_name m; MetricFamily_help := MetricFamily_help m; MetricFamily_field_type
     := MetricFamily_field_type m; MetricFamily_metric := v; MetricFamily_unknown_fields :=
     MetricFamily_unknown_fields m; MetricFamily_cached_size := MetricFamily_cached_size m |}.
Definition MetricFamily_with_unknown_fields (v : UnknownFields) (m : MetricFamily) : MetricFamily :=
  {| MetricFamily_name := MetricFamily_name m; MetricFamily_help := MetricFamily_help m; MetricFamily_field_type
     := MetricFamily_field_type m; MetricFamily_metric := MetricFamily_metric m; MetricFamily_unknown_fields :=
     v; MetricFamily_cached_size := MetricFamily_cached_size m |}.
Definition MetricFamily_with_cached_size (v : Z) (m : MetricFamily) : MetricFamily :=
  {| MetricFamily_name := MetricFamily_name m; MetricFamily_help := MetricFamily_help m; MetricFamily_field_type
     := MetricFamily_field_type m; MetricFamily_metric := MetricFamily_metric m; MetricFamily_unknown_fields :=
     MetricFamily_unknown_fields m; MetricFamily_cached_size := v |}.

Definition MetricFamily_clear_name (m : MetricFamily) : MetricFamily := MetricFamily_with_name None m.
Definition MetricFamily_has_name (m : MetricFamily) : bool := bool_decide (is_Some (MetricFamily_name m)).
Definition MetricFamily_set_name (v : string) (m : MetricFamily) : MetricFamily := MetricFamily_with_name (Some v) m.
Definition MetricFamily_mut_name (f : string → string) (m : MetricFamily) : MetricFamily :=
  MetricFamily_with_name (Some (f (default "" (MetricFamily_name m)))) m.
Definition MetricFamily_take_name (m : MetricFamily) : string * MetricFamily :=
  (default "" (MetricFamily_name m), MetricFamily_with_name None m).
Definition MetricFamily_get_name (m : MetricFamily) : string := default "" (MetricFamily_name m).

Definition MetricFamily_clear_help (m : MetricFamily) : MetricFamily := MetricFamily_with_help None m.
Definition MetricFamily_has_help (m : MetricFamily) : bool := bool_decide (is_Some (MetricFamily_help m)).
Definition MetricFamily_set_help (v : string) (m : MetricFamily) : MetricFamily := MetricFamily_with_help (Some v) m.
Definition MetricFamily_mut_help (f : string → string) (m : MetricFamily) : MetricFamily :=
  MetricFamily_with_help (Some (f (default "" (MetricFamily_help m)))) m.
Definition MetricFamily_take_help (m : MetricFamily) : string * MetricFamily :=
  (default "" (MetricFamily_help m), MetricFamily_with_help None m).
Definition MetricFamily_get_help (m : MetricFamily) : string := default "" (MetricFamily_help m).

Definition MetricFamily_clear_field_type (m : MetricFamily) : MetricFamily := MetricFamily_with_field_type None m.
Definition MetricFamily_has_field_type (m : MetricFamily) : bool := bool_decide (is_Some (MetricFamily_field_type m)).
Definition MetricFamily_set_field_type (v : MetricType) (m : MetricFamily) : MetricFamily :=
  MetricFamily_with_field_type (Some v) m.
Definition MetricFamily_get_field_type (m : MetricFamily) : MetricType := default COUNTER (MetricFamily_field_type m).

Definition MetricFamily_clear_metric (m : MetricFamily) : MetricFamily := MetricFamily_with_metric [] m.
Definition MetricFamily_set_metric (v : list Metric) (m : MetricFamily) : MetricFamily :=
  MetricFamily_with_metric v m.
Definition MetricFamily_mut_metric (f : list Metric → list Metric) (m : MetricFamily) : MetricFamily :=
  MetricFamily_with_metric (f (MetricFamily_metric m)) m.
Definition MetricFamily_take_metric (m : MetricFamily) : list Metric * MetricFamily :=
  (MetricFamily_metric m, MetricFamily_with_metric [] m).
Definition MetricFamily_get_metric (m : MetricFamily) : list Metric := MetricFamily_metric m.

Definition MetricFamily_clear (m : MetricFamily) : MetricFamily :=
  let m := MetricFamily_clear_metric (MetricFamily_clear_field_type (MetricFamily_clear_help
     (MetricFamily_clear_name m))) in MetricFamily_with_unknown_fields (unknown_fields_clear
     (MetricFamily_unknown_fields m)) m.

Definition MetricFamily_is_initialized (m : MetricFamily) : bool :=
  forallb is_initialized (MetricFamily_metric m).

Definition MetricFamily_merge_field (field_number : Z) (wire_type : WireType) (m : MetricFamily) (inp : bytes)
    : result MergeError (MetricFamily * bytes) :=
  match field_number with
  | 1 => '(v, inp) ← lift (read_singular_string_into wire_type inp (MetricFamily_name m));
        Ok (MetricFamily_with_name v m, inp)
  | 2 => '(v, inp) ← lift (read_singular_string_into wire_type inp (MetricFamily_help m));
        Ok (MetricFamily_with_help v m, inp)
  | 3 => '(v, uf, inp) ← lift (read_proto2_enum_with_unknown_fields_into MetricType_from_i32 wire_type inp (MetricFamily_field_type m) 3
          (MetricFamily_unknown_fields m));
        Ok (MetricFamily_with_unknown_fields uf (MetricFamily_with_field_type v m), inp)
  | 4 => '(v, inp) ← read_repeated_message_into wire_type inp (MetricFamily_metric m);
        Ok (MetricFamily_with_metric v m, inp)
  | _ => '(uf, inp) ← lift (read_unknown_or_skip_group field_number wire_type inp (MetricFamily_unknown_fields m));
        Ok (MetricFamily_with_unknown_fields uf m, inp)
  end.

Definition MetricFamily_compute_size (m : MetricFamily) : Z * MetricFamily :=
  let my_size := 0 in
  let my_size := size_opt my_size (MetricFamily_name m) (string_size 1) in
  let my_size := size_opt my_size (MetricFamily_help m) (string_size 2) in
  let my_size := size_opt my_size (MetricFamily_field_type m) (λ v, enum_size 3 (MetricType_value v)) in
  let '(my_size, metric) := compute_sizes my_size (MetricFamily_metric m) in
  let my_size := wrapping_add 32 my_size (unknown_fields_size (MetricFamily_unknown_fields m)) in
  let m := MetricFamily_with_metric metric m in
  (my_size, MetricFamily_with_cached_size my_size m).

Definition MetricFamily_write_to_with_cached_sizes (m : MetricFamily) : bytes :=
  write_opt (MetricFamily_name m) (write_string 1) ++
  write_opt (MetricFamily_help m) (write_string 2) ++
  write_opt (MetricFamily_field_type m) (λ v, write_enum 3 (MetricType_value v)) ++
  (MetricFamily_metric m ≫= write_message 4) ++
  write_unknown_fields (MetricFamily_unknown_fields m).

#[export] Instance MetricFamily_message : Message MetricFamily := {|
  message_new := MetricFamily_new;
  is_initialized := MetricFamily_is_initialized;
  merge_field := MetricFamily_merge_field;
  compute_size := MetricFamily_compute_size;
  get_cached_size := MetricFamily_cached_size;
  write_to_with_cached_sizes := MetricFamily_write_to_with_cached_sizes;
|}.
End messages.
