(* ===== verification/ProtoFacts.v ===== *)
(** * Every message of an exposition keeps the contract of [ProtoLaws] *)
From Stdlib Require Import ZArith Lia.
From S2P Require Import Prelude Float64 ProtoWire ProtoLaws Proto.
Local Open Scope Z_scope.

Lemma MetricType_roundtrip t : i32 (MetricType_value t) ∧ MetricType_from_i32 (MetricType_value t) = Some t.
Proof. unfold i32. by destruct t. Qed.

#[local] Obligation Tactic := idtac.

Section messages.
Context `{ProtobufLaws}.

(** ** [LabelPair] *)
Definition LabelPair_well_formed (m : LabelPair) : Prop :=
  from_option string_ok True (LabelPair_name m) ∧
  from_option string_ok True (LabelPair_value m) ∧
  LabelPair_unknown_fields m = unknown_fields_new.
Definition LabelPair_erase (m : LabelPair) : LabelPair := LabelPair_with_cached_size 0 m.

#[export] Program Instance LabelPair_laws : MessageLaws LabelPair := {|
  well_formed := LabelPair_well_formed;
  erase := LabelPair_erase;
|}.
Next Obligation. merge_good LabelPair_merge_field. Qed.
Next Obligation. cached_size LabelPair_compute_size. Qed.
Next Obligation.
  intros m (Hname & Hvalue & Hu).
  sizes_start LabelPair_compute_size LabelPair_write_to_with_cached_sizes.
  sizes_fields.
Qed.
Next Obligation.
  intros m (Hname & Hvalue & Hu) Hs.
  written_start LabelPair_compute_size LabelPair_write_to_with_cached_sizes.
  string_field 1 LabelPair_with_name Hname.
  string_field 2 LabelPair_with_value Hvalue.
  written_end m.
Qed.

(** ** [Gauge] *)
Definition Gauge_well_formed (m : Gauge) : Prop :=
  from_option double_ok True (Gauge_value m) ∧
  Gauge_unknown_fields m = unknown_fields_new.
Definition Gauge_erase (m : Gauge) : Gauge := Gauge_with_cached_size 0 m.

#[export] Program Instance Gauge_laws : MessageLaws Gauge := {|
  well_formed := Gauge_well_formed;
  erase := Gauge_erase;
|}.
Next Obligation. merge_good Gauge_merge_field. Qed.
Next Obligation. cached_size Gauge_compute_size. Qed.
Next Obligation.
  intros m (Hvalue & Hu).
  sizes_start Gauge_compute_size Gauge_write_to_with_cached_sizes.
  sizes_fields.
Qed.
Next Obligation.
  intros m (Hvalue & Hu) Hs.
  written_start Gauge_compute_size Gauge_write_to_with_cached_sizes.
  double_field 1 Gauge_with_value Hvalue.
  written_end m.
Qed.

(** ** [Counter] *)
Definition Counter_well_formed (m : Counter) : Prop :=
  from_option double_ok True (Counter_value m) ∧
  Counter_unknown_fields m = unknown_fields_new.
Definition Counter_erase (m : Counter) : Counter := Counter_with_cached_size 0 m.

#[export] Program Instance Counter_laws : MessageLaws Counter := {|
  well_formed := Counter_well_formed;
  erase := Counter_erase;
|}.
Next Obligation. merge_good Counter_merge_field. Qed.
Next Obligation. cached_size Counter_compute_size. Qed.
Next Obligation.
  intros m (Hvalue & Hu).
  sizes_start Counter_compute_size Counter_write_to_with_cached_sizes.
  sizes_fields.
Qed.
Next Obligation.
  intros m (Hvalue & Hu) Hs.
  written_start Counter_compute_size Counter_write_to_with_cached_sizes.
  double_field 1 Counter_with_value Hvalue.
  written_end m.
Qed.

(** ** [Quantile] *)
Definition Quantile_well_formed (m : Quantile) : Prop :=
  from_option double_ok True (Quantile_quantile m) ∧
  from_option double_ok True (Quantile_value m) ∧
  Quantile_unknown_fields m = unknown_fields_new.
Definition Quantile_erase (m : Quantile) : Quantile := Quantile_with_cached_size 0 m.

#[export] Program Instance Quantile_laws : MessageLaws Quantile := {|
  well_formed := Quantile_well_formed;
  erase := Quantile_erase;
|}.
Next Obligation. merge_good Quantile_merge_field. Qed.
Next Obligation. cached_size Quantile_compute_size. Qed.
Next Obligation.
  intros m (Hquantile & Hvalue & Hu).
  sizes_start Quantile_compute_size Quantile_write_to_with_cached_sizes.
  sizes_fields.
Qed.
Next Obligation.
  intros m (Hquantile & Hvalue & Hu) Hs.
  written_start Quantile_compute_size Quantile_write_to_with_cached_sizes.
  double_field 1 Quantile_with_quantile Hquantile.
  double_field 2 Quantile_with_value Hvalue.
  written_end m.
Qed.

(** ** [Summary] *)
Definition Summary_well_formed (m : Summary) : Prop :=
  from_option (fits 64) True (Summary_sample_count m) ∧
  from_option double_ok True (Summary_sample_sum m) ∧
  Forall well_formed (Summary_quantile m) ∧
  Summary_unknown_fields m = unknown_fields_new.
Definition Summary_erase (m : Summary) : Summary :=
  Summary_with_cached_size 0 (Summary_with_quantile (erase <$> Summary_quantile m) m).

#[export] Program Instance Summary_laws : MessageLaws Summary := {|
  well_formed := Summary_well_formed;
  erase := Summary_erase;
|}.
Next Obligation. merge_good Summary_merge_field. Qed.
Next Obligation. cached_size Summary_compute_size. Qed.
Next Obligation.
  intros m (Hsample_count & Hsample_sum & Hquantile & Hu).
  sizes_start Summary_compute_size Summary_write_to_with_cached_sizes.
  sizes_embedded (compute_sizes_spec (M := Quantile)).
  sizes_fields.
Qed.
Next Obligation.
  intros m (Hsample_count & Hsample_sum & Hquantile & Hu) Hs.
  written_start Summary_compute_size Summary_write_to_with_cached_sizes.
  uint64_field 1 Summary_with_sample_count Hsample_count.
  double_field 2 Summary_with_sample_sum Hsample_sum.
  repeated_field 3 Summary_with_quantile Hquantile.
  written_end m.
Qed.

(** ** [Untyped] *)
Definition Untyped_well_formed (m : Untyped) : Prop :=
  from_option double_ok True (Untyped_value m) ∧
  Untyped_unknown_fields m = unknown_fields_new.
Definition Untyped_erase (m : Untyped) : Untyped := Untyped_with_cached_size 0 m.

#[export] Program Instance Untyped_laws : MessageLaws Untyped := {|
  well_formed := Untyped_well_formed;
  erase := Untyped_erase;
|}.
Next Obligation. merge_good Untyped_merge_field. Qed.
Next Obligation. cached_size Untyped_compute_size. Qed.
Next Obligation.
  intros m (Hvalue & Hu).
  sizes_start Untyped_compute_size Untyped_write_to_with_cached_sizes.
  sizes_fields.
Qed.
Next Obligation.
  intros m (Hvalue & Hu) Hs.
  written_start Untyped_compute_size Untyped_write_to_with_cached_sizes.
  double_field 1 Untyped_with_value Hvalue.
  written_end m.
Qed.

(** ** [Bucket] *)
Definition Bucket_well_formed (m : Bucket) : Prop :=
  from_option (fits 64) True (Bucket_cumulative_count m) ∧
  from_option double_ok True (Bucket_upper_bound m) ∧
  Bucket_unknown_fields m = unknown_fields_new.
Definition Bucket_erase (m : Bucket) : Bucket := Bucket_with_cached_size 0 m.

#[export] Program Instance Bucket_laws : MessageLaws Bucket := {|
  well_formed := Bucket_well_formed;
  erase := Bucket_erase;
|}.
Next Obligation. merge_good Bucket_merge_field. Qed.
Next Obligation. cached_size Bucket_compute_size. Qed.
Next Obligation.
  intros m (Hcumulative_count & Hupper_bound & Hu).
  sizes_start Bucket_compute_size Bucket_write_to_with_cached_sizes.
  sizes_fields.
Qed.
Next Obligation.
  intros m (Hcumulative_count & Hupper_bound & Hu) Hs.
  written_start Bucket_compute_size Bucket_write_to_with_cached_sizes.
  uint64_field 1 Bucket_with_cumulative_count Hcumulative_count.
  double_field 2 Bucket_with_upper_bound Hupper_bound.
  written_end m.
Qed.

(** ** [Histogram] *)
Definition Histogram_well_formed (m : Histogram) : Prop :=
  from_option (fits 64) True (Histogram_sample_count m) ∧
  from_option double_ok True (Histogram_sample_sum m) ∧
  Forall well_formed (Histogram_bucket m) ∧
  Histogram_unknown_fields m = unknown_fields_new.
Definition Histogram_erase (m : Histogram) : Histogram :=
  Histogram_with_cached_size 0 (Histogram_with_bucket (erase <$> Histogram_bucket m) m).

#[export] Program Instance Histogram_laws : MessageLaws Histogram := {|
  well_formed := Histogram_well_formed;
  erase := Histogram_erase;
|}.
Next Obligation. merge_good Histogram_merge_field. Qed.
Next Obligation. cached_size Histogram_compute_size. Qed.
Next Obligation.
  intros m (Hsample_count & Hsample_sum & Hbucket & Hu).
  sizes_start Histogram_compute_size Histogram_write_to_with_cached_sizes.
  sizes_embedded (compute_sizes_spec (M := Bucket)).
  sizes_fields.
Qed.
Next Obligation.
  intros m (Hsample_count & Hsample_sum & Hbucket & Hu) Hs.
  written_start Histogram_compute_size Histogram_write_to_with_cached_sizes.
  uint64_field 1 Histogram_with_sample_count Hsample_count.
  double_field 2 Histogram_with_sample_sum Hsample_sum.
  repeated_field 3 Histogram_with_bucket Hbucket.
  written_end m.
Qed.

(** ** [Metric] *)
Definition Metric_well_formed (m : Metric) : Prop :=
  Forall well_formed (Metric_label m) ∧
  from_option well_formed True (Metric_gauge m) ∧
  from_option well_formed True (Metric_counter m) ∧
  from_option well_formed True (Metric_summary m) ∧
  from_option well_formed True (Metric_untyped m) ∧
  from_option well_formed True (Metric_histogram m) ∧
  from_option i64 True (Metric_timestamp_ms m) ∧
  Metric_unknown_fields m = unknown_fields_new.
Definition Metric_erase (m : Metric) : Metric :=
  Metric_with_cached_size 0 (Metric_with_histogram (erase <$> Metric_histogram m) (Metric_with_untyped (erase
    <$> Metric_untyped m) (Metric_with_summary (erase <$> Metric_summary m) (Metric_with_counter (erase <$>
    Metric_counter m) (Metric_with_gauge (erase <$> Metric_gauge m) (Metric_with_label (erase <$> Metric_label
    m) m)))))).

#[export] Program Instance Metric_laws : MessageLaws Metric := {|
  well_formed := Metric_well_formed;
  erase := Metric_erase;
|}.
Next Obligation. merge_good Metric_merge_field. Qed.
Next Obligation. cached_size Metric_compute_size. Qed.
Next Obligation.
  intros m (Hlabel & Hgauge & Hcounter & Hsummary & Huntyped & Hhistogram & Htimestamp_ms & Hu).
  sizes_start Metric_compute_size Metric_write_to_with_cached_sizes.
  sizes_embedded (compute_sizes_spec (M := LabelPair)).
  sizes_embedded (compute_size_opt_spec (M := Gauge)).
  sizes_embedded (compute_size_opt_spec (M := Counter)).
  sizes_embedded (compute_size_opt_spec (M := Summary)).
  sizes_embedded (compute_size_opt_spec (M := Untyped)).
  sizes_embedded (compute_size_opt_spec (M := Histogram)).
  sizes_fields.
Qed.
Next Obligation.
  intros m (Hlabel & Hgauge & Hcounter & Hsummary & Huntyped & Hhistogram & Htimestamp_ms & Hu) Hs.
  written_start Metric_compute_size Metric_write_to_with_cached_sizes.
  repeated_field 1 Metric_with_label Hlabel.
  embedded_field 2 Metric_with_gauge Hgauge.
  embedded_field 3 Metric_with_counter Hcounter.
  embedded_field 4 Metric_with_summary Hsummary.
  embedded_field 5 Metric_with_untyped Huntyped.
  embedded_field 7 Metric_with_histogram Hhistogram.
  int64_field 6 Metric_with_timestamp_ms Htimestamp_ms.
  written_end m.
Qed.

(** ** [MetricFamily] *)
Definition MetricFamily_well_formed (m : MetricFamily) : Prop :=
  from_option string_ok True (MetricFamily_name m) ∧
  from_option string_ok True (MetricFamily_help m) ∧
  Forall well_formed (MetricFamily_metric m) ∧
  MetricFamily_unknown_fields m = unknown_fields_new.
Definition MetricFamily_erase (m : MetricFamily) : MetricFamily :=
  MetricFamily_with_cached_size 0 (MetricFamily_with_metric (erase <$> MetricFamily_metric m) m).

#[export] Program Instance MetricFamily_laws : MessageLaws MetricFamily := {|
  well_formed := MetricFamily_well_formed;
  erase := MetricFamily_erase;
|}.
Next Obligation. merge_good MetricFamily_merge_field. Qed.
Next Obligation. cached_size MetricFamily_compute_size. Qed.
Next Obligation.
  intros m (Hname & Hhelp & Hmetric & Hu).
  sizes_start MetricFamily_compute_size MetricFamily_write_to_with_cached_sizes.
  sizes_embedded (compute_sizes_spec (M := Metric)).
  sizes_fields. apply MetricType_roundtrip.
Qed.
Next Obligation.
  intros m (Hname & Hhelp & Hmetric & Hu) Hs.
  written_start MetricFamily_compute_size MetricFamily_write_to_with_cached_sizes.
  string_field 1 MetricFamily_with_name Hname.
  string_field 2 MetricFamily_with_help Hhelp.
  field_with ltac:(fun m =>
    apply (enum_opt MetricType_from_i32 MetricType_value 3 _ (λ o, MetricFamily_with_field_type o m)
    unknown_fields_new
      (λ p, MetricFamily_with_unknown_fields p.2 (MetricFamily_with_field_type p.1 m)));
    [field_num|apply MetricType_roundtrip|done|intros inp]).
  { simpl. by destruct (lift _) as [[[v uf] p]|]. }
  repeated_field 4 MetricFamily_with_metric Hmetric.
  written_end m.
Qed.

End messages.
