(* ===== verification/ProtoFormat.v ===== *)
(** * The protobuf wire format: an instance of [ProtobufRuntime]

    Base-128 varints, little-endian doubles, length-delimited strings and messages, as the
    format is documented: [ProtobufLaws] can be met, and the examples of [ProtoEncode] and
    [Push] compute with it.  Unknown fields are kept as they came, and groups, which the
    format deprecates, are refused. *)
From Stdlib Require Import ZArith Lia Floats.SpecFloat.
From S2P Require Import Prelude Float64 FloatBits ProtoWire ProtoLaws.
Local Open Scope Z_scope.

(** ** Bytes *)
Definition byte_of (z : Z) : byte := default Byte.x00 (Byte.of_N (Z.to_N (z mod 256))).
Definition of_byte (b : byte) : Z := Z.of_N (Byte.to_N b).

Lemma of_byte_of z : of_byte (byte_of z) = z mod 256.
Proof.
  unfold of_byte, byte_of. pose proof (Z.mod_pos_bound z 256 ltac:(lia)) as Hz.
  destruct (Byte.of_N (Z.to_N (z mod 256))) as [b|] eqn:E; simpl.
  - apply Byte.to_of_N in E. rewrite E. lia.
  - apply Byte.of_N_None_iff in E. lia.
Qed.

(** ** Varints *)
Fixpoint varint (fuel : nat) (z : Z) : bytes :=
  match fuel with
  | O => []
  | S fuel => if z <? 128 then [byte_of z] else byte_of (128 + z mod 128) :: varint fuel (z / 128)
  end.

Fixpoint read_varint (fuel : nat) (inp : bytes) : option (Z * bytes) :=
  match fuel, inp with
  | S fuel, b :: inp =>
      if of_byte b <? 128 then Some (of_byte b, inp)
      else '(hi, inp) ← read_varint fuel inp; Some (of_byte b - 128 + 128 * hi, inp)
  | _, _ => None
  end.

Lemma read_varint_shrinks fuel inp z inp' : read_varint fuel inp = Some (z, inp') → (length inp' < length inp)%nat.
Proof.
  revert inp z. induction fuel as [|fuel IH]; intros [|b inp] z; simpl; try done. case_match; [by intros [= <- <-]; lia|].
  intros ([hi inp''] & E & [= <- <-])%bind_Some. apply IH in E. lia.
Qed.

Lemma read_varint_varint fuel z rest :
  (0 < fuel)%nat → 0 <= z < 2 ^ (7 * Z.of_nat fuel) → read_varint fuel (varint fuel z ++ rest) = Some (z, rest).
Proof.
  revert z. induction fuel as [|fuel IH]; intros z Hf Hz; [lia|]. simpl.
  destruct (Z.ltb_spec z 128) as [Hs|Hs]; simpl; rewrite of_byte_of.
  - rewrite Z.mod_small by lia. by destruct (Z.ltb_spec z 128); [|lia].
  - pose proof (Z.mod_pos_bound z 128 ltac:(lia)) as Hm. pose proof (Z.div_mod z 128 ltac:(lia)) as Hd.
    rewrite Z.mod_small by lia. destruct (Z.ltb_spec (128 + z mod 128) 128); [lia|].
    destruct fuel as [|fuel]; [simpl in Hz; lia|].
    rewrite IH; [simpl; do 2 f_equal; lia|lia|].
    split; [apply Z.div_pos; lia|]. apply Z.div_lt_upper_bound; [lia|].
    replace (7 * Z.of_nat (S (S fuel))) with (7 + 7 * Z.of_nat (S fuel)) in Hz by lia.
    rewrite Z.pow_add_r in Hz by lia. change (2 ^ 7) with 128 in Hz. lia.
Qed.

Lemma varint_nonempty fuel z : (0 < fuel)%nat → varint fuel z ≠ [].
Proof. destruct fuel; simpl; [lia|]. by case_match. Qed.

(** ** Doubles *)
Fixpoint le_split (n : nat) (z : Z) : bytes :=
  match n with O => [] | S n => byte_of z :: le_split n (z / 256) end.
Definition le_join (b : bytes) : Z := foldr (λ x z, of_byte x + 256 * z) 0 b.

Lemma le_join_split n z : 0 <= z < 256 ^ Z.of_nat n → le_join (le_split n z) = z.
Proof.
  revert z. induction n as [|n IH]; intros z Hz; simpl in *; [lia|].
  rewrite of_byte_of. pose proof (Z.div_mod z 256 ltac:(lia)).
  unfold le_join in IH. rewrite IH; [lia|]. split; [apply Z.div_pos; lia|]. apply Z.div_lt_upper_bound; [lia|].
  change (Z.pos (Pos.of_succ_nat n)) with (Z.of_nat (S n)) in Hz. rewrite Nat2Z.inj_succ, Z.pow_succ_r in Hz by lia. lia.
Qed.

Lemma le_split_length n z : length (le_split n z) = n.
Proof. revert z. induction n; intros; simpl; [done|]. by f_equal. Qed.

(** ** The primitives *)
Inductive FormatError := UnexpectedEof | IncorrectTag | UnexpectedWireType (wt : WireType) | NotUtf8.

Definition wire_type_value (wt : WireType) : Z :=
  match wt with
  | WireTypeVarint => 0 | WireTypeFixed64 => 1 | WireTypeLengthDelimited => 2
  | WireTypeStartGroup => 3 | WireTypeEndGroup => 4 | WireTypeFixed32 => 5
  end.
Definition wire_type_of (z : Z) : option WireType :=
  match z with
  | 0 => Some WireTypeVarint | 1 => Some WireTypeFixed64 | 2 => Some WireTypeLengthDelimited
  | 3 => Some WireTypeStartGroup | 4 => Some WireTypeEndGroup | 5 => Some WireTypeFixed32
  | _ => None
  end.

Definition put_varint (z : Z) : bytes := varint 10 (z mod 2 ^ 64).
Definition get_varint (inp : bytes) : result FormatError (Z * bytes) := ok_or (read_varint 10 inp) UnexpectedEof.

(** [n] bytes, if there are as many *)
Definition get_bytes (n : Z) (inp : bytes) : result FormatError (bytes * bytes) :=
  if decide (n <= Z.of_nat (length inp)) then Ok (take (Z.to_nat n) inp, drop (Z.to_nat n) inp) else Err UnexpectedEof.

Definition get_delimited (wt : WireType) (inp : bytes) : result FormatError (bytes * bytes) :=
  if decide (wt = WireTypeLengthDelimited) then '(n, inp) ← get_varint inp; get_bytes n inp
  else Err (UnexpectedWireType wt).

Definition tag (n : Z) (wt : WireType) : bytes := put_varint (8 * n + wire_type_value wt).
Definition get_tag (inp : bytes) : result FormatError (Z * WireType * bytes) :=
  '(z, inp) ← get_varint inp;
  wt ← ok_or (wire_type_of (z mod 8)) IncorrectTag;
  if decide (z / 8 = 0) then Err IncorrectTag else Ok (z / 8, wt, inp).

Definition get_signed (w : Z) (inp : bytes) : result FormatError (Z * bytes) :=
  '(z, inp) ← get_varint inp;
  let z := z mod 2 ^ w in
  Ok (if decide (z < 2 ^ (w - 1)) then z else z - 2 ^ w, inp).

Definition get_unsigned (inp : bytes) : result FormatError (Z * bytes) :=
  '(z, inp) ← get_varint inp; Ok (z mod 2 ^ 64, inp).

Definition get_double (inp : bytes) : result FormatError (f64 * bytes) :=
  '(b, inp) ← get_bytes 8 inp; Ok (of_bits (le_join b), inp).

Definition get_string (wt : WireType) (inp : bytes) (old : option string)
    : result FormatError (option string * bytes) :=
  '(b, inp) ← get_delimited wt inp;
  s ← ok_or (from_utf8 b) NotUtf8;
  Ok (Some s, inp).

(** an unknown value of the enumeration goes to the unknown fields *)
Definition get_enum {A} (from : Z → option A) (wt : WireType) (inp : bytes) (old : option A) (n : Z) (uf : bytes)
    : result FormatError (option A * bytes * bytes) :=
  if decide (wt = WireTypeVarint) then
    '(z, inp) ← get_signed 32 inp;
    Ok (match from z with Some a => (Some a, uf) | None => (old, uf ++ tag n wt ++ put_varint z) end, inp)
  else Err (UnexpectedWireType wt).

Definition get_unknown (n : Z) (wt : WireType) (inp uf : bytes) : result FormatError (bytes * bytes) :=
  match wt with
  | WireTypeVarint => '(z, inp) ← get_varint inp; Ok (uf ++ tag n wt ++ put_varint z, inp)
  | WireTypeFixed64 => '(b, inp) ← get_bytes 8 inp; Ok (uf ++ tag n wt ++ b, inp)
  | WireTypeFixed32 => '(b, inp) ← get_bytes 4 inp; Ok (uf ++ tag n wt ++ b, inp)
  | WireTypeLengthDelimited =>
      '(b, inp) ← get_delimited wt inp; Ok (uf ++ tag n wt ++ put_varint (Z.of_nat (length b)) ++ b, inp)
  | _ => Err (UnexpectedWireType wt)
  end.

Definition put_double (n : Z) (v : f64) : bytes := tag n WireTypeFixed64 ++ le_split 8 (to_bits v).
Definition put_string (n : Z) (v : string) : bytes :=
  tag n WireTypeLengthDelimited ++ put_varint (Z.of_nat (length (as_bytes v))) ++ as_bytes v.
Definition put_integer (n v : Z) : bytes := tag n WireTypeVarint ++ put_varint v.

#[export] Instance wire_format : ProtobufRuntime := {|
  ProtobufError := FormatError;
  unexpected_wire_type := UnexpectedWireType;
  UnknownFields := bytes;
  unknown_fields_new := [];
  unknown_fields_clear _ := [];
  write_tag := tag;
  write_raw_varint32 := put_varint;
  write_string := put_string;
  write_double := put_double;
  write_uint64 := put_integer;
  write_int64 := put_integer;
  write_enum := put_integer;
  write_unknown_fields uf := uf;
  string_size n v := Z.of_nat (length (put_string n v));
  value_size_u64 n v _ := Z.of_nat (length (put_integer n v));
  value_size_i64 n v _ := Z.of_nat (length (put_integer n v));
  enum_size n v := Z.of_nat (length (put_integer n v));
  compute_raw_varint32_size v := Z.of_nat (length (put_varint v));
  unknown_fields_size uf := Z.of_nat (length uf);
  read_tag_unpack := get_tag;
  read_double := get_double;
  read_uint64 := get_unsigned;
  read_int64 := get_signed 64;
  read_singular_string_into := get_string;
  read_proto2_enum_with_unknown_fields_into := @get_enum;
  read_unknown_or_skip_group := get_unknown;
  read_message_limit := get_delimited;
  set_default M d _ := d;
|}.

(** ** The laws *)
Lemma get_varint_put z rest : get_varint (put_varint z ++ rest) = Ok (z mod 2 ^ 64, rest).
Proof.
  unfold get_varint, put_varint. rewrite read_varint_varint; [done|lia|].
  pose proof (Z.mod_pos_bound z (2 ^ 64) ltac:(lia)). change (2 ^ (7 * Z.of_nat 10)) with (2 ^ 70). lia.
Qed.

Lemma get_bytes_app b rest : get_bytes (Z.of_nat (length b)) (b ++ rest) = Ok (b, rest).
Proof.
  unfold get_bytes. rewrite decide_True by (rewrite length_app; lia).
  by rewrite Nat2Z.id, take_app_length, drop_app_length.
Qed.

Lemma get_delimited_put b rest : small b →
  get_delimited WireTypeLengthDelimited (put_varint (Z.of_nat (length b)) ++ b ++ rest) = Ok (b, rest).
Proof.
  intros Hs. unfold get_delimited. rewrite decide_True by done. rewrite get_varint_put. simpl.
  unfold small in Hs. rewrite Z.mod_small by lia. apply get_bytes_app.
Qed.

Lemma get_signed_put w z rest : 0 < w <= 64 → - 2 ^ (w - 1) <= z < 2 ^ (w - 1) →
  get_signed w (put_varint z ++ rest) = Ok (z, rest).
Proof.
  intros Hw Hz. unfold get_signed. rewrite get_varint_put. simpl. do 2 f_equal.
  assert (Hp : 2 ^ w = 2 * 2 ^ (w - 1)) by (rewrite <-Z.pow_succ_r by lia; f_equal; lia).
  assert (Hm : (z mod 2 ^ 64) mod 2 ^ w = z mod 2 ^ w).
  { apply Z.mod_mod_divide. exists (2 ^ (64 - w)). rewrite <-Z.pow_add_r by lia. f_equal. lia. }
  rewrite Hm. destruct (Z.lt_ge_cases z 0).
  - assert (z mod 2 ^ w = z + 2 ^ w) as ->.
    { rewrite <-(Z.mod_add z 1), Z.mul_1_l by lia. apply Z.mod_small. lia. }
    rewrite decide_False by lia. lia.
  - rewrite Z.mod_small by lia. rewrite decide_True by lia. done.
Qed.

Lemma get_varint_shrinks inp z inp' : get_varint inp = Ok (z, inp') → (length inp' < length inp)%nat.
Proof. unfold get_varint. rewrite ok_or_Ok. apply read_varint_shrinks. Qed.

Lemma get_bytes_shrinks n inp b inp' : get_bytes n inp = Ok (b, inp') → (length b + length inp' ≤ length inp)%nat.
Proof. unfold get_bytes. case_decide; [|done]. intros [= <- <-]. rewrite length_take, length_drop. lia. Qed.

Lemma get_delimited_shrinks wt inp b inp' :
  get_delimited wt inp = Ok (b, inp') → (length b + length inp' ≤ length inp)%nat.
Proof.
  unfold get_delimited. case_decide; [|done]. rewrite result_bind_Ok.
  intros ([n inp''] & E & Hb). apply get_varint_shrinks in E. apply get_bytes_shrinks in Hb. lia.
Qed.

Lemma shrinks_bind {E A B} (f : bytes → result E (A * bytes)) (k : A * bytes → result E (B * bytes)) :
  shrinks f → (∀ a, shrinks (λ inp, k (a, inp))) → shrinks (λ inp, f inp ≫= k).
Proof.
  intros Hf Hk inp b inp'. rewrite result_bind_Ok. intros ([a inp''] & E1 & E2).
  apply Hf in E1. apply Hk in E2. lia.
Qed.

Lemma shrinks_ret {E A} (a : A) : shrinks (λ inp, Ok (E := E) (a, inp)).
Proof. intros inp x inp' [= <- <-]. done. Qed.

Lemma shrinks_varint : shrinks get_varint.
Proof. intros inp z inp' E%get_varint_shrinks. lia. Qed.
Lemma shrinks_bytes n : shrinks (get_bytes n).
Proof. intros inp b inp' E%get_bytes_shrinks. lia. Qed.
Lemma shrinks_delimited wt : shrinks (get_delimited wt).
Proof. intros inp b inp' E%get_delimited_shrinks. lia. Qed.
Lemma shrinks_signed w : shrinks (get_signed w).
Proof. apply shrinks_bind; [apply shrinks_varint|]. intros z. simpl. apply shrinks_ret. Qed.

Lemma shrinks_string wt old : shrinks (λ inp, get_string wt inp old).
Proof.
  apply shrinks_bind; [apply shrinks_delimited|]. intros b inp x inp'.
  rewrite result_bind_Ok. by intros (s & _ & [= <- <-]).
Qed.

Lemma shrinks_enum {A} (from : Z → option A) wt old n uf : shrinks (λ inp, get_enum from wt inp old n uf).
Proof.
  unfold get_enum. destruct (decide (wt = WireTypeVarint)); [|done].
  apply shrinks_bind; [apply shrinks_signed|]. intros z. apply shrinks_ret.
Qed.

Lemma shrinks_unknown n wt uf : shrinks (λ inp, get_unknown n wt inp uf).
Proof.
  destruct wt; simpl; try done;
    (apply shrinks_bind; [first [apply shrinks_varint|apply shrinks_bytes|apply shrinks_delimited]|]);
    intros; apply shrinks_ret.
Qed.

Lemma get_tag_put n wt rest : field_number n → get_tag (tag n wt ++ rest) = Ok (n, wt, rest).
Proof.
  intros Hn. unfold field_number in Hn. unfold get_tag, tag. rewrite get_varint_put. simpl.
  assert (0 <= wire_type_value wt <= 5) by (destruct wt; simpl; lia).
  rewrite Z.mod_small by lia. rewrite (Z.mul_comm 8), (Z.add_comm (n * 8)), Z.mod_add, Z.div_add by lia.
  rewrite Z.mod_small, Z.div_small by lia. simpl.
  replace (n + 0) with n by lia. destruct wt; simpl; by rewrite decide_False by lia.
Qed.

Lemma tag_length n wt : field_number n → length (tag n wt) = 1%nat.
Proof.
  intros Hn. unfold field_number in Hn. unfold tag, put_varint.
  assert (0 <= wire_type_value wt <= 5) by (destruct wt; simpl; lia).
  rewrite Z.mod_small by lia. simpl. destruct (Z.ltb_spec (8 * n + wire_type_value wt) 128); [done|lia].
Qed.

#[export] Instance wire_format_laws : ProtobufLaws.
Proof.
  split; simpl.
  - intros inp t inp'. unfold get_tag. rewrite result_bind_Ok. intros ([z inp''] & E%get_varint_shrinks & Ht).
    revert Ht. rewrite result_bind_Ok. intros (wt & _ & Ht). case_decide; simplify_eq; lia.
  - apply shrinks_bind; [apply shrinks_bytes|]. intros; apply shrinks_ret.
  - apply shrinks_bind; [apply shrinks_varint|]. intros; apply shrinks_ret.
  - apply shrinks_signed.
  - apply shrinks_string.
  - intros A. apply shrinks_enum.
  - apply shrinks_unknown.
  - apply get_delimited_shrinks.
  - apply get_tag_put.
  - apply tag_length.
  - intros n v Hn Hv. exists (le_split 8 (to_bits v)). split; [done|]. intros rest.
    pose proof (get_bytes_app (le_split 8 (to_bits v)) rest) as Hg. rewrite le_split_length in Hg.
    unfold get_double. change 8 with (Z.of_nat 8). rewrite Hg. cbn [mbind result_bind].
    rewrite le_join_split by by apply to_bits_range. by rewrite of_to_bits.
  - intros n v Hn Hv. exists (put_varint v). split; [done|]. intros rest.
    unfold get_unsigned. rewrite get_varint_put. simpl. unfold fits in Hv. by rewrite Z.mod_mod, Z.mod_small by lia.
  - intros n v Hn Hv. exists (put_varint v). split; [done|]. intros rest. by apply get_signed_put.
  - intros n v Hn Hv Hs. exists (put_varint (Z.of_nat (length (as_bytes v))) ++ as_bytes v). split; [done|].
    intros rest. unfold get_string. rewrite <-app_assoc, get_delimited_put by done. simpl.
    unfold from_utf8. rewrite Hv. simpl. by rewrite of_bytes_as_bytes.
  - intros A from n v a uf Hn Hv Ha. exists (put_varint v). split; [done|]. intros rest.
    unfold get_enum. simpl. rewrite (get_signed_put 32) by (done || lia). simpl. by rewrite Ha.
  - intros body rest Hs. by apply get_delimited_put.
  - done.
  - intros n v Hn. unfold put_double. by rewrite length_app, tag_length, le_split_length.
  - done.
  - done.
  - done.
  - done.
  - done.
  - intros v. apply varint_nonempty. lia.
  - intros n v. unfold put_string. rewrite !length_app. lia.
  - done.
  - done.
Qed.
