(* ===== verification/ProtoEncode.v ===== *)
(** * The binary exposition format: [prometheus/src/encoder/pb.rs]

    [ProtobufEncoder] over the messages of [Proto], with the check of [encoder/mod.rs];
    that what it writes can be read back, message by message; and that the getters and
    setters of [proto_model.rs] are those of [plain_model.rs], on which the rest of the
    client is modelled.  The writer is a growing buffer, as in [push.rs]. *)
From Stdlib Require Import ZArith Lia.
From S2P Require Import Prelude Float64 Metrics ProtoWire ProtoLaws Proto ProtoFacts ProtoFormat.
Local Open Scope Z_scope.

(** [prometheus::Error] with the [protobuf] feature *)
Inductive PromError `{ProtobufRuntime} := Plain (e : MetricsError) | Protobuf (e : ProtobufError).

Definition PROTOBUF_FORMAT : string :=
  "application/vnd.google.protobuf; proto=io.prometheus.client.MetricFamily; encoding=delimited".

Section encoder.
Context `{ProtobufRuntime}.
(** [{:?}] of a family, and the crate's [Message::write_length_delimited_to_writer] *)
Context (debug_family : MetricFamily → string).
Context (write_length_delimited_to_writer : MetricFamily → bytes → result ProtobufError unit * bytes).

Definition check_metric_family (mf : MetricFamily) : MetricsResult unit :=
  if decide (length (MetricFamily_get_metric mf) = 0%nat) then
    Err (Msg (String.append "MetricFamily has no metrics: " (debug_family mf))) else
  if decide (MetricFamily_get_name mf = "") then
    Err (Msg (String.append "MetricFamily has no name: " (debug_family mf))) else
  Ok tt.

(** [ProtobufEncoder::encode]; what was written before an error stays in the buffer. *)
Fixpoint encode (metric_families : list MetricFamily) (writer : bytes) : result PromError unit * bytes :=
  match metric_families with
  | [] => (Ok tt, writer)
  | mf :: metric_families =>
      match check_metric_family mf with
      | Err e => (Err (Plain e), writer)
      | Ok _ =>
          match write_length_delimited_to_writer mf writer with
          | (Err e, writer) => (Err (Protobuf e), writer)
          | (Ok _, writer) => encode metric_families writer
          end
      end
  end.
End encoder.

(** ** Reading the format *)
Section format.
Context `{ProtobufLaws}.
Context (debug_family : MetricFamily → string).
Context (write_length_delimited_to_writer : MetricFamily → bytes → result ProtobufError unit * bytes).

(** "Write the message to the writer, prefixed with its length"; a message that lacks a
    required field is an error. *)
Definition delimited (mf : MetricFamily) : bytes := write_raw_varint32 (compute_size mf).1 ++ written mf.
Hypothesis write_length_delimited_spec : ∀ mf writer, is_initialized mf = true →
  write_length_delimited_to_writer mf writer = (Ok tt, writer ++ delimited mf).

(** No message has a required field. *)
Lemma initialized `{!Message M} (f : M → bool) (l : list M) : (∀ v, f v = true) → forallb f l = true.
Proof. intros Hf. apply forallb_forall. intros. apply Hf. Qed.

Lemma Metric_initialized (m : Metric) : is_initialized m = true.
Proof.
  simpl. unfold Metric_is_initialized. rewrite !andb_true_iff.
  repeat split; apply initialized; intros v; try done; by apply initialized.
Qed.

Lemma MetricFamily_initialized (mf : MetricFamily) : is_initialized mf = true.
Proof. apply initialized, Metric_initialized. Qed.

(** The families that are not refused *)
Definition has_content (mf : MetricFamily) : Prop :=
  length (MetricFamily_get_metric mf) ≠ 0%nat ∧ MetricFamily_get_name mf ≠ "".

Lemma check_metric_family_Ok mf : has_content mf → check_metric_family debug_family mf = Ok tt.
Proof. intros [Hm Hn]. unfold check_metric_family. by rewrite !decide_False. Qed.

Lemma check_metric_family_Err mf : ¬ has_content mf → ∃ e, check_metric_family debug_family mf = Err e.
Proof. unfold check_metric_family, has_content. repeat case_decide; naive_solver. Qed.

(** [encode] writes the families in order up to the first one it refuses. *)
Lemma encode_spec mfs writer :
  encode debug_family write_length_delimited_to_writer mfs writer =
  match list_find (λ mf, ¬ has_content mf) mfs with
  | None => (Ok tt, writer ++ (mfs ≫= delimited))
  | Some (i, mf) =>
      (match check_metric_family debug_family mf with Ok _ => Ok tt | Err e => Err (Plain e) end,
       writer ++ (take i mfs ≫= delimited))
  end.
Proof.
  revert writer. induction mfs as [|mf mfs IH]; intros writer; simpl; [by rewrite app_nil_r|].
  case_decide as Hd; simpl.
  - destruct (check_metric_family_Err mf Hd) as [e ->]. by rewrite app_nil_r.
  - rewrite check_metric_family_Ok by (destruct (decide (has_content mf)); naive_solver).
    rewrite write_length_delimited_spec by apply MetricFamily_initialized. rewrite IH.
    destruct (list_find _ mfs) as [[i mf']|]; simpl; by rewrite <-app_assoc.
Qed.

(** A reader of the format: the lengths and the messages, as long as there is input *)
Fixpoint decode (fuel : nat) (inp : bytes) : result MergeError (list MetricFamily) :=
  match inp, fuel with
  | [], _ => Ok []
  | _, O => Err OutOfFuel
  | _, S fuel =>
      '(sub, inp) ← lift (read_message_limit WireTypeLengthDelimited inp);
      mf ← merge_from message_new sub;
      mfs ← decode fuel inp;
      Ok (mf :: mfs)
  end.

(** what a family must be to fit the format *)
Definition encodable (mf : MetricFamily) : Prop := well_formed mf ∧ small (written mf).

Lemma decode_delimited fuel mfs :
  (length mfs ≤ fuel)%nat → Forall encodable mfs → decode fuel (mfs ≫= delimited) = Ok (erase <$> mfs).
Proof.
  intros Hle Hall. revert fuel Hle.
  induction Hall as [|mf mfs [Hw Hs] Hmfs IH]; intros [|fuel] Hle; simpl in Hle; try done; [lia|].
  rewrite bind_cons, fmap_cons. unfold delimited at 1. rewrite <-app_assoc, (compute_size_written mf Hw Hs).
  pose proof (read_write_message (written mf) (mfs ≫= delimited) Hs) as Hr.
  pose proof (write_raw_varint32_nonempty (Z.of_nat (length (written mf)))) as Hne.
  destruct (write_raw_varint32 _) as [|b l]; [done|]. simpl app in *. simpl decode. rewrite Hr. simpl.
  pose proof (parses_from _ _ _ (merge_written mf Hw Hs)) as Hm. simpl in Hm. rewrite Hm. simpl.
  by rewrite IH by lia.
Qed.

Lemma delimited_length mfs : (length mfs ≤ length (mfs ≫= delimited))%nat.
Proof.
  induction mfs as [|mf mfs IH]; [done|]. rewrite bind_cons, length_app. simpl.
  unfold delimited at 1. rewrite length_app.
  pose proof (write_raw_varint32_nonempty (compute_size mf).1). destruct (write_raw_varint32 _); [done|]. simpl. lia.
Qed.

(** C13. Families that all have a name and a metric, and hold values of their types, are
    encoded without an error, whatever the encoder had been given before; a reader of the
    delimited format gets the same families back in the same order, every field,
    label, bucket and quantile included. *)
Theorem protobuf_roundtrip mfs writer :
  Forall has_content mfs → Forall encodable mfs →
  ∃ out, encode debug_family write_length_delimited_to_writer mfs writer = (Ok tt, writer ++ out) ∧
    decode (length out) out = Ok (erase <$> mfs).
Proof.
  intros Hc He. exists (mfs ≫= delimited). split.
  - rewrite encode_spec. destruct (list_find _ mfs) as [[i mf]|] eqn:E; [|done].
    apply list_find_Some in E as (E & Hn & _). exfalso. apply Hn. by eapply Forall_lookup_1.
  - apply decode_delimited; [apply delimited_length|done].
Qed.

(** Parsing ends on any input: a message read from arbitrary bytes, however they nest
    and whatever they claim about their length, is accepted or refused by an error of the
    wire format; the fuel of the model, the number of bytes, is always enough. *)
Theorem merge_from_total (mf : MetricFamily) inp : merge_from mf inp ≠ Err OutOfFuel.
Proof. apply merge_loop_total; [apply merge_field_good|done]. Qed.
End format.

(** ** The two representations

    What a client sees of a message through its getters *)
Section view.
Context `{ProtobufRuntime}.

Definition LabelPair_view (m : LabelPair) : Metrics.LabelPair :=
  {| lp_name := LabelPair_get_name m; lp_value := LabelPair_get_value m |}.
Definition Quantile_view (m : Quantile) : Metrics.Quantile :=
  {| quantile := Quantile_get_quantile m; q_value := Quantile_get_value m |}.
Definition Summary_view (m : Summary) : Metrics.Summary :=
  {| s_sample_count := Summary_get_sample_count m; s_sample_sum := Summary_get_sample_sum m;
     s_quantile := Quantile_view <$> Summary_get_quantile m |}.
Definition Bucket_view (m : Bucket) : Metrics.Bucket :=
  {| cumulative_count := Bucket_get_cumulative_count m; upper_bound := Bucket_get_upper_bound m |}.
Definition Histogram_view (m : Histogram) : HistogramProto :=
  {| sample_count := Histogram_get_sample_count m; sample_sum := Histogram_get_sample_sum m;
     bucket := Bucket_view <$> Histogram_get_bucket m |}.
Definition Metric_view (m : Metric) : Metrics.Metric :=
  {| label := LabelPair_view <$> Metric_get_label m; gauge := Gauge_get_value (Metric_get_gauge m);
     counter := Counter_get_value (Metric_get_counter m); summary := Summary_view (Metric_get_summary m);
     histogram := Histogram_view (Metric_get_histogram m); timestamp_ms := Metric_get_timestamp_ms m |}.
Definition MetricType_view (t : MetricType) : Metrics.MetricType :=
  match t with
  | COUNTER => Metrics.COUNTER | GAUGE => Metrics.GAUGE | SUMMARY => Metrics.SUMMARY
  | UNTYPED => Metrics.UNTYPED | HISTOGRAM => Metrics.HISTOGRAM
  end.
Definition MetricFamily_view (m : MetricFamily) : Metrics.MetricFamily :=
  {| mf_name := MetricFamily_get_name m; mf_help := MetricFamily_get_help m;
     field_type := MetricType_view (MetricFamily_get_field_type m);
     metric := Metric_view <$> MetricFamily_get_metric m |}.

(** The messages of the default build simulate those of [plain_model.rs]: a new message
    looks like a new one, and a setter changes what the getters show as the plain setter
    does, whatever was there before, a nested message included. *)
Theorem view_simulates :
  Metric_view Metric_new = Metric_default ∧
  (∀ v m, Metric_view (Metric_set_label v m) = set_label (LabelPair_view <$> v) (Metric_view m)) ∧
  (∀ v m, Metric_view (Metric_set_gauge (Gauge_set_value v Gauge_new) m) = set_gauge v (Metric_view m)) ∧
  (∀ v m, Metric_view (Metric_set_counter (Counter_set_value v Counter_new) m) = set_counter v (Metric_view m)) ∧
  (∀ v m, Metric_view (Metric_set_histogram v m) = set_histogram (Histogram_view v) (Metric_view m)) ∧
  (∀ v m, MetricFamily_view (MetricFamily_set_name v m) = set_name v (MetricFamily_view m)) ∧
  (∀ v m, MetricFamily_view (MetricFamily_set_metric v m) = set_metric (Metric_view <$> v) (MetricFamily_view m)) ∧
  (∀ f g m, (∀ l, Metric_view <$> f l = g (Metric_view <$> l)) →
    MetricFamily_view (MetricFamily_mut_metric f m) =
    set_metric (g (metric (MetricFamily_view m))) (MetricFamily_view m)).
Proof.
  repeat split; try done. intros f g m Hfg. unfold MetricFamily_view, set_metric. simpl. by rewrite <-Hfg.
Qed.
End view.

(** The sizes that are kept are not seen. *)
Section erased.
Context `{ProtobufLaws}.

Lemma Metric_view_erase (m : Metric) : Metric_view (Metric_erase m) = Metric_view m.
Proof.
  assert (He : ∀ {A B} (f : A → B) (g : A → A) (l : list A), (∀ x, f (g x) = f x) → f <$> (g <$> l) = f <$> l).
  { intros A B f g l Hfg. rewrite <-list_fmap_compose. apply list_fmap_ext. intros i x _. apply Hfg. }
  destruct m as [ls g c s u h t uf n]. unfold Metric_view, Metric_get_label. cbn. f_equal.
  - by apply He.
  - by destruct g.
  - by destruct c.
  - destruct s; [|done]. unfold Summary_view. cbn. f_equal. by apply He.
  - destruct h; [|done]. unfold Histogram_view. cbn. f_equal. by apply He.
Qed.

Lemma MetricFamily_view_erase (m : MetricFamily) : MetricFamily_view (MetricFamily_erase m) = MetricFamily_view m.
Proof.
  destruct m as [na he ty ms uf n]. unfold MetricFamily_view. cbn. f_equal.
  unfold MetricFamily_get_metric. cbn. rewrite <-list_fmap_compose. apply list_fmap_ext. intros i m' _. apply Metric_view_erase.
Qed.
End erased.

(** ** Any exposition as messages of the default build, with every field set *)
Module Represent.
Definition label (lp : Metrics.LabelPair) : LabelPair :=
  LabelPair_set_value (lp_value lp) (LabelPair_set_name (lp_name lp) LabelPair_new).
Definition quantile (q : Metrics.Quantile) : Quantile :=
  Quantile_set_value (q_value q) (Quantile_set_quantile (Metrics.quantile q) Quantile_new).
Definition summary (s : Metrics.Summary) : Summary :=
  Summary_set_quantile (quantile <$> s_quantile s)
    (Summary_set_sample_sum (s_sample_sum s) (Summary_set_sample_count (s_sample_count s) Summary_new)).
Definition bucket (b : Metrics.Bucket) : Bucket :=
  Bucket_set_upper_bound (upper_bound b) (Bucket_set_cumulative_count (cumulative_count b) Bucket_new).
Definition histogram (h : HistogramProto) : Histogram :=
  Histogram_set_bucket (bucket <$> Metrics.bucket h)
    (Histogram_set_sample_sum (sample_sum h) (Histogram_set_sample_count (sample_count h) Histogram_new)).
Definition one (m : Metrics.Metric) : Metric :=
  Metric_set_timestamp_ms (timestamp_ms m) (Metric_set_histogram (histogram (Metrics.histogram m))
    (Metric_set_summary (summary (Metrics.summary m)) (Metric_set_counter (Counter_set_value (counter m) Counter_new)
      (Metric_set_gauge (Gauge_set_value (gauge m) Gauge_new) (Metric_set_label (label <$> Metrics.label m) Metric_new))))).
Definition type (t : Metrics.MetricType) : MetricType :=
  match t with
  | Metrics.COUNTER => COUNTER | Metrics.GAUGE => GAUGE | Metrics.SUMMARY => SUMMARY
  | Metrics.UNTYPED => UNTYPED | Metrics.HISTOGRAM => HISTOGRAM
  end.
Definition family (mf : Metrics.MetricFamily) : MetricFamily :=
  MetricFamily_set_metric (one <$> metric mf) (MetricFamily_set_field_type (type (field_type mf))
    (MetricFamily_set_help (mf_help mf) (MetricFamily_set_name (mf_name mf) MetricFamily_new))).

Lemma fmap_inverse {A B} (f : B → A) (g : A → B) (l : list A) : (∀ x, f (g x) = x) → f <$> (g <$> l) = l.
Proof. intros Hfg. induction l as [|x l IH]; [done|]. by rewrite !fmap_cons, IH, Hfg. Qed.

Lemma one_view m : Metric_view (one m) = m.
Proof.
  destruct m as [ls g c [sc ss sq] [hc hs hb] t]. unfold Metric_view, Summary_view, Histogram_view.
  cbn. f_equal; [|f_equal|f_equal]; apply fmap_inverse; by intros [].
Qed.

Lemma families_view (l : list Metrics.MetricFamily) : MetricFamily_view <$> (family <$> l) = l.
Proof.
  apply fmap_inverse. intros [na he ty ms]. unfold MetricFamily_view. cbn.
  f_equal; [by destruct ty|]. apply fmap_inverse, one_view.
Qed.
End Represent.

(** ** A counter with labels and a histogram *)
Module EncodeRun.
Definition write_length_delimited_to_writer (mf : MetricFamily) (w : bytes) : result ProtobufError unit * bytes :=
  (Ok tt, w ++ delimited mf).

Definition requests : MetricFamily :=
  MetricFamily_set_metric
    [Metric_set_counter (Counter_set_value (f64_of_Z 1027) Counter_new)
       (Metric_set_label [LabelPair_set_value "post" (LabelPair_set_name "method" LabelPair_new)] Metric_new)]
    (MetricFamily_set_help "Requests." (MetricFamily_set_name "http_requests" MetricFamily_new)).

Definition latency : MetricFamily :=
  MetricFamily_set_metric
    [Metric_set_histogram
       (Histogram_set_bucket
          [Bucket_set_upper_bound (f64_of_Z 1) (Bucket_set_cumulative_count 300 Bucket_new);
           Bucket_set_upper_bound f64_infinity (Bucket_set_cumulative_count 301 Bucket_new)]
          (Histogram_set_sample_count 301 Histogram_new)) (Metric_set_timestamp_ms (-1) Metric_new)]
    (MetricFamily_set_field_type HISTOGRAM (MetricFamily_set_name "latency" MetricFamily_new)).

(** the bytes of the counter's family *)
Example requests_bytes :
  delimited requests =
  as_bytes "7" ++ [Byte.x0a; Byte.x0d] ++ as_bytes "http_requests" ++ [Byte.x12; Byte.x09] ++ as_bytes "Requests." ++
  [Byte.x22; Byte.x1b; Byte.x0a; Byte.x0e; Byte.x0a; Byte.x06] ++ as_bytes "method" ++ [Byte.x12; Byte.x04] ++
  as_bytes "post" ++ [Byte.x1a; Byte.x09; Byte.x09; Byte.x00; Byte.x00; Byte.x00; Byte.x00; Byte.x00; Byte.x0c;
  Byte.x90; Byte.x40].
Proof. vm_compute. reflexivity. Qed.

Definition encoded : result PromError unit * bytes :=
  encode (λ _, "") write_length_delimited_to_writer [requests; latency] [].

Lemma run_encodable : Forall encodable [requests; latency].
Proof.
  constructor; [|constructor; [|constructor]]; (split; [|vm_compute; done]);
    simpl; unfold MetricFamily_well_formed; simpl; repeat split; try done;
    repeat (constructor; simpl; repeat split; try done).
Qed.

Lemma run_content : Forall has_content [requests; latency].
Proof. repeat constructor; done. Qed.

Lemma protobuf_roundtrip_holds :
  (∃ out, encode (λ _, "") write_length_delimited_to_writer [requests; latency] [] = (Ok tt, [] ++ out) ∧
     decode (length out) out = Ok (erase <$> [requests; latency])) ∧
  MetricFamily_view <$> (erase <$> [requests; latency]) = MetricFamily_view <$> [requests; latency].
Proof.
  split; [|reflexivity].
  exact (protobuf_roundtrip (λ _, "") write_length_delimited_to_writer (λ _ _ _, eq_refl) _ _ run_content run_encodable).
Defined.

(** a length prefix that claims more than there is *)
Lemma merge_from_total_holds :
  match merge_from MetricFamily_new [Byte.x22; Byte.x7f; Byte.x0a] with
  | Err (WireError UnexpectedEof) => true | _ => false end = true ∧
  merge_from MetricFamily_new [Byte.x22; Byte.x7f; Byte.x0a] ≠ Err OutOfFuel.
Proof. split; [vm_compute; reflexivity|exact (merge_from_total MetricFamily_new _)]. Defined.
End EncodeRun.
