(* ===== verification/PlainModel.v ===== *)
(** * The messages without the protobuf feature: [prometheus/src/plain_model.rs]

    Plain structs with the getters and setters of the generated messages of [Proto].  A
    [mut_..] hands out a reference: here it takes what is done through it, which to a slice
    is a change of an element that there is (another index panics, [None]). *)
From Stdlib Require Import ZArith.
From S2P Require Import Prelude Float64 Metrics.
Local Open Scope Z_scope.

(** The enum is that of [Metrics]. *)
Abbreviation MetricType := Metrics.MetricType.
Definition MetricType_default : MetricType := COUNTER.

(** ** [LabelPair] *)
Record LabelPair := { LabelPair_name : string; LabelPair_value : string; }.
Definition LabelPair_default : LabelPair := {| LabelPair_name := ""; LabelPair_value := "" |}.
Definition LabelPair_new : LabelPair := LabelPair_default.
Definition LabelPair_set_name (v : string) (m : LabelPair) : LabelPair := {| LabelPair_name := v;
  LabelPair_value := LabelPair_value m |}.
Definition LabelPair_get_name (m : LabelPair) : string := LabelPair_name m.
Definition LabelPair_set_value (v : string) (m : LabelPair) : LabelPair := {| LabelPair_name := LabelPair_name
  m; LabelPair_value := v |}.
Definition LabelPair_get_value (m : LabelPair) : string := LabelPair_value m.
Definition LabelPair_clear_name (m : LabelPair) : LabelPair := LabelPair_set_name "" m.

(** ** [Gauge] *)
Record Gauge := { Gauge_value : f64; }.
Definition Gauge_default : Gauge := {| Gauge_value := f64_zero |}.
Definition Gauge_new : Gauge := Gauge_default.
Definition Gauge_set_value (v : f64) (m : Gauge) : Gauge := {| Gauge_value := v |}.
Definition Gauge_get_value (m : Gauge) : f64 := Gauge_value m.

(** ** [Counter] *)
Record Counter := { Counter_value : f64; }.
Definition Counter_default : Counter := {| Counter_value := f64_zero |}.
Definition Counter_new : Counter := Counter_default.
Definition Counter_set_value (v : f64) (m : Counter) : Counter := {| Counter_value := v |}.
Definition Counter_get_value (m : Counter) : f64 := Counter_value m.

(** ** [Quantile] *)
Record Quantile := { Quantile_quantile : f64; Quantile_value : f64; }.
Definition Quantile_default : Quantile := {| Quantile_quantile := f64_zero; Quantile_value := f64_zero |}.
Definition Quantile_new : Quantile := Quantile_default.
Definition Quantile_set_quantile (v : f64) (m : Quantile) : Quantile := {| Quantile_quantile := v;
  Quantile_value := Quantile_value m |}.
Definition Quantile_get_quantile (m : Quantile) : f64 := Quantile_quantile m.
Definition Quantile_set_value (v : f64) (m : Quantile) : Quantile := {| Quantile_quantile := Quantile_quantile
  m; Quantile_value := v |}.
Definition Quantile_get_value (m : Quantile) : f64 := Quantile_value m.

(** ** [Summary] *)
Record Summary := { Summary_sample_count : Z; Summary_sample_sum : f64; Summary_quantile : list Quantile; }.
Definition Summary_default : Summary := {| Summary_sample_count := 0; Summary_sample_sum := f64_zero;
  Summary_quantile := [] |}.
Definition Summary_new : Summary := Summary_default.
Definition Summary_set_sample_count (v : Z) (m : Summary) : Summary := {| Summary_sample_count := v;
  Summary_sample_sum := Summary_sample_sum m; Summary_quantile := Summary_quantile m |}.
Definition Summary_get_sample_count (m : Summary) : Z := Summary_sample_count m.
Definition Summary_set_sample_sum (v : f64) (m : Summary) : Summary := {| Summary_sample_count :=
  Summary_sample_count m; Summary_sample_sum := v; Summary_quantile := Summary_quantile m |}.
Definition Summary_get_sample_sum (m : Summary) : f64 := Summary_sample_sum m.
Definition Summary_set_quantile (v : list Quantile) (m : Summary) : Summary := {| Summary_sample_count :=
  Summary_sample_count m; Summary_sample_sum := Summary_sample_sum m; Summary_quantile := v |}.
Definition Summary_get_quantile (m : Summary) : list Quantile := Summary_quantile m.

(** ** [Untyped] *)
Record Untyped := { Untyped_value : f64; }.
Definition Untyped_default : Untyped := {| Untyped_value := f64_zero |}.
Definition Untyped_new : Untyped := Untyped_default.
Definition Untyped_set_value (v : f64) (m : Untyped) : Untyped := {| Untyped_value := v |}.
Definition Untyped_get_value (m : Untyped) : f64 := Untyped_value m.

(** ** [Bucket] *)
Record Bucket := { Bucket_cumulative_count : Z; Bucket_upper_bound : f64; }.
Definition Bucket_default : Bucket := {| Bucket_cumulative_count := 0; Bucket_upper_bound := f64_zero |}.
Definition Bucket_new : Bucket := Bucket_default.
Definition Bucket_set_cumulative_count (v : Z) (m : Bucket) : Bucket := {| Bucket_cumulative_count := v;
  Bucket_upper_bound := Bucket_upper_bound m |}.
Definition Bucket_get_cumulative_count (m : Bucket) : Z := Bucket_cumulative_count m.
Definition Bucket_set_upper_bound (v : f64) (m : Bucket) : Bucket := {| Bucket_cumulative_count :=
  Bucket_cumulative_count m; Bucket_upper_bound := v |}.
Definition Bucket_get_upper_bound (m : Bucket) : f64 := Bucket_upper_bound m.

(** ** [Histogram] *)
Record Histogram := { Histogram_sample_count : Z; Histogram_sample_sum : f64; Histogram_bucket : list Bucket; }.
Definition Histogram_default : Histogram := {| Histogram_sample_count := 0; Histogram_sample_sum := f64_zero;
  Histogram_bucket := [] |}.
Definition Histogram_new : Histogram := Histogram_default.
Definition Histogram_set_sample_count (v : Z) (m : Histogram) : Histogram := {| Histogram_sample_count := v;
  Histogram_sample_sum := Histogram_sample_sum m; Histogram_bucket := Histogram_bucket m |}.
Definition Histogram_get_sample_count (m : Histogram) : Z := Histogram_sample_count m.
Definition Histogram_set_sample_sum (v : f64) (m : Histogram) : Histogram := {| Histogram_sample_count :=
  Histogram_sample_count m; Histogram_sample_sum := v; Histogram_bucket := Histogram_bucket m |}.
Definition Histogram_get_sample_sum (m : Histogram) : f64 := Histogram_sample_sum m.
Definition Histogram_set_bucket (v : list Bucket) (m : Histogram) : Histogram := {| Histogram_sample_count :=
  Histogram_sample_count m; Histogram_sample_sum := Histogram_sample_sum m; Histogram_bucket := v |}.
Definition Histogram_get_bucket (m : Histogram) : list Bucket := Histogram_bucket m.

(** ** [Metric] *)
Record Metric := { Metric_label : list LabelPair; Metric_gauge : Gauge; Metric_counter : Counter; Metric_summary
  : Summary; Metric_untyped : Untyped; Metric_histogram : Histogram; Metric_timestamp_ms : Z; }.
Definition Metric_default : Metric := {| Metric_label := []; Metric_gauge := Gauge_default; Metric_counter :=
  Counter_default; Metric_summary := Summary_default; Metric_untyped := Untyped_default; Metric_histogram :=
  Histogram_default; Metric_timestamp_ms := 0 |}.
Definition Metric_new : Metric := Metric_default.
Definition Metric_set_label (v : list LabelPair) (m : Metric) : Metric := {| Metric_label := v; Metric_gauge :=
  Metric_gauge m; Metric_counter := Metric_counter m; Metric_summary := Metric_summary m; Metric_untyped :=
  Metric_untyped m; Metric_histogram := Metric_histogram m; Metric_timestamp_ms := Metric_timestamp_ms m |}.
Definition Metric_get_label (m : Metric) : list LabelPair := Metric_label m.
Definition Metric_set_gauge (v : Gauge) (m : Metric) : Metric := {| Metric_label := Metric_label m; Metric_gauge
  := v; Metric_counter := Metric_counter m; Metric_summary := Metric_summary m; Metric_untyped := Metric_untyped
  m; Metric_histogram := Metric_histogram m; Metric_timestamp_ms := Metric_timestamp_ms m |}.
Definition Metric_get_gauge (m : Metric) : Gauge := Metric_gauge m.
Definition Metric_set_counter (v : Counter) (m : Metric) : Metric := {| Metric_label := Metric_label m;
  Metric_gauge := Metric_gauge m; Metric_counter := v; Metric_summary := Metric_summary m; Metric_untyped :=
  Metric_untyped m; Metric_histogram := Metric_histogram m; Metric_timestamp_ms := Metric_timestamp_ms m |}.
Definition Metric_get_counter (m : Metric) : Counter := Metric_counter m.
Definition Metric_set_summary (v : Summary) (m : Metric) : Metric := {| Metric_label := Metric_label m;
  Metric_gauge := Metric_gauge m; Metric_counter := Metric_counter m; Metric_summary := v; Metric_untyped :=
  Metric_untyped m; Metric_histogram := Metric_histogram m; Metric_timestamp_ms := Metric_timestamp_ms m |}.
Definition Metric_get_summary (m : Metric) : Summary := Metric_summary m.
Definition Metric_set_untyped (v : Untyped) (m : Metric) : Metric := {| Metric_label := Metric_label m;
  Metric_gauge := Metric_gauge m; Metric_counter := Metric_counter m; Metric_summary := Metric_summary m;
  Metric_untyped := v; Metric_histogram := Metric_histogram m; Metric_timestamp_ms := Metric_timestamp_ms m |}.
Definition Metric_get_untyped (m : Metric) : Untyped := Metric_untyped m.
Definition Metric_set_histogram (v : Histogram) (m : Metric) : Metric := {| Metric_label := Metric_label m;
  Metric_gauge := Metric_gauge m; Metric_counter := Metric_counter m; Metric_summary := Metric_summary m;
  Metric_untyped := Metric_untyped m; Metric_histogram := v; Metric_timestamp_ms := Metric_timestamp_ms m |}.
Definition Metric_get_histogram (m : Metric) : Histogram := Metric_histogram m.
Definition Metric_set_timestamp_ms (v : Z) (m : Metric) : Metric := {| Metric_label := Metric_label m;
  Metric_gauge := Metric_gauge m; Metric_counter := Metric_counter m; Metric_summary := Metric_summary m;
  Metric_untyped := Metric_untyped m; Metric_histogram := Metric_histogram m; Metric_timestamp_ms := v |}.
Definition Metric_get_timestamp_ms (m : Metric) : Z := Metric_timestamp_ms m.
Definition Metric_mut_label (i : nat) (f : LabelPair → LabelPair) (m : Metric) : option Metric :=
  l ← Metric_label m !! i; Some (Metric_set_label (<[i := f l]> (Metric_label m)) m).
Definition Metric_take_label (m : Metric) : list LabelPair * Metric := (Metric_label m, Metric_set_label [] m).

(** ** [MetricFamily] *)
Record MetricFamily := { MetricFamily_name : string; MetricFamily_help : string; MetricFamily_field_type :
  MetricType; MetricFamily_metric : list Metric; }.
Definition MetricFamily_default : MetricFamily := {| MetricFamily_name := ""; MetricFamily_help := "";
  MetricFamily_field_type := MetricType_default; MetricFamily_metric := [] |}.
Definition MetricFamily_new : MetricFamily := MetricFamily_default.
Definition MetricFamily_set_name (v : string) (m : MetricFamily) : MetricFamily := {| MetricFamily_name := v;
  MetricFamily_help := MetricFamily_help m; MetricFamily_field_type := MetricFamily_field_type m;
  MetricFamily_metric := MetricFamily_metric m |}.
Definition MetricFamily_get_name (m : MetricFamily) : string := MetricFamily_name m.
Definition MetricFamily_set_help (v : string) (m : MetricFamily) : MetricFamily := {| MetricFamily_name :=
  MetricFamily_name m; MetricFamily_help := v; MetricFamily_field_type := MetricFamily_field_type m;
  MetricFamily_metric := MetricFamily_metric m |}.
Definition MetricFamily_get_help (m : MetricFamily) : string := MetricFamily_help m.
Definition MetricFamily_set_field_type (v : MetricType) (m : MetricFamily) : MetricFamily := {|
  MetricFamily_name := MetricFamily_name m; MetricFamily_help := MetricFamily_help m; MetricFamily_field_type :=
  v; MetricFamily_metric := MetricFamily_metric m |}.
Definition MetricFamily_get_field_type (m : MetricFamily) : MetricType := MetricFamily_field_type m.
Definition MetricFamily_set_metric (v : list Metric) (m : MetricFamily) : MetricFamily := {| MetricFamily_name
  := MetricFamily_name m; MetricFamily_help := MetricFamily_help m; MetricFamily_field_type :=
  MetricFamily_field_type m; MetricFamily_metric := v |}.
Definition MetricFamily_get_metric (m : MetricFamily) : list Metric := MetricFamily_metric m.
Definition MetricFamily_clear_name (m : MetricFamily) : MetricFamily := MetricFamily_set_name "" m.
Definition MetricFamily_clear_metric (m : MetricFamily) : MetricFamily := MetricFamily_set_metric [] m.
Definition MetricFamily_mut_metric (f : list Metric → list Metric) (m : MetricFamily) : MetricFamily :=
  MetricFamily_set_metric (f (MetricFamily_metric m)) m.
Definition MetricFamily_take_metric (m : MetricFamily) : list Metric * MetricFamily :=
  (MetricFamily_metric m, MetricFamily_set_metric [] m).
