(* ===== verification/PlainFacts.v ===== *)
(** * The two builds have the same messages

    With and without the [protobuf] feature the crate offers the messages of an exposition
    behind the same getters and setters: those of [proto_model.rs] and of
    [plain_model.rs].  Code written against them cannot tell which it has. *)
From Stdlib Require Import ZArith.
From S2P Require Import Prelude Float64 Metrics ProtoWire Proto ProtoEncode PlainModel.
Local Open Scope Z_scope.

Section agree.
Context `{ProtobufRuntime}.

(** ** What the getters show of a generated message, as a plain one *)
Definition LabelPair_plain (m : Proto.LabelPair) : PlainModel.LabelPair :=
  {| PlainModel.LabelPair_name := Proto.LabelPair_get_name m;
     PlainModel.LabelPair_value := Proto.LabelPair_get_value m |}.
Definition Gauge_plain (m : Proto.Gauge) : PlainModel.Gauge :=
  {| PlainModel.Gauge_value := Proto.Gauge_get_value m |}.
Definition Counter_plain (m : Proto.Counter) : PlainModel.Counter :=
  {| PlainModel.Counter_value := Proto.Counter_get_value m |}.
Definition Quantile_plain (m : Proto.Quantile) : PlainModel.Quantile :=
  {| PlainModel.Quantile_quantile := Proto.Quantile_get_quantile m;
     PlainModel.Quantile_value := Proto.Quantile_get_value m |}.
Definition Summary_plain (m : Proto.Summary) : PlainModel.Summary :=
  {| PlainModel.Summary_sample_count := Proto.Summary_get_sample_count m;
     PlainModel.Summary_sample_sum := Proto.Summary_get_sample_sum m;
     PlainModel.Summary_quantile := Quantile_plain <$> Proto.Summary_get_quantile m |}.
Definition Untyped_plain (m : Proto.Untyped) : PlainModel.Untyped :=
  {| PlainModel.Untyped_value := Proto.Untyped_get_value m |}.
Definition Bucket_plain (m : Proto.Bucket) : PlainModel.Bucket :=
  {| PlainModel.Bucket_cumulative_count := Proto.Bucket_get_cumulative_count m;
     PlainModel.Bucket_upper_bound := Proto.Bucket_get_upper_bound m |}.
Definition Histogram_plain (m : Proto.Histogram) : PlainModel.Histogram :=
  {| PlainModel.Histogram_sample_count := Proto.Histogram_get_sample_count m;
     PlainModel.Histogram_sample_sum := Proto.Histogram_get_sample_sum m;
     PlainModel.Histogram_bucket := Bucket_plain <$> Proto.Histogram_get_bucket m |}.
Definition Metric_plain (m : Proto.Metric) : PlainModel.Metric :=
  {| PlainModel.Metric_label := LabelPair_plain <$> Proto.Metric_get_label m;
     PlainModel.Metric_gauge := Gauge_plain (Proto.Metric_get_gauge m);
     PlainModel.Metric_counter := Counter_plain (Proto.Metric_get_counter m);
     PlainModel.Metric_summary := Summary_plain (Proto.Metric_get_summary m);
     PlainModel.Metric_untyped := Untyped_plain (Proto.Metric_get_untyped m);
     PlainModel.Metric_histogram := Histogram_plain (Proto.Metric_get_histogram m);
     PlainModel.Metric_timestamp_ms := Proto.Metric_get_timestamp_ms m |}.
Definition MetricFamily_plain (m : Proto.MetricFamily) : PlainModel.MetricFamily :=
  {| PlainModel.MetricFamily_name := Proto.MetricFamily_get_name m;
     PlainModel.MetricFamily_help := Proto.MetricFamily_get_help m;
     PlainModel.MetricFamily_field_type := MetricType_view (Proto.MetricFamily_get_field_type m);
     PlainModel.MetricFamily_metric := Metric_plain <$> Proto.MetricFamily_get_metric m |}.

Definition same {A} (x : A) : A := x.

(** ** Agreement of a field: its getter, and its setter on any message *)
Definition agrees {M V PM PV} (view_m : M → PM) (view_v : V → PV)
    (get : M → V) (pget : PM → PV) (set_ : V → M → M) (pset : PV → PM → PM) : Prop :=
  (∀ m, view_v (get m) = pget (view_m m)) ∧ (∀ v m, view_m (set_ v m) = pset (view_v v) (view_m m)).

(** The messages of the two builds agree: a new message shows the same fields, every getter
    shows what the getter of the other build does, and every setter changes the message the
    same way, whatever it held; so does a change through a mutable reference (to the labels,
    of an element: the generated messages hand out the vector, the plain ones a slice). *)
Lemma plain_and_proto_agree :
  LabelPair_plain Proto.LabelPair_new = PlainModel.LabelPair_new ∧
  agrees LabelPair_plain same Proto.LabelPair_get_name PlainModel.LabelPair_get_name Proto.LabelPair_set_name PlainModel.LabelPair_set_name ∧
  agrees LabelPair_plain same Proto.LabelPair_get_value PlainModel.LabelPair_get_value Proto.LabelPair_set_value PlainModel.LabelPair_set_value ∧
  Gauge_plain Proto.Gauge_new = PlainModel.Gauge_new ∧
  agrees Gauge_plain same Proto.Gauge_get_value PlainModel.Gauge_get_value Proto.Gauge_set_value PlainModel.Gauge_set_value ∧
  Counter_plain Proto.Counter_new = PlainModel.Counter_new ∧
  agrees Counter_plain same Proto.Counter_get_value PlainModel.Counter_get_value Proto.Counter_set_value PlainModel.Counter_set_value ∧
  Quantile_plain Proto.Quantile_new = PlainModel.Quantile_new ∧
  agrees Quantile_plain same Proto.Quantile_get_quantile PlainModel.Quantile_get_quantile Proto.Quantile_set_quantile PlainModel.Quantile_set_quantile ∧
  agrees Quantile_plain same Proto.Quantile_get_value PlainModel.Quantile_get_value Proto.Quantile_set_value PlainModel.Quantile_set_value ∧
  Summary_plain Proto.Summary_new = PlainModel.Summary_new ∧
  agrees Summary_plain same Proto.Summary_get_sample_count PlainModel.Summary_get_sample_count Proto.Summary_set_sample_count PlainModel.Summary_set_sample_count ∧
  agrees Summary_plain same Proto.Summary_get_sample_sum PlainModel.Summary_get_sample_sum Proto.Summary_set_sample_sum PlainModel.Summary_set_sample_sum ∧
  agrees Summary_plain (fmap Quantile_plain) Proto.Summary_get_quantile PlainModel.Summary_get_quantile Proto.Summary_set_quantile PlainModel.Summary_set_quantile ∧
  Untyped_plain Proto.Untyped_new = PlainModel.Untyped_new ∧
  agrees Untyped_plain same Proto.Untyped_get_value PlainModel.Untyped_get_value Proto.Untyped_set_value PlainModel.Untyped_set_value ∧
  Bucket_plain Proto.Bucket_new = PlainModel.Bucket_new ∧
  agrees Bucket_plain same Proto.Bucket_get_cumulative_count PlainModel.Bucket_get_cumulative_count Proto.Bucket_set_cumulative_count PlainModel.Bucket_set_cumulative_count ∧
  agrees Bucket_plain same Proto.Bucket_get_upper_bound PlainModel.Bucket_get_upper_bound Proto.Bucket_set_upper_bound PlainModel.Bucket_set_upper_bound ∧
  Histogram_plain Proto.Histogram_new = PlainModel.Histogram_new ∧
  agrees Histogram_plain same Proto.Histogram_get_sample_count PlainModel.Histogram_get_sample_count Proto.Histogram_set_sample_count PlainModel.Histogram_set_sample_count ∧
  agrees Histogram_plain same Proto.Histogram_get_sample_sum PlainModel.Histogram_get_sample_sum Proto.Histogram_set_sample_sum PlainModel.Histogram_set_sample_sum ∧
  agrees Histogram_plain (fmap Bucket_plain) Proto.Histogram_get_bucket PlainModel.Histogram_get_bucket Proto.Histogram_set_bucket PlainModel.Histogram_set_bucket ∧
  Metric_plain Proto.Metric_new = PlainModel.Metric_new ∧
  agrees Metric_plain (fmap LabelPair_plain) Proto.Metric_get_label PlainModel.Metric_get_label Proto.Metric_set_label PlainModel.Metric_set_label ∧
  agrees Metric_plain Gauge_plain Proto.Metric_get_gauge PlainModel.Metric_get_gauge Proto.Metric_set_gauge PlainModel.Metric_set_gauge ∧
  agrees Metric_plain Counter_plain Proto.Metric_get_counter PlainModel.Metric_get_counter Proto.Metric_set_counter PlainModel.Metric_set_counter ∧
  agrees Metric_plain Summary_plain Proto.Metric_get_summary PlainModel.Metric_get_summary Proto.Metric_set_summary PlainModel.Metric_set_summary ∧
  agrees Metric_plain Untyped_plain Proto.Metric_get_untyped PlainModel.Metric_get_untyped Proto.Metric_set_untyped PlainModel.Metric_set_untyped ∧
  agrees Metric_plain Histogram_plain Proto.Metric_get_histogram PlainModel.Metric_get_histogram Proto.Metric_set_histogram PlainModel.Metric_set_histogram ∧
  agrees Metric_plain same Proto.Metric_get_timestamp_ms PlainModel.Metric_get_timestamp_ms Proto.Metric_set_timestamp_ms PlainModel.Metric_set_timestamp_ms ∧
  MetricFamily_plain Proto.MetricFamily_new = PlainModel.MetricFamily_new ∧
  agrees MetricFamily_plain same Proto.MetricFamily_get_name PlainModel.MetricFamily_get_name Proto.MetricFamily_set_name PlainModel.MetricFamily_set_name ∧
  agrees MetricFamily_plain same Proto.MetricFamily_get_help PlainModel.MetricFamily_get_help Proto.MetricFamily_set_help PlainModel.MetricFamily_set_help ∧
  agrees MetricFamily_plain MetricType_view Proto.MetricFamily_get_field_type PlainModel.MetricFamily_get_field_type Proto.MetricFamily_set_field_type PlainModel.MetricFamily_set_field_type ∧
  agrees MetricFamily_plain (fmap Metric_plain) Proto.MetricFamily_get_metric PlainModel.MetricFamily_get_metric Proto.MetricFamily_set_metric PlainModel.MetricFamily_set_metric ∧
  (∀ m, LabelPair_plain (Proto.LabelPair_clear_name m) = PlainModel.LabelPair_clear_name (LabelPair_plain m)) ∧
  (∀ i f g m, (∀ l, LabelPair_plain (f l) = g (LabelPair_plain l)) →
     PlainModel.Metric_mut_label i g (Metric_plain m) =
       (Proto.Metric_get_label m !! i ≫= λ _, Some (Metric_plain (Proto.Metric_mut_label (alter f i) m)))) ∧
  (∀ m, prod_map (fmap LabelPair_plain) Metric_plain (Proto.Metric_take_label m) = PlainModel.Metric_take_label (Metric_plain m)) ∧
  (∀ m, MetricFamily_plain (Proto.MetricFamily_clear_name m) = PlainModel.MetricFamily_clear_name (MetricFamily_plain m)) ∧
  (∀ m, MetricFamily_plain (Proto.MetricFamily_clear_metric m) = PlainModel.MetricFamily_clear_metric (MetricFamily_plain m)) ∧
  (∀ f g m, (∀ l, Metric_plain <$> f l = g (Metric_plain <$> l)) →
     MetricFamily_plain (Proto.MetricFamily_mut_metric f m) = PlainModel.MetricFamily_mut_metric g (MetricFamily_plain m)) ∧
  (∀ m, prod_map (fmap Metric_plain) MetricFamily_plain (Proto.MetricFamily_take_metric m) =
     PlainModel.MetricFamily_take_metric (MetricFamily_plain m)).
Proof.
  repeat split; try done.
  - intros i f g m Hfg. unfold PlainModel.Metric_mut_label. cbn [Metric_plain PlainModel.Metric_label].
    rewrite list_lookup_fmap. destruct (Proto.Metric_get_label m !! i) as [l|] eqn:Hl; [|done]. simpl.
    rewrite <-Hfg, <-list_fmap_insert. unfold PlainModel.Metric_set_label, Metric_plain. do 2 f_equal. cbn. f_equal.
    change (Proto.Metric_get_label m) with (Proto.Metric_label m) in *. apply list_eq. intros j. destruct (decide (i = j)) as [->|Hne].
    + rewrite list_lookup_alter_eq, Hl, list_lookup_insert_eq; [done|by eapply lookup_lt_Some].
    + by rewrite list_lookup_alter_ne, list_lookup_insert_ne.
  - intros f g m Hfg. unfold MetricFamily_plain, PlainModel.MetricFamily_mut_metric, PlainModel.MetricFamily_set_metric.
    cbn. f_equal. apply Hfg.
Qed.

(** ** The messages the other files use: those without [Untyped] *)
Definition Metric_short (m : PlainModel.Metric) : Metrics.Metric :=
  {| label := (λ l, {| lp_name := PlainModel.LabelPair_name l; lp_value := PlainModel.LabelPair_value l |}) <$>
       PlainModel.Metric_label m;
     gauge := PlainModel.Gauge_value (PlainModel.Metric_gauge m);
     counter := PlainModel.Counter_value (PlainModel.Metric_counter m);
     summary := let s := PlainModel.Metric_summary m in
       {| s_sample_count := PlainModel.Summary_sample_count s; s_sample_sum := PlainModel.Summary_sample_sum s;
          s_quantile := (λ q, {| quantile := PlainModel.Quantile_quantile q; q_value := PlainModel.Quantile_value q |}) <$>
            PlainModel.Summary_quantile s |};
     histogram := let h := PlainModel.Metric_histogram m in
       {| sample_count := PlainModel.Histogram_sample_count h; sample_sum := PlainModel.Histogram_sample_sum h;
          bucket := (λ b, {| cumulative_count := PlainModel.Bucket_cumulative_count b;
                             upper_bound := PlainModel.Bucket_upper_bound b |}) <$> PlainModel.Histogram_bucket h |};
     timestamp_ms := PlainModel.Metric_timestamp_ms m |}.

Lemma Metric_short_plain m : Metric_short (Metric_plain m) = Metric_view m.
Proof.
  unfold Metric_short, Metric_view, Summary_view, Histogram_view. cbn.
  f_equal; [|f_equal|f_equal]; rewrite <-list_fmap_compose; by apply list_fmap_ext.
Qed.
End agree.
