(* ===== verification/Push.v ===== *)
(** * Pushing to a gateway: [prometheus/src/push.rs]

    [push] builds an address from the job and the grouping, checks the labels of what it
    is given, encodes it with [ProtoEncode] and makes one request; [push_from_collector]
    puts a [Registry] of its own in front.  The HTTP client and the parser of addresses
    are parameters.  A [HashMap] is the list of its entries in the order it iterates. *)
From Stdlib Require Import ZArith Lia Ascii.
From S2P Require Import Prelude Float64 BTree Metrics Registry ProtoWire ProtoLaws Proto ProtoFacts ProtoFormat ProtoEncode.
Local Open Scope Z_scope.

Record BasicAuthentication := { username : string; password : string }.

Definition LABEL_NAME_JOB : string := "job".
Definition SLASH : ascii := "/".

(** what goes over the network *)
Record PushRequest := {
  request_method : string;
  request_url : string;
  content_type : string;
  request_body : bytes;
  basic_auth : option BasicAuthentication;
}.

(** ** The address *)
Definition with_scheme (url : string) : string :=
  match String.index 0 "://" url with Some _ => url | None => String.append "http://" url end.

Definition without_slash (url : string) : string := if ends_with_char SLASH url then pop url else url.

Fixpoint grouping_components (grouping : list (string * string)) : MetricsResult (list string) :=
  match grouping with
  | [] => Ok []
  | (ln, lv) :: grouping =>
      if contains_char SLASH lv then
        Err (Msg (String.append "value of grouping label " (String.append ln (String.append " contains '/': " lv)))) else
      l ← grouping_components grouping;
      Ok (ln :: lv :: l)
  end.

Definition push_url (url job : string) (grouping : list (string * string)) : MetricsResult string :=
  if contains_char SLASH job then Err (Msg (String.append "job contains '/': " job)) else
  l ← grouping_components grouping;
  Ok (String.append (without_slash (with_scheme url)) (String.append "/metrics/job/" (join SLASH (job :: l)))).

Section push.
Context `{ProtobufRuntime}.
Context (debug_family : MetricFamily → string).
Context (write_length_delimited_to_writer : MetricFamily → bytes → result ProtobufError unit * bytes).
(** [Url::from_str] accepts; the answer of the server, its status, or an error; a status printed *)
Context (valid_url : string → bool) (send : PushRequest → result string Z) (status_to_string : Z → string).

(** ** The labels *)
Definition has_key (grouping : list (string * string)) (n : string) : bool := bool_decide (n ∈ grouping.*1).

Fixpoint check_labels (grouping : list (string * string)) (name : string) (labels : list LabelPair) : MetricsResult unit :=
  match labels with
  | [] => Ok tt
  | lp :: labels =>
      if decide (LabelPair_get_name lp = LABEL_NAME_JOB) then
        Err (Msg (String.append "pushed metric " (String.append name " already contains a job label"))) else
      if has_key grouping (LabelPair_get_name lp) then
        Err (Msg (String.append "pushed metric " (String.append name
          (String.append " already contains grouping label " (LabelPair_get_name lp))))) else
      check_labels grouping name labels
  end.

Fixpoint check_metrics (grouping : list (string * string)) (name : string) (metrics : list Metric) : MetricsResult unit :=
  match metrics with
  | [] => Ok tt
  | m :: metrics => check_labels grouping name (Metric_get_label m) ;; check_metrics grouping name metrics
  end.

(** The loop over the families; an error of the encoder is ignored. *)
Fixpoint push_body (grouping : list (string * string)) (mfs : list MetricFamily) (buf : bytes) : MetricsResult bytes :=
  match mfs with
  | [] => Ok buf
  | mf :: mfs =>
      check_metrics grouping (MetricFamily_get_name mf) (MetricFamily_get_metric mf) ;;
      push_body grouping mfs (encode debug_family write_length_delimited_to_writer [mf] buf).2
  end.

(** ** The request

    What was sent, and the outcome; [None] is the panic of [Url::from_str(..).unwrap()]. *)
Definition push_outcome (url : string) (r : result string Z) : MetricsResult unit :=
  match r with
  | Err e => Err (Msg e)
  | Ok status =>
      if decide (status = 202 ∨ status = 200) then Ok tt
      else Err (Msg (String.append "unexpected status code " (String.append (status_to_string status)
             (String.append " while pushing to " url))))
  end.

Definition push (job : string) (grouping : list (string * string)) (url : string) (mfs : list MetricFamily)
    (method : string) (auth : option BasicAuthentication) : list PushRequest * option (MetricsResult unit) :=
  match push_url url job grouping with
  | Err e => ([], Some (Err e))
  | Ok url =>
      match push_body grouping mfs [] with
      | Err e => ([], Some (Err e))
      | Ok buf =>
          if valid_url url then
            let req := {| request_method := method; request_url := url; content_type := PROTOBUF_FORMAT;
                          request_body := buf; basic_auth := auth |} in
            ([req], Some (push_outcome url (send req)))
          else ([], None)
      end
  end.

Definition push_metrics job grouping url mfs auth := push job grouping url mfs "PUT" auth.
Definition push_add_metrics job grouping url mfs auth := push job grouping url mfs "POST" auth.

(** ** Collectors *)
Context `{Collector C}.
Context (debug_desc : Desc → string) (debug_string : string → string).
(** gathered families in the representation of the default build *)
Context (represent : list Metrics.MetricFamily → list MetricFamily).

Fixpoint register_all (collectors : list C) (r : RegistryCore C) : MetricsResult unit * RegistryCore C :=
  match collectors with
  | [] => (Ok tt, r)
  | bc :: collectors =>
      match register debug_desc debug_string bc r with
      | (Ok _, r) => register_all collectors r
      | (Err e, r) => (Err e, r)
      end
  end.

Definition push_from_collector (job : string) (grouping : list (string * string)) (url : string)
    (collectors : list C) (method : string) (auth : option BasicAuthentication)
    : list PushRequest * option (MetricsResult unit) :=
  match register_all collectors RegistryCore_default with
  | (Err e, _) => ([], Some (Err e))
  | (Ok _, r) => push job grouping url (represent (gather r)) method auth
  end.

Definition push_collector job grouping url collectors auth := push_from_collector job grouping url collectors "PUT" auth.
Definition push_add_collector job grouping url collectors auth :=
  push_from_collector job grouping url collectors "POST" auth.
End push.
