(* ===== verification/PushFacts.v ===== *)
(** * What a push does *)
From Stdlib Require Import ZArith Lia Ascii.
From S2P Require Import Prelude Float64 BTree Metrics Registry ProtoWire ProtoLaws Proto ProtoFacts ProtoFormat ProtoEncode Push.
Local Open Scope Z_scope.

(** ** The address *)
Lemma grouping_components_Ok grouping :
  Forall (λ kv, contains_char SLASH kv.2 = false) grouping →
  grouping_components grouping = Ok (grouping ≫= λ kv, [kv.1; kv.2]).
Proof. induction 1 as [|[ln lv] grouping Hv Hall IH]; simpl in *; [done|]. by rewrite Hv, IH. Qed.

Lemma grouping_components_Err grouping :
  ¬ Forall (λ kv, contains_char SLASH kv.2 = false) grouping → ∃ e, grouping_components grouping = Err (Msg e).
Proof.
  induction grouping as [|[ln lv] grouping IH]; simpl; [by intros []; constructor|]. intros Hn.
  destruct (contains_char SLASH lv) eqn:E; [by eexists|]. destruct IH as [e ->]; [|by exists e].
  intros Hall. apply Hn. by constructor.
Qed.

(** the path behind the address of the gateway *)
Definition push_path (job : string) (grouping : list (string * string)) : list string :=
  "metrics" :: "job" :: job :: (grouping ≫= λ kv, [kv.1; kv.2]).

Definition address (url job : string) (grouping : list (string * string)) : string :=
  String.append (without_slash (with_scheme url)) (String SLASH (join SLASH (push_path job grouping))).

Definition slash_free (job : string) (grouping : list (string * string)) : Prop :=
  contains_char SLASH job = false ∧ Forall (λ kv, contains_char SLASH kv.2 = false) grouping.

Lemma push_url_spec url job grouping :
  (slash_free job grouping → push_url url job grouping = Ok (address url job grouping)) ∧
  (¬ slash_free job grouping → ∃ e, push_url url job grouping = Err (Msg e)).
Proof.
  unfold slash_free, push_url, address, push_path. split.
  - intros [Hj Hg]. rewrite Hj, grouping_components_Ok by done. simpl. done.
  - intros Hn. destruct (contains_char SLASH job); [by eexists|].
    destruct (grouping_components_Err grouping) as [e ->]; [naive_solver|by exists e].
Qed.

(** When the names of the grouping have no slash either, the path of the address is taken
    apart into the job and the grouping it was made from. *)
Lemma push_path_roundtrip job grouping :
  slash_free job grouping → Forall (λ kv, contains_char SLASH kv.1 = false) grouping →
  split_on SLASH (join SLASH (push_path job grouping)) = push_path job grouping.
Proof.
  intros [Hj Hg] Hn. apply split_on_join; [done|]. unfold push_path. repeat (constructor; [done|]).
  induction grouping as [|kv grouping IH]; [constructor|].
  apply Forall_cons in Hg as [Hg1 Hg2], Hn as [Hn1 Hn2]. simpl. constructor; [done|]. constructor; [done|]. by apply IH.
Qed.

(** Names are not checked: one grouping label with slashes in its name gives the address
    of another grouping, whose metrics the push then replaces. *)
Lemma push_name_not_checked :
  push_url "gw" "j" [("instance/a/zone", "b")] = push_url "gw" "j" [("instance", "a"); ("zone", "b")] ∧
  is_ok (push_url "gw" "j" [("instance/a/zone", "b")]) = true.
Proof. done. Qed.

Section push.
Context `{ProtobufLaws}.
Context (debug_family : MetricFamily → string).
Context (write_length_delimited_to_writer : MetricFamily → bytes → result ProtobufError unit * bytes).
Hypothesis write_length_delimited_spec : ∀ mf writer, is_initialized mf = true →
  write_length_delimited_to_writer mf writer = (Ok tt, writer ++ delimited mf).
Context (valid_url : string → bool) (send : PushRequest → result string Z) (status_to_string : Z → string).
#[local] Abbreviation push := (push debug_family write_length_delimited_to_writer valid_url send status_to_string).
#[local] Abbreviation push_body := (push_body debug_family write_length_delimited_to_writer).

(** ** The labels *)
Definition clean_label (grouping : list (string * string)) (n : string) : Prop := n ≠ LABEL_NAME_JOB ∧ n ∉ grouping.*1.
Definition clean (grouping : list (string * string)) (mf : MetricFamily) : Prop :=
  Forall (λ m, Forall (λ lp, clean_label grouping (LabelPair_get_name lp)) (Metric_get_label m)) (MetricFamily_get_metric mf).

Lemma check_labels_spec grouping name labels :
  (Forall (λ lp, clean_label grouping (LabelPair_get_name lp)) labels ∧ check_labels grouping name labels = Ok tt) ∨
  (¬ Forall (λ lp, clean_label grouping (LabelPair_get_name lp)) labels ∧
   ∃ e, check_labels grouping name labels = Err (Msg e)).
Proof.
  induction labels as [|lp labels IH]; simpl; [left; split; [constructor|done]|]. unfold has_key.
  rewrite Forall_cons. unfold clean_label at 1 3. case_decide; [right; naive_solver|].
  case_bool_decide; [right; naive_solver|]. naive_solver.
Qed.

Lemma check_metrics_spec grouping name metrics :
  let ok := Forall (λ m, Forall (λ lp, clean_label grouping (LabelPair_get_name lp)) (Metric_get_label m)) metrics in
  (ok ∧ check_metrics grouping name metrics = Ok tt) ∨ (¬ ok ∧ ∃ e, check_metrics grouping name metrics = Err (Msg e)).
Proof.
  induction metrics as [|m metrics IH]; simpl in *; [left; split; [constructor|done]|]. rewrite Forall_cons.
  destruct (check_labels_spec grouping name (Metric_get_label m)) as [[Hok ->]|[Hn [e ->]]]; simpl; naive_solver.
Qed.

(** ** The body *)
Lemma encode_one mf buf :
  (encode debug_family write_length_delimited_to_writer [mf] buf).2 = buf ++ (filter has_content [mf] ≫= delimited).
Proof.
  rewrite (encode_spec debug_family write_length_delimited_to_writer) by done. simpl. rewrite filter_cons, filter_nil.
  destruct (decide (has_content mf)) as [Hc|Hc]; [rewrite decide_False by tauto|rewrite decide_True by done]; done.
Qed.

Lemma push_body_spec grouping mfs buf :
  (Forall (clean grouping) mfs ∧ push_body grouping mfs buf = Ok (buf ++ (filter has_content mfs ≫= delimited))) ∨
  (¬ Forall (clean grouping) mfs ∧ ∃ e, push_body grouping mfs buf = Err (Msg e)).
Proof.
  revert buf. induction mfs as [|mf mfs IH]; intros buf; cbn [Push.push_body].
  { left. by rewrite app_nil_r. }
  rewrite Forall_cons, encode_one.
  destruct (check_metrics_spec grouping (MetricFamily_get_name mf) (MetricFamily_get_metric mf)) as [[Hok ->]|[Hn [e ->]]];
    cbn [mbind result_bind]; [|right; naive_solver].
  destruct (IH (buf ++ (filter has_content [mf] ≫= delimited))) as [[Hall ->]|[Hall [e ->]]];
    [left; split; [done|]|right; naive_solver].
  by rewrite <-app_assoc, <-bind_app, <-filter_app.
Qed.

Lemma filter_all {A} (P : A → Prop) `{!∀ x, Decision (P x)} (l : list A) : Forall P l → filter P l = l.
Proof. induction 1 as [|x l Hx Hl IH]; [done|]. rewrite filter_cons, decide_True by done. by rewrite IH. Qed.

Lemma encodable_filter mfs : Forall encodable mfs → Forall encodable (filter has_content mfs).
Proof. rewrite !Forall_forall. intros He mf [_ Hmf]%list_elem_of_filter. by apply He. Qed.

(** ** The request *)
Definition pushable (job : string) (grouping : list (string * string)) (mfs : list MetricFamily) : Prop :=
  slash_free job grouping ∧ Forall (clean grouping) mfs.

Lemma push_rejected job grouping url mfs method auth :
  ¬ pushable job grouping mfs → ∃ e, push job grouping url mfs method auth = ([], Some (Err (Msg e))).
Proof.
  unfold Push.push. destruct (push_url_spec url job grouping) as [Hok Herr]. intros Hn.
  destruct (decide (contains_char SLASH job = false ∧ Forall (λ kv, contains_char SLASH kv.2 = false) grouping)) as [Hs|Hs].
  - rewrite (Hok Hs). destruct (push_body_spec grouping mfs []) as [[Hc _]|[_ [e ->]]]; [|by exists e].
    by destruct Hn.
  - destruct (Herr Hs) as [e ->]. by exists e.
Qed.

Lemma push_sent job grouping url mfs method auth :
  pushable job grouping mfs → valid_url (address url job grouping) = true →
  let req := {| request_method := method; request_url := address url job grouping; content_type := PROTOBUF_FORMAT;
                request_body := filter has_content mfs ≫= delimited; basic_auth := auth |} in
  push job grouping url mfs method auth = ([req], Some (push_outcome status_to_string (address url job grouping) (send req))).
Proof.
  intros [Hs Hc] Hu. unfold Push.push. rewrite (proj1 (push_url_spec url job grouping) Hs).
  destruct (push_body_spec grouping mfs []) as [[_ ->]|[Hn _]]; [|done]. by rewrite Hu.
Qed.

Lemma push_panics job grouping url mfs method auth :
  pushable job grouping mfs → valid_url (address url job grouping) = false →
  push job grouping url mfs method auth = ([], None).
Proof.
  intros [Hs Hc] Hu. unfold Push.push. rewrite (proj1 (push_url_spec url job grouping) Hs).
  destruct (push_body_spec grouping mfs []) as [[_ ->]|[Hn _]]; [|done]. by rewrite Hu.
Qed.

(** C32. A push makes one request, or none and returns an error, or none and panics.  If
    neither the job nor a value of the grouping has a slash and no pushed metric has a label
    that is the job's or the grouping's, the address made of them decides.  When it parses,
    one request goes there, its body is read back as the pushed families that have a name
    and a metric, in their order, and the result is an error unless the gateway answers 200
    or 202; when it does not parse, nothing is sent and the caller panics.  Otherwise nothing
    is sent and the caller gets an error. *)
Theorem push_spec job grouping url mfs method auth :
  Forall encodable mfs →
  (pushable job grouping mfs → valid_url (address url job grouping) = true →
    ∃ req, push job grouping url mfs method auth =
        ([req], Some (push_outcome status_to_string (address url job grouping) (send req))) ∧
      request_method req = method ∧ request_url req = address url job grouping ∧ basic_auth req = auth ∧
      decode (length (request_body req)) (request_body req) = Ok (erase <$> filter has_content mfs) ∧
      (is_ok (push_outcome status_to_string (address url job grouping) (send req)) = true ↔
        send req = Ok 200 ∨ send req = Ok 202)) ∧
  (pushable job grouping mfs → valid_url (address url job grouping) = false →
    push job grouping url mfs method auth = ([], None)) ∧
  (¬ pushable job grouping mfs → ∃ e, push job grouping url mfs method auth = ([], Some (Err (Msg e)))).
Proof.
  intros He. split_and!; [|apply push_panics|apply push_rejected]. intros Hp Hu.
  rewrite (push_sent _ _ _ _ _ _ Hp Hu). eexists. split; [done|]. do 3 (split; [done|]). simpl. split.
  - apply decode_delimited; [apply delimited_length|]. by apply encodable_filter.
  - unfold push_outcome. destruct (send _) as [status|e]; [|naive_solver].
    case_decide as Hd; simpl; [|naive_solver lia]. split; [|done]. intros _. destruct Hd as [->| ->]; auto.
Qed.

(** ** Collectors *)
Section collectors.
Context `{Collector C}.
Context (debug_desc : Desc → string) (debug_string : string → string).
Context (represent : list Metrics.MetricFamily → list MetricFamily).
Hypothesis represent_view : ∀ l, MetricFamily_view <$> represent l = l.

(** What is pushed of collectors that can be registered together is what a registry
    gathers from them: a reader of the request sees, through the getters, the gathered
    families, each with its metrics, labels and values. *)
Theorem push_from_collector_spec job grouping url (collectors : list C) method auth r :
  register_all debug_desc debug_string collectors RegistryCore_default = (Ok tt, r) →
  Forall encodable (represent (gather r)) → Forall has_content (represent (gather r)) →
  pushable job grouping (represent (gather r)) → valid_url (address url job grouping) = true →
  ∃ req decoded,
    push_from_collector debug_family write_length_delimited_to_writer valid_url send status_to_string debug_desc
      debug_string represent job grouping url collectors method auth =
      ([req], Some (push_outcome status_to_string (address url job grouping) (send req))) ∧
    decode (length (request_body req)) (request_body req) = Ok decoded ∧
    MetricFamily_view <$> decoded = gather r.
Proof.
  intros Hr He Hc Hp Hu. unfold push_from_collector. rewrite Hr.
  rewrite (push_sent _ _ _ _ _ _ Hp Hu). eexists _, (erase <$> filter has_content (represent (gather r))).
  split; [done|]. simpl request_body. split.
  - apply decode_delimited; [apply delimited_length|]. by apply encodable_filter.
  - rewrite filter_all by done. rewrite <-list_fmap_compose.
    rewrite <-(represent_view (gather r)) at 2. apply list_fmap_ext. intros i mf _. apply MetricFamily_view_erase.
Qed.
End collectors.
End push.

(** ** A push of a registry with one counter *)
Module PushRun.
Import EncodeRun.
Definition desc_of : Desc :=
  {| d_fq_name := "http_requests"; d_help := "Requests."; const_label_pairs := []; d_variable_labels := ["method"];
     id := 1; dim_hash := 2 |}.
#[export] Instance counters : Collector unit := {|
  desc _ := [desc_of];
  collect _ := [MetricFamily_view requests];
|}.
Definition grouping : list (string * string) := [("instance", "a")].
Definition send (req : PushRequest) : result string Z := if decide (request_method req = "PUT") then Ok 202 else Ok 400.

Lemma grouping_slash_free : slash_free "batch" grouping.
Proof. split; [done|]. by repeat constructor. Qed.

Definition r : RegistryCore unit := (register (λ _, "") (λ _, "") tt RegistryCore_default).2.

Lemma r_gathers : gather r = [MetricFamily_view requests].
Proof. vm_compute. reflexivity. Qed.

Lemma represented_encodable : Forall encodable (Represent.family <$> gather r).
Proof.
  rewrite r_gathers. constructor; [|constructor]. split; [|vm_compute; done].
  simpl. unfold MetricFamily_well_formed. simpl.
  repeat split; try done; repeat (constructor; simpl; repeat split; try done).
Qed.

Lemma represented_content : Forall has_content (Represent.family <$> gather r).
Proof. rewrite r_gathers. by repeat constructor. Qed.

Lemma represented_pushable : pushable "batch" grouping (Represent.family <$> gather r).
Proof.
  rewrite r_gathers. split; [apply grouping_slash_free|]. constructor; [|constructor].
  unfold clean. simpl. constructor; [|constructor]. simpl. constructor; [|constructor].
  split; [done|]. simpl. by rewrite list_elem_of_singleton.
Qed.

Lemma push_spec_holds :
  push (λ _, "") write_length_delimited_to_writer (λ _, true) send (λ _, "") "batch" grouping "gw:9091/"
    [requests; MetricFamily_new] "PUT" None =
  ([{| request_method := "PUT"; request_url := "http://gw:9091/metrics/job/batch/instance/a";
       content_type := PROTOBUF_FORMAT; request_body := delimited requests; basic_auth := None |}], Some (Ok tt)) ∧
  ∃ e, push (λ _, "") write_length_delimited_to_writer (λ _, true) send (λ _, "") "a/b" grouping "gw:9091/"
    [requests] "PUT" None = ([], Some (Err (Msg e))).
Proof.
  split; [vm_compute; reflexivity|].
  apply (push_spec (λ _, "") write_length_delimited_to_writer (λ _ _ _, eq_refl) (λ _, true) send (λ _, "")).
  - pose proof run_encodable as He. inversion He. by constructor.
  - by intros [[Hj _] _].
Defined.

Lemma push_from_collector_spec_holds :
  ∃ req decoded,
    push_from_collector (λ _, "") write_length_delimited_to_writer (λ _, true) send (λ _, "") (λ _, "") (λ _, "")
      (fmap Represent.family) "batch" grouping "gw:9091/" [tt] "PUT" None =
      ([req], Some (push_outcome (λ _, "") (address "gw:9091/" "batch" grouping) (send req))) ∧
    decode (length (request_body req)) (request_body req) = Ok decoded ∧
    MetricFamily_view <$> decoded = [MetricFamily_view requests].
Proof.
  rewrite <-r_gathers.
  apply (push_from_collector_spec (λ _, "") write_length_delimited_to_writer (λ _ _ _, eq_refl) (λ _, true) send (λ _, "")
    (λ _, "") (λ _, "") (fmap Represent.family) Represent.families_view "batch" grouping "gw:9091/" [tt] "PUT" None r).
  - reflexivity.
  - exact represented_encodable.
  - exact represented_content.
  - exact represented_pushable.
  - reflexivity.
Defined.
End PushRun.
