(* ===== verification/Histogram.v ===== *)
(** * Histograms: [prometheus/src/histogram.rs]

    Observing and collecting are lock-free with respect to each other: the steps
    below are the single atomic operations of the code, of any number of observers
    and of the one collector that holds the lock, interleaved in every way.  Adding
    to a float is one step, which [Atomics] justifies. *)
From Stdlib Require Import ZArith Lia.
From stdpp Require Import pretty.
From S2P Require Import Prelude BTree Float64 Metrics Atomics TextEncoder.
Local Open Scope Z_scope.

Definition f64_ratio (a b : Z) : f64 := f64_div (f64_of_Z a) (f64_of_Z b).

(** 0.005, 0.01, 0.025, 0.05, 0.1, 0.25, 0.5, 1.0, 2.5, 5.0, 10.0 *)
Definition DEFAULT_BUCKETS : list f64 :=
  [f64_ratio 5 1000; f64_ratio 1 100; f64_ratio 25 1000; f64_ratio 5 100; f64_ratio 1 10; f64_ratio 1 4;
   f64_ratio 1 2; f64_of_Z 1; f64_ratio 5 2; f64_of_Z 5; f64_of_Z 10].

Definition check_bucket_label (label : string) : MetricsResult unit :=
  if decide (label = BUCKET_LABEL) then Err (Msg "`le` is not allowed as label name in histograms") else Ok tt.

Section buckets.
Context (f64_to_string : f64 → string).

(** the loop over neighbours *)
Fixpoint check_increasing (l : list f64) : MetricsResult unit :=
  match l with
  | a :: (b :: _) as l =>
      if f64_ge a b then
        Err (Msg (String.append "histogram buckets must be in increasing order: "
                   (String.append (f64_to_string a) (String.append " >= " (f64_to_string b)))))
      else check_increasing l
  | _ => Ok tt
  end.

Definition check_and_adjust_buckets (buckets : list f64) : MetricsResult (list f64) :=
  let buckets := if decide (length buckets = 0%nat) then DEFAULT_BUCKETS else buckets in
  _ ← check_increasing buckets;
  Ok (match last buckets with
      | Some tail => if f64_is_sign_positive tail && f64_is_infinite tail
                     then take (length buckets - 1) buckets else buckets
      | None => buckets
      end).

Definition linear_buckets (start width : f64) (count : nat) : MetricsResult (list f64) :=
  if decide (count < 1)%nat then
    Err (Msg (String.append "LinearBuckets needs a positive count, count: " (pretty count))) else
  if f64_le width f64_zero then
    Err (Msg (String.append "LinearBuckets needs a width greater then 0, width: " (f64_to_string width))) else
  Ok ((λ step, f64_add start (f64_mul width (f64_of_Z (Z.of_nat step)))) <$> seq 0 count).

Fixpoint geometric (next factor : f64) (count : nat) : list f64 :=
  match count with
  | O => []
  | S count => next :: geometric (f64_mul next factor) factor count
  end.

Definition exponential_buckets (start factor : f64) (count : nat) : MetricsResult (list f64) :=
  if decide (count < 1)%nat then
    Err (Msg (String.append "exponential_buckets needs a positive count, count: " (pretty count))) else
  if f64_le start f64_zero then
    Err (Msg (String.append "exponential_buckets needs a positive start value, start: " (f64_to_string start))) else
  if f64_le factor f64_one then
    Err (Msg (String.append "exponential_buckets needs a factor greater than 1, factor: " (f64_to_string factor))) else
  Ok (geometric start factor count).
End buckets.

(** ** Shards *)
Inductive ShardIndex := First | Second.

#[export] Instance ShardIndex_eq_dec : EqDecision ShardIndex.
Proof. solve_decision. Defined.

Definition inverse (i : ShardIndex) : ShardIndex := match i with First => Second | Second => First end.

Record Shard := { sum : f64; count : Z; buckets : list Z }.

Definition Shard_new (num_buckets : nat) : Shard :=
  {| sum := f64_zero; count := 0; buckets := replicate num_buckets 0 |}.

(** [ShardAndCount]: the top bit and the other 63 of a [u64] *)
Definition split_shard_index_and_count (n : Z) : ShardIndex * Z :=
  (if decide (Z.shiftr n 63 = 0) then First else Second, Z.land n (Z.shiftl 1 63 - 1)).
Definition shard_flip (n : Z) : Z := wrapping_add 64 n (Z.shiftl 1 63).
Definition shard_inc_by (delta n : Z) : Z := wrapping_add 64 n delta.

(** ** Observations *)

(** the first bucket whose bound is not below the value *)
Fixpoint find_bucket (v : f64) (upper_bounds : list f64) : option nat :=
  match upper_bounds with
  | [] => None
  | b :: upper_bounds => if f64_le v b then Some O else S <$> find_bucket v upper_bounds
  end.

(** What an observer that has counted itself in [shard_and_count] still has to do:
    its bucket increments, its sum, and its count. *)
Record observer := {
  o_shard : ShardIndex;
  o_buckets : list (nat * Z);
  o_sum : option f64;
  o_count : Z;
}.

Definition observer_of (upper_bounds : list f64) (shard : ShardIndex) (v : f64) : observer :=
  {| o_shard := shard;
     o_buckets := match find_bucket v upper_bounds with Some i => [(i, 1)] | None => [] end;
     o_sum := Some v; o_count := 1 |}.

(** [LocalHistogramCore] *)
Record LocalHistogramCore := { l_counts : list Z; l_count : Z; l_sum : f64 }.

Definition local_clear (num_buckets : nat) : LocalHistogramCore :=
  {| l_counts := replicate num_buckets 0; l_count := 0; l_sum := f64_zero |}.

(** plain [u64] additions, which wrap in a release build *)
Definition local_observe (upper_bounds : list f64) (l : LocalHistogramCore) (v : f64) : LocalHistogramCore :=
  {| l_counts := match find_bucket v upper_bounds with
                 | Some i => alter (λ c, wrapping_add 64 c 1) i (l_counts l)
                 | None => l_counts l
                 end;
     l_count := wrapping_add 64 (l_count l) 1;
     l_sum := f64_add (l_sum l) v |}.

(** [flush]: nothing to do, or the work that is left after counting itself *)
Definition local_flush (shard : ShardIndex) (l : LocalHistogramCore) : option observer :=
  if decide (l_count l = 0) then None else
  Some {| o_shard := shard;
          o_buckets := List.filter (λ iv, 0 <? iv.2) (zip (seq 0 (length (l_counts l))) (l_counts l));
          o_sum := Some (l_sum l); o_count := l_count l |}.

(** ** The histogram and its steps *)

(** The collector: [overall] is what [flip] returned. *)
Inductive collector :=
  | Waiting (cold : ShardIndex) (overall : Z)                      (* compare_exchange loop *)
  | Summing (cold : ShardIndex) (overall : Z)                      (* before the swap of the sum *)
  | Draining (cold : ShardIndex) (overall : Z) (s : f64) (i : nat) (cum : Z) (acc : list Bucket)
  | Adding (cold : ShardIndex) (overall : Z) (s : f64) (i : nat) (c cum : Z) (acc : list Bucket)
  | Closing (cold : ShardIndex) (overall : Z) (s : f64) (acc : list Bucket)
  | Finishing (cold : ShardIndex) (overall : Z) (s : f64) (acc : list Bucket).

(** [started] and [flipped] are ghosts: the values observed so far, and those observed
    when the collector flipped the shards; a snapshot comes with the latter. *)
Record histogram := {
  shard_and_count : Z;
  first : Shard;
  second : Shard;
  upper_bounds : list f64;
  observers : list observer;
  collecting : option collector;
  started : list f64;
  flipped : list f64;
  snapshots : list (HistogramProto * list f64);
}.

Definition shard (i : ShardIndex) (h : histogram) : Shard := match i with First => first h | Second => second h end.

Definition set_shard (i : ShardIndex) (s : Shard) (h : histogram) : histogram :=
  {| shard_and_count := shard_and_count h;
     first := match i with First => s | Second => first h end;
     second := match i with First => second h | Second => s end;
     upper_bounds := upper_bounds h; observers := observers h; collecting := collecting h;
     started := started h; flipped := flipped h; snapshots := snapshots h |}.

Definition set_observers (o : list observer) (h : histogram) : histogram :=
  {| shard_and_count := shard_and_count h; first := first h; second := second h; upper_bounds := upper_bounds h;
     observers := o; collecting := collecting h; started := started h; flipped := flipped h; snapshots := snapshots h |}.

Definition set_collecting (c : option collector) (h : histogram) : histogram :=
  {| shard_and_count := shard_and_count h; first := first h; second := second h; upper_bounds := upper_bounds h;
     observers := observers h; collecting := c; started := started h; flipped := flipped h; snapshots := snapshots h |}.

Definition add_bucket (i : nat) (d : Z) (s : Shard) : Shard :=
  {| sum := sum s; count := count s; buckets := alter (λ c, wrapping_add 64 c d) i (buckets s) |}.
Definition set_bucket (i : nat) (c : Z) (s : Shard) : Shard :=
  {| sum := sum s; count := count s; buckets := <[i := c]> (buckets s) |}.
Definition add_sum (v : f64) (s : Shard) : Shard :=
  {| sum := f64_add (sum s) v; count := count s; buckets := buckets s |}.
Definition set_sum (v : f64) (s : Shard) : Shard := {| sum := v; count := count s; buckets := buckets s |}.
Definition add_count (d : Z) (s : Shard) : Shard :=
  {| sum := sum s; count := wrapping_add 64 (count s) d; buckets := buckets s |}.
Definition set_count (d : Z) (s : Shard) : Shard := {| sum := sum s; count := d; buckets := buckets s |}.

(** [shard_and_count.inc_by(n)] by an observer of the values [vs], which then goes on
    with the work [o] on the shard it learns *)
Definition start_observing (vs : list f64) (n : Z) (o : ShardIndex → option observer) (h : histogram) : histogram :=
  {| shard_and_count := shard_inc_by n (shard_and_count h); first := first h; second := second h;
     upper_bounds := upper_bounds h;
     observers := match o (split_shard_index_and_count (shard_and_count h)).1 with
                  | Some o => o :: observers h
                  | None => observers h
                  end;
     collecting := collecting h; started := started h ++ vs; flipped := flipped h; snapshots := snapshots h |}.

Definition do_flip (h : histogram) : histogram :=
  let '(cold, overall) := split_shard_index_and_count (shard_and_count h) in
  {| shard_and_count := shard_flip (shard_and_count h); first := first h; second := second h;
     upper_bounds := upper_bounds h; observers := observers h; collecting := Some (Waiting cold overall);
     started := started h; flipped := started h; snapshots := snapshots h |}.

Definition finish (cold : ShardIndex) (overall : Z) (s : f64) (acc : list Bucket) (h : histogram) : histogram :=
  let h := set_shard (inverse cold) (add_sum s (shard (inverse cold) h)) h in
  {| shard_and_count := shard_and_count h; first := first h; second := second h; upper_bounds := upper_bounds h;
     observers := observers h; collecting := None; started := started h; flipped := flipped h;
     snapshots := ({| sample_count := overall; sample_sum := s; bucket := acc |}, flipped h) :: snapshots h |}.

Inductive hist_step (h : histogram) : histogram → Prop :=
  (* observers *)
  | step_observe v :
      hist_step h (start_observing [v] 1 (λ i, Some (observer_of (upper_bounds h) i v)) h)
  | step_flush vs l :
      l = foldl (local_observe (upper_bounds h)) (local_clear (length (upper_bounds h))) vs → l_count l ≠ 0 →
      hist_step h (start_observing vs (l_count l) (λ i, local_flush i l) h)
  | step_bucket l1 o l2 i d rest :
      observers h = l1 ++ o :: l2 → o_buckets o = (i, d) :: rest →
      hist_step h (set_shard (o_shard o) (add_bucket i d (shard (o_shard o) h))
        (set_observers (l1 ++ {| o_shard := o_shard o; o_buckets := rest; o_sum := o_sum o; o_count := o_count o |} :: l2) h))
  | step_sum l1 o l2 v :
      observers h = l1 ++ o :: l2 → o_buckets o = [] → o_sum o = Some v →
      hist_step h (set_shard (o_shard o) (add_sum v (shard (o_shard o) h))
        (set_observers (l1 ++ {| o_shard := o_shard o; o_buckets := []; o_sum := None; o_count := o_count o |} :: l2) h))
  | step_count l1 o l2 :
      observers h = l1 ++ o :: l2 → o_buckets o = [] → o_sum o = None →
      hist_step h (set_shard (o_shard o) (add_count (o_count o) (shard (o_shard o) h)) (set_observers (l1 ++ l2) h))
  (* the collector; a failed exchange changes nothing *)
  | step_flip :
      collecting h = None → hist_step h (do_flip h)
  | step_exchange cold overall :
      collecting h = Some (Waiting cold overall) → count (shard cold h) = overall →
      hist_step h (set_collecting (Some (Summing cold overall)) (set_shard cold (set_count 0 (shard cold h)) h))
  | step_swap_sum cold overall :
      collecting h = Some (Summing cold overall) →
      hist_step h (set_collecting (Some (Draining cold overall (sum (shard cold h)) 0 0 []))
        (set_shard cold (set_sum f64_zero (shard cold h)) h))
  | step_swap_bucket cold overall s i cum acc b c :
      collecting h = Some (Draining cold overall s i cum acc) →
      upper_bounds h !! i = Some b → buckets (shard cold h) !! i = Some c →
      hist_step h (set_collecting (Some (Adding cold overall s i c cum acc))
        (set_shard cold (set_bucket i 0 (shard cold h)) h))
  | step_add_bucket cold overall s i c cum acc b :
      collecting h = Some (Adding cold overall s i c cum acc) → upper_bounds h !! i = Some b →
      hist_step h (set_collecting
        (Some (Draining cold overall s (S i) (wrapping_add 64 cum c)
                 (acc ++ [{| cumulative_count := wrapping_add 64 cum c; upper_bound := b |}])))
        (set_shard (inverse cold) (add_bucket i c (shard (inverse cold) h)) h))
  | step_drained cold overall s i cum acc :
      collecting h = Some (Draining cold overall s i cum acc) → i = length (upper_bounds h) →
      hist_step h (set_collecting (Some (Closing cold overall s acc)) h)
  | step_add_count cold overall s acc :
      collecting h = Some (Closing cold overall s acc) →
      hist_step h (set_collecting (Some (Finishing cold overall s acc))
        (set_shard (inverse cold) (add_count overall (shard (inverse cold) h)) h))
  | step_finish cold overall s acc :
      collecting h = Some (Finishing cold overall s acc) → hist_step h (finish cold overall s acc h).

(** [HistogramCore::new] *)
Section new.
Context (fnv : bytes → Z) (f64_to_string : f64 → string).

Record HistogramOpts := { common_opts : Opts; opt_buckets : list f64 }.

Definition HistogramOpts_new (name help : string) : HistogramOpts :=
  {| common_opts := Opts_new name help; opt_buckets := DEFAULT_BUCKETS |}.

Fixpoint check_bucket_labels (names : list string) : MetricsResult unit :=
  match names with
  | [] => Ok tt
  | n :: names => _ ← check_bucket_label n; check_bucket_labels names
  end.

Definition histogram_init (upper_bounds : list f64) : histogram :=
  {| shard_and_count := 0; first := Shard_new (length upper_bounds); second := Shard_new (length upper_bounds);
     upper_bounds := upper_bounds; observers := []; collecting := None; started := []; flipped := [];
     snapshots := [] |}.

Definition HistogramCore_new (o : HistogramOpts) (label_values : list string)
    : MetricsResult (Desc * list LabelPair * histogram) :=
  desc ← describe fnv (common_opts o);
  _ ← check_bucket_labels (d_variable_labels desc);
  _ ← check_bucket_labels (lp_name <$> const_label_pairs desc);
  label_pairs ← make_label_pairs desc label_values;
  buckets ← check_and_adjust_buckets f64_to_string (opt_buckets o);
  Ok (desc, label_pairs, histogram_init buckets).
End new.

(** [sample_sum] (under the lock) and [sample_count] *)
Definition get_sample_sum (h : histogram) : f64 :=
  sum (shard (split_shard_index_and_count (shard_and_count h)).1 h).
Definition get_sample_count (h : histogram) : Z := (split_shard_index_and_count (shard_and_count h)).2.

(** ** Timers: [HistogramTimer] observes at most once *)
Record HistogramTimer := { observed : bool }.

(** the timer's [observe]: whether the duration is recorded *)
Definition timer_observe (record : bool) (t : HistogramTimer) : bool * HistogramTimer :=
  (record, {| observed := true |}).
(** [Drop] *)
Definition timer_drop (t : HistogramTimer) : bool :=
  if negb (observed t) then (timer_observe true t).1 else false.
(** the ways a timer ends, each followed by its drop; how often it is recorded *)
Inductive timer_end := StopAndRecord | StopAndDiscard | JustDrop.
Definition timer_records (e : timer_end) : nat :=
  let t := {| observed := false |} in
  let n (b : bool) := if b then 1%nat else 0%nat in
  match e with
  | StopAndRecord => let '(r, t) := timer_observe true t in (n r + n (timer_drop t))%nat
  | StopAndDiscard => let '(r, t) := timer_observe false t in (n r + n (timer_drop t))%nat
  | JustDrop => n (timer_drop t)
  end.

(** [duration_to_seconds] of a duration in nanoseconds *)
Definition duration_to_seconds (d : Z) : f64 :=
  f64_add (f64_of_Z (d / 1000000000)) (f64_div (f64_of_Z (d mod 1000000000)) (f64_of_Z 1000000000)).
