(* ===== verification/Options.v ===== *)
(** * Options of metrics: the builder methods of [Opts] ([prometheus/src/metrics.rs]) and of
    [HistogramOpts] ([histogram.rs]), and the macros [labels!], [opts!] and
    [histogram_opts!] ([macros.rs]) *)
From Stdlib Require Import ZArith Lia.
From S2P Require Import Prelude BTree Float64 Metrics MetricsFacts Histogram.

(** ** [Opts]; [variable_labels] is [set_variable_labels] and [const_label] has its name *)
Definition Opts_namespace (n : string) (o : Opts) : Opts :=
  {| namespace := n; subsystem := subsystem o; name := name o; help := help o;
     const_labels := const_labels o; variable_labels := variable_labels o |}.
Definition Opts_subsystem (s : string) (o : Opts) : Opts :=
  {| namespace := namespace o; subsystem := s; name := name o; help := help o;
     const_labels := const_labels o; variable_labels := variable_labels o |}.
Definition Opts_const_labels (l : gmap string string) (o : Opts) : Opts :=
  {| namespace := namespace o; subsystem := subsystem o; name := name o; help := help o;
     const_labels := l; variable_labels := variable_labels o |}.
Definition Opts_variable_label (n : string) (o : Opts) : Opts :=
  set_variable_labels (variable_labels o ++ [n]) o.

(** ** [HistogramOpts] *)
Definition set_common_opts (c : Opts) (o : HistogramOpts) : HistogramOpts :=
  {| common_opts := c; opt_buckets := opt_buckets o |}.

Definition HistogramOpts_namespace (n : string) (o : HistogramOpts) : HistogramOpts :=
  set_common_opts (Opts_namespace n (common_opts o)) o.
Definition HistogramOpts_subsystem (s : string) (o : HistogramOpts) : HistogramOpts :=
  set_common_opts (Opts_subsystem s (common_opts o)) o.
Definition HistogramOpts_const_labels (l : gmap string string) (o : HistogramOpts) : HistogramOpts :=
  set_common_opts (Opts_const_labels l (common_opts o)) o.
Definition HistogramOpts_const_label (n v : string) (o : HistogramOpts) : HistogramOpts :=
  set_common_opts (const_label n v (common_opts o)) o.
Definition HistogramOpts_variable_labels (l : list string) (o : HistogramOpts) : HistogramOpts :=
  set_common_opts (set_variable_labels l (common_opts o)) o.
Definition HistogramOpts_variable_label (n : string) (o : HistogramOpts) : HistogramOpts :=
  set_common_opts (Opts_variable_label n (common_opts o)) o.
Definition HistogramOpts_fq_name (o : HistogramOpts) : string := fq_name (common_opts o).
Definition HistogramOpts_buckets (b : list f64) (o : HistogramOpts) : HistogramOpts :=
  {| common_opts := common_opts o; opt_buckets := b |}.
Definition HistogramOpts_describe (fnv : bytes → Z) (o : HistogramOpts) : MetricsResult Desc :=
  describe fnv (common_opts o).
(** [From<Opts>] *)
Definition HistogramOpts_from (o : Opts) : HistogramOpts :=
  {| common_opts := o; opt_buckets := DEFAULT_BUCKETS |}.

(** ** Macros *)

(** [labels!]: the pairs are inserted one after the other *)
Definition labels_macro (l : list (string * string)) : gmap string string :=
  foldl (λ lbs kv, <[kv.1 := kv.2]> lbs) ∅ l.

(** [lbs.extend(CONST_LABELS.iter()..)] *)
Definition extend_labels (lbs const_labels : gmap string string) : gmap string string :=
  foldl (λ lbs kv, <[kv.1 := kv.2]> lbs) lbs (map_to_list const_labels).

(** [opts!] with any number of maps of labels *)
Definition opts_macro (name help : string) (const_labels : list (gmap string string)) : Opts :=
  Opts_const_labels (foldl extend_labels ∅ const_labels) (Opts_new name help).

(** [histogram_opts!]: with name and help, with buckets, and with labels as well *)
Definition histogram_opts (name help : string) : HistogramOpts := HistogramOpts_new name help.
Definition histogram_opts_buckets (name help : string) (b : list f64) : HistogramOpts :=
  HistogramOpts_buckets b (histogram_opts name help).
Definition histogram_opts_labels (name help : string) (b : list f64) (l : gmap string string) : HistogramOpts :=
  HistogramOpts_const_labels l (histogram_opts_buckets name help b).

(** ** Facts *)

Lemma foldl_insert_lookup (l : list (string * string)) m k :
  foldl (λ lbs kv, <[kv.1 := kv.2]> lbs) m l !! k =
    match last (filter (λ kv, kv.1 = k) l) with Some kv => Some kv.2 | None => (m : gmap string string) !! k end.
Proof.
  induction l as [|[k' v] l IH] using rev_ind; [done|].
  rewrite foldl_app, filter_app. simpl. rewrite filter_cons, filter_nil. simpl. case_decide as Hk.
  - subst k'. by rewrite lookup_insert_eq, last_snoc.
  - by rewrite lookup_insert_ne, app_nil_r.
Qed.

(** The last pair that names a label decides its value. *)
Lemma labels_macro_lookup l k :
  labels_macro l !! k = snd <$> last (filter (λ kv, kv.1 = k) l).
Proof. unfold labels_macro. rewrite foldl_insert_lookup. by destruct (last _). Qed.

Lemma foldl_insert_union (l : list (string * string)) (lbs : gmap string string) :
  NoDup l.*1 → foldl (λ lbs kv, <[kv.1 := kv.2]> lbs) lbs l = list_to_map l ∪ lbs.
Proof.
  induction l as [|[k v] l IH] using rev_ind; [symmetry; apply map_empty_union|].
  rewrite fmap_app, foldl_app. intros (Hnd & Hk & _)%NoDup_app. simpl.
  rewrite IH, list_to_map_snoc, insert_union_l; [done| |done].
  intros Hin. apply (Hk k Hin). by left.
Qed.

Lemma extend_labels_union lbs l : extend_labels lbs l = l ∪ lbs.
Proof.
  unfold extend_labels. rewrite foldl_insert_union by apply NoDup_fst_map_to_list.
  by rewrite list_to_map_to_list.
Qed.

(** A label of [opts!] has the value that the last map with it gives it; the names and
    the help text are those given, and the rest is empty. *)
Lemma opts_macro_spec n h lbs k :
  const_labels (opts_macro n h lbs) !! k = last (omap (λ l : gmap string string, l !! k) lbs) ∧
  fq_name (opts_macro n h lbs) = n ∧ help (opts_macro n h lbs) = h ∧ variable_labels (opts_macro n h lbs) = [].
Proof.
  split; [|split; [|done]].
  - simpl. induction lbs as [|l lbs IH] using rev_ind; [done|].
    rewrite foldl_app, omap_app. simpl. rewrite extend_labels_union.
    destruct (l !! k) as [v|] eqn:E; simpl.
    + rewrite last_snoc. by apply lookup_union_Some_l.
    + by rewrite lookup_union_r, app_nil_r.
  - unfold fq_name, build_fq_name. simpl. by case_decide.
Qed.
