(* ===== verification/ProcessCollector.v ===== *)
(** * The process collector: [prometheus/src/process_collector.rs]

    A counter and six gauges that show what /proc says about a process.  The crate procfs
    and sysconf are outside: a reading of /proc is an argument of [collect]. *)
From Stdlib Require Import ZArith Lia Ascii.
From S2P Require Import Prelude BTree Float64 Metrics MetricsFacts Atomics Options.
Local Open Scope Z_scope.

(** What [procfs::process::Process] offers; the file descriptors and the limits are read
    when asked for and may fail, and the soft limit may be unlimited. *)
Inductive LimitValue := Unlimited | Value_ (max : Z).
Record Process := {
  fd_count : option Z;
  max_open_files : option LimitValue;
  stat_vsize : Z;
  stat_rss : Z;
  stat_starttime : Z;
  stat_utime : Z;
  stat_stime : Z;
  stat_num_threads : Z;
}.

Record ProcessCollector := {
  pid : Z;
  descs : list Desc;
  cpu_total : Value f64;
  open_fds : Value f64;
  max_fds : Value f64;
  vsize : Value f64;
  rss : Value f64;
  start_time : Value f64;
  threads : Value f64;
}.

Section collector.
Context (fnv : bytes → Z).
(** the statics [CLK_TCK], [PAGESIZE] and [BOOT_TIME] *)
Context (CLK_TCK PAGESIZE : f64) (BOOT_TIME : option f64).

(** [Counter::with_opts(Opts::new(..).namespace(..)).unwrap()] and the like; [None] panics *)
Definition process_metric (t : ValueType) (namespace name help : string) : option (Value f64) :=
  ok (Value_new fnv (Opts_namespace namespace (Opts_new name help)) t f64_zero []).

Definition new (pid : Z) (namespace : string) : option ProcessCollector :=
  let gauge := process_metric VGauge namespace in
  cpu_total ← process_metric VCounter namespace "process_cpu_seconds_total" "Total user and system CPU time spent in seconds.";
  open_fds ← gauge "process_open_fds" "Number of open file descriptors.";
  max_fds ← gauge "process_max_fds" "Maximum number of open file descriptors.";
  vsize ← gauge "process_virtual_memory_bytes" "Virtual memory size in bytes.";
  rss ← gauge "process_resident_memory_bytes" "Resident memory size in bytes.";
  start_time ← gauge "process_start_time_seconds" "Start time of the process since unix epoch in seconds.";
  threads ← gauge "process_threads" "Number of OS threads in the process.";
  Some {| pid := pid; descs := v_desc <$> [cpu_total; open_fds; max_fds; vsize; rss; start_time; threads];
          cpu_total := cpu_total; open_fds := open_fds; max_fds := max_fds; vsize := vsize; rss := rss;
          start_time := start_time; threads := threads |}.

(** with the pid of the process *)
Definition for_self (getpid : Z) : option ProcessCollector := new getpid "".

(** a counter takes the difference, if there is one *)
Definition add_cpu (total : f64) (c : Value f64) : Value f64 :=
  let past := val c in
  let delta := f64_add total (f64_neg past) in
  if f64_gt delta f64_zero then Value_inc_by f64_number delta c else c.

Definition values (c : ProcessCollector) : list (Value f64) :=
  [cpu_total c; open_fds c; max_fds c; vsize c; rss c; start_time c; threads c].

(** [collect]; the sum of the times is a [u64]. *)
Definition collect (reading : option Process) (c : ProcessCollector) : list MetricFamily * ProcessCollector :=
  match reading with
  | None => ([], c)
  | Some p =>
      let c := {|
        pid := pid c; descs := descs c;
        cpu_total := add_cpu (f64_div (f64_of_Z (wrapping_add 64 (stat_utime p) (stat_stime p))) CLK_TCK) (cpu_total c);
        open_fds := match fd_count p with Some n => Value_set (f64_of_Z n) (open_fds c) | None => open_fds c end;
        max_fds := match max_open_files p with
                   | Some (Value_ max) => Value_set (f64_of_Z max) (max_fds c)
                   | _ => max_fds c
                   end;
        vsize := Value_set (f64_of_Z (stat_vsize p)) (vsize c);
        rss := Value_set (f64_mul (f64_of_Z (stat_rss p)) PAGESIZE) (rss c);
        start_time := match BOOT_TIME with
                      | Some boot_time =>
                          Value_set (f64_add (f64_div (f64_of_Z (stat_starttime p)) CLK_TCK) boot_time) (start_time c)
                      | None => start_time c
                      end;
        threads := Value_set (f64_of_Z (stat_num_threads p)) (threads c) |} in
      (Value_collect f64_number <$> values c, c)
  end.

Fixpoint collect_turns (readings : list (option Process)) (c : ProcessCollector) : ProcessCollector :=
  match readings with
  | [] => c
  | p :: readings => collect_turns readings (collect p c).2
  end.

(** ** Facts *)

(** The collector of a namespace exists exactly if it makes a valid name, and the empty
    namespace does. *)
Lemma process_metric_some t ns name help :
  help ≠ "" → is_Some (process_metric t ns name help) ↔ is_valid_metric_name (build_fq_name ns "" name) = true.
Proof.
  intros Hh. unfold process_metric, Value_new.
  pose proof (Desc_new_cases fnv (build_fq_name ns "" name) help [] ∅) as Hd.
  change (describe fnv (Opts_namespace ns (Opts_new name help))) with (Desc_new fnv (build_fq_name ns "" name) help [] ∅).
  destruct (Desc_new fnv (build_fq_name ns "" name) help [] ∅) as [d|e].
  - destruct Hd as ((_ & Hv & _) & _ & _ & Hvars & Hc & _). cbn [mbind result_bind].
    unfold make_label_pairs. rewrite Hvars, Hc. simpl. split; [done|]. by eexists.
  - cbn [mbind result_bind ok]. split; [by intros [? ?]|]. intros Hv. destruct Hd. split_and!; try done.
    by constructor.
Qed.

(** the metrics of a collector, in the order of [descs] *)
Definition names : list string :=
  ["process_cpu_seconds_total"; "process_open_fds"; "process_max_fds"; "process_virtual_memory_bytes";
   "process_resident_memory_bytes"; "process_start_time_seconds"; "process_threads"].

(** A collector for a namespace can be made exactly if it makes valid names; the collector
    of the process itself always can. *)
Lemma new_some p ns :
  is_Some (new p ns) ↔ Forall (λ n, is_valid_metric_name (build_fq_name ns "" n) = true) names.
Proof.
  unfold new. split.
  - intros [c Hc]. repeat (apply bind_Some in Hc as (? & ?%mk_is_Some & Hc)).
    repeat (apply Forall_cons; split); [..|constructor]; (eapply process_metric_some; [|eassumption]; done).
  - rewrite Forall_forall. intros Hall.
    assert (Hs : ∀ t n h, h ≠ "" → n ∈ names → is_Some (process_metric t ns n h)).
    { intros t n h Hh Hn. apply process_metric_some; [exact Hh|exact (Hall n Hn)]. }
    assert (Hb : ∀ {B} t n h (f : Value f64 → option B), h ≠ "" → bool_decide (n ∈ names) = true →
      (∀ v, is_Some (f v)) → is_Some (process_metric t ns n h ≫= f)).
    { intros B t n h f Hh Hn%bool_decide_eq_true Hf. destruct (Hs t n h Hh Hn) as [v ->]. apply Hf. }
    repeat (apply Hb; [discriminate|reflexivity|intros ?]). eexists. reflexivity.
Qed.

Lemma for_self_some p : is_Some (for_self p).
Proof. unfold for_self. apply (proj2 (new_some p "")). unfold names. repeat (apply Forall_cons; split; [vm_compute; reflexivity|]). apply Forall_nil. exact I. Qed.

(** What stays as it was made: identity, names, types and labels *)
Definition shape (c : ProcessCollector) : list (Desc * ValueType * list LabelPair) :=
  (λ v, (v_desc v, val_type v, label_pairs v)) <$> values c.

Lemma collect_shape p c : shape (collect p c).2 = shape c ∧ descs (collect p c).2 = descs c.
Proof.
  destruct p as [p|]; [|done]. split; [|done]. unfold collect, shape, values, add_cpu. simpl.
  by destruct (f64_gt _ _), (fd_count p), (max_open_files p) as [[]|], BOOT_TIME.
Qed.

Lemma turns_shape ps c : shape (collect_turns ps c) = shape c ∧ descs (collect_turns ps c) = descs c.
Proof.
  revert c. induction ps as [|p ps IH]; intros c; [done|]. simpl. destruct (IH (collect p c).2) as [-> ->].
  apply collect_shape.
Qed.

Lemma process_metric_spec t ns n h v :
  process_metric t ns n h = Some v → d_fq_name (v_desc v) = build_fq_name ns "" n ∧ d_help (v_desc v) = h ∧ val_type v = t.
Proof.
  unfold process_metric, Value_new. intros Hv%ok_Some.
  apply result_bind_Ok in Hv as (d & Hd & Hv). apply result_bind_Ok in Hv as (lps & _ & [= <-]).
  pose proof (Desc_new_cases fnv (build_fq_name ns "" n) h [] ∅) as Hc. unfold describe in Hd.
  change (fq_name _) with (build_fq_name ns "" n) in Hd. cbn in Hd. rewrite Hd in Hc. by destruct Hc as (_ & ? & ? & _).
Qed.

(** After any readings, a collection of a process that is gone yields nothing and keeps all
    values; otherwise it yields the seven families in the order of the descriptors, which
    show the reading, and where a part of it failed what was shown before. *)
Theorem process_collector_spec p0 ns c0 readings p :
  new p0 ns = Some c0 →
  let c := collect_turns readings c0 in
  collect None c = ([], c) ∧
  let '(fams, c') := collect (Some p) c in
  mf_name <$> fams = build_fq_name ns "" <$> names ∧ mf_name <$> fams = d_fq_name <$> descs c' ∧
  field_type <$> fams = COUNTER :: replicate 6 GAUGE ∧ fams = Value_collect f64_number <$> values c' ∧
  val <$> [vsize c'; rss c'; threads c'] =
    [f64_of_Z (stat_vsize p); f64_mul (f64_of_Z (stat_rss p)) PAGESIZE; f64_of_Z (stat_num_threads p)] ∧
  val (open_fds c') = match fd_count p with Some n => f64_of_Z n | None => val (open_fds c) end ∧
  val (max_fds c') = match max_open_files p with Some (Value_ n) => f64_of_Z n | _ => val (max_fds c) end ∧
  (∀ total, total = f64_div (f64_of_Z (wrapping_add 64 (stat_utime p) (stat_stime p))) CLK_TCK →
     let delta := f64_add total (f64_neg (val (cpu_total c))) in
     val (cpu_total c') = if f64_gt delta f64_zero then f64_add (val (cpu_total c)) delta else val (cpu_total c)).
Proof.
  intros Hnew c. split; [done|]. destruct (collect (Some p) c) as [fams c'] eqn:E.
  assert (Hs : shape c' = shape c0 ∧ descs c' = descs c0).
  { destruct (collect_shape (Some p) c) as [H1 H2], (turns_shape readings c0) as [H3 H4].
    rewrite E in H1, H2. simpl in H1, H2. rewrite H1, H2. by split. }
  destruct Hs as [Hs Hd].
  assert (H0 : (λ x, (d_fq_name x.1.1, x.1.2)) <$> shape c0 =
      zip (build_fq_name ns "" <$> names) (VCounter :: replicate 6 VGauge) ∧ descs c0 = (λ x, x.1.1) <$> shape c0).
  { revert Hnew. unfold new.
    repeat match goal with
    | |- context [process_metric ?t ?ns ?n ?h] =>
        let E := fresh "E" in destruct (process_metric t ns n h) as [?|] eqn:E; [|done];
        apply process_metric_spec in E as (? & _ & ?); cbn [mbind option_bind]
    end. intros [= <-]. unfold shape, values. simpl. split; [|done]. congruence. }
  destruct H0 as [H0 H0'].
  assert (Hf : fams = Value_collect f64_number <$> values c') by (unfold collect in E; by injection E as <- <-).
  rewrite <-Hs in H0, H0'. unfold shape in H0, H0'. rewrite <-!list_fmap_compose in H0, H0'.
  split_and!.
  - apply (f_equal (fmap fst)) in H0. rewrite <-list_fmap_compose in H0. rewrite Hf, <-list_fmap_compose. exact H0.
  - rewrite Hf, Hd, H0', <-!list_fmap_compose. done.
  - apply (f_equal (fmap (metric_type ∘ snd))) in H0. rewrite <-list_fmap_compose in H0.
    rewrite Hf, <-list_fmap_compose. exact H0.
  - exact Hf.
  - unfold collect in E. by injection E as _ <-.
  - unfold collect in E. injection E as _ <-. simpl. by destruct (fd_count p).
  - unfold collect in E. injection E as _ <-. simpl. by destruct (max_open_files p) as [[]|].
  - intros total ->. unfold collect in E. injection E as _ <-. simpl. unfold add_cpu. by destruct (f64_gt _ _).
Qed.
End collector.

Example process_collector_spec_holds :
  ∃ c0, for_self (λ _, 0) 7 = Some c0 ∧
    collect (f64_of_Z 100) (f64_of_Z 4096) None None c0 = ([], c0).
Proof.
  destruct (for_self_some (λ _, 0) 7) as [c0 Hc]. exists c0. split; [exact Hc|].
  exact (proj1 (process_collector_spec (λ _, 0) (f64_of_Z 100) (f64_of_Z 4096) None 7 "" c0 []
    {| fd_count := None; max_open_files := None; stat_vsize := 0; stat_rss := 0; stat_starttime := 0; stat_utime := 0;
       stat_stime := 0; stat_num_threads := 0 |} Hc)).
Defined.
