(* ===== verification/HistogramFacts.v ===== *)
(** * A collected histogram is a consistent snapshot

    Whatever the interleaving of observers, flushes of local histograms and the
    collector, every snapshot counts exactly the observations that had started when
    the shards were flipped, in every bucket. *)
From Stdlib Require Import ZArith Lia Floats.SpecFloat.
From S2P Require Import Prelude BTree Float64 Metrics Atomics TextEncoder Histogram.
Local Open Scope Z_scope.
Set Default Proof Using "Type".

(** ** The order of floats *)

Ltac compare_cases :=
  repeat match goal with
  | |- context [Z.compare ?a ?b] => destruct (Z.compare_spec a b); subst
  | |- context [Pos.compare_cont Eq ?a ?b] => change (Pos.compare_cont Eq a b) with (Pos.compare a b)
  | |- context [Pos.compare ?a ?b] => destruct (Pos.compare_spec a b); subst
  end.

Lemma f64_le_lt_trans a b c : f64_le a b = true → f64_lt b c = true → f64_le a c = true.
Proof.
  unfold f64_le, f64_lt, SFleb, SFltb, SFcompare.
  destruct a as [sa|[]| |[] ma ea], b as [sb|[]| |[] mb eb], c as [sc|[]| |[] mc ec]; try done;
    unfold CompOpp; compare_cases; done || lia.
Qed.

Lemma f64_ge_lt a b : a ≠ S754_nan → b ≠ S754_nan → f64_ge a b = false ↔ f64_lt a b = true.
Proof.
  unfold f64_ge, f64_lt, SFleb, SFltb, SFcompare.
  destruct a as [sa|[]| |[] ma ea], b as [sb|[]| |[] mb eb]; try done;
    unfold CompOpp; compare_cases; intros; split; done || lia.
Qed.

(** ** Counting *)

Section facts.
Context (ub : list f64).

(** the observations that belong to bucket [j], and to the buckets below [i] *)
Definition cnt (j : nat) (vs : list f64) : Z := Z.of_nat (length (filter (λ v, find_bucket v ub = Some j) vs)).
Definition csum (i : nat) (vs : list f64) : Z := sum_Z ((λ j, cnt j vs) <$> seq 0 i).
Definition size (vs : list f64) : Z := Z.of_nat (length vs).

Lemma cnt_nil j : cnt j [] = 0.
Proof. done. Qed.
Lemma cnt_app j vs ws : cnt j (vs ++ ws) = cnt j vs + cnt j ws.
Proof. unfold cnt. rewrite filter_app, length_app. lia. Qed.
Lemma cnt_one j v : cnt j [v] = if decide (find_bucket v ub = Some j) then 1 else 0.
Proof. unfold cnt. rewrite filter_cons, filter_nil. by case_decide. Qed.
Lemma size_app vs ws : size (vs ++ ws) = size vs + size ws.
Proof. unfold size. rewrite length_app. lia. Qed.
Lemma size_nonneg vs : 0 <= size vs.
Proof. unfold size. lia. Qed.
Lemma cnt_bounds j vs : 0 <= cnt j vs <= size vs.
Proof. unfold cnt, size. pose proof (length_filter (λ v, find_bucket v ub = Some j) vs). lia. Qed.
Lemma csum_S i vs : csum (S i) vs = csum i vs + cnt i vs.
Proof. unfold csum. rewrite seq_S, fmap_app, sum_Z_app. cbn [fmap list_fmap sum_Z]. simpl. lia. Qed.

(** in a bucket before [i] *)
Definition below (i : nat) (v : f64) : bool :=
  match find_bucket v ub with Some j => (j <? i)%nat | None => false end.

Lemma csum_filter i vs : csum i vs = Z.of_nat (length (filter (λ v, below i v = true) vs)).
Proof.
  induction vs as [|v vs IH].
  - simpl. induction i as [|i IH]; [done|]. by rewrite csum_S, IH, cnt_nil.
  - assert (Hc : csum i (v :: vs) = csum i [v] + csum i vs).
    { clear IH. induction i as [|i IH]; [done|].
      rewrite !csum_S, IH. change (v :: vs) with ([v] ++ vs). rewrite !cnt_app. lia. }
    assert (Hv : csum i [v] = if decide (below i v = true) then 1 else 0).
    { clear IH Hc. unfold below. induction i as [|i IH]; [by destruct (find_bucket v ub)|].
      rewrite csum_S, IH, cnt_one. destruct (find_bucket v ub) as [j|]; [|done].
      destruct (Nat.ltb_spec j i), (Nat.ltb_spec j (S i)); repeat case_decide; simplify_eq; try lia.
      assert (j = i) by lia. congruence. }
    rewrite Hc, Hv, IH, filter_cons. case_decide; simpl; lia.
Qed.

(** strictly increasing and never NaN *)
Definition increasing : Prop :=
  ∀ i j a b, (i < j)%nat → ub !! i = Some a → ub !! j = Some b → f64_lt a b = true.

Lemma find_bucket_spec v (l : list f64) j :
  find_bucket v l = Some j ↔
  (∃ b, l !! j = Some b ∧ f64_le v b = true) ∧ ∀ k b, (k < j)%nat → l !! k = Some b → f64_le v b = false.
Proof.
  revert j. induction l as [|a l IH]; intros j; simpl.
  { split; [done|]. intros [(b & Hb & _) _]. by destruct j. }
  destruct (f64_le v a) eqn:E.
  - split.
    + intros [= <-]. split; [by exists a|]. intros k b Hk. lia.
    + intros [_ Hbelow]. destruct j as [|j]; [done|]. specialize (Hbelow 0%nat a ltac:(lia) eq_refl). congruence.
  - destruct j as [|j]; simpl.
    + split; [|intros [(b & [= <-] & ?) _]; congruence]. by destruct (find_bucket v l).
    + split.
      * intros Hf. apply fmap_Some in Hf as (j' & Hf & [= <-]). apply IH in Hf as [Hb Hbelow]. split; [done|].
        intros [|k] b Hk Hlk; [by simplify_eq/=|]. apply (Hbelow k); [lia|done].
      * intros [Hb Hbelow]. apply fmap_Some. exists j. split; [|done]. apply IH. split; [done|].
        intros k b Hk. apply (Hbelow (S k)). lia.
Qed.

(** with increasing bounds, the buckets up to [i] hold what is at most bound [i] *)
Lemma csum_le i b vs :
  increasing → ub !! i = Some b → csum (S i) vs = Z.of_nat (length (filter (λ v, f64_le v b = true) vs)).
Proof.
  intros Hinc Hb. rewrite csum_filter. do 2 f_equal. apply list_filter_iff. intros v. unfold below. split.
  - destruct (find_bucket v ub) as [j|] eqn:Hj; [|done]. intros Hlt%Nat.ltb_lt.
    apply find_bucket_spec in Hj as [(a & Ha & Hle) _].
    destruct (decide (j = i)) as [->|]; [by simplify_eq|].
    eapply f64_le_lt_trans; [done|]. apply (Hinc j i); [lia|done..].
  - intros Hle. destruct (find_bucket v ub) as [j|] eqn:E.
    + apply Nat.ltb_lt. apply find_bucket_spec in E as [_ Hbelow].
      destruct (decide (j <= i)%nat); [lia|]. specialize (Hbelow i b ltac:(lia) Hb). congruence.
    + exfalso. assert (Hn : ∀ (l : list f64) k, find_bucket v l = None → l !! k = Some b → False); [|by eapply Hn].
      induction l as [|a l IH]; intros [|k]; simpl; try done.
      * intros Hf [= ->]. by rewrite Hle in Hf.
      * destruct (f64_le v a); [done|]. intros Hf%fmap_None. by apply IH.
Qed.

(** ** Work in progress *)
Definition todo (j : nat) (l : list (nat * Z)) : Z := sum_Z ((λ iv, if decide (iv.1 = j) then iv.2 else 0) <$> l).
Definition pend (j : nat) (i : ShardIndex) (obs : list observer) : Z :=
  sum_Z ((λ o, if decide (o_shard o = i) then todo j (o_buckets o) else 0) <$> obs).
Definition pendn (i : ShardIndex) (obs : list observer) : Z :=
  sum_Z ((λ o, if decide (o_shard o = i) then o_count o else 0) <$> obs).

Lemma sum_Z_split {A} (f : A → Z) l1 x l2 :
  sum_Z (f <$> l1 ++ x :: l2) = f x + sum_Z (f <$> l1 ++ l2).
Proof. rewrite !fmap_app, fmap_cons, !sum_Z_app. cbn [sum_Z]. lia. Qed.

Lemma todo_cons j iv l : todo j (iv :: l) = (if decide (iv.1 = j) then iv.2 else 0) + todo j l.
Proof. done. Qed.
Lemma pend_cons j i o obs :
  pend j i (o :: obs) = (if decide (o_shard o = i) then todo j (o_buckets o) else 0) + pend j i obs.
Proof. done. Qed.
Lemma pendn_cons i o obs : pendn i (o :: obs) = (if decide (o_shard o = i) then o_count o else 0) + pendn i obs.
Proof. done. Qed.

Lemma pend_split j i l1 o l2 :
  pend j i (l1 ++ o :: l2) = (if decide (o_shard o = i) then todo j (o_buckets o) else 0) + pend j i (l1 ++ l2).
Proof. unfold pend. by rewrite sum_Z_split. Qed.
Lemma pendn_split i l1 o l2 :
  pendn i (l1 ++ o :: l2) = (if decide (o_shard o = i) then o_count o else 0) + pendn i (l1 ++ l2).
Proof. unfold pendn. by rewrite sum_Z_split. Qed.

Lemma pendn_nonneg i obs : Forall (λ o, 1 <= o_count o) obs → 0 <= pendn i obs.
Proof.
  induction 1 as [|o obs Ho Hobs IH]; [done|]. rewrite pendn_cons. case_decide; lia.
Qed.

Lemma pendn_zero i obs :
  Forall (λ o, 1 <= o_count o) obs → pendn i obs = 0 → Forall (λ o, o_shard o ≠ i) obs.
Proof.
  induction 1 as [|o obs Ho Hobs IH]; intros Hz; [constructor|].
  rewrite pendn_cons in Hz. pose proof (pendn_nonneg i obs Hobs).
  case_decide; [lia|]. constructor; [done|]. apply IH. lia.
Qed.

Lemma pend_none j i obs : Forall (λ o, o_shard o ≠ i) obs → pend j i obs = 0.
Proof. induction 1 as [|o obs Ho Hobs IH]; [done|]. by rewrite pend_cons, decide_False. Qed.
Lemma pendn_none i obs : Forall (λ o, o_shard o ≠ i) obs → pendn i obs = 0.
Proof. induction 1 as [|o obs Ho Hobs IH]; [done|]. by rewrite pendn_cons, decide_False. Qed.

(** A single observation, and the flush of a local histogram, have their values' work *)
Lemma observer_of_todo i v j : todo j (o_buckets (observer_of ub i v)) = cnt j [v].
Proof.
  rewrite cnt_one. unfold observer_of. simpl. destruct (find_bucket v ub) as [k|]; unfold todo; simpl.
  - destruct (decide (k = j)) as [->|]; [by rewrite decide_True|rewrite decide_False by congruence]. done.
  - done.
Qed.

Lemma wrapping_add_wrap a b : wrapping_add 64 (wrap 64 a) b = wrap 64 (a + b).
Proof. unfold wrapping_add, wrap. by rewrite Z.add_mod_idemp_l. Qed.

Lemma local_repr vs :
  let l := foldl (local_observe ub) (local_clear (length ub)) vs in
  l_count l = wrap 64 (size vs) ∧ length (l_counts l) = length ub ∧
  ∀ j, (j < length ub)%nat → l_counts l !! j = Some (wrap 64 (cnt j vs)).
Proof.
  induction vs as [|v vs (Hn & Hl & Hc)] using rev_ind; cbv zeta in *.
  { split; [done|]. split; [apply length_replicate|]. intros j Hj. by apply lookup_replicate_2. }
  rewrite foldl_app. simpl. set (l := foldl _ _ _) in *. rewrite Hn, wrapping_add_wrap, size_app.
  split; [done|]. split; [by destruct (find_bucket v ub); rewrite ?length_alter|].
  intros j Hj. rewrite cnt_app, cnt_one. destruct (find_bucket v ub) as [k|] eqn:E.
  - destruct (decide (k = j)) as [->|Hne].
    + rewrite list_lookup_alter_eq, Hc by done. simpl. rewrite wrapping_add_wrap. by rewrite decide_True.
    + rewrite list_lookup_alter_ne, Hc by done. rewrite decide_False by congruence. by rewrite Z.add_0_r.
  - rewrite Hc, decide_False, Z.add_0_r by done. done.
Qed.

Lemma todo_filter_zip (counts : list Z) j k :
  Forall (λ c, 0 <= c) counts →
  todo j (List.filter (λ iv, 0 <? iv.2) (zip (seq k (length counts)) counts)) =
    if decide (k <= j)%nat then default 0 (counts !! (j - k)%nat) else 0.
Proof.
  intros Hc. revert k. induction Hc as [|c counts Hc Hcs IH]; intros k; simpl.
  { unfold todo. simpl. by case_decide. }
  assert (Hone : ∀ l, todo j (if 0 <? c then (k, c) :: l else l) = (if decide (k = j) then c else 0) + todo j l).
  { intros l. destruct (Z.ltb_spec 0 c); [by rewrite todo_cons|]. case_decide; lia. }
  rewrite Hone, IH. destruct (decide (k = j)) as [->|Hne].
  - rewrite Nat.sub_diag, decide_False, decide_True by lia. simpl. lia.
  - destruct (decide (S k <= j)%nat).
    + rewrite decide_True by lia. replace (j - k)%nat with (S (j - S k)) by lia. done.
    + by rewrite decide_False by lia.
Qed.

Lemma local_flush_todo vs i o :
  size vs < 2 ^ 63 →
  local_flush i (foldl (local_observe ub) (local_clear (length ub)) vs) = Some o →
  o_shard o = i ∧ o_count o = size vs ∧ ∀ j, (j < length ub)%nat → todo j (o_buckets o) = cnt j vs.
Proof.
  intros Hs. pose proof (local_repr vs) as Hr. cbv zeta in Hr. set (l := foldl _ _ _) in *.
  destruct Hr as (Hn & Hl & Hc). unfold local_flush. case_decide; [done|]. intros [= <-]. simpl.
  pose proof (size_nonneg vs). split; [done|]. split; [by rewrite Hn, wrap_id by (split; lia)|].
  assert (Hw : ∀ j, wrap 64 (cnt j vs) = cnt j vs).
  { intros j. pose proof (cnt_bounds j vs). apply wrap_id. split; lia. }
  intros j Hj. rewrite todo_filter_zip, decide_True by
    (lia || (apply Forall_lookup_2; intros k c Hk; pose proof (lookup_lt_Some _ _ _ Hk) as Hlt;
             rewrite Hl in Hlt; rewrite Hc, Hw in Hk by done; simplify_eq; apply cnt_bounds)).
  by rewrite Nat.sub_0_r, Hc, Hw by done.
Qed.
End facts.
