(* ===== verification/HistogramInv.v ===== *)
(** * The invariant of the two shards, and what it gives for every snapshot *)
From Stdlib Require Import ZArith Lia.
From S2P Require Import Prelude BTree Float64 Metrics Atomics TextEncoder Histogram HistogramFacts.
Local Open Scope Z_scope.
Set Default Proof Using "Type".

Section inv.
Context (ub : list f64).
Abbreviation cnt := (cnt ub).
Abbreviation csum := (csum ub).
Implicit Types (h : histogram) (i hot : ShardIndex).

(** ** What the shards hold once the work in progress is done

    [S] are the observations at the last flip while a collector runs, [R] those since;
    the collector moves the counts of [S] from the cold shard to the hot one. *)

Definition remaining (c : option collector) (S : list f64) (j : nat) : Z :=
  match c with
  | Some (Waiting _ _) | Some (Summing _ _) => cnt j S
  | Some (Draining _ _ _ k _ _) => if decide (j < k)%nat then 0 else cnt j S
  | Some (Adding _ _ _ k _ _ _) => if decide (j <= k)%nat then 0 else cnt j S
  | _ => 0
  end.

Definition moved (c : option collector) (S : list f64) (j : nat) : Z :=
  match c with
  | Some (Draining _ _ _ k _ _) | Some (Adding _ _ _ k _ _ _) => if decide (j < k)%nat then cnt j S else 0
  | Some (Closing _ _ _ _) | Some (Finishing _ _ _ _) => cnt j S
  | _ => 0
  end.

Definition remaining_n (c : option collector) (S : list f64) : Z :=
  match c with Some (Waiting _ _) => size S | _ => 0 end.
Definition moved_n (c : option collector) (S : list f64) : Z :=
  match c with Some (Finishing _ _ _ _) => size S | _ => 0 end.

Definition target (c : option collector) (S R : list f64) hot i (j : nat) : Z :=
  if decide (i = hot) then moved c S j + cnt j R else remaining c S j.
Definition target_n (c : option collector) (S R : list f64) hot i : Z :=
  if decide (i = hot) then moved_n c S + size R else remaining_n c S.

(** the buckets of a snapshot of [S], up to bucket [k] *)
Definition expected (k : nat) (S : list f64) : list Bucket :=
  imap (λ j b, {| cumulative_count := csum (j + 1) S; upper_bound := b |}) (take k ub).

Definition progress (c : collector) (hot : ShardIndex) (S : list f64) : Prop :=
  match c with
  | Waiting cold n | Summing cold n => cold = inverse hot ∧ n = size S
  | Draining cold n _ k cum acc =>
      cold = inverse hot ∧ n = size S ∧ (k <= length ub)%nat ∧ cum = csum k S ∧ acc = expected k S
  | Adding cold n _ k c cum acc =>
      cold = inverse hot ∧ n = size S ∧ (k < length ub)%nat ∧ c = cnt k S ∧ cum = csum k S ∧ acc = expected k S
  | Closing cold n _ acc | Finishing cold n _ acc =>
      cold = inverse hot ∧ n = size S ∧ acc = expected (length ub) S
  end.

Definition waiting (c : option collector) : Prop := match c with Some (Waiting _ _) => True | _ => False end.

(** A snapshot of the observations [S], all of which had started when the histogram
    had started [all] *)
Definition snapshot_ok (all : list f64) (p : HistogramProto * list f64) : Prop :=
  p.2 `prefix_of` all ∧ sample_count p.1 = size p.2 ∧ bucket p.1 = expected (length ub) p.2.

Definition top_bit hot : Z := match hot with First => 0 | Second => 2 ^ 63 end.

Record inv hot (S R : list f64) h : Prop := {
  inv_bounds : upper_bounds h = ub;
  inv_sc : shard_and_count h = top_bit hot + size (started h);
  inv_started : started h = S ++ R;
  inv_flipped : match collecting h with Some _ => flipped h = S | None => S = [] end;
  inv_len i : length (buckets (shard i h)) = length ub;
  inv_bucket i j : (j < length ub)%nat →
    buckets (shard i h) !! j = Some (wrap 64 (target (collecting h) S R hot i j - pend j i (observers h)));
  inv_count i : count (shard i h) = wrap 64 (target_n (collecting h) S R hot i - pendn i (observers h));
  inv_pend : pendn hot (observers h) <= size R ∧ pendn (inverse hot) (observers h) <= size S;
  inv_obs : Forall (λ o, 1 <= o_count o) (observers h);
  inv_quiet : waiting (collecting h) ∨ Forall (λ o, o_shard o ≠ inverse hot) (observers h);
  inv_progress : match collecting h with Some c => progress c hot S | None => True end;
  inv_snapshots : Forall (snapshot_ok (started h)) (snapshots h);
}.

(** ** Lemmas on the pieces *)

Lemma inverse_ne i : inverse i ≠ i.
Proof. by destruct i. Qed.
Lemma inverse_inverse i : inverse (inverse i) = i.
Proof. by destruct i. Qed.
Lemma two_shards hot i : i = hot ∨ i = inverse hot.
Proof. destruct hot, i; auto. Qed.

Lemma shard_set_shard i k s h : shard i (set_shard k s h) = if decide (i = k) then s else shard i h.
Proof. by destruct i, k. Qed.

Lemma split_spec hot n :
  0 <= n < 2 ^ 63 → split_shard_index_and_count (top_bit hot + n) = (hot, n).
Proof.
  intros Hn. unfold split_shard_index_and_count. f_equal.
  - rewrite Z.shiftr_div_pow2 by lia. destruct hot; unfold top_bit.
    + rewrite Z.add_0_l, Z.div_small by lia. done.
    + replace (2 ^ 63 + n) with (n + 1 * 2 ^ 63) by lia. rewrite Z.div_add, Z.div_small by lia. done.
  - change (Z.shiftl 1 63 - 1) with (Z.ones 63). rewrite Z.land_ones by lia. destruct hot; unfold top_bit.
    + rewrite Z.add_0_l. by apply Z.mod_small.
    + rewrite Z.add_comm, <-(Z.mul_1_l (2 ^ 63)), Z.mod_add by lia. by apply Z.mod_small.
Qed.

Lemma wrap_small z : 0 <= z < 2 ^ 64 → wrap 64 z = z.
Proof. intros. by apply wrap_id. Qed.

Lemma snapshots_grow all vs l : Forall (snapshot_ok all) l → Forall (snapshot_ok (all ++ vs)) l.
Proof.
  intros Hl. eapply Forall_impl; [exact Hl|]. intros p (Hp & ? & ?). split; [|done]. etrans; [done|]. by apply prefix_app_r.
Qed.

Lemma expected_S k b S :
  ub !! k = Some b →
  expected (Datatypes.S k) S = expected k S ++ [{| cumulative_count := csum (Datatypes.S k) S; upper_bound := b |}].
Proof.
  intros Hb. unfold expected. rewrite (take_S_r _ _ b) by done. rewrite imap_app. simpl.
  rewrite length_take. apply lookup_lt_Some in Hb. rewrite Nat.min_l by lia.
  by replace (k + 0 + 1)%nat with (Datatypes.S k) by lia.
Qed.

(** ** The steps of observers *)

Lemma start_inv hot S R h vs n (o : observer) (mk : ShardIndex → option observer) :
  inv hot S R h → size (started h ++ vs) < 2 ^ 63 →
  n = size vs → 1 <= n → mk hot = Some o →
  o_shard o = hot → o_count o = size vs →
  (∀ j, (j < length ub)%nat → todo j (o_buckets o) = cnt j vs) →
  inv hot S (R ++ vs) (start_observing vs n mk h).
Proof.
  intros Hi Hs -> Hn Hmk Ho Hoc Htodo. rewrite size_app in Hs. pose proof (size_nonneg (started h)).
  assert (Hsplit : split_shard_index_and_count (shard_and_count h) = (hot, size (started h))).
  { rewrite (inv_sc _ _ _ _ Hi). apply split_spec. lia. }
  unfold start_observing. rewrite Hsplit. cbn [fst]. rewrite Hmk.
  destruct Hi as [H1 H2 H3 H4 H5 H6 H7 [H8 H8'] H9 H10 H11 H12].
  split; cbn [upper_bounds shard_and_count started collecting flipped observers snapshots]; try done.
  - unfold shard_inc_by, wrapping_add. rewrite H2, size_app. rewrite wrap_small; [lia|].
    destruct hot; unfold top_bit; lia.
  - by rewrite H3, app_assoc.
  - intros i j Hj. change (shard i _) with (shard i h). rewrite H6, pend_cons by done. do 2 f_equal.
    unfold target. rewrite cnt_app, Ho. destruct (two_shards hot i) as [->| ->].
    + rewrite !decide_True by done. rewrite Htodo by done. lia.
    + rewrite !decide_False by (apply inverse_ne || apply not_eq_sym, inverse_ne). lia.
  - intros i. change (shard i _) with (shard i h). rewrite H7, pendn_cons. f_equal.
    unfold target_n. rewrite size_app, Ho, Hoc. destruct (two_shards hot i) as [->| ->].
    + rewrite !decide_True by done. lia.
    + rewrite !decide_False by (apply inverse_ne || apply not_eq_sym, inverse_ne). lia.
  - rewrite !pendn_cons, size_app, Ho, Hoc, decide_True, decide_False by (done || apply not_eq_sym, inverse_ne).
    lia.
  - constructor; [lia|done].
  - destruct H10 as [?|Hq]; [by left|right]. constructor; [|done]. rewrite Ho. apply not_eq_sym, inverse_ne.
  - by apply snapshots_grow.
Qed.

(** one piece of the work of one observer *)
Lemma work_inv hot S R h l1 o o' l2 s (keep : bool) :
  inv hot S R h → observers h = l1 ++ o :: l2 →
  o_shard o' = o_shard o → o_count o' = o_count o →
  let obs := if keep then l1 ++ o' :: l2 else l1 ++ l2 in
  (if keep then True else ∀ j, todo j (o_buckets o) = 0) →
  length (buckets s) = length ub →
  (∀ j x, (j < length ub)%nat → buckets (shard (o_shard o) h) !! j = Some (wrap 64 x) →
     buckets s !! j = Some (wrap 64 (x + todo j (o_buckets o) - if keep then todo j (o_buckets o') else 0))) →
  (∀ x, count (shard (o_shard o) h) = wrap 64 x → count s = wrap 64 (x + if keep then 0 else o_count o)) →
  inv hot S R (set_shard (o_shard o) s (set_observers obs h)).
Proof.
  intros Hi Hobs Hs' Hc' obs Hdone Hlen Hb Hn.
  assert (Hpend : ∀ j i, pend j i (observers h) =
    (if decide (o_shard o = i) then todo j (o_buckets o) - (if keep then todo j (o_buckets o') else 0) else 0) + pend j i obs).
  { intros j i. unfold obs. rewrite Hobs. destruct keep; rewrite !pend_split, ?Hs'; case_decide; lia. }
  assert (Hpendn : ∀ i, pendn i (observers h) =
    (if decide (o_shard o = i) then (if keep then 0 else o_count o) else 0) + pendn i obs).
  { intros i. unfold obs. rewrite Hobs. destruct keep; rewrite !pendn_split, ?Hs', ?Hc'; case_decide; lia. }
  destruct Hi as [H1 H2 H3 H4 H5 H6 H7 H8 H9 H10 H11 H12].
  assert (Hfor : ∀ P : observer → Prop, (P o → P o') → Forall P (observers h) → Forall P obs).
  { intros P HP. unfold obs. rewrite Hobs, !Forall_app, Forall_cons. intros (Hf1 & Hf & Hf2).
    destruct keep; rewrite Forall_app, ?Forall_cons; auto. }
  assert (Hone : 1 <= o_count o).
  { rewrite Hobs, Forall_app, Forall_cons in H9. tauto. }
  split; cbn [upper_bounds shard_and_count started collecting flipped observers snapshots set_shard set_observers];
    try done.
  - intros i. rewrite shard_set_shard. case_decide; [done|apply H5].
  - intros i j Hj. rewrite shard_set_shard. specialize (H6 i j Hj). rewrite Hpend in H6.
    destruct (decide (i = o_shard o)) as [Hk|Hk]; [subst i|].
    + rewrite (Hb j _ Hj H6). do 2 f_equal. rewrite decide_True by done. lia.
    + change (shard i (set_observers obs h)) with (shard i h). rewrite H6. do 2 f_equal.
      rewrite decide_False by congruence. lia.
  - intros i. rewrite shard_set_shard. specialize (H7 i). rewrite Hpendn in H7.
    destruct (decide (i = o_shard o)) as [Hk|Hk]; [subst i|].
    + rewrite (Hn _ H7). f_equal. rewrite decide_True by done. lia.
    + change (shard i (set_observers obs h)) with (shard i h). rewrite H7. f_equal.
      rewrite decide_False by congruence. lia.
  - rewrite !Hpendn in H8. destruct keep; repeat case_decide; lia.
  - apply Hfor; [by rewrite Hc'|done].
  - destruct H10 as [?|Hq]; [by left|right]. apply Hfor; [by rewrite Hs'|done].
Qed.

Lemma wrap_wrap_add x d : wrapping_add 64 (wrap 64 x) d = wrap 64 (x + d).
Proof. unfold wrapping_add, wrap. by rewrite Z.add_mod_idemp_l. Qed.

Lemma observer_steps_inv hot S R h h' :
  inv hot S R h →
  (∃ l1 o l2 (k : nat) d rest, observers h = l1 ++ o :: l2 ∧ o_buckets o = (k, d) :: rest ∧
     h' = set_shard (o_shard o) (add_bucket k d (shard (o_shard o) h))
            (set_observers (l1 ++ {| o_shard := o_shard o; o_buckets := rest; o_sum := o_sum o;
                                     o_count := o_count o |} :: l2) h)) ∨
  (∃ l1 o l2 v, observers h = l1 ++ o :: l2 ∧ o_buckets o = [] ∧ o_sum o = Some v ∧
     h' = set_shard (o_shard o) (add_sum v (shard (o_shard o) h))
            (set_observers (l1 ++ {| o_shard := o_shard o; o_buckets := []; o_sum := None;
                                     o_count := o_count o |} :: l2) h)) ∨
  (∃ l1 o l2, observers h = l1 ++ o :: l2 ∧ o_buckets o = [] ∧
     h' = set_shard (o_shard o) (add_count (o_count o) (shard (o_shard o) h)) (set_observers (l1 ++ l2) h)) →
  inv hot S R h'.
Proof.
  intros Hi [(l1 & o & l2 & k & d & rest & Ho & Hb & ->)|[(l1 & o & l2 & v & Ho & Hb & Hs & ->)|(l1 & o & l2 & Ho & Hb & ->)]].
  - apply (work_inv hot S R h l1 o _ l2 _ true Hi Ho); try done.
    + simpl. rewrite length_alter. apply (inv_len _ _ _ _ Hi).
    + intros j x Hj Hx. simpl. rewrite Hb, todo_cons. simpl. destruct (decide (k = j)) as [->|Hne].
      * rewrite list_lookup_alter_eq, Hx. simpl. rewrite wrap_wrap_add. do 2 f_equal. lia.
      * rewrite list_lookup_alter_ne, Hx by done. do 2 f_equal. lia.
    + intros x Hx. simpl. by rewrite Hx, Z.add_0_r.
  - apply (work_inv hot S R h l1 o _ l2 _ true Hi Ho); try done.
    + apply (inv_len _ _ _ _ Hi).
    + intros j x Hj Hx. simpl. rewrite Hx, Hb. do 2 f_equal. lia.
    + intros x Hx. simpl. by rewrite Hx, Z.add_0_r.
  - apply (work_inv hot S R h l1 o o l2 _ false Hi Ho); try done.
    + intros j. by rewrite Hb.
    + apply (inv_len _ _ _ _ Hi).
    + intros j x Hj Hx. simpl. rewrite Hx, Hb. do 2 f_equal. unfold todo. simpl. lia.
    + intros x Hx. simpl. by rewrite Hx, wrap_wrap_add.
Qed.

(** ** The steps of the collector *)

Lemma collector_inv hot S R h c c' k s :
  inv hot S R h → collecting h = Some c → progress c' hot S →
  (waiting (Some c') ∨ Forall (λ o, o_shard o ≠ inverse hot) (observers h)) →
  length (buckets s) = length ub →
  (∀ j, (j < length ub)%nat →
     buckets s !! j = Some (wrap 64 (target (Some c') S R hot k j - pend j k (observers h)))) →
  count s = wrap 64 (target_n (Some c') S R hot k - pendn k (observers h)) →
  (∀ j, (j < length ub)%nat → target (Some c) S R hot (inverse k) j = target (Some c') S R hot (inverse k) j) →
  target_n (Some c) S R hot (inverse k) = target_n (Some c') S R hot (inverse k) →
  inv hot S R (set_collecting (Some c') (set_shard k s h)).
Proof.
  intros [H1 H2 H3 H4 H5 H6 H7 H8 H9 H10 H11 H12] Hc Hp Hq Hl Hb Hn Hb' Hn'. rewrite Hc in *.
  assert (Hsh : ∀ i, shard i (set_collecting (Some c') (set_shard k s h)) = if decide (i = k) then s else shard i h).
  { intros i. rewrite <-(shard_set_shard i k s h). by destruct i. }
  split; cbn [upper_bounds shard_and_count started collecting flipped observers snapshots set_shard set_collecting];
    try done.
  - intros i. rewrite Hsh. case_decide; [done|apply H5].
  - intros i j Hj. rewrite Hsh. destruct (decide (i = k)) as [->|Hne]; [by apply Hb|].
    rewrite H6 by done. do 2 f_equal. assert (i = inverse k) as -> by (by destruct i, k). by rewrite Hb'.
  - intros i. rewrite Hsh. destruct (decide (i = k)) as [->|Hne]; [by apply Hn|].
    rewrite H7. f_equal. assert (i = inverse k) as -> by (by destruct i, k). by rewrite Hn'.
Qed.

Lemma target_hot c S R hot j : target c S R hot hot j = moved c S j + cnt j R.
Proof. unfold target. by rewrite decide_True. Qed.
Lemma target_cold c S R hot j : target c S R hot (inverse hot) j = remaining c S j.
Proof. unfold target. by rewrite decide_False by apply inverse_ne. Qed.
Lemma target_n_hot c S R hot : target_n c S R hot hot = moved_n c S + size R.
Proof. unfold target_n. by rewrite decide_True. Qed.
Lemma target_n_cold c S R hot : target_n c S R hot (inverse hot) = remaining_n c S.
Proof. unfold target_n. by rewrite decide_False by apply inverse_ne. Qed.

Lemma quiet_observers hot S R h :
  inv hot S R h → ¬ waiting (collecting h) →
  Forall (λ o, o_shard o ≠ inverse hot) (observers h) ∧
  (∀ j, pend j (inverse hot) (observers h) = 0) ∧ pendn (inverse hot) (observers h) = 0.
Proof.
  intros Hi Hw. destruct (inv_quiet _ _ _ _ Hi) as [?|Hq]; [done|].
  split; [done|]. split; [intros j; by apply pend_none|by apply pendn_none].
Qed.

Lemma exchange_inv hot S R h cold n :
  inv hot S R h → size S < 2 ^ 63 → collecting h = Some (Waiting cold n) → count (shard cold h) = n →
  inv hot S R (set_collecting (Some (Summing cold n)) (set_shard cold (set_count 0 (shard cold h)) h)).
Proof.
  intros Hi HS Hc Hn. pose proof (inv_progress _ _ _ _ Hi) as Hp. rewrite Hc in Hp. destruct Hp as [-> ->].
  pose proof (inv_count _ _ _ _ Hi (inverse hot)) as Hcount. rewrite Hc, target_n_cold, Hn in Hcount. simpl in Hcount.
  pose proof (pendn_nonneg (inverse hot) _ (inv_obs _ _ _ _ Hi)) as Hge.
  pose proof (proj2 (inv_pend _ _ _ _ Hi)) as Hle. pose proof (size_nonneg S).
  rewrite wrap_small in Hcount by lia.
  assert (Hz : pendn (inverse hot) (observers h) = 0) by lia.
  pose proof (pendn_zero _ _ (inv_obs _ _ _ _ Hi) Hz) as Hq.
  eapply (collector_inv hot S R h (Waiting (inverse hot) (size S))); [done|done|done|by right|..].
  - apply (inv_len _ _ _ _ Hi).
  - intros j Hj. simpl. rewrite (inv_bucket _ _ _ _ Hi) by done. by rewrite Hc, !target_cold.
  - simpl. rewrite target_n_cold, Hz. done.
  - intros j Hj. by rewrite inverse_inverse, !target_hot.
  - by rewrite inverse_inverse, !target_n_hot.
Qed.

Lemma swap_sum_inv hot S R h cold n :
  inv hot S R h → collecting h = Some (Summing cold n) →
  inv hot S R (set_collecting (Some (Draining cold n (sum (shard cold h)) 0 0 []))
                 (set_shard cold (set_sum f64_zero (shard cold h)) h)).
Proof.
  intros Hi Hc. pose proof (inv_progress _ _ _ _ Hi) as Hp. rewrite Hc in Hp. destruct Hp as [-> ->].
  destruct (quiet_observers hot S R h Hi) as (Hq & _ & _); [rewrite Hc; by intros []|].
  eapply (collector_inv hot S R h (Summing (inverse hot) (size S))); [done|done| |by right|..].
  - simpl. split; [done|]. split; [done|]. split; [lia|]. done.
  - apply (inv_len _ _ _ _ Hi).
  - intros j Hj. simpl. rewrite (inv_bucket _ _ _ _ Hi) by done. rewrite Hc, !target_cold. simpl.
    done.
  - simpl. by rewrite (inv_count _ _ _ _ Hi), Hc, !target_n_cold.
  - intros j Hj. rewrite inverse_inverse, !target_hot. simpl. done.
  - by rewrite inverse_inverse, !target_n_hot.
Qed.

Lemma swap_bucket_inv hot S R h cold n s k cum acc b c :
  inv hot S R h → size S < 2 ^ 63 → collecting h = Some (Draining cold n s k cum acc) →
  ub !! k = Some b → buckets (shard cold h) !! k = Some c →
  inv hot S R (set_collecting (Some (Adding cold n s k c cum acc))
                 (set_shard cold (set_bucket k 0 (shard cold h)) h)).
Proof.
  intros Hi HS Hc Hb Hk. pose proof (inv_progress _ _ _ _ Hi) as Hp. rewrite Hc in Hp.
  destruct Hp as (-> & -> & Hle & -> & ->). apply lookup_lt_Some in Hb.
  destruct (quiet_observers hot S R h Hi) as (Hq & Hq0 & _); [rewrite Hc; by intros []|].
  pose proof (inv_bucket _ _ _ _ Hi (inverse hot) k Hb) as Hck. rewrite Hk, Hc, target_cold, Hq0 in Hck.
  simpl in Hck. rewrite decide_False in Hck by lia. rewrite Z.sub_0_r in Hck. injection Hck as ->.
  pose proof (cnt_bounds ub k S). rewrite wrap_small by lia.
  eapply (collector_inv hot S R h (Draining (inverse hot) (size S) s k (csum k S) (expected k S)));
    [done|done| |by right|..].
  - simpl. split; [done|]. split; [done|]. split; [done|]. done.
  - simpl. rewrite length_insert. apply (inv_len _ _ _ _ Hi).
  - intros j Hj. simpl. rewrite target_cold, Hq0. simpl. destruct (decide (j = k)) as [->|Hne].
    + rewrite list_lookup_insert_eq by (rewrite (inv_len _ _ _ _ Hi); done). by rewrite decide_True by lia.
    + rewrite list_lookup_insert_ne by done. rewrite (inv_bucket _ _ _ _ Hi) by done.
      rewrite Hc, target_cold, Hq0. simpl. destruct (decide (j < k)%nat), (decide (j <= k)%nat); try done; lia.
  - simpl. by rewrite (inv_count _ _ _ _ Hi), Hc, !target_n_cold.
  - intros j Hj. by rewrite inverse_inverse, !target_hot.
  - by rewrite inverse_inverse, !target_n_hot.
Qed.

Lemma add_bucket_inv hot S R h cold n s k c cum acc b :
  inv hot S R h → size S < 2 ^ 63 → collecting h = Some (Adding cold n s k c cum acc) → ub !! k = Some b →
  inv hot S R (set_collecting
    (Some (Draining cold n s (Datatypes.S k) (wrapping_add 64 cum c)
             (acc ++ [{| cumulative_count := wrapping_add 64 cum c; upper_bound := b |}])))
    (set_shard (inverse cold) (add_bucket k c (shard (inverse cold) h)) h)).
Proof.
  intros Hi HS Hc Hb. pose proof (inv_progress _ _ _ _ Hi) as Hp. rewrite Hc in Hp.
  destruct Hp as (-> & -> & Hk & -> & -> & ->).
  destruct (quiet_observers hot S R h Hi) as (Hq & Hq0 & _); [rewrite Hc; by intros []|].
  assert (Hcum : wrapping_add 64 (csum k S) (cnt k S) = csum (Datatypes.S k) S).
  { rewrite csum_S. unfold wrapping_add. apply wrap_small. rewrite <-csum_S, csum_filter.
    pose proof (length_filter (λ v, below ub (Datatypes.S k) v = true) S). unfold size in HS. lia. }
  rewrite Hcum, inverse_inverse.
  eapply (collector_inv hot S R h (Adding (inverse hot) (size S) s k (cnt k S) (csum k S) (expected k S)));
    [done|done| |by right|..].
  - simpl. split; [done|]. split; [done|]. split; [lia|]. split; [done|]. by rewrite <-expected_S.
  - simpl. rewrite length_alter. apply (inv_len _ _ _ _ Hi).
  - intros j Hj. simpl. rewrite target_hot. simpl. destruct (decide (k = j)) as [->|Hne].
    + rewrite list_lookup_alter_eq, (inv_bucket _ _ _ _ Hi) by done. simpl. rewrite Hc, target_hot. simpl.
      rewrite wrap_wrap_add, decide_False, decide_True by lia. do 2 f_equal. lia.
    + rewrite list_lookup_alter_ne, (inv_bucket _ _ _ _ Hi) by done. rewrite Hc, target_hot. simpl.
      destruct (decide (j < k)%nat), (decide (j < Datatypes.S k)%nat); try done; lia.
  - simpl. by rewrite (inv_count _ _ _ _ Hi), Hc, !target_n_hot.
  - intros j Hj. rewrite !target_cold. simpl.
    destruct (decide (j <= k)%nat), (decide (j < Datatypes.S k)%nat); try done; lia.
  - by rewrite !target_n_cold.
Qed.

Lemma set_shard_id k h : set_shard k (shard k h) h = h.
Proof. by destruct h, k. Qed.

Lemma drained_inv hot S R h cold n s k cum acc :
  inv hot S R h → collecting h = Some (Draining cold n s k cum acc) → k = length ub →
  inv hot S R (set_collecting (Some (Closing cold n s acc)) h).
Proof.
  intros Hi Hc ->. pose proof (inv_progress _ _ _ _ Hi) as Hp. rewrite Hc in Hp.
  destruct Hp as (-> & -> & _ & -> & ->).
  destruct (quiet_observers hot S R h Hi) as (Hq & Hq0 & _); [rewrite Hc; by intros []|].
  rewrite <-(set_shard_id (inverse hot) h) at 1.
  eapply (collector_inv hot S R h (Draining _ _ _ _ _ _)); [done|exact Hc|done|by right|..].
  - apply (inv_len _ _ _ _ Hi).
  - intros j Hj. rewrite (inv_bucket _ _ _ _ Hi), Hc, !target_cold by done. simpl.
    by rewrite decide_True by done.
  - by rewrite (inv_count _ _ _ _ Hi), Hc, !target_n_cold.
  - intros j Hj. rewrite inverse_inverse, !target_hot. simpl. by rewrite decide_True by done.
  - by rewrite inverse_inverse, !target_n_hot.
Qed.

Lemma add_count_inv hot S R h cold n s acc :
  inv hot S R h → collecting h = Some (Closing cold n s acc) →
  inv hot S R (set_collecting (Some (Finishing cold n s acc))
                 (set_shard (inverse cold) (add_count n (shard (inverse cold) h)) h)).
Proof.
  intros Hi Hc. pose proof (inv_progress _ _ _ _ Hi) as Hp. rewrite Hc in Hp. destruct Hp as (-> & -> & ->).
  destruct (quiet_observers hot S R h Hi) as (Hq & Hq0 & _); [rewrite Hc; by intros []|].
  rewrite inverse_inverse.
  eapply (collector_inv hot S R h (Closing _ _ _ _)); [done|exact Hc|done|by right|..].
  - apply (inv_len _ _ _ _ Hi).
  - intros j Hj. simpl. by rewrite (inv_bucket _ _ _ _ Hi), Hc, !target_hot by done.
  - simpl. rewrite (inv_count _ _ _ _ Hi), Hc, !target_n_hot. simpl. rewrite wrap_wrap_add. f_equal. lia.
  - intros j Hj. by rewrite !target_cold.
  - by rewrite !target_n_cold.
Qed.

(** Flipping: what was hot is cold, and has everything that has started. *)
Lemma flip_inv hot S R h :
  inv hot S R h → size (started h) < 2 ^ 63 → collecting h = None → inv (inverse hot) (started h) [] (do_flip h).
Proof.
  intros Hi Hs Hc. pose proof (quiet_observers hot S R h Hi) as Hquiet. rewrite Hc in Hquiet.
  destruct Hquiet as (Hq & Hq0 & Hqn); [by intros []|].
  destruct Hi as [H1 H2 H3 H4 H5 H6 H7 [H8 H8'] H9 H10 H11 H12]. rewrite Hc in *. subst S. simpl in H3.
  pose proof (size_nonneg (started h)).
  unfold do_flip. rewrite H2, split_spec by lia.
  split; cbn [upper_bounds shard_and_count started collecting flipped observers snapshots]; try done.
  - unfold shard_flip, wrapping_add. change (Z.shiftl 1 63) with (2 ^ 63). destruct hot; unfold top_bit; simpl inverse.
    + rewrite wrap_small by lia. lia.
    + unfold wrap. replace (2 ^ 63 + size (started h) + 2 ^ 63) with (size (started h) + 1 * 2 ^ 64) by lia.
      rewrite Z.mod_add, Z.mod_small by lia. lia.
  - by rewrite app_nil_r.
  - intros i j Hj. change (shard i _) with (shard i h). rewrite H6 by done. do 2 f_equal.
    destruct (two_shards hot i) as [->| ->].
    + rewrite target_hot. unfold target. rewrite decide_False by apply not_eq_sym, inverse_ne. simpl. by rewrite H3.
    + rewrite target_cold, target_hot. done.
  - intros i. change (shard i _) with (shard i h). rewrite H7. f_equal. destruct (two_shards hot i) as [->| ->].
    + rewrite target_n_hot. unfold target_n. rewrite decide_False by apply not_eq_sym, inverse_ne. simpl. by rewrite H3.
    + rewrite target_n_cold, target_n_hot. done.
  - rewrite inverse_inverse, Hqn, H3. split; [done|]. done.
  - by left.
  - simpl. by rewrite inverse_inverse.
Qed.

Lemma finish_inv hot S R h cold n s acc :
  inv hot S R h → collecting h = Some (Finishing cold n s acc) →
  inv hot [] (started h) (finish cold n s acc h).
Proof.
  intros Hi Hc. pose proof (inv_progress _ _ _ _ Hi) as Hp. rewrite Hc in Hp. destruct Hp as (-> & -> & ->).
  destruct (quiet_observers hot S R h Hi) as (Hq & Hq0 & Hqn); [rewrite Hc; by intros []|].
  destruct Hi as [H1 H2 H3 H4 H5 H6 H7 [H8 H8'] H9 H10 H11 H12]. rewrite Hc in *.
  unfold finish. rewrite inverse_inverse.
  assert (Hsh : ∀ i o c sn f, shard i {| shard_and_count := shard_and_count h;
      first := first (set_shard hot (add_sum s (shard hot h)) h);
      second := second (set_shard hot (add_sum s (shard hot h)) h); upper_bounds := upper_bounds h;
      observers := o; collecting := c; started := started h; flipped := f; snapshots := sn |} =
    if decide (i = hot) then add_sum s (shard hot h) else shard i h).
  { intros i o c sn f. by destruct i, hot. }
  assert (Hbuckets : ∀ i, buckets (if decide (i = hot) then add_sum s (shard hot h) else shard i h) = buckets (shard i h)).
  { intros i. by destruct (decide (i = hot)) as [->|]. }
  assert (Hcount : ∀ i, count (if decide (i = hot) then add_sum s (shard hot h) else shard i h) = count (shard i h)).
  { intros i. by destruct (decide (i = hot)) as [->|]. }
  assert (Hcnt : ∀ j, cnt j (started h) = cnt j S + cnt j R) by (intros j; by rewrite H3, cnt_app).
  assert (Hsize : size (started h) = size S + size R) by by rewrite H3, size_app.
  split; cbn [upper_bounds shard_and_count started collecting flipped observers snapshots set_shard]; try done.
  - intros i. setoid_rewrite Hsh. by rewrite Hbuckets.
  - intros i j Hj. setoid_rewrite Hsh. rewrite Hbuckets, H6 by done. do 2 f_equal.
    destruct (two_shards hot i) as [->| ->].
    + rewrite !target_hot, Hcnt. simpl. lia.
    + rewrite !target_cold. done.
  - intros i. setoid_rewrite Hsh. rewrite Hcount, H7. f_equal. destruct (two_shards hot i) as [->| ->].
    + rewrite !target_n_hot, Hsize. simpl. lia.
    + rewrite !target_n_cold. done.
  - rewrite Hqn, Hsize. pose proof (size_nonneg S). split; [lia|done].
  - constructor; [|done]. rewrite H4. split; [|by split]. simpl. rewrite H3. by apply prefix_app_r.
Qed.

(** ** Every step *)
Lemma hist_step_started h h' : hist_step h h' → ∃ vs, started h' = started h ++ vs.
Proof.
  destruct 1; try (exists []; by rewrite app_nil_r); try (by eexists).
Qed.

Lemma hist_step_inv hot S R h h' :
  hist_step h h' → size (started h') < 2 ^ 63 → inv hot S R h → ∃ hot' S' R', inv hot' S' R' h'.
Proof.
  intros Hstep Hs Hi. destruct (hist_step_started _ _ Hstep) as [ws Hws]. pose proof Hs as Hs0.
  rewrite Hws, size_app in Hs0. pose proof (size_nonneg ws). pose proof (size_nonneg (started h)).
  assert (HS : size S < 2 ^ 63).
  { rewrite (inv_started _ _ _ _ Hi), size_app in Hs0. pose proof (size_nonneg R). lia. }
  pose proof (inv_bounds _ _ _ _ Hi) as Hub.
  destruct Hstep as [v|vs l Hl Hne|l1 o l2 i d rest Ho Hb|l1 o l2 v Ho Hb Hsum|l1 o l2 Ho Hb Hsum|Hc|cold n Hc Hn
    |cold n Hc|cold n s k cum acc b c Hc Hbk Hk|cold n s k c cum acc b Hc Hbk|cold n s k cum acc Hc Hk|cold n s acc Hc
    |cold n s acc Hc].
  - exists hot, S, (R ++ [v]). apply (start_inv hot S R h [v] 1 (observer_of ub hot v)); try done.
    + by rewrite Hub.
    + intros j _. apply observer_of_todo.
  - exists hot, S, (R ++ vs). simpl in Hs. rewrite size_app in Hs. pose proof (size_nonneg vs).
    rewrite Hub in Hl. subst l. destruct (local_repr ub vs) as [Hn _]. cbv zeta in Hn.
    assert (Hlc : l_count (foldl (local_observe ub) (local_clear (length ub)) vs) = size vs).
    { rewrite Hn. apply wrap_small. lia. }
    destruct (local_flush hot (foldl (local_observe ub) (local_clear (length ub)) vs)) as [o|] eqn:Ef.
    2:{ unfold local_flush in Ef. by case_decide. }
    destruct (local_flush_todo ub vs hot o ltac:(lia) Ef) as (Ho & Hoc & Htodo).
    apply (start_inv hot S R h vs _ o); try done; [rewrite size_app; lia|lia].
  - exists hot, S, R. eapply observer_steps_inv; [done|left]. by exists l1, o, l2, i, d, rest.
  - exists hot, S, R. eapply observer_steps_inv; [done|right; left]. by exists l1, o, l2, v.
  - exists hot, S, R. eapply observer_steps_inv; [done|right; right]. by exists l1, o, l2.
  - exists (inverse hot), (started h), []. apply (flip_inv hot S R h); [done|lia|done].
  - exists hot, S, R. by apply exchange_inv.
  - exists hot, S, R. by apply swap_sum_inv.
  - rewrite Hub in Hbk. exists hot, S, R. by eapply swap_bucket_inv.
  - rewrite Hub in Hbk. exists hot, S, R. by apply add_bucket_inv.
  - rewrite Hub in Hk. exists hot, S, R. by eapply drained_inv.
  - exists hot, S, R. by apply add_count_inv.
  - exists hot, [], (started h). by eapply finish_inv.
Qed.

Lemma init_inv : inv First [] [] (histogram_init ub).
Proof.
  split; simpl; try done.
  - intros i. by destruct i; simpl; rewrite length_replicate.
  - intros i j Hj. destruct i; simpl; rewrite lookup_replicate_2 by done; unfold target; simpl; by rewrite ?cnt_nil.
  - intros i. by destruct i.
  - by right.
Qed.

Lemma reachable_inv h :
  rtc hist_step (histogram_init ub) h → size (started h) < 2 ^ 63 → ∃ hot S R, inv hot S R h.
Proof.
  intros Hrun. revert h Hrun. apply (rtc_ind_r (λ h, size (started h) < 2 ^ 63 → ∃ hot S R, inv hot S R h)).
  - intros _. exists First, [], []. apply init_inv.
  - intros a b _ Hab IH Hs. destruct (hist_step_started _ _ Hab) as [ws Hws].
    assert (Ha : size (started a) < 2 ^ 63).
    { rewrite Hws, size_app in Hs. pose proof (size_nonneg ws). lia. }
    destruct (IH Ha) as (hot & S & R & Hi). by eapply hist_step_inv.
Qed.

(** ** The theorems *)

(** C1. Every collected histogram is the exact statistic of the observations that had
    started when the collection began, however observers, flushes of local
    histograms and collections interleave: its count is their number, and the
    cumulative count of each bucket is the number of them at most its upper bound. *)
Theorem snapshot_exact h p S :
  increasing ub → rtc hist_step (histogram_init ub) h → size (started h) < 2 ^ 63 → (p, S) ∈ snapshots h →
  S `prefix_of` started h ∧ sample_count p = size S ∧ length (bucket p) = length ub ∧
  ∀ (k : nat) b, ub !! k = Some b →
    bucket p !! k = Some {| cumulative_count := Z.of_nat (length (filter (λ v, f64_le v b = true) S));
                            upper_bound := b |}.
Proof.
  intros Hinc Hrun Hs Hin. destruct (reachable_inv h Hrun Hs) as (hot & S0 & R & Hi).
  pose proof (inv_snapshots _ _ _ _ Hi) as Hsn. rewrite Forall_forall in Hsn.
  destruct (Hsn _ Hin) as (Hp & Hc & Hb). simpl in Hp, Hc, Hb.
  split; [done|]. split; [done|]. rewrite Hb. unfold expected. rewrite firstn_all. split; [apply length_imap|].
  intros k b Hbk. rewrite list_lookup_imap, Hbk. simpl.
  by rewrite Nat.add_1_r, (csum_le ub k b S Hinc Hbk).
Qed.

(** The collector's loop ends as soon as the observers on the shard it waits for have
    finished, and not before. *)
Theorem collector_waits_exactly h cold n :
  rtc hist_step (histogram_init ub) h → size (started h) < 2 ^ 63 → collecting h = Some (Waiting cold n) →
  count (shard cold h) = n ↔ Forall (λ o, o_shard o ≠ cold) (observers h).
Proof.
  intros Hrun Hs Hc. destruct (reachable_inv h Hrun Hs) as (hot & S & R & Hi).
  pose proof (inv_progress _ _ _ _ Hi) as Hp. rewrite Hc in Hp. destruct Hp as [-> ->].
  pose proof (inv_count _ _ _ _ Hi (inverse hot)) as Hcount. rewrite Hc, target_n_cold in Hcount. simpl in Hcount.
  pose proof (pendn_nonneg (inverse hot) _ (inv_obs _ _ _ _ Hi)) as Hge.
  pose proof (proj2 (inv_pend _ _ _ _ Hi)) as Hle.
  assert (HS : size S <= size (started h)).
  { rewrite (inv_started _ _ _ _ Hi), size_app. pose proof (size_nonneg R). lia. }
  rewrite wrap_small in Hcount by lia. rewrite Hcount. split.
  - intros Heq. apply pendn_zero; [apply (inv_obs _ _ _ _ Hi)|lia].
  - intros Hq. rewrite pendn_none by done. lia.
Qed.

(** [get_sample_count] is the number of observations that have started, at any time. *)
Theorem sample_count_exact h :
  rtc hist_step (histogram_init ub) h → size (started h) < 2 ^ 63 → get_sample_count h = size (started h).
Proof.
  intros Hrun Hs. destruct (reachable_inv h Hrun Hs) as (hot & S & R & Hi).
  unfold get_sample_count. rewrite (inv_sc _ _ _ _ Hi), split_spec; [done|].
  pose proof (size_nonneg (started h)). lia.
Qed.
End inv.

(** ** Bounds *)

Lemma f64_lt_trans a b c : f64_lt a b = true → f64_lt b c = true → f64_lt a c = true.
Proof.
  unfold f64_lt, SpecFloat.SFltb, SpecFloat.SFcompare.
  destruct a as [sa|[]| |[] ma ea], b as [sb|[]| |[] mb eb], c as [sc|[]| |[] mc ec]; try done;
    unfold CompOpp; compare_cases; done || lia.
Qed.

Lemma f64_lt_infinity b : f64_lt f64_infinity b = false.
Proof. by destruct b as [s|[]| |[] m e]. Qed.

Section bounds.
Context (f64_to_string : f64 → string).

Lemma check_increasing_spec l i a b :
  check_increasing f64_to_string l = Ok tt → l !! i = Some a → l !! S i = Some b → f64_ge a b = false.
Proof.
  revert i. induction l as [|x l IH]; intros i Hc Ha Hb; [done|]. destruct l as [|y l]; [by destruct i|].
  simpl in Hc. destruct (f64_ge x y) eqn:E; [done|]. destruct i as [|i]; [by simplify_eq/=|].
  by apply (IH i).
Qed.

Lemma check_increasing_increasing l :
  check_increasing f64_to_string l = Ok tt → Forall (λ b, b ≠ SpecFloat.S754_nan) l → increasing l.
Proof.
  intros Hc Hn i j a b Hij Ha Hb. rewrite Forall_lookup in Hn.
  assert (Hd : ∃ d, j = (i + S d)%nat) by (exists (j - i - 1)%nat; lia). destruct Hd as [d ->].
  revert b Hb Hij. induction d as [|d IH]; intros b Hb Hij.
  - apply (f64_ge_lt a b); [by eapply Hn|by eapply Hn|].
    apply (check_increasing_spec l i); [done|done|]. by replace (S i) with (i + 1)%nat by lia.
  - destruct (l !! (i + S d)%nat) as [c|] eqn:Ec.
    2:{ apply lookup_ge_None in Ec. apply lookup_lt_Some in Hb. lia. }
    eapply f64_lt_trans; [apply (IH c); [done|lia]|]. apply (f64_ge_lt c b); [by eapply Hn|by eapply Hn|].
    apply (check_increasing_spec l (i + S d)); [done|done|]. by replace (S (i + S d)) with (i + S (S d))%nat by lia.
Qed.

Lemma increasing_take n l : increasing l → increasing (take n l).
Proof.
  intros Hl i j a b Hij (Ha & _)%lookup_take_Some (Hb & _)%lookup_take_Some. by apply (Hl i j).
Qed.

(** Accepted bounds without a NaN are strictly increasing, and infinity, which is
    implicit, is not among them. *)
Theorem adjusted_buckets_increasing l ub :
  Forall (λ b, b ≠ SpecFloat.S754_nan) l → check_and_adjust_buckets f64_to_string l = Ok ub →
  increasing ub ∧ f64_infinity ∉ ub.
Proof.
  unfold check_and_adjust_buckets. intros Hn.
  set (bs := if decide (length l = 0%nat) then DEFAULT_BUCKETS else l).
  assert (Hnb : Forall (λ b, b ≠ SpecFloat.S754_nan) bs).
  { unfold bs. case_decide; [|done]. by repeat apply List.Forall_cons. }
  destruct (check_increasing f64_to_string bs) as [[]|] eqn:Ec; [|done]. simpl.
  pose proof (check_increasing_increasing bs Ec Hnb) as Hinc.
  assert (Hinf : ∀ i, bs !! i = Some f64_infinity → (length bs <= S i)%nat).
  { intros i Hi. destruct (bs !! S i) as [b|] eqn:Eb; [|by apply lookup_ge_None in Eb].
    pose proof (Hinc i (S i) _ _ ltac:(lia) Hi Eb) as Hlt. by rewrite f64_lt_infinity in Hlt. }
  destruct (last bs) as [tail|] eqn:Et; intros [= <-].
  - destruct (f64_is_sign_positive tail && f64_is_infinite tail) eqn:Ei.
    + split; [by apply increasing_take|]. intros (i & (Hi & Hlt)%lookup_take_Some)%list_elem_of_lookup.
      specialize (Hinf i Hi). lia.
    + split; [done|]. intros (i & Hi)%list_elem_of_lookup. specialize (Hinf i Hi).
      rewrite last_lookup in Et. apply lookup_lt_Some in Hi as Hlt.
      replace (pred (length bs)) with i in Et by lia. rewrite Hi in Et. by simplify_eq.
  - apply last_None in Et. rewrite Et. split; [|by apply not_elem_of_nil]. by intros i j a b _ Ha.
Qed.

(** A NaN gets past the check, and the bounds around it may be in any order. *)
Lemma nan_bounds_accepted :
  check_and_adjust_buckets f64_to_string [f64_of_Z 2; SpecFloat.S754_nan; f64_of_Z 1] =
  Ok [f64_of_Z 2; SpecFloat.S754_nan; f64_of_Z 1].
Proof. reflexivity. Qed.
End bounds.

(** ** A run: an observation that is under way while the shards are flipped *)
Module HistRun.
Definition ub : list f64 := [f64_of_Z 1; f64_of_Z 2].
Definition v : f64 := f64_of_Z 2.
Definition ob (todo : list (nat * Z)) (s : option f64) : observer :=
  {| o_shard := First; o_buckets := todo; o_sum := s; o_count := 1 |}.
Definition s0 : histogram := histogram_init ub.
Definition s1 : histogram := start_observing [v] 1 (λ i, Some (observer_of ub i v)) s0.
Definition s2 : histogram := do_flip s1.
Definition s3 : histogram :=
  set_shard First (add_bucket 1 1 (shard First s2)) (set_observers [ob [] (Some v)] s2).
Definition s4 : histogram := start_observing [v] 1 (λ i, Some (observer_of ub i v)) s3.
Definition late : observer := {| o_shard := Second; o_buckets := [(1%nat, 1)]; o_sum := Some v; o_count := 1 |}.
Definition s5 : histogram :=
  set_shard First (add_sum v (shard First s4)) (set_observers [late; ob [] None] s4).
Definition s6 : histogram := set_shard First (add_count 1 (shard First s5)) (set_observers [late] s5).
Definition s7 : histogram :=
  set_collecting (Some (Summing First 1)) (set_shard First (set_count 0 (shard First s6)) s6).
Definition s8 : histogram :=
  set_collecting (Some (Draining First 1 (sum (shard First s7)) 0 0 []))
    (set_shard First (set_sum f64_zero (shard First s7)) s7).
Definition s9 : histogram :=
  set_collecting (Some (Adding First 1 (sum (shard First s7)) 0 0 0 []))
    (set_shard First (set_bucket 0 0 (shard First s8)) s8).
Definition b1 : Bucket := {| cumulative_count := 0; upper_bound := f64_of_Z 1 |}.
Definition b2 : Bucket := {| cumulative_count := 1; upper_bound := f64_of_Z 2 |}.
Definition s10 : histogram :=
  set_collecting (Some (Draining First 1 (sum (shard First s7)) 1 0 [b1]))
    (set_shard Second (add_bucket 0 0 (shard Second s9)) s9).
Definition s11 : histogram :=
  set_collecting (Some (Adding First 1 (sum (shard First s7)) 1 1 0 [b1]))
    (set_shard First (set_bucket 1 0 (shard First s10)) s10).
Definition s12 : histogram :=
  set_collecting (Some (Draining First 1 (sum (shard First s7)) 2 1 [b1; b2]))
    (set_shard Second (add_bucket 1 1 (shard Second s11)) s11).
Definition s13 : histogram := set_collecting (Some (Closing First 1 (sum (shard First s7)) [b1; b2])) s12.
Definition s14 : histogram :=
  set_collecting (Some (Finishing First 1 (sum (shard First s7)) [b1; b2]))
    (set_shard Second (add_count 1 (shard Second s13)) s13).
Definition s15 : histogram := finish First 1 (sum (shard First s7)) [b1; b2] s14.

Lemma steps_waiting : rtc hist_step s0 s4.
Proof.
  eapply rtc_l; [exact (step_observe s0 v)|].
  eapply rtc_l; [by apply (step_flip s1)|].
  eapply rtc_l; [by apply (step_bucket s2 [] (ob [(1%nat, 1)] (Some v)) [] 1 1 [])|].
  apply rtc_once, (step_observe s3 v).
Qed.

Lemma hist_run : rtc hist_step s0 s15.
Proof.
  etrans; [exact steps_waiting|].
  eapply rtc_l; [by apply (step_sum s4 [late] (ob [] (Some v)) [] v)|].
  eapply rtc_l; [by apply (step_count s5 [late] (ob [] None) [])|].
  eapply rtc_l; [by apply (step_exchange s6 First 1)|].
  eapply rtc_l; [by apply (step_swap_sum s7 First 1)|].
  eapply rtc_l; [by apply (step_swap_bucket s8 First 1 (sum (shard First s7)) 0 0 [] (f64_of_Z 1) 0)|].
  eapply rtc_l; [by apply (step_add_bucket s9 First 1 (sum (shard First s7)) 0 0 0 [] (f64_of_Z 1))|].
  eapply rtc_l; [by apply (step_swap_bucket s10 First 1 (sum (shard First s7)) 1 0 [b1] (f64_of_Z 2) 1)|].
  eapply rtc_l; [by apply (step_add_bucket s11 First 1 (sum (shard First s7)) 1 1 0 [b1] (f64_of_Z 2))|].
  eapply rtc_l; [by apply (step_drained s12 First 1 (sum (shard First s7)) 2 1 [b1; b2])|].
  eapply rtc_l; [by apply (step_add_count s13 First 1 (sum (shard First s7)) [b1; b2])|].
  apply rtc_once. by apply (step_finish s14).
Qed.

Lemma ub_increasing : increasing ub.
Proof.
  intros i j a b Hij Ha Hb. destruct i as [|i], j as [|[|j]]; simpl in *; try lia; try done.
  injection Ha as <-. injection Hb as <-. reflexivity.
Qed.
End HistRun.

Example snapshot_exact_holds :
  rtc hist_step (histogram_init HistRun.ub) HistRun.s15 ∧
  ∃ p, (p, [HistRun.v]) ∈ snapshots HistRun.s15 ∧ sample_count p = 1 ∧ bucket p !! 1%nat = Some HistRun.b2.
Proof.
  split; [exact HistRun.hist_run|].
  pose (p := {| sample_count := 1; sample_sum := sum (shard First HistRun.s7); bucket := [HistRun.b1; HistRun.b2] |}).
  assert (Hin : (p, [HistRun.v]) ∈ snapshots HistRun.s15) by (apply elem_of_cons; left; reflexivity).
  exists p. split; [exact Hin|].
  destruct (snapshot_exact HistRun.ub HistRun.s15 p [HistRun.v] HistRun.ub_increasing HistRun.hist_run
              ltac:(reflexivity) Hin) as (_ & Hc & _ & Hb).
  split; [exact Hc|]. rewrite (Hb 1%nat (f64_of_Z 2) eq_refl). reflexivity.
Defined.

Example collector_waits_exactly_holds :
  rtc hist_step (histogram_init HistRun.ub) HistRun.s4 ∧ collecting HistRun.s4 = Some (Waiting First 1) ∧
  count (shard First HistRun.s4) ≠ 1.
Proof.
  split; [exact HistRun.steps_waiting|].
  assert (Hc : collecting HistRun.s4 = Some (Waiting First 1)) by reflexivity.
  split; [exact Hc|]. intros Heq.
  apply (collector_waits_exactly HistRun.ub HistRun.s4 First 1 HistRun.steps_waiting ltac:(reflexivity) Hc) in Heq.
  apply List.Forall_inv_tail, List.Forall_inv in Heq. by apply Heq.
Defined.

Example sample_count_exact_holds :
  rtc hist_step (histogram_init HistRun.ub) HistRun.s4 ∧ get_sample_count HistRun.s4 = 2.
Proof.
  split; [exact HistRun.steps_waiting|].
  exact (sample_count_exact HistRun.ub HistRun.s4 HistRun.steps_waiting ltac:(reflexivity)).
Defined.

Example adjusted_buckets_increasing_holds :
  let l := [f64_of_Z 1; f64_of_Z 2; f64_infinity] in
  check_and_adjust_buckets (λ _, "") l = Ok [f64_of_Z 1; f64_of_Z 2] ∧ increasing [f64_of_Z 1; f64_of_Z 2].
Proof.
  intros l.
  assert (Hok : check_and_adjust_buckets (λ _, "") l = Ok [f64_of_Z 1; f64_of_Z 2]) by reflexivity.
  split; [exact Hok|].
  apply (adjusted_buckets_increasing (λ _, "") l); [|exact Hok].
  repeat apply List.Forall_cons; [discriminate..|apply List.Forall_nil].
Defined.
