(* ===== verification/LocalMetrics.v ===== *)
(** * Local metrics: [LocalHistogram] and [LocalHistogramVec] of [prometheus/src/histogram.rs],
    [GenericLocalCounterVec] of [counter.rs], and [auto_flush.rs]

    A local metric collects for one thread what it later adds to a shared one.  The
    vectors of local metrics only use the interface [LocalMetric], whose laws say in
    which sense nothing is lost; counters and histograms are its two instances.
    A thread runs alone here: how a flush interleaves with other threads is the subject
    of [HistogramInv] and [Atomics]. *)
From Stdlib Require Import ZArith Lia.
From S2P Require Import Prelude BTree Float64 Metrics MetricsFacts Atomics MetricVec Histogram HistogramFacts.

(** ** The interface *)

(** [local_of] is [.local()] of the shared metric; [drop_local] is what happens when a
    local metric goes out of scope. *)
Class LocalMetric (L G : Type) := {
  local_of : G → L;
  flush : L → G → L * G;
  drop_local : L → G → G;
}.

(** What was counted is an element of a commutative monoid: [pending] in the local metric,
    [visible] in the shared one. *)
Class Amount (W : Type) `{Equiv W} := {
  amount_add : W → W → W;
  amount_zero : W;
  amount_equiv :: Equivalence (≡@{W});
  amount_proper :: Proper ((≡) ==> (≡) ==> (≡)) amount_add;
  amount_assoc a b c : amount_add a (amount_add b c) ≡ amount_add (amount_add a b) c;
  amount_comm a b : amount_add a b ≡ amount_add b a;
  amount_zero_l a : amount_add amount_zero a ≡ a;
}.
Infix "⊕" := amount_add (at level 50, left associativity).

Class LocalMetricLaws (L G W : Type) `{LocalMetric L G, Amount W} := {
  pending : L → W;
  visible : G → W;
  pending_local_of s : pending (local_of s) ≡ amount_zero;
  flush_conserves l s : visible (flush l s).2 ⊕ pending (flush l s).1 ≡ visible s ⊕ pending l;
  (** a local metric of this shared one; only its operations touch it *)
  local_to : L → G → Prop;
  local_to_flush l s : local_to l s → local_to (flush l s).1 (flush l s).2;
  local_to_other l l' s : local_to l s → local_to l (flush l' s).2;
  flush_empties l s : local_to l s → pending (flush l s).1 ≡ amount_zero;
}.

(** ** Vectors of local metrics *)
Section local_vec.
Context {L G : Type} `{LocalMetric L G}.
Context (fnv : bytes → Z).
Context {P : Type} (build : P → list string → gmap nat G → MetricsResult (nat * gmap nat G))
        (debug_vals : list string → string).

(** The local metrics by hash, with the references of their shared metrics; the vector
    they come from; and the memory of shared metrics. *)
Record LocalVec := {
  locals : gmap Z (nat * L);
  vec : MetricVecCore (M := nat) (P := P);
  store : gmap nat G;
}.

(** [new], and [clone]: no local metric is copied *)
Definition LocalVec_new (v : MetricVecCore) (s : gmap nat G) : LocalVec :=
  {| locals := ∅; vec := v; store := s |}.
Definition LocalVec_clone (w : LocalVec) : LocalVec := LocalVec_new (vec w) (store w).

(** [with_label_values]: the key of the local metric; the unwraps panic, [None]. *)
Definition with_label_values (vals : list string) (w : LocalVec) : option (Z * LocalVec) :=
  match hash_label_values fnv (vec w) vals with
  | Err _ => None
  | Ok hash =>
      match locals w !! hash with
      | Some _ => Some (hash, w)
      | None =>
          match get_metric_with_label_values fnv build (vec w) vals (store w) with
          | (Ok r, v, st) =>
              s ← st !! r;
              Some (hash, {| locals := <[hash := (r, local_of s)]> (locals w); vec := v; store := st |})
          | (Err _, _, _) => None
          end
      end
  end.

(** An operation on the local metric with this key *)
Definition update_local (f : L → L) (hash : Z) (w : LocalVec) : LocalVec :=
  {| locals := alter (λ rl, (rl.1, f rl.2)) hash (locals w); vec := vec w; store := store w |}.

(** [remove_label_values]: the local metric is dropped, then the shared one is deleted
    from its vector. *)
Definition remove_label_values (vals : list string) (w : LocalVec) : MetricsResult unit * LocalVec :=
  match hash_label_values fnv (vec w) vals with
  | Err e => (Err e, w)
  | Ok hash =>
      let st := match locals w !! hash with
                | Some (r, l) => alter (drop_local l) r (store w)
                | None => store w
                end in
      let '(res, v) := delete_label_values fnv debug_vals (vec w) vals in
      (res, {| locals := delete hash (locals w); vec := v; store := st |})
  end.

(** One turn of the loop of [flush] *)
Definition flush_key (w : LocalVec) (hash : Z) : LocalVec :=
  match locals w !! hash with
  | Some (r, l) =>
      match store w !! r with
      | Some s => let '(l, s) := flush l s in
                  {| locals := <[hash := (r, l)]> (locals w); vec := vec w; store := <[r := s]> (store w) |}
      | None => w
      end
  | None => w
  end.

Definition LocalVec_flush (w : LocalVec) : LocalVec := foldl flush_key w (map_to_list (locals w)).*1.

(** ** Auto-flushing: [auto_flush.rs] on a thread's root metric

    An operation on one of its local metrics, then [may_flush]. *)
Record AutoFlush := { af_root : LocalVec; last_flush : Z }.

Definition may_flush (now interval_ms : Z) (a : AutoFlush) : AutoFlush :=
  let '(due, last) := try_flush now (last_flush a) interval_ms in
  {| af_root := if (due : bool) then LocalVec_flush (af_root a) else af_root a; last_flush := last |}.

Definition af_update (now interval_ms : Z) (f : L → L) (hash : Z) (a : AutoFlush) : AutoFlush :=
  may_flush now interval_ms {| af_root := update_local f hash (af_root a); last_flush := last_flush a |}.

Definition af_flush (a : AutoFlush) : AutoFlush :=
  {| af_root := LocalVec_flush (af_root a); last_flush := last_flush a |}.
End local_vec.
Arguments LocalVec L G P : clear implicits.
Arguments AutoFlush L G P : clear implicits.

(** ** Counters *)
Section counters.
Context {T : Type} (N : Number T).

(** [GenericLocalCounter] has no [Drop]. *)
Definition counter_local : LocalMetric T (Value T) :=
  {| local_of _ := local_new N; flush := Atomics.local_flush N; drop_local _ s := s |}.
End counters.

(** ** Histograms *)

(** [lh_values] is a ghost: the values observed since the last flush. *)
Record LocalHistogram := { lh_core : LocalHistogramCore; lh_values : list f64 }.

Definition LocalHistogram_clear (num_buckets : nat) : LocalHistogram :=
  {| lh_core := local_clear num_buckets; lh_values := [] |}.
(** [.local()]; a clone is cleared, so it is a new one too *)
Definition LocalHistogram_new (h : histogram) : LocalHistogram := LocalHistogram_clear (length (upper_bounds h)).
Definition LocalHistogram_observe (h : histogram) (v : f64) (l : LocalHistogram) : LocalHistogram :=
  {| lh_core := local_observe (upper_bounds h) (lh_core l) v; lh_values := lh_values l ++ [v] |}.
Definition LocalHistogram_get_sample_sum (l : LocalHistogram) : f64 := l_sum (lh_core l).
Definition LocalHistogram_get_sample_count (l : LocalHistogram) : Z := l_count (lh_core l).

(** what the observer has left to do, without interruption *)
Definition run_observer (o : observer) (h : histogram) : histogram :=
  let s := foldl (λ s iv, add_bucket iv.1 iv.2 s) (shard (o_shard o) h) (o_buckets o) in
  let s := match o_sum o with Some v => add_sum v s | None => s end in
  set_shard (o_shard o) (add_count (o_count o) s) h.

Definition LocalHistogram_flush (l : LocalHistogram) (h : histogram) : LocalHistogram * histogram :=
  match Histogram.local_flush (split_shard_index_and_count (shard_and_count h)).1 (lh_core l) with
  | None => (l, h)
  | Some o =>
      (LocalHistogram_clear (length (l_counts (lh_core l))),
       run_observer o (start_observing (lh_values l) (l_count (lh_core l)) (λ _, None) h))
  end.

(** [Drop] flushes. *)
#[export] Instance histogram_local : LocalMetric LocalHistogram histogram :=
  {| local_of := LocalHistogram_new; flush := LocalHistogram_flush; drop_local l h := (LocalHistogram_flush l h).2 |}.

(** *** Timers: a [LocalHistogramTimer] has a cleared clone of its own

    [elapsed] is what its clock shows whenever it is read. *)
Record LocalHistogramTimer := { lt_local : LocalHistogram; lt_observed : bool }.

Definition local_start_timer (h : histogram) : LocalHistogramTimer :=
  {| lt_local := LocalHistogram_new h; lt_observed := false |}.
Definition local_timer_observe (h : histogram) (elapsed : f64) (record : bool) (t : LocalHistogramTimer)
    : LocalHistogramTimer :=
  {| lt_local := if record then LocalHistogram_observe h elapsed (lt_local t) else lt_local t;
     lt_observed := true |}.
(** [Drop] of the timer, then of its local histogram *)
Definition local_timer_drop (elapsed : f64) (t : LocalHistogramTimer) (h : histogram) : histogram :=
  let t := if negb (lt_observed t) then local_timer_observe h elapsed true t else t in
  drop_local (lt_local t) h.
(** the ways a timer ends *)
Definition local_timer_end (e : timer_end) (elapsed : f64) (h : histogram) : histogram :=
  let t := local_start_timer h in
  match e with
  | StopAndRecord => local_timer_drop elapsed (local_timer_observe h elapsed true t) h
  | StopAndDiscard => local_timer_drop elapsed (local_timer_observe h elapsed false t) h
  | JustDrop => local_timer_drop elapsed t h
  end.
