(* ===== verification/LocalMetricsFacts.v ===== *)
(** * Local metrics lose nothing

    Flushing moves what a vector of local metrics has pending to the shared metrics,
    proved against the interface; that counters and histograms implement it; and that
    the flush of a histogram is a run of the steps of [Histogram]. *)
From Stdlib Require Import ZArith Lia.
From S2P Require Import Prelude BTree Float64 Metrics MetricsFacts Atomics MetricVec Histogram HistogramFacts LocalMetrics.

(** ** Amounts *)
Section amount.
Context `{Amount W}.
Implicit Types a b c : W.

Lemma amount_zero_r a : a ⊕ amount_zero ≡ a.
Proof. by rewrite amount_comm, amount_zero_l. Qed.

Lemma amount_swap a b c : a ⊕ (b ⊕ c) ≡ b ⊕ (a ⊕ c).
Proof. by rewrite !amount_assoc, (amount_comm a b). Qed.
End amount.

(** ** Vectors *)
Section conserved.
Context {L G W : Type} `{LocalMetricLaws L G W}.
Context {P : Type}.
Implicit Types (w : LocalVec L G P) (m : gmap Z (nat * L)).

(** What the local metrics of a shared one have pending *)
Definition part (r : nat) (rl : nat * L) : W := if decide (rl.1 = r) then pending rl.2 else amount_zero.
Definition pending_of (r : nat) m : W := map_fold (λ _ rl acc, part r rl ⊕ acc) amount_zero m.

Lemma pending_of_insert r m h rl : m !! h = None → pending_of r (<[h := rl]> m) ≡ part r rl ⊕ pending_of r m.
Proof.
  intros Hh. unfold pending_of. apply (map_fold_insert (≡@{W}) (λ _ rl acc, part r rl ⊕ acc)); [| |done].
  - intros _ x a b Hab. by rewrite Hab.
  - intros _ _ x y z _ _ _. apply amount_swap.
Qed.

Lemma pending_of_lookup r m h rl :
  m !! h = Some rl → pending_of r m ≡ part r rl ⊕ pending_of r (delete h m).
Proof.
  intros Hh. rewrite <-pending_of_insert by apply lookup_delete_eq.
  by rewrite insert_delete_eq, insert_id.
Qed.

(** everything counted for a shared metric *)
Definition total (r : nat) w : W := default amount_zero (visible <$> store w !! r) ⊕ pending_of r (locals w).

Lemma flush_key_total r w h : total r (flush_key w h) ≡ total r w.
Proof.
  unfold flush_key. destruct (locals w !! h) as [[r' l]|] eqn:Eh; [|done].
  destruct (store w !! r') as [s|] eqn:Es; [|done].
  pose proof (flush_conserves l s) as Hc. destruct (flush l s) as [l' s'] eqn:Ef. unfold total. simpl in *.
  rewrite (pending_of_lookup r (<[h := (r', l')]> _) h (r', l')) by apply lookup_insert_eq.
  rewrite (pending_of_lookup r (locals w) h (r', l)) by done. rewrite delete_insert_eq.
  unfold part. simpl. destruct (decide (r' = r)) as [->|Hne].
  - rewrite lookup_insert_eq, Es. simpl. by rewrite !amount_assoc, Hc.
  - by rewrite lookup_insert_ne.
Qed.

Lemma flush_keys_total r hs w : total r (foldl flush_key w hs) ≡ total r w.
Proof. revert w. induction hs as [|h hs IH]; intros w; simpl; [done|]. by rewrite IH, flush_key_total. Qed.

(** every local metric belongs to the shared one it refers to *)
Definition entries_ok w : Prop :=
  ∀ h r l, locals w !! h = Some (r, l) → ∃ s, store w !! r = Some s ∧ local_to l s.
Definition emptied w (h : Z) : Prop := ∀ r l, locals w !! h = Some (r, l) → pending l ≡ amount_zero.

Lemma flush_key_ok w h : entries_ok w → entries_ok (flush_key w h).
Proof.
  intros Hok. unfold flush_key. destruct (locals w !! h) as [[r l]|] eqn:Eh; [|done].
  destruct (Hok _ _ _ Eh) as (s & Es & Hs). rewrite Es.
  pose proof (local_to_flush l s Hs) as Hf. pose proof (λ l', local_to_other l' l s) as Ho.
  destruct (flush l s) as [l' s']. simpl in *. intros h' r' l0 Hl. simpl in *.
  apply lookup_insert_Some in Hl as [[<- [= <- <-]]|[Hne Hl]]; [exists s'; by rewrite lookup_insert_eq|].
  destruct (Hok _ _ _ Hl) as (s0 & E0 & Hs0). destruct (decide (r' = r)) as [->|Hr].
  - exists s'. rewrite lookup_insert_eq. split; [done|]. apply Ho. by simplify_eq.
  - exists s0. by rewrite lookup_insert_ne.
Qed.

Lemma flush_key_emptied w h h' :
  entries_ok w → h' = h ∨ emptied w h' → emptied (flush_key w h) h'.
Proof.
  intros Hok Hh. unfold flush_key, emptied in *. destruct (locals w !! h) as [[r l]|] eqn:Eh.
  - destruct (Hok _ _ _ Eh) as (s & Es & Hs). rewrite Es. pose proof (flush_empties l s Hs) as He.
    destruct (flush l s) as [l' s']. simpl in *. intros r0 l0 Hl.
    apply lookup_insert_Some in Hl as [[<- [= <- <-]]|[Hne Hl]]; [done|]. destruct Hh as [->|Hh]; [done|by eapply Hh].
  - destruct Hh as [->|Hh]; [|done]. intros r0 l0. by rewrite Eh.
Qed.

Lemma flush_key_dom w h : dom (locals (flush_key w h)) = dom (locals w).
Proof.
  unfold flush_key. destruct (locals w !! h) as [[r l]|] eqn:Eh; [|done].
  destruct (store w !! r) as [s|]; [|done]. destruct (flush l s) as [l' s']. simpl.
  apply dom_insert_lookup_L. by eexists.
Qed.

Lemma flush_keys_emptied hs w :
  entries_ok w → entries_ok (foldl flush_key w hs) ∧
  ∀ h, h ∈ hs ∨ emptied w h → emptied (foldl flush_key w hs) h.
Proof.
  revert w. induction hs as [|k hs IH]; intros w Hok; simpl.
  { split; [done|]. intros h [Hin|He]; [by apply elem_of_nil in Hin|done]. }
  destruct (IH (flush_key w k) (flush_key_ok w k Hok)) as [Hok' He]. split; [done|].
  intros h Hh. apply He. destruct Hh as [[->|Hin]%elem_of_cons|Hh]; [right|by left|right];
    apply flush_key_emptied; auto.
Qed.

Lemma flush_keys_dom hs w : dom (locals (foldl flush_key w hs)) = dom (locals w).
Proof. revert w. induction hs as [|h hs IH]; intros w; simpl; [done|]. by rewrite IH, flush_key_dom. Qed.

Lemma pending_of_empty r m :
  (∀ h r' l, m !! h = Some (r', l) → pending l ≡ amount_zero) → pending_of r m ≡ amount_zero.
Proof.
  induction m as [|h rl m Hh IH] using map_ind; intros Hm; [done|].
  rewrite pending_of_insert by done. rewrite IH.
  - unfold part. case_decide; [|apply amount_zero_l]. destruct rl as [r' l].
    rewrite (Hm h r' l) by apply lookup_insert_eq. apply amount_zero_l.
  - intros h' r' l Hl. apply (Hm h' r' l). rewrite lookup_insert_ne by congruence. done.
Qed.

Lemma local_vec_flush_total w r s' :
  entries_ok w → store (LocalVec_flush w) !! r = Some s' →
  visible s' ≡ total r w ∧ pending_of r (locals (LocalVec_flush w)) ≡ amount_zero.
Proof.
  intros Hok Hs. unfold LocalVec_flush in *. set (hs := (map_to_list (locals w)).*1) in *.
  destruct (flush_keys_emptied hs w Hok) as [_ He].
  assert (Hz : pending_of r (locals (foldl flush_key w hs)) ≡ amount_zero).
  { apply pending_of_empty. intros h r' l Hl. refine (He h _ r' l Hl). left.
    assert (Hd : h ∈ dom (locals (foldl flush_key w hs))) by by eapply elem_of_dom_2.
    rewrite flush_keys_dom in Hd. apply elem_of_dom in Hd as [rl Hrl].
    apply list_elem_of_fmap. exists (h, rl). split; [done|]. by apply elem_of_map_to_list. }
  split; [|done]. rewrite <-(flush_keys_total r hs w). unfold total. rewrite Hs, Hz. simpl.
  by rewrite amount_zero_r.
Qed.

End conserved.

(** ** Integer counters: amounts modulo 2^64 *)
Inductive count64 := Count (n : Z).
Definition count_of (c : count64) : Z := let 'Count n := c in n.
#[export] Instance count64_equiv : Equiv count64 := λ a b, (count_of a mod 2 ^ 64 = count_of b mod 2 ^ 64)%Z.

#[export] Program Instance count64_amount : Amount count64 :=
  {| amount_add a b := Count (count_of a + count_of b); amount_zero := Count 0 |}.
Next Obligation. split; unfold equiv, count64_equiv; [by intros a|by intros a b|by intros a b c -> ->]. Qed.
Next Obligation.
  intros a a' Ha b b' Hb. unfold equiv, count64_equiv in *. simpl.
  by rewrite Z.add_mod, Ha, Hb, <-Z.add_mod by done.
Qed.
Next Obligation. intros a b c. unfold equiv, count64_equiv. simpl. f_equal. lia. Qed.
Next Obligation. intros a b. unfold equiv, count64_equiv. simpl. f_equal. lia. Qed.
Next Obligation. intros a. done. Qed.

Lemma u64_flush_cases (l : Z) (s : Value Z) :
  Atomics.local_flush u64_number l s = if (l =? 0)%Z then (l, s) else (0%Z, Value_inc_by u64_number l s).
Proof. done. Qed.

Definition u64_local : LocalMetric Z (Value Z) := counter_local u64_number.
#[export] Existing Instance u64_local.

#[export] Program Instance u64_laws : LocalMetricLaws Z (Value Z) count64 :=
  {| pending := Count; visible s := Count (val s); local_to _ _ := True |}.
Next Obligation. done. Qed.
Next Obligation.
  intros l s. unfold flush, u64_local, counter_local. rewrite u64_flush_cases.
  destruct (Z.eqb_spec l 0) as [->|Hl]; [done|].
  unfold equiv, count64_equiv. simpl. unfold wrapping_add, wrap. by rewrite Z.add_0_r, Z.mod_mod.
Qed.
Next Obligation. done. Qed.
Next Obligation. done. Qed.
Next Obligation.
  intros l s _. unfold flush, u64_local, counter_local. rewrite u64_flush_cases.
  by destruct (Z.eqb_spec l 0) as [->|Hl].
Qed.

(** ** Histograms: the multiset of observed values *)
Inductive bag := Bag (l : list f64).
Definition bag_list (b : bag) : list f64 := let 'Bag l := b in l.
#[export] Instance bag_equiv : Equiv bag := λ a b, bag_list a ≡ₚ bag_list b.

#[export] Program Instance bag_amount : Amount bag :=
  {| amount_add a b := Bag (bag_list a ++ bag_list b); amount_zero := Bag [] |}.
Next Obligation. split; unfold equiv, bag_equiv; [by intros a|by intros a b|by intros a b c -> ->]. Qed.
Next Obligation. intros a a' Ha b b' Hb. unfold equiv, bag_equiv in *. simpl. by rewrite Ha, Hb. Qed.
Next Obligation. intros a b c. unfold equiv, bag_equiv. simpl. by rewrite app_assoc. Qed.
Next Obligation. intros a b. unfold equiv, bag_equiv. simpl. apply Permutation_app_comm. Qed.
Next Obligation. intros [l]. by unfold equiv, bag_equiv. Qed.

(** A local histogram is determined by its pending values, and has seen fewer than 2^63. *)
Definition local_histogram_ok (l : LocalHistogram) (h : histogram) : Prop :=
  lh_core l = foldl (local_observe (upper_bounds h)) (local_clear (length (upper_bounds h))) (lh_values l) ∧
  (size (lh_values l) < 2 ^ 63)%Z.

Lemma local_ok_counts l h : local_histogram_ok l h → length (l_counts (lh_core l)) = length (upper_bounds h).
Proof. intros [-> _]. pose proof (local_repr (upper_bounds h) (lh_values l)) as Hr. by destruct Hr as (_ & Hl & _). Qed.

Lemma local_ok_zero l h : local_histogram_ok l h → l_count (lh_core l) = 0%Z → lh_values l = [].
Proof.
  intros [-> Hs] H0. pose proof (local_repr (upper_bounds h) (lh_values l)) as Hr. cbv zeta in Hr.
  destruct Hr as (Hn & _). rewrite Hn in H0. pose proof (size_nonneg (lh_values l)).
  rewrite wrap_id in H0 by (split; lia). unfold HistogramFacts.size in H0. destruct (lh_values l); [done|]. simpl in H0. lia.
Qed.

Lemma local_flush_cases l h :
  (l_count (lh_core l) = 0%Z ∧ LocalHistogram_flush l h = (l, h)) ∨
  ∃ o, Histogram.local_flush (split_shard_index_and_count (shard_and_count h)).1 (lh_core l) = Some o ∧
    l_count (lh_core l) ≠ 0%Z ∧
    LocalHistogram_flush l h =
      (LocalHistogram_clear (length (l_counts (lh_core l))),
       run_observer o (start_observing (lh_values l) (l_count (lh_core l)) (λ _, None) h)).
Proof.
  unfold LocalHistogram_flush. destruct (Histogram.local_flush _ (lh_core l)) as [o|] eqn:E.
  - right. exists o. split; [done|]. split; [|done]. unfold Histogram.local_flush in E. by case_decide.
  - left. split; [|done]. unfold Histogram.local_flush in E. by case_decide.
Qed.

#[export] Program Instance histogram_laws : LocalMetricLaws LocalHistogram histogram bag :=
  {| pending l := Bag (lh_values l); visible h := Bag (started h); local_to := local_histogram_ok |}.
Next Obligation. done. Qed.
Next Obligation.
  intros l h. simpl. destruct (local_flush_cases l h) as [[_ ->]|(o & _ & _ & ->)]; [done|]. simpl.
  unfold equiv, bag_equiv. simpl. by rewrite app_nil_r.
Qed.
Next Obligation.
  intros l h Hok. simpl. pose proof (local_ok_counts l h Hok) as Hlen.
  destruct (local_flush_cases l h) as [[_ ->]|(o & _ & _ & ->)]; [done|]. simpl. rewrite Hlen.
  by split.
Qed.
Next Obligation.
  intros l l' h Hok. simpl. destruct (local_flush_cases l' h) as [[_ ->]|(o & _ & _ & ->)]; [done|].
  exact Hok.
Qed.
Next Obligation.
  intros l h Hok. simpl. destruct (local_flush_cases l h) as [[H0 ->]|(o & _ & _ & ->)]; [|done]. simpl.
  by rewrite (local_ok_zero l h Hok H0).
Qed.

(** *** The flush of a local histogram is a run of the concurrent steps *)
Lemma run_observer_steps o obs h :
  observers h = obs → rtc hist_step (set_observers (o :: obs) h) (run_observer o h).
Proof.
  destruct o as [sh bs sm n]. revert h. induction bs as [|[i d] bs IH]; intros h Hobs.
  - destruct sm as [v|].
    + eapply rtc_l; [by eapply (step_sum _ [] _ obs v)|]. eapply rtc_l; [by eapply (step_count _ [] _ obs)|].
      destruct h, sh; simpl in *; subst; apply rtc_refl.
    + eapply rtc_l; [by eapply (step_count _ [] _ obs)|]. destruct h, sh; simpl in *; subst; apply rtc_refl.
  - eapply rtc_l; [by eapply (step_bucket _ [] _ obs i d bs)|].
    specialize (IH (set_shard sh (add_bucket i d (shard sh h)) h)).
    destruct h, sh; simpl in *; subst; by apply IH.
Qed.

Lemma local_flush_started l h :
  local_histogram_ok l h → started (LocalHistogram_flush l h).2 = started h ++ lh_values l.
Proof.
  intros Hok. destruct (local_flush_cases l h) as [[H0 ->]|(o & _ & _ & ->)]; simpl; [|done].
  by rewrite (local_ok_zero l h Hok H0), app_nil_r.
Qed.

(** A flush of a local histogram, uninterrupted, is a run of the atomic steps that the
    correctness of histograms is proved for, and its values are observed by it. *)
Theorem local_histogram_flush_runs l h :
  local_histogram_ok l h →
  rtc hist_step h (LocalHistogram_flush l h).2 ∧
  started (LocalHistogram_flush l h).2 = started h ++ lh_values l.
Proof.
  intros Hok. split; [|by apply local_flush_started].
  destruct (local_flush_cases l h) as [[H0 ->]|(o & Ho & Hn & ->)]; simpl; [done|].
  eapply rtc_l; [apply (step_flush h (lh_values l) (lh_core l)); [apply Hok|done]|].
  pose proof (run_observer_steps o (observers h)
    (start_observing (lh_values l) (l_count (lh_core l)) (λ _, None) h) eq_refl) as Hrun.
  unfold start_observing in *. by rewrite Ho.
Qed.

Lemma local_new_ok h : local_histogram_ok (LocalHistogram_new h) h.
Proof. by split. Qed.

Lemma local_observe_ok v l h :
  local_histogram_ok l h → (size (lh_values l) + 1 < 2 ^ 63)%Z → local_histogram_ok (LocalHistogram_observe h v l) h.
Proof.
  intros [Hc Hs] Hlt. split; simpl; [by rewrite foldl_app, <-Hc|]. by rewrite size_app.
Qed.

(** What a timer of a local histogram records goes to the shared histogram at once and
    exactly once, unless it is discarded. *)
Theorem local_timer_records e elapsed h :
  started (local_timer_end e elapsed h) =
    started h ++ match e with StopAndDiscard => [] | _ => [elapsed] end.
Proof.
  pose proof (local_new_ok h) as Hn.
  assert (Ho : local_histogram_ok (LocalHistogram_observe h elapsed (LocalHistogram_new h)) h)
    by by apply local_observe_ok.
  destruct e; [exact (local_flush_started _ h Ho)|exact (local_flush_started _ h Hn)|exact (local_flush_started _ h Ho)].
Qed.

(** Flushing a vector of local metrics loses nothing and counts nothing twice: every
    shared counter ends with its value plus the pending counts of all its local ones,
    modulo 2^64, and every shared histogram with the observed values and the pending
    ones, in some order. *)
Theorem local_vec_flush {P : Type} r :
  (∀ (w : LocalVec Z (Value Z) P) c', entries_ok w → store (LocalVec_flush w) !! r = Some c' →
     (val c' mod 2 ^ 64 = count_of (total r w) mod 2 ^ 64)%Z) ∧
  (∀ (w : LocalVec LocalHistogram histogram P) h', entries_ok w → store (LocalVec_flush w) !! r = Some h' →
     started h' ≡ₚ bag_list (total r w)).
Proof. by split; intros w s' Hok Hs; destruct (local_vec_flush_total w r s' Hok Hs) as [Hv _]. Qed.

(** ** Removing a combination of labels *)
Section remove.
Context {L G : Type} `{LocalMetric L G} (fnv : bytes → Z) {P : Type} (debug_vals : list string → string).

Lemma remove_store vals (w : LocalVec L G P) hash r l s :
  hash_label_values fnv (vec w) vals = Ok hash → locals w !! hash = Some (r, l) → store w !! r = Some s →
  store (remove_label_values fnv debug_vals vals w).2 !! r = Some (drop_local l s).
Proof.
  intros Hh Hl Hs. unfold remove_label_values. rewrite Hh, Hl.
  destruct (delete_label_values fnv debug_vals (vec w) vals). simpl. by rewrite lookup_alter_eq, Hs.
Qed.
End remove.

(** A removed local histogram still delivers what it has pending; what a removed local
    counter has pending is lost. *)
Theorem removed_local_metrics fnv {P} (debug_vals : list string → string) vals hash :
  (∀ (w : LocalVec LocalHistogram histogram P) r l h,
     hash_label_values fnv (vec w) vals = Ok hash → locals w !! hash = Some (r, l) → store w !! r = Some h →
     local_histogram_ok l h →
     ∃ h', store (remove_label_values fnv debug_vals vals w).2 !! r = Some h' ∧ started h' = started h ++ lh_values l) ∧
  (∀ (w : LocalVec Z (Value Z) P) r l c,
     hash_label_values fnv (vec w) vals = Ok hash → locals w !! hash = Some (r, l) → store w !! r = Some c →
     store (remove_label_values fnv debug_vals vals w).2 !! r = Some c).
Proof.
  split.
  - intros w r l h Hh Hl Hs Hok. exists (drop_local l h). split; [by eapply remove_store|].
    by apply local_flush_started.
  - intros w r l c Hh Hl Hs. exact (remove_store fnv debug_vals vals w hash r l c Hh Hl Hs).
Qed.

(** ** Auto-flushing *)
Section auto_flush.
Context {L G W : Type} `{LocalMetricLaws L G W} {P : Type}.

(** After an operation on an auto-flushing metric either everything the thread has
    counted is visible, or the last flush was less than the interval ago. *)
Theorem auto_flush_bounded now interval (f : L → L) hash (a : AutoFlush L G P) r s' :
  entries_ok (update_local f hash (af_root a)) →
  (0 <= last_flush a)%Z → (0 <= interval)%Z → (last_flush a + interval < 2 ^ 64)%Z →
  let a' := af_update now interval f hash a in
  store (af_root a') !! r = Some s' →
  (last_flush a' = now ∧ visible s' ≡ total r (update_local f hash (af_root a))) ∨
  (now < last_flush a' + interval)%Z.
Proof.
  intros Hok Hlast Hi Hlt a' Hs. unfold a', af_update, may_flush, try_flush in *. simpl in *.
  rewrite wrapping_add_small in * by done. case_decide as Hd; simpl in *; [by right|left].
  split; [done|]. by destruct (local_vec_flush_total _ r s' Hok Hs).
Qed.
End auto_flush.

(** ** Two local counters of one shared counter, and a local histogram *)
Module LocalRun.
Definition desc : Desc :=
  {| d_fq_name := "c"; d_help := "h"; const_label_pairs := []; d_variable_labels := ["x"]; id := 0; dim_hash := 0 |}.
Definition counter (n : Z) : Value Z := {| Atomics.v_desc := desc; val := n; val_type := VCounter; label_pairs := [] |}.
Definition core : MetricVecCore (M := nat) (P := unit) :=
  {| children := {[ 1%Z := 0 ]}; v_desc := desc; v_metric_type := COUNTER; opts := tt |}.
Definition w : LocalVec Z (Value Z) unit :=
  {| locals := {[ 1%Z := (0, 3%Z); 2%Z := (0, 4%Z) ]}; vec := core; store := {[ 0 := counter 5 ]} |}.

Lemma w_ok f : entries_ok (update_local f 1 w).
Proof.
  intros h r l Hl. exists (counter 5). split; [|done]. simpl in Hl.
  destruct (decide (h = 1%Z)) as [->|Hne].
  - rewrite lookup_alter_eq in Hl. by injection Hl as <- <-.
  - rewrite lookup_alter_ne in Hl by done. rewrite lookup_insert_ne in Hl by done.
    by apply lookup_singleton_Some in Hl as [_ [= <- <-]].
Qed.

Definition one : f64 := f64_of_Z 1.
Definition h0 : histogram := histogram_init [one].
Definition l0 : LocalHistogram := LocalHistogram_observe h0 one (LocalHistogram_new h0).
End LocalRun.

Example local_vec_flush_holds :
  let w := update_local (λ l : Z, l) 1 LocalRun.w in
  entries_ok w ∧ store (LocalVec_flush w) !! 0 = Some (LocalRun.counter 12) ∧
  (12 mod 2 ^ 64 = count_of (total 0 w) mod 2 ^ 64)%Z.
Proof.
  intros w. assert (Hok : entries_ok w) by exact (LocalRun.w_ok (λ l, l)).
  assert (Hs : store (LocalVec_flush w) !! 0 = Some (LocalRun.counter 12)) by (vm_compute; reflexivity).
  split; [exact Hok|]. split; [exact Hs|].
  exact (proj1 (local_vec_flush 0) w (LocalRun.counter 12) Hok Hs).
Defined.

Example local_histogram_flush_runs_holds :
  local_histogram_ok LocalRun.l0 LocalRun.h0 ∧
  rtc hist_step LocalRun.h0 (LocalHistogram_flush LocalRun.l0 LocalRun.h0).2 ∧
  started (LocalHistogram_flush LocalRun.l0 LocalRun.h0).2 = [LocalRun.one].
Proof.
  assert (Hok : local_histogram_ok LocalRun.l0 LocalRun.h0) by (split; vm_compute; reflexivity).
  split; [exact Hok|]. exact (local_histogram_flush_runs LocalRun.l0 LocalRun.h0 Hok).
Defined.

(** At 50 ms nothing is due; at 120 ms the 3 and 4 pending and the 1 just added arrive. *)
Example auto_flush_bounded_holds :
  let inc l := local_inc u64_number l in
  let a := {| af_root := LocalRun.w; last_flush := 10 |} in
  entries_ok (update_local inc 1 LocalRun.w) ∧
  last_flush (af_update 50 100 inc 1 a) = 10%Z ∧
  store (af_root (af_update 120 100 inc 1 a)) !! 0 = Some (LocalRun.counter 13) ∧
  ((last_flush (af_update 120 100 inc 1 a) = 120%Z ∧
    visible (LocalRun.counter 13) ≡ total 0 (update_local inc 1 LocalRun.w)) ∨
   (120 < last_flush (af_update 120 100 inc 1 a) + 100)%Z).
Proof.
  intros inc a. assert (Hok : entries_ok (update_local inc 1 LocalRun.w)) by exact (LocalRun.w_ok inc).
  assert (Hs : store (af_root (af_update 120 100 inc 1 a)) !! 0 = Some (LocalRun.counter 13)) by (vm_compute; reflexivity).
  split; [exact Hok|]. split; [reflexivity|]. split; [exact Hs|].
  apply (auto_flush_bounded 120 100 inc 1 a 0 (LocalRun.counter 13)); [exact Hok|vm_compute; congruence..|exact Hs].
Defined.
