(* ===== verification/HistogramApi.v ===== *)
(** * Histograms as one thread uses them: the rest of [prometheus/src/histogram.rs]

    [Histogram] has the code as single atomic operations.  Here the methods run from
    their beginning to their end, as a caller sees them when nothing else touches the
    histogram: each is a run of those operations, and together they implement the list of
    the values observed.  The word of [ShardAndCount], instants and timers are here too. *)
From Stdlib Require Import ZArith Lia.
From S2P Require Import Prelude BTree Float64 Metrics Atomics TextEncoder Histogram HistogramFacts HistogramInv LocalMetrics LocalMetricsFacts.
Local Open Scope Z_scope.

(** ** [ShardIndex] and [ShardAndCount] *)

(** [From<u64>] panics, [None], for an index above one. *)
Definition ShardIndex_from (index : Z) : option ShardIndex :=
  if decide (index = 0) then Some First else if decide (index = 1) then Some Second else None.
Definition ShardIndex_to_usize (i : ShardIndex) : nat := match i with First => 0 | Second => 1 end.

Definition ShardAndCount_new : Z := 0.
Definition ShardAndCount_get (n : Z) : ShardIndex * Z := split_shard_index_and_count n.
(** the index and count before, and the new word *)
Definition ShardAndCount_flip (n : Z) : (ShardIndex * Z) * Z := (split_shard_index_and_count n, shard_flip n).
Definition ShardAndCount_inc_by (delta n : Z) : (ShardIndex * Z) * Z :=
  (split_shard_index_and_count n, shard_inc_by delta n).
Definition ShardAndCount_inc (n : Z) : (ShardIndex * Z) * Z := ShardAndCount_inc_by 1 n.

(** ** Instants *)

(** A reading of the two clocks: nanoseconds, and a [timespec] *)
Record Clock := { monotonic : Z; tv_sec : Z; tv_nsec : Z }.
Inductive Instant := Monotonic (t : Z) | MonotonicCoarse (sec nsec : Z).

Definition Instant_now (c : Clock) : Instant := Monotonic (monotonic c).
Definition Instant_now_coarse (c : Clock) : Instant := MonotonicCoarse (tv_sec c) (tv_nsec c).

Definition NANOS_PER_MILLI : Z := 1000000.
Definition MILLIS_PER_SEC : Z := 1000.

(** [i64] arithmetic of a release build; the division truncates *)
Definition timespec_ms (sec nsec : Z) : Z :=
  wrap_i64 (wrap_i64 (sec * MILLIS_PER_SEC) + Z.quot nsec NANOS_PER_MILLI).

(** the [Duration] in nanoseconds *)
Definition elapsed (now : Clock) (i : Instant) : Z :=
  match i with
  | Monotonic t => Z.max 0 (monotonic now - t)
  | MonotonicCoarse sec nsec =>
      let now_ms := timespec_ms (tv_sec now) (tv_nsec now) in
      let t_ms := timespec_ms sec nsec in
      let dur := wrap_i64 (now_ms - t_ms) in
      if decide (dur >= 0) then dur * NANOS_PER_MILLI else 0
  end.
Definition elapsed_sec (now : Clock) (i : Instant) : f64 := duration_to_seconds (elapsed now i).

(** ** Observing and collecting *)

(** [HistogramCore::observe] *)
Definition observe (v : f64) (h : histogram) : histogram :=
  let '(shard_index, _) := ShardAndCount_get (shard_and_count h) in
  run_observer (observer_of (upper_bounds h) shard_index v) (start_observing [v] 1 (λ _, None) h).

(** The loop of [proto] over the bounds, from bucket [i] on; an index out of range panics. *)
Fixpoint drain (cold : ShardIndex) (bounds : list f64) (i : nat) (cumulative : Z) (acc : list Bucket) (h : histogram)
    : option (list Bucket * histogram) :=
  match bounds with
  | [] => Some (acc, h)
  | b :: bounds =>
      c ← buckets (shard cold h) !! i;
      let h := set_shard cold (set_bucket i 0 (shard cold h)) h in
      let h := set_shard (inverse cold) (add_bucket i c (shard (inverse cold) h)) h in
      let cumulative := wrapping_add 64 cumulative c in
      drain cold bounds (S i) cumulative (acc ++ [{| cumulative_count := cumulative; upper_bound := b |}]) h
  end.

(** [HistogramCore::proto]. The loop of the exchange ends when the count of the cold shard
    is that of the flip; otherwise, with nobody to change it, never: [None]. *)
Definition proto (h : histogram) : option (HistogramProto * histogram) :=
  let '((cold, overall), _) := ShardAndCount_flip (shard_and_count h) in
  let h := do_flip h in
  if decide (count (shard cold h) = overall) then
    let h := set_shard cold (set_count 0 (shard cold h)) h in
    let s := sum (shard cold h) in
    let h := set_shard cold (set_sum f64_zero (shard cold h)) h in
    '(acc, h) ← drain cold (upper_bounds h) 0 0 [] h;
    let h := set_shard (inverse cold) (add_count overall (shard (inverse cold) h)) h in
    Some ({| sample_count := overall; sample_sum := s; bucket := acc |}, finish cold overall s acc h)
  else None.

(** ** The word [ShardAndCount] *)

(** Its top bit is always one of the two indices, so reading it never panics; flipping
    turns that bit and keeps the count, counting keeps the bit until 63 bits are full. *)
Lemma shard_and_count_spec (i : ShardIndex) n d :
  0 <= n → 0 <= d → n + d < 2 ^ 63 →
  let w := top_bit i + n in
  fits 64 w ∧ ShardIndex_from (Z.shiftr w 63) = Some i ∧
  ShardAndCount_flip w = ((i, n), top_bit (inverse i) + n) ∧
  ShardAndCount_inc_by d w = ((i, n), top_bit i + (n + d)).
Proof.
  intros Hn Hd Hlt w.
  assert (Hw : fits 64 w) by (unfold w, fits, top_bit; destruct i; lia).
  pose proof (split_spec i n ltac:(lia)) as Hs. split; [done|]. split_and!.
  - assert (Hi : (split_shard_index_and_count w).1 = i) by (unfold w; by rewrite Hs).
    unfold split_shard_index_and_count, fst in Hi. unfold ShardIndex_from.
    revert Hi. rewrite Z.shiftr_div_pow2 by lia.
    assert (Hq : 0 <= w / 2 ^ 63 < 2) by (destruct Hw; split; [apply Z.div_pos; lia|apply Z.div_lt_upper_bound; lia]).
    repeat case_decide; intros <-; done || lia.
  - unfold ShardAndCount_flip. unfold w. rewrite Hs. f_equal. unfold shard_flip, wrapping_add.
    change (Z.shiftl 1 63) with (2 ^ 63). destruct i; simpl inverse; unfold top_bit, wrap.
    + rewrite Z.mod_small; lia.
    + replace (2 ^ 63 + n + 2 ^ 63) with (0 + n + 1 * 2 ^ 64) by lia. rewrite Z.mod_add, Z.mod_small; lia.
  - unfold ShardAndCount_inc_by, w. rewrite Hs. f_equal. unfold shard_inc_by, wrapping_add.
    rewrite wrap_small; [lia|]. unfold top_bit. destruct i; lia.
Qed.

(** ** Elapsed time *)

Lemma wrap_i64_id z : - 2 ^ 63 <= z < 2 ^ 63 → wrap_i64 z = z.
Proof. intros Hz. unfold wrap_i64, wrap. rewrite Z.mod_small; lia. Qed.

(** The coarse clock measures to the millisecond, and never a negative time, whatever the
    two readings are (up to 292 million years from the start of the clock). *)
Lemma coarse_elapsed now sec nsec :
  0 <= sec < 2 ^ 53 → 0 <= nsec < 1000000000 → 0 <= tv_sec now < 2 ^ 53 → 0 <= tv_nsec now < 1000000000 →
  let exact := (tv_sec now * 1000000000 + tv_nsec now) - (sec * 1000000000 + nsec) in
  let e := elapsed now (MonotonicCoarse sec nsec) in
  0 <= e ∧ (exact <= 0 → e = 0) ∧ exact - NANOS_PER_MILLI < e ∧ (0 <= exact → e < exact + NANOS_PER_MILLI).
Proof.
  intros Hs Hn Hns Hnn. cbv zeta.
  assert (Hms : ∀ s n, 0 <= s < 2 ^ 53 → 0 <= n < 1000000000 → timespec_ms s n = s * 1000 + n / 1000000).
  { intros s n Hs' Hn'. unfold timespec_ms, MILLIS_PER_SEC, NANOS_PER_MILLI. rewrite Z.quot_div_nonneg by lia.
    assert (0 <= n / 1000000 < 1000) by (split; [apply Z.div_pos|apply Z.div_lt_upper_bound]; lia).
    rewrite (wrap_i64_id (s * 1000)), wrap_i64_id; lia. }
  unfold elapsed. rewrite !Hms by done. unfold NANOS_PER_MILLI.
  pose proof (Z.div_mod nsec 1000000 ltac:(lia)). pose proof (Z.mod_pos_bound nsec 1000000 ltac:(lia)).
  pose proof (Z.div_mod (tv_nsec now) 1000000 ltac:(lia)). pose proof (Z.mod_pos_bound (tv_nsec now) 1000000 ltac:(lia)).
  rewrite wrap_i64_id by lia. case_decide; split_and!; lia.
Qed.

(** ** Both methods are runs of the atomic operations *)

Lemma set_collecting_idem c c' h : set_collecting c (set_collecting c' h) = set_collecting c h.
Proof. done. Qed.
Lemma set_collecting_shard c k s h : set_collecting c (set_shard k s h) = set_shard k s (set_collecting c h).
Proof. by destruct k. Qed.
Lemma shard_set_collecting k c h : shard k (set_collecting c h) = shard k h.
Proof. by destruct k. Qed.

Lemma observe_runs v h : rtc hist_step h (observe v h).
Proof.
  unfold observe, ShardAndCount_get.
  destruct (split_shard_index_and_count (shard_and_count h)) as [i n] eqn:E.
  eapply rtc_l; [apply (step_observe h v)|].
  pose proof (run_observer_steps (observer_of (upper_bounds h) i v) (observers h)
    (start_observing [v] 1 (λ _, None) h) eq_refl) as Hrun.
  unfold start_observing in *. by rewrite E.
Qed.

(** The loop of [proto] from bucket [i] on *)
Lemma drain_runs cold n s bounds i cum acc acc' h h' :
  drop i (upper_bounds h) = bounds → drain cold bounds i cum acc h = Some (acc', h') →
  ∃ cum', rtc hist_step (set_collecting (Some (Draining cold n s i cum acc)) h)
                        (set_collecting (Some (Draining cold n s (i + length bounds) cum' acc')) h') ∧
    upper_bounds h' = upper_bounds h ∧ observers h' = observers h ∧ started h' = started h ∧
    flipped h' = flipped h ∧ snapshots h' = snapshots h ∧ shard_and_count h' = shard_and_count h ∧
    (∀ k, sum (shard k h') = sum (shard k h)).
Proof.
  revert i cum acc h. induction bounds as [|b bounds IH]; intros i cum acc h Hd; simpl.
  { intros [= <- <-]. rewrite Nat.add_0_r. by exists cum. }
  destruct (buckets (shard cold h) !! i) as [c|] eqn:Ec; [|done]. simpl.
  assert (Hb : upper_bounds h !! i = Some b).
  { rewrite <-(Nat.add_0_r i), <-lookup_drop, Hd. done. }
  set (h1 := set_shard cold (set_bucket i 0 (shard cold h)) h).
  set (h2 := set_shard (inverse cold) (add_bucket i c (shard (inverse cold) h1)) h1).
  intros Hrest. apply IH in Hrest as (cum' & Hrun & Hub & Hobs & Hst & Hfl & Hsn & Hsc & Hsum).
  2:{ change (upper_bounds h2) with (upper_bounds h). rewrite <-Nat.add_1_r, <-drop_drop, Hd. done. }
  exists cum'. rewrite Nat.add_succ_r. split; [|split_and!; try done].
  - eapply rtc_l; [by eapply (step_swap_bucket _ cold n s i cum acc b c)|].
    eapply rtc_l; [|exact Hrun].
    pose proof (step_add_bucket (set_collecting (Some (Adding cold n s i c cum acc)) h1) cold n s i c cum acc b
                  eq_refl Hb) as Hstep.
    by destruct cold.
  - intros k. rewrite Hsum. unfold h2, h1. rewrite !shard_set_shard. by destruct cold, k.
Qed.

Lemma proto_fields h p h' :
  proto h = Some (p, h') →
  (collecting h = None → rtc hist_step h h') ∧ upper_bounds h' = upper_bounds h ∧ observers h' = observers h ∧ collecting h' = None ∧
  started h' = started h ∧ snapshots h' = (p, started h) :: snapshots h ∧
  let hot := (split_shard_index_and_count (shard_and_count h)).1 in
  sample_sum p = sum (shard hot h) ∧ sum (shard hot h') = f64_zero ∧
  sum (shard (inverse hot) h') = f64_add (sum (shard (inverse hot) h)) (sum (shard hot h)) ∧
  shard_and_count h' = shard_flip (shard_and_count h).
Proof.
  unfold proto, ShardAndCount_flip.
  destruct (split_shard_index_and_count (shard_and_count h)) as [cold overall] eqn:E. simpl fst.
  assert (Hflip : do_flip h = {| shard_and_count := shard_flip (shard_and_count h); first := first h; second := second h;
     upper_bounds := upper_bounds h; observers := observers h; collecting := Some (Waiting cold overall);
     started := started h; flipped := started h; snapshots := snapshots h |}) by (unfold do_flip; by rewrite E).
  case_decide as Hcount; [|done].
  remember (do_flip h) as h1 eqn:Eh1. set (h2 := set_shard cold (set_count 0 (shard cold h1)) h1).
  set (s := sum (shard cold h2)). set (h3 := set_shard cold (set_sum f64_zero (shard cold h2)) h2).
  destruct (drain cold (upper_bounds h3) 0 0 [] h3) as [[acc h4]|] eqn:Ed; [|done]. simpl. intros [= <- <-].
  destruct (drain_runs cold overall s _ 0 0 [] acc h3 h4 ltac:(done) Ed)
    as (cum & Hrun & Hub & Hobs & Hst & Hfl & Hsn & Hsc & Hsum).
  assert (Hs : s = sum (shard cold h)) by (unfold s, h2; rewrite Hflip; by destruct cold).
  split_and!.
  - intros Hc. eapply rtc_l; [by apply step_flip|]. rewrite <-Eh1.
    assert (Hw : collecting h1 = Some (Waiting cold overall)) by by rewrite Hflip.
    eapply rtc_l; [by apply (step_exchange h1 cold overall)|]. fold h2.
    eapply rtc_l; [by apply (step_swap_sum (set_collecting (Some (Summing cold overall)) h2) cold overall)|].
    rewrite !shard_set_collecting, <-set_collecting_shard, set_collecting_idem. fold s h3.
    etrans; [exact Hrun|].
    assert (Hub3 : length (upper_bounds h3) = length (upper_bounds h4)) by by rewrite Hub.
    eapply rtc_l; [by eapply step_drained|]. rewrite set_collecting_idem.
    eapply rtc_l; [by eapply (step_add_count _ cold overall s acc)|].
    rewrite !shard_set_collecting, <-set_collecting_shard, set_collecting_idem.
    eapply rtc_l; [by eapply (step_finish _ cold overall s acc)|]. unfold finish. destruct cold; apply rtc_refl.
  - unfold finish. simpl. rewrite Hub. unfold h3, h2. simpl. by rewrite Hflip.
  - unfold finish. simpl. rewrite Hobs. unfold h3, h2. simpl. by rewrite Hflip.
  - done.
  - unfold finish. simpl. rewrite Hst. unfold h3, h2. simpl. by rewrite Hflip.
  - unfold finish. simpl. rewrite Hsn, Hfl. unfold h3, h2. simpl. by rewrite Hflip.
  - exact Hs.
  - pose proof (Hsum cold) as Hcold. unfold finish. destruct cold; simpl in *; rewrite Hcold; done.
  - rewrite Hs. pose proof (Hsum (inverse cold)) as Hhot. unfold h3, h2 in Hhot. rewrite Hflip in Hhot.
    unfold finish. destruct cold; simpl in *; rewrite Hhot; done.
  - unfold finish. simpl. rewrite Hsc. unfold h3, h2. simpl. by rewrite Hflip.
Qed.

(** ** What one thread sees *)

(** The collector adds sums to a zero, which turns a negative zero into a positive one;
    sums are compared up to that. *)
Definition plus_zero (x : f64) : f64 := f64_add f64_zero x.

Lemma plus_zero_id x : x ≠ SpecFloat.S754_zero true → plus_zero x = x.
Proof. by destruct x as [[]|[]| |]. Qed.

Lemma plus_zero_idem x : plus_zero (plus_zero x) = plus_zero x.
Proof. by destruct x as [[]|[]| |]. Qed.

Lemma plus_zero_add x y v : plus_zero x = plus_zero y → plus_zero (f64_add x v) = plus_zero (f64_add y v).
Proof.
  intros Heq. destruct (decide (x = y)) as [->|Hne]; [done|].
  destruct x as [[]|[]| |sx mx ex], y as [[]|[]| |sy my ey]; try done; by destruct v as [[]|[]| |].
Qed.

(** The values in the order in which they were observed *)
Definition sum_of (vs : list f64) : f64 := foldl f64_add f64_zero vs.

(** [p] is the statistic of the values [vs]. *)
Definition statistic (ub vs : list f64) (p : HistogramProto) : Prop :=
  sample_count p = size vs ∧ plus_zero (sample_sum p) = plus_zero (sum_of vs) ∧
  bucket p = expected ub (length ub) vs.

(** Nothing is going on, and the cold shard is empty. *)
Record quiet (h : histogram) : Prop := {
  q_run : rtc hist_step (histogram_init (upper_bounds h)) h;
  q_observers : observers h = [];
  q_collecting : collecting h = None;
  q_hot : plus_zero (get_sample_sum h) = plus_zero (sum_of (started h));
  q_cold : sum (shard (inverse (split_shard_index_and_count (shard_and_count h)).1) h) = f64_zero;
}.

Definition fits_count (h : histogram) : Prop := size (started h) < 2 ^ 63.

Lemma quiet_init ub : quiet (histogram_init ub).
Proof. by split. Qed.

Lemma quiet_word h :
  quiet h → fits_count h →
  ∃ hot, shard_and_count h = top_bit hot + size (started h) ∧
    split_shard_index_and_count (shard_and_count h) = (hot, size (started h)) ∧
    count (shard hot h) = size (started h) ∧ ∀ i, length (buckets (shard i h)) = length (upper_bounds h).
Proof.
  intros [Hrun Hobs Hcol _ _] Hs.
  destruct (reachable_inv (upper_bounds h) h Hrun Hs) as (hot & S & R & Hi). exists hot.
  pose proof (inv_sc _ _ _ _ _ Hi) as Hw. pose proof (size_nonneg (started h)). split; [done|]. split_and!.
  - rewrite Hw. apply split_spec. unfold fits_count in Hs. lia.
  - rewrite (inv_count _ _ _ _ _ Hi), Hobs, Hcol, target_n_hot.
    pose proof (inv_flipped _ _ _ _ _ Hi) as Hf. rewrite Hcol in Hf. subst S.
    assert (Hst : started h = R) by apply (inv_started _ _ _ _ _ Hi). unfold fits_count in Hs. rewrite Hst in *.
    change (moved_n None []) with 0. change (pendn hot []) with 0. rewrite Z.sub_0_r, Z.add_0_l.
    apply wrap_small. lia.
  - apply (inv_len _ _ _ _ _ Hi).
Qed.

(** *** Observing *)
Lemma foldl_add_bucket_sum (l : list (nat * Z)) s : sum (foldl (λ s iv, add_bucket iv.1 iv.2 s) s l) = sum s.
Proof. revert s. induction l as [|iv l IH]; intros s; [done|]. simpl. by rewrite IH. Qed.

Lemma observe_fields v h :
  started (observe v h) = started h ++ [v] ∧ upper_bounds (observe v h) = upper_bounds h ∧
  observers (observe v h) = observers h ∧ collecting (observe v h) = collecting h ∧
  shard_and_count (observe v h) = shard_inc_by 1 (shard_and_count h) ∧
  let hot := (split_shard_index_and_count (shard_and_count h)).1 in
  sum (shard hot (observe v h)) = f64_add (sum (shard hot h)) v ∧
  sum (shard (inverse hot) (observe v h)) = sum (shard (inverse hot) h).
Proof.
  unfold observe, ShardAndCount_get. destruct (split_shard_index_and_count (shard_and_count h)) as [i n].
  unfold run_observer. simpl. split_and!; try done; destruct i; simpl; rewrite ?foldl_add_bucket_sum; done.
Qed.

Lemma observe_quiet v h : quiet h → fits_count (observe v h) → quiet (observe v h).
Proof.
  intros Hq Hs. destruct (observe_fields v h) as (Hst & Hub & Hobs & Hcol & Hsc & Hhot & Hcold).
  unfold fits_count in Hs. rewrite Hst, size_app in Hs. change (size [v]) with 1 in Hs.
  pose proof (size_nonneg (started h)).
  destruct (quiet_word h Hq ltac:(unfold fits_count; lia)) as (hot & Hw & Hsp & _).
  assert (Hsp' : split_shard_index_and_count (shard_and_count (observe v h)) = (hot, size (started h) + 1)).
  { pose proof (shard_and_count_spec hot (size (started h)) 1 ltac:(lia) ltac:(lia) ltac:(lia)) as (_ & _ & _ & Hinc).
    unfold ShardAndCount_inc_by in Hinc. rewrite <-Hw in Hinc. apply (f_equal snd) in Hinc. unfold snd in Hinc.
    rewrite Hsc, Hinc. apply split_spec. lia. }
  rewrite Hsp in Hhot, Hcold. cbn [fst] in *. destruct Hq as [Hrun Ho Hc Hh Hcd]. split.
  - rewrite Hub. etrans; [exact Hrun|apply observe_runs].
  - by rewrite Hobs.
  - by rewrite Hcol.
  - unfold get_sample_sum in *. rewrite Hsp', Hst. rewrite Hsp in Hh. cbn [fst] in *. rewrite Hhot.
    unfold sum_of. rewrite foldl_app. by apply plus_zero_add.
  - rewrite Hsp'. rewrite Hsp in Hcd. cbn [fst] in *. by rewrite Hcold.
Qed.

(** *** Collecting *)
Lemma drain_total cold bounds i cum acc h :
  (i + length bounds <= length (buckets (shard cold h)))%nat → is_Some (drain cold bounds i cum acc h).
Proof.
  revert i cum acc h. induction bounds as [|b bounds IH]; intros i cum acc h Hlen; simpl in *; [by eexists|].
  destruct (lookup_lt_is_Some_2 (buckets (shard cold h)) i ltac:(lia)) as [c ->]. simpl. apply IH.
  destruct cold; simpl; rewrite length_insert; simpl in Hlen; lia.
Qed.

Lemma proto_total h : quiet h → fits_count h → is_Some (proto h).
Proof.
  intros Hq Hs. destruct (quiet_word h Hq Hs) as (hot & Hw & Hsp & Hn & Hlen).
  unfold proto, ShardAndCount_flip. rewrite Hsp.
  assert (Hsh : ∀ i, shard i (do_flip h) = shard i h) by (intros []; unfold do_flip; by rewrite Hsp).
  assert (Hub : upper_bounds (do_flip h) = upper_bounds h) by (unfold do_flip; by rewrite Hsp).
  remember (do_flip h) as h1 eqn:E. clear E. rewrite decide_True by by rewrite Hsh.
  match goal with |- is_Some (x ← drain ?c ?b ?i ?cum ?acc ?h; _) => destruct (drain_total c b i cum acc h) as [[acc' h'] ->] end.
  - simpl. rewrite Hub. destruct hot; simpl; [rewrite (Hsh First : first h1 = first h), <-(Hlen First)|
      rewrite (Hsh Second : second h1 = second h), <-(Hlen Second)]; done.
  - by eexists.
Qed.

(** Collecting returns, shows the statistic of everything observed so far, and changes
    nothing that can be seen. *)
Lemma proto_quiet h :
  quiet h → fits_count h →
  ∃ p h', proto h = Some (p, h') ∧ quiet h' ∧ started h' = started h ∧ upper_bounds h' = upper_bounds h ∧
    statistic (upper_bounds h) (started h) p.
Proof.
  intros Hq Hs. destruct (proto_total h Hq Hs) as [[p h'] Hp]. exists p, h'. split; [done|].
  destruct (proto_fields h p h' Hp)
    as (Hrun & Hub & Hobs & Hcol & Hst & Hsn & Hsum & Hnew & Hold & Hsc).
  destruct (quiet_word h Hq Hs) as (hot & Hw & Hsp & _). rewrite Hsp in *. cbn [fst] in *.
  assert (Hrun' : rtc hist_step (histogram_init (upper_bounds h)) h') by (etrans; [apply (q_run h Hq)|apply Hrun, (q_collecting h Hq)]).
  assert (Hsp' : split_shard_index_and_count (shard_and_count h') = (inverse hot, size (started h))).
  { pose proof (size_nonneg (started h)). unfold fits_count in Hs.
    pose proof (shard_and_count_spec hot (size (started h)) 0 ltac:(lia) ltac:(lia) ltac:(lia)) as (_ & _ & Hf & _).
    unfold ShardAndCount_flip in Hf. rewrite <-Hw in Hf. apply (f_equal snd) in Hf. unfold snd in Hf.
    rewrite Hsc, Hf. by apply split_spec. }
  pose proof (q_hot h Hq) as Hh. pose proof (q_cold h Hq) as Hcd. unfold get_sample_sum in Hh.
  rewrite Hsp in Hh, Hcd. cbn [fst] in *. split; [|split; [done|split; [done|]]].
  - split; [by rewrite Hub|by rewrite Hobs; apply q_observers|done|..]; unfold get_sample_sum; rewrite Hsp'; cbn [fst].
    + rewrite Hold, Hcd, Hst. fold (plus_zero (sum (shard hot h))). by rewrite plus_zero_idem.
    + by rewrite inverse_inverse.
  - destruct (reachable_inv (upper_bounds h) h' Hrun') as (hot' & S & R & Hi); [by rewrite Hst|].
    pose proof (inv_snapshots _ _ _ _ _ Hi) as Hf. rewrite Hsn in Hf. apply Forall_cons in Hf as [(_ & Hn & Hb) _].
    split; [exact Hn|]. split; [by rewrite Hsum|exact Hb].
Qed.

(** The buckets of a statistic count the values that are at most their bound. *)
Lemma statistic_bucket ub vs p (k : nat) b :
  increasing ub → statistic ub vs p → ub !! k = Some b →
  bucket p !! k = Some {| cumulative_count := Z.of_nat (length (filter (λ v, f64_le v b = true) vs)); upper_bound := b |}.
Proof.
  intros Hinc (_ & _ & ->) Hb. unfold expected. rewrite firstn_all, list_lookup_imap, Hb. simpl.
  by rewrite Nat.add_1_r, (csum_le ub k b vs Hinc Hb).
Qed.

#[global] Arguments observe _ _ : simpl never.
#[global] Arguments proto _ : simpl never.

(** ** The type [Histogram] *)
Record HistogramCore := { h_desc : Desc; h_label_pairs : list LabelPair; h_state : histogram }.

Definition set_state (h : histogram) (c : HistogramCore) : HistogramCore :=
  {| h_desc := h_desc c; h_label_pairs := h_label_pairs c; h_state := h |}.

Section api.
Context (fnv : bytes → Z) (f64_to_string : f64 → string).

Definition with_opts_and_label_values (opts : HistogramOpts) (label_values : list string) : MetricsResult HistogramCore :=
  '(d, lps, h) ← HistogramCore_new fnv f64_to_string opts label_values;
  Ok {| h_desc := d; h_label_pairs := lps; h_state := h |}.
Definition with_opts (opts : HistogramOpts) : MetricsResult HistogramCore := with_opts_and_label_values opts [].
End api.

Definition Histogram_observe (v : f64) (c : HistogramCore) : HistogramCore := set_state (observe v (h_state c)) c.

(** [impl Metric] and [impl Collector] *)
Definition Histogram_metric (c : HistogramCore) : option (Metric * HistogramCore) :=
  '(p, h) ← proto (h_state c);
  Some (set_histogram p (set_label (h_label_pairs c) Metric_default), set_state h c).
Definition Histogram_collect (c : HistogramCore) : option (list MetricFamily * HistogramCore) :=
  '(m, c') ← Histogram_metric c;
  Some ([{| mf_name := d_fq_name (h_desc c); mf_help := d_help (h_desc c); field_type := HISTOGRAM; metric := [m] |}], c').

(** *** Timers with their clocks; [now] is [Instant::now] or [now_coarse] *)
Record Timer := { t_state : HistogramTimer; t_start : Instant }.

Definition start_timer (now : Clock → Instant) (c : Clock) : Timer :=
  {| t_state := {| observed := false |}; t_start := now c |}.
(** the timer's [observe]: the duration, and the timer and the histogram afterwards *)
Definition Timer_observe (c : Clock) (record : bool) (t : Timer) (h : HistogramCore) : f64 * Timer * HistogramCore :=
  let v := elapsed_sec c (t_start t) in
  let '(r, s) := timer_observe record (t_state t) in
  (v, {| t_state := s; t_start := t_start t |}, if r then Histogram_observe v h else h).
Definition Timer_drop (c : Clock) (t : Timer) (h : HistogramCore) : HistogramCore :=
  if negb (observed (t_state t)) then (Timer_observe c true t h).2 else h.
(** the clock is read by [observe]; it would be read again, at [dropped], by a drop that observes *)
Definition stop_and_record (c dropped : Clock) (t : Timer) (h : HistogramCore) : f64 * HistogramCore :=
  let '(v, t, h) := Timer_observe c true t h in (v, Timer_drop dropped t h).
Definition observe_duration (c dropped : Clock) (t : Timer) (h : HistogramCore) : HistogramCore :=
  (stop_and_record c dropped t h).2.
Definition stop_and_discard (c dropped : Clock) (t : Timer) (h : HistogramCore) : f64 * HistogramCore :=
  let '(v, t, h) := Timer_observe c false t h in (v, Timer_drop dropped t h).

(** [observe_closure_duration] and its coarse variant; the closure may use the histogram. *)
Definition observe_closure_duration {T} (now : Clock → Instant) (before after : Clock)
    (f : HistogramCore → T * HistogramCore) (h : HistogramCore) : T * HistogramCore :=
  let instant := now before in
  let '(res, h) := f h in
  (res, Histogram_observe (elapsed_sec after instant) h).

(** [LocalHistogram]: the same on a local one *)
Definition local_observe_closure_duration {T} (now : Clock → Instant) (before after : Clock)
    (h : histogram) (f : LocalHistogram → T * LocalHistogram) (l : LocalHistogram) : T * LocalHistogram :=
  let instant := now before in
  let '(res, l) := f l in
  (res, LocalHistogram_observe h (elapsed_sec after instant) l).
(** [start_timer] and [start_coarse_timer] of a local histogram: the clock of a timer whose
    local histogram is a cleared clone *)
Definition local_timer_end_at (now : Clock → Instant) (e : timer_end) (before after : Clock) (h : histogram) : histogram :=
  local_timer_end e (elapsed_sec after (now before)) h.

(** ** The calls of one thread *)
Inductive call := Observe (v : f64) | Collect.

Fixpoint run_calls (cs : list call) (h : histogram) : option (list HistogramProto * histogram) :=
  match cs with
  | [] => Some ([], h)
  | Observe v :: cs => run_calls cs (observe v h)
  | Collect :: cs =>
      '(p, h) ← proto h;
      '(ps, h) ← run_calls cs h;
      Some (p :: ps, h)
  end.

(** The abstract histogram is the list of the values observed. *)
Definition observed_by (cs : list call) : list f64 :=
  cs ≫= λ c, match c with Observe v => [v] | Collect => [] end.
Fixpoint collected_by (cs : list call) (vs : list f64) : list (list f64) :=
  match cs with
  | [] => []
  | Observe v :: cs => collected_by cs (vs ++ [v])
  | Collect :: cs => vs :: collected_by cs vs
  end.

Lemma run_calls_refine cs h :
  quiet h → size (started h ++ observed_by cs) < 2 ^ 63 →
  ∃ ps h', run_calls cs h = Some (ps, h') ∧ quiet h' ∧ upper_bounds h' = upper_bounds h ∧
    started h' = started h ++ observed_by cs ∧
    Forall2 (statistic (upper_bounds h)) (collected_by cs (started h)) ps.
Proof.
  revert h. induction cs as [|[v|] cs IH]; intros h Hq Hs; cbn [run_calls collected_by].
  - exists [], h. rewrite app_nil_r. by split_and!.
  - destruct (observe_fields v h) as (Hst & Hub & _).
    change (observed_by (Observe v :: cs)) with ([v] ++ observed_by cs) in *. rewrite app_assoc in *.
    assert (Hf : fits_count (observe v h)).
    { unfold fits_count. rewrite Hst. rewrite size_app in Hs. pose proof (size_nonneg (observed_by cs)). lia. }
    destruct (IH (observe v h) (observe_quiet v h Hq Hf)) as (ps & h' & Hr & Hq' & Hub' & Hst' & Hps); [by rewrite Hst|].
    exists ps, h'. rewrite Hst, Hub in *. done.
  - assert (Hf : fits_count h).
    { unfold fits_count. rewrite size_app in Hs. pose proof (size_nonneg (observed_by (Collect :: cs))). lia. }
    destruct (proto_quiet h Hq Hf) as (p & h1 & -> & Hq1 & Hst1 & Hub1 & Hp). cbn [mbind option_bind].
    destruct (IH h1 Hq1) as (ps & h' & -> & Hq' & Hub' & Hst' & Hps); [by rewrite Hst1|].
    exists (p :: ps), h'. rewrite Hst1, Hub1 in *. split; [done|]. split_and!; try done. by constructor.
Qed.

(** C21. To one thread a histogram is the list of the values it has observed: every call
    returns, what it collects is the statistic of the values so far (their number, the
    numbers below the bounds, their sum in order up to the sign of a zero), and
    collecting changes nothing, for as long as the count fits in its 63 bits. *)
Theorem histogram_refines_list ub cs :
  Z.of_nat (length (observed_by cs)) < 2 ^ 63 →
  ∃ ps h, run_calls cs (histogram_init ub) = Some (ps, h) ∧
    Forall2 (statistic ub) (collected_by cs []) ps ∧
    get_sample_count h = Z.of_nat (length (observed_by cs)) ∧
    plus_zero (get_sample_sum h) = plus_zero (sum_of (observed_by cs)) ∧
    rtc hist_step (histogram_init ub) h.
Proof.
  intros Hs. destruct (run_calls_refine cs (histogram_init ub) (quiet_init ub) Hs) as (ps & h & Hr & Hq & Hub & Hst & Hps).
  simpl in Hst, Hub. exists ps, h. split; [done|]. split; [done|].
  destruct (quiet_word h Hq) as (hot & _ & Hsp & _); [by unfold fits_count; rewrite Hst|].
  split_and!.
  - unfold get_sample_count. by rewrite Hsp, Hst.
  - by rewrite (q_hot h Hq), Hst.
  - rewrite <-Hub. apply (q_run h Hq).
Qed.

(** A timer records at most once, and the time at which it was stopped, however late it is
    dropped. *)
Lemma timer_records_once now c0 c1 c2 h :
  let t := start_timer now c0 in
  let v := elapsed_sec c1 (now c0) in
  stop_and_record c1 c2 t h = (v, Histogram_observe v h) ∧
  stop_and_discard c1 c2 t h = (v, h) ∧
  Timer_drop c1 t h = Histogram_observe v h.
Proof. done. Qed.

Example histogram_refines_list_holds :
  let one := f64_of_Z 1 in
  let cs := [Observe one; Collect; Observe (f64_of_Z 7); Observe one; Collect] in
  Z.of_nat (length (observed_by cs)) < 2 ^ 63 ∧
  ∃ ps h, run_calls cs (histogram_init [one; f64_of_Z 5]) = Some (ps, h) ∧
    sample_count <$> ps = [1; 3] ∧ get_sample_count h = 3.
Proof.
  intros one cs. assert (Hs : Z.of_nat (length (observed_by cs)) < 2 ^ 63) by (simpl; lia). split; [exact Hs|].
  destruct (histogram_refines_list [one; f64_of_Z 5] cs Hs) as (ps & h & Hr & Hps & Hc & _).
  exists ps, h. split; [exact Hr|]. split; [|exact Hc].
  inversion Hps as [|vs p vss ps' (Hn & _) Hps' E1 E2]; subst.
  inversion Hps' as [|vs' p' vss' ps'' (Hn' & _) Hps'' E1' E2']; subst.
  inversion Hps''. subst. simpl. by rewrite Hn, Hn'.
Defined.
