(* ===== verification/AutoFlush.v ===== *)
(** * Metrics that flush themselves: [prometheus/src/auto_flush.rs] and the updater of
    [timer.rs]

    An [AFLocalCounter] and an [AFLocalHistogram] delegate to a local metric below a
    thread's root metric, which they flush now and then.  The root is a [LocalVec], a
    delegator the key of a local metric in it, and the time of a call what
    [recent_millis] returns to it.  Proved once, for whatever can be recorded: nothing
    is lost, and what is not yet visible was recorded less than the interval after the
    last time a call flushed the root.  (A thread that records nothing flushes nothing.) *)
From Stdlib Require Import ZArith Lia.
From S2P Require Import Prelude BTree Float64 Metrics MetricsFacts Atomics MetricVec Histogram HistogramFacts LocalMetrics LocalMetricsFacts HistogramApi.
Local Open Scope Z_scope.

(** ** The updater of the clock *)
Definition CHECK_UPDATE_INTERVAL : Z := 200.
Definition recent_millis (RECENT : Z) : Z := RECENT.

(** [UPDATER_IS_RUNNING] afterwards, and whether a thread is spawned *)
Definition ensure_updater (UPDATER_IS_RUNNING : bool) : bool * bool := (true, negb UPDATER_IS_RUNNING).

(** one turn of the thread's loop, at the elapsed time [t] when it has slept *)
Definition updater_turn (t RECENT : Z) : Z := default RECENT (now_millis t RECENT).

(** ** The root metric of a thread *)
Section root.
Context {L G : Type} `{LocalMetric L G} {P : Type}.

(** A method of the local metric at a key, which may look at the shared one; [None] if
    there is no such local metric, which a delegator excludes. *)
Definition with_local {R} (f : L → G → R) (key : Z) (w : LocalVec L G P) : option R :=
  '(r, l) ← locals w !! key;
  s ← LocalMetrics.store w !! r;
  Some (f l s).
Definition on_local (f : G → L → L) (key : Z) (w : LocalVec L G P) : option (LocalVec L G P) :=
  '(r, l) ← locals w !! key;
  s ← LocalMetrics.store w !! r;
  Some (update_local (f s) key w).

(** a method of the local metric, then [may_flush] of the root *)
Definition delegate (now interval : Z) (key : Z) (f : G → L → L) (a : AutoFlush L G P) : option (AutoFlush L G P) :=
  w ← on_local f key (af_root a);
  Some (may_flush now interval {| af_root := w; last_flush := last_flush a |}).
(** a method of the local metric alone *)
Definition delegate_only (key : Z) (f : G → L → L) (a : AutoFlush L G P) : option (AutoFlush L G P) :=
  w ← on_local f key (af_root a);
  Some {| af_root := w; last_flush := last_flush a |}.
End root.

(** ** [AFLocalCounter] *)
Section counter.
Context {T P : Type} (N : Number T).
#[local] Instance local_counter : LocalMetric T (Value T) := counter_local N.
Implicit Types a : AutoFlush T (Value T) P.

Definition GenericLocalCounter_get (l : T) : T := l.
Definition GenericLocalCounter_reset (l : T) : T := from_i64 N 0.

Definition AFLocalCounter_new (UPDATER_IS_RUNNING : bool) : bool * bool := ensure_updater UPDATER_IS_RUNNING.
Definition AFLocalCounter_inc_by (now interval key : Z) (v : T) : AutoFlush T (Value T) P → option (AutoFlush T (Value T) P) :=
  delegate now interval key (λ _, local_inc_by N v).
Definition AFLocalCounter_inc (now interval key : Z) : AutoFlush T (Value T) P → option (AutoFlush T (Value T) P) :=
  delegate now interval key (λ _, local_inc N).
Definition AFLocalCounter_get (key : Z) a : option T := with_local (λ l _, GenericLocalCounter_get l) key (af_root a).
Definition AFLocalCounter_reset (key : Z) : AutoFlush T (Value T) P → option (AutoFlush T (Value T) P) :=
  delegate_only key (λ _, GenericLocalCounter_reset).
(** flushes the root *)
Definition AFLocalCounter_flush a : AutoFlush T (Value T) P := af_flush a.
End counter.

(** ** [AFLocalHistogram] *)
Section histogram.
Context {P : Type}.
Implicit Types a : AutoFlush LocalHistogram histogram P.

Definition AFLocalHistogram_new (UPDATER_IS_RUNNING : bool) : bool * bool := ensure_updater UPDATER_IS_RUNNING.
Definition AFLocalHistogram_observe (now interval key : Z) (v : f64) a : option (AutoFlush LocalHistogram histogram P) :=
  delegate now interval key (λ h, LocalHistogram_observe h v) a.
(** The closure may use the metrics of its thread, or panic, [None]. *)
Definition AFLocalHistogram_observe_closure_duration {R} (clock : Clock → Instant) (before after : Clock) (now interval key : Z)
    (f : AutoFlush LocalHistogram histogram P → option (R * AutoFlush LocalHistogram histogram P)) a
    : option (R * AutoFlush LocalHistogram histogram P) :=
  let instant := clock before in
  '(res, a) ← f a;
  a ← AFLocalHistogram_observe now interval key (elapsed_sec after instant) a;
  Some (res, a).
Definition AFLocalHistogram_clear (key : Z) a : option (AutoFlush LocalHistogram histogram P) :=
  delegate_only key (λ h _, LocalHistogram_clear (length (upper_bounds h))) a.
(** flushes its own local histogram alone *)
Definition AFLocalHistogram_flush (key : Z) a : AutoFlush LocalHistogram histogram P :=
  {| af_root := flush_key (af_root a) key; last_flush := last_flush a |}.
Definition AFLocalHistogram_get_sample_sum (key : Z) a : option f64 :=
  with_local (λ l _, LocalHistogram_get_sample_sum l) key (af_root a).
Definition AFLocalHistogram_get_sample_count (key : Z) a : option Z :=
  with_local (λ l _, LocalHistogram_get_sample_count l) key (af_root a).
End histogram.

(** ** Recording

    What can be recorded in a local metric, and how much it adds; a local metric can only
    hold amounts that fit. *)
Class Recording (L G W A : Type) `{LocalMetricLaws L G W} := {
  record : A → G → L → L;
  worth : A → W;
  holds : W → Prop;
  holds_proper :: Proper ((≡) ==> iff) holds;
  holds_part x y : holds (x ⊕ y) → holds x;
  record_adds x s l : pending (record x s l) ≡ pending l ⊕ worth x;
  record_to x s l : local_to l s → holds (pending l ⊕ worth x) → local_to (record x s l) s;
}.

#[export] Program Instance counter_recording : Recording Z (Value Z) count64 Z :=
  {| record v _ := local_inc_by u64_number v; worth := Count; holds _ := True |}.
Next Obligation. done. Qed.
Next Obligation. intros v s l. unfold equiv, count64_equiv. simpl. unfold wrapping_add, wrap. by rewrite Z.mod_mod. Qed.
Next Obligation. done. Qed.

#[export] Program Instance histogram_recording : Recording LocalHistogram histogram bag f64 :=
  {| record v h := LocalHistogram_observe h v; worth v := Bag [v]; holds b := HistogramFacts.size (bag_list b) < 2 ^ 63 |}.
Next Obligation.
  intros [b] [b']. unfold equiv, bag_equiv. simpl. intros Hb%Permutation_length. unfold HistogramFacts.size. by rewrite Hb.
Qed.
Next Obligation. intros [x] [y]. simpl. rewrite size_app. pose proof (size_nonneg y). lia. Qed.
Next Obligation. done. Qed.
Next Obligation. intros v h l Hl. simpl. rewrite size_app. intros Hs. by apply local_observe_ok. Qed.

(** The calls that record, and the two kinds of flushing: of the root (an
    [AFLocalCounter]) and of the local metric at a key (an [AFLocalHistogram]);
    [record] at an amount is [inc_by] or [observe]. *)
Inductive af_call (A : Type) := AfRecord (now key : Z) (x : A) | AfFlush | AfFlushLocal (key : Z).
Arguments AfRecord {A} now key x.
Arguments AfFlush {A}.
Arguments AfFlushLocal {A} key.

(** where a call records *)
Definition call_key {A} (c : af_call A) : option Z := match c with AfRecord _ key _ => Some key | _ => None end.
Definition at_key {A} (key : Z) (calls : list (af_call A)) : list (af_call A) := filter (λ c, call_key c = Some key) calls.
Definition off_key {A} (key : Z) (calls : list (af_call A)) : list (af_call A) := filter (λ c, call_key c ≠ Some key) calls.

Lemma at_key_app {A} key (l k : list (af_call A)) : at_key key (l ++ k) = at_key key l ++ at_key key k.
Proof. apply filter_app. Qed.

Lemma filter_none {A} (Q : af_call A → Prop) `{!∀ c, Decision (Q c)} l : (∀ c, ¬ Q c) → filter Q l = [].
Proof. intros HQ. induction l as [|c l IH]; [done|]. by rewrite filter_cons_False. Qed.

Lemma at_key_at_key {A} key key' (l : list (af_call A)) :
  at_key key (at_key key' l) = if decide (key = key') then at_key key l else [].
Proof.
  unfold at_key. rewrite list_filter_filter. case_decide as Hk.
  - apply list_filter_iff. intuition congruence.
  - apply filter_none. intuition congruence.
Qed.

Lemma at_key_off_key {A} key key' (l : list (af_call A)) :
  at_key key (off_key key' l) = if decide (key = key') then [] else at_key key l.
Proof.
  unfold at_key, off_key. rewrite list_filter_filter. case_decide as Hk.
  - apply filter_none. intuition congruence.
  - apply list_filter_iff. intuition congruence.
Qed.

Section recording.
Context {L G W A : Type} `{Recording L G W A} {P : Type}.
Context (interval : Z).
Implicit Types (a : AutoFlush L G P) (w : LocalVec L G P) (calls early late : list (af_call A)).

Definition af_call_run (c : af_call A) a : option (AutoFlush L G P) :=
  match c with
  | AfRecord now key x => delegate now interval key (record x) a
  | AfFlush => Some (af_flush a)
  | AfFlushLocal key => Some {| af_root := flush_key (af_root a) key; last_flush := last_flush a |}
  end.
Fixpoint af_run calls a : option (AutoFlush L G P) :=
  match calls with
  | [] => Some a
  | c :: calls => a ← af_call_run c a; af_run calls a
  end.

(** *** The amounts recorded at some keys *)
Fixpoint amount_at (p : Z → bool) calls : W :=
  match calls with
  | AfRecord _ key x :: calls => (if p key then worth x else amount_zero) ⊕ amount_at p calls
  | _ :: calls => amount_at p calls
  | [] => amount_zero
  end.
Definition worth_at (key : Z) calls : W := amount_at (λ k, bool_decide (k = key)) calls.

Lemma amount_at_app p l k : amount_at p (l ++ k) ≡ amount_at p l ⊕ amount_at p k.
Proof.
  induction l as [|[now key x| |key] l IH]; simpl; [by rewrite amount_zero_l| |done..]. by rewrite IH, amount_assoc.
Qed.

Lemma amount_at_split p key l : amount_at p l ≡ amount_at p (at_key key l) ⊕ amount_at p (off_key key l).
Proof.
  induction l as [|c l IH]; [by rewrite amount_zero_l|]. unfold at_key, off_key in *. rewrite !filter_cons.
  destruct (decide (call_key c = Some key)) as [Hc|Hc].
  - rewrite (decide_False (P := call_key c ≠ Some key)) by naive_solver. destruct c; simpl; rewrite IH; [by rewrite amount_assoc|done..].
  - rewrite (decide_True (P := call_key c ≠ Some key)) by done. destruct c; simpl; rewrite IH; [by rewrite amount_swap|done..].
Qed.

Lemma amount_at_key p key l : amount_at p (at_key key l) ≡ if p key then worth_at key l else amount_zero.
Proof.
  unfold worth_at. induction l as [|c l IH]; [by case_match|]. unfold at_key in *. rewrite filter_cons.
  destruct c as [now k x| |k]; simpl; [|done..]. destruct (decide (k = key)) as [->|Hne].
  - rewrite (decide_True (P := Some key = Some key)) by done. simpl. rewrite IH, bool_decide_true by done.
    destruct (p key); [done|apply amount_zero_l].
  - rewrite (decide_False (P := Some k = Some key)) by congruence. rewrite IH, bool_decide_false by done.
    destruct (p key); [by rewrite amount_zero_l|done].
Qed.

(** The same calls at every key, in the same order, up to what does not record *)
Definition same_calls calls calls' : Prop :=
  (∀ key, at_key key calls = at_key key calls') ∧ ∀ p, amount_at p calls ≡ amount_at p calls'.

#[local] Instance same_calls_equivalence : Equivalence same_calls.
Proof.
  split; [done|by intros l k [Ha Hb]; split|]. intros l1 l2 l3 [Ha Hb] [Hc Hd].
  split; intros x; [by rewrite Ha|by rewrite Hb].
Qed.

Lemma same_calls_app l1 l2 k1 k2 : same_calls l1 l2 → same_calls k1 k2 → same_calls (l1 ++ k1) (l2 ++ k2).
Proof.
  intros [Ha Hb] [Hc Hd]. split; intros x; [by rewrite !at_key_app, Ha, Hc|by rewrite !amount_at_app, Hb, Hd].
Qed.

Lemma same_calls_flush key early late :
  same_calls ((early ++ at_key key late) ++ off_key key late) (early ++ late).
Proof.
  rewrite <-app_assoc. apply same_calls_app; [done|]. split; intros x.
  - rewrite at_key_app, at_key_at_key, at_key_off_key. case_decide as Hx; [by rewrite Hx, app_nil_r|done].
  - rewrite amount_at_app. symmetry. apply amount_at_split.
Qed.

(** *** The shared metric of a key *)
Definition owner w (key : Z) : option nat := fst <$> locals w !! key.

Lemma flush_key_owner w h key : owner (flush_key w h) key = owner w key.
Proof.
  unfold owner, flush_key. destruct (locals w !! h) as [[r l]|] eqn:Eh; [|done].
  destruct (LocalMetrics.store w !! r) as [s|]; [|done]. destruct (flush l s) as [l' s']. simpl.
  destruct (decide (key = h)) as [->|Hne]; [by rewrite lookup_insert_eq, Eh|by rewrite lookup_insert_ne].
Qed.

(** *** A sequence of calls *)
Context (w0 : LocalVec L G P).

(** what the calls record for the shared metric [r] *)
Definition recorded (r : nat) calls : W := amount_at (λ key, bool_decide (owner w0 key = Some r)) calls.

(** the calls of a program: at keys there are, at times that do not overflow *)
Definition call_ok (c : af_call A) : Prop :=
  match c with
  | AfRecord now key _ => is_Some (owner w0 key) ∧ 0 <= now ∧ now + interval < 2 ^ 64
  | AfFlush => True
  | AfFlushLocal key => is_Some (owner w0 key)
  end.
(** recorded before the root was due to be flushed, [last] being when a call last flushed it *)
Definition not_due (last : Z) (c : af_call A) : Prop :=
  match c with AfRecord now _ _ => now < last + interval | _ => True end.

(** After [early] and [late]: what the former recorded is visible, that of the latter pending. *)
Record counted early late w : Prop := {
  c_ok : entries_ok w;
  c_owner : ∀ key, owner w key = owner w0 key;
  c_visible : ∀ r s0, LocalMetrics.store w0 !! r = Some s0 →
    ∃ s, LocalMetrics.store w !! r = Some s ∧ visible s ≡ visible s0 ⊕ recorded r early;
  c_pending : ∀ key r l, locals w !! key = Some (r, l) → pending l ≡ worth_at key late;
  c_late : Forall (λ c, ∃ key, call_key c = Some key ∧ is_Some (owner w0 key)) late;
}.

Lemma counted_flush_key early late w key :
  is_Some (owner w0 key) → counted early late w →
  counted (early ++ at_key key late) (off_key key late) (flush_key w key).
Proof.
  intros Hkey [Hok Hown Hvis Hpend Hlate]. rewrite <-Hown in Hkey. unfold owner in Hkey.
  destruct (locals w !! key) as [[r l]|] eqn:Ek; [|by destruct Hkey].
  destruct (Hok _ _ _ Ek) as (s & Es & Hs). pose proof (flush_conserves l s) as Hc. pose proof (flush_empties l s Hs) as He.
  assert (Hr : owner w0 key = Some r) by (rewrite <-Hown; unfold owner; by rewrite Ek).
  pose proof (flush_key_ok w key Hok) as Hok'. pose proof (flush_key_owner w key) as Hown'.
  assert (Hrec : ∀ r', recorded r' (early ++ at_key key late) ≡
                  recorded r' early ⊕ (if decide (r = r') then worth_at key late else amount_zero)).
  { intros r'. unfold recorded. rewrite amount_at_app, amount_at_key, Hr.
    case_decide; [rewrite bool_decide_true by congruence|rewrite bool_decide_false by congruence]; done. }
  unfold flush_key in *. rewrite Ek, Es in *. destruct (flush l s) as [l' s'] eqn:Ef. simpl in *.
  rewrite He, amount_zero_r, (Hpend _ _ _ Ek) in Hc.
  split; simpl; [done|by intros k; rewrite Hown'| | |apply Forall_forall; intros c [_ Hin]%list_elem_of_filter; by apply (proj1 (Forall_forall _ _) Hlate)].
  - intros r' s0 Hs0. destruct (Hvis r' s0 Hs0) as (s1 & Hs1 & Hv).
    destruct (decide (r = r')) as [->|Hne].
    + exists s'. split; [by rewrite lookup_insert_eq|]. rewrite Hrec, decide_True by done.
      replace s1 with s in Hv by congruence. by rewrite Hc, Hv, amount_assoc.
    + exists s1. split; [by rewrite lookup_insert_ne|]. by rewrite Hrec, decide_False, amount_zero_r by done.
  - intros k r' l0 Hl. apply lookup_insert_Some in Hl as [[<- [= <- <-]]|[Hne Hl]].
    + rewrite He. unfold worth_at. clear. induction late as [|c late IH]; [done|]. unfold off_key. rewrite filter_cons.
      case_decide as Hc; [|done]. destruct c as [now k x| |k]; simpl; [|done..].
      rewrite bool_decide_false by (simpl in Hc; congruence). by rewrite amount_zero_l.
    + rewrite (Hpend _ _ _ Hl). unfold worth_at. rewrite (amount_at_split _ key late), amount_at_key.
      rewrite bool_decide_false by done. by rewrite amount_zero_l.
Qed.

(** Flushing the root flushes every local metric. *)
Lemma counted_flush_keys hs early late w :
  (∀ h, h ∈ hs → is_Some (owner w0 h)) → counted early late w →
  ∃ early' late', counted early' late' (foldl flush_key w hs) ∧ same_calls (early' ++ late') (early ++ late) ∧
    (∀ c, c ∈ late' → c ∈ late ∧ ∀ h, h ∈ hs → call_key c ≠ Some h).
Proof.
  revert early late w. induction hs as [|h hs IH]; intros early late w Hh Hc.
  { exists early, late. split_and!; [done..|]. intros c Hin. split; [done|]. by intros h ?%elem_of_nil. }
  destruct (IH _ _ _ (λ h' Hin, Hh h' (list_elem_of_further _ _ _ Hin)) (counted_flush_key early late w h (Hh h ltac:(by left)) Hc))
    as (e & l & Hc' & Hs & Hl).
  exists e, l. split; [done|]. split; [by etrans; [|apply same_calls_flush]|].
  intros c Hin. destruct (Hl c Hin) as [Hin' Hn]. unfold off_key in Hin'. apply list_elem_of_filter in Hin' as [Hk Hin'].
  split; [done|]. intros h' [->|Hh']%elem_of_cons; [done|by apply Hn].
Qed.

Lemma counted_flush early late w :
  counted early late w → ∃ early', counted early' [] (LocalVec_flush w) ∧ same_calls early' (early ++ late).
Proof.
  intros Hc. pose proof (c_owner _ _ _ Hc) as Hown. unfold LocalVec_flush.
  assert (Hin : ∀ key, key ∈ (map_to_list (locals w)).*1 ↔ is_Some (owner w0 key)).
  { intros key. rewrite <-Hown. unfold owner. rewrite fmap_is_Some, list_elem_of_fmap. split.
    - intros ([k rl] & -> & Hk%elem_of_map_to_list). by exists rl.
    - intros [rl Hk]. exists (key, rl). by rewrite elem_of_map_to_list. }
  destruct (counted_flush_keys _ early late w (λ h, proj1 (Hin h)) Hc) as (e & l & Hc' & Hs & Hl).
  assert (l = []) as ->.
  { destruct l as [|c l]; [done|]. destruct (Hl c ltac:(by left)) as [_ Hn]. pose proof (c_late _ _ _ Hc') as Hlate.
    apply Forall_cons in Hlate as [(key & Hk & Ho%Hin) _]. by destruct (Hn key Ho). }
  exists e. by rewrite app_nil_r in Hs.
Qed.

(** Recording makes the amount pending at its key. *)
Lemma counted_record early late w now key x :
  entries_ok w0 → counted early late w → is_Some (owner w0 key) → (∀ r, holds (recorded r (late ++ [AfRecord now key x]))) →
  ∃ w', on_local (record x) key w = Some w' ∧ counted early (late ++ [AfRecord now key x]) w'.
Proof.
  intros Hok0 [Hok Hown Hvis Hpend Hlate] Hkey Hfit. pose proof Hkey as [r Hr]. pose proof Hr as Hr'.
  rewrite <-Hown in Hr'. unfold owner in Hr'. destruct (locals w !! key) as [[r0 l]|] eqn:Ek; [|done].
  simpl in Hr'. injection Hr' as ->. destruct (Hok _ _ _ Ek) as (s & Es & Hs).
  assert (Hw : ∀ k, worth_at k (late ++ [AfRecord now key x]) ≡
                 worth_at k late ⊕ (if decide (k = key) then worth x else amount_zero)).
  { intros k. unfold worth_at. rewrite amount_at_app. simpl. rewrite amount_zero_r.
    case_decide; [rewrite bool_decide_true by done|rewrite bool_decide_false by done]; done. }
  assert (Hh : holds (pending l ⊕ worth x)).
  { specialize (Hfit r). unfold recorded in Hfit. rewrite (amount_at_split _ key), amount_at_key in Hfit.
    rewrite bool_decide_true, Hw, decide_True, <-(Hpend _ _ _ Ek) in Hfit by done. by apply holds_part in Hfit. }
  assert (Hloc : ∀ k, alter (λ rl : nat * L, (rl.1, record x s rl.2)) key (locals w) !! k =
                   if decide (k = key) then Some (r, record x s l) else locals w !! k).
  { intros k. case_decide as Hk; [subst k; by rewrite lookup_alter_eq, Ek|by rewrite lookup_alter_ne]. }
  unfold on_local. rewrite Ek. cbn. rewrite Es. eexists. split; [done|]. split; simpl.
  - intros h r' l' Hl. simpl in Hl. rewrite Hloc in Hl. case_decide as Hk; [|by apply (Hok h)].
    injection Hl as <- <-. exists s. split; [done|]. by apply record_to.
  - intros k. unfold owner at 1. simpl. rewrite Hloc. case_decide as Hk; [subst k; by rewrite Hr|apply Hown].
  - done.
  - intros k r' l' Hl. rewrite Hloc in Hl. rewrite Hw. case_decide as Hk.
    + injection Hl as <- <-. subst k. rewrite record_adds, (Hpend _ _ _ Ek). done.
    + by rewrite amount_zero_r, (Hpend _ _ _ Hl).
  - apply Forall_app. split; [done|]. constructor; [|constructor]. by exists key.
Qed.

(** ... and nothing of the latter was recorded when the root was due to be flushed. *)
Record af_inv early late a : Prop := {
  v_counted : counted early late (af_root a);
  v_not_due : Forall (not_due (last_flush a)) late;
  v_last : 0 <= last_flush a ∧ last_flush a + interval < 2 ^ 64;
}.

Lemma same_calls_silent l c : call_key c = None → same_calls l (l ++ [c]).
Proof.
  intros Hc. split; intros y.
  - rewrite at_key_app. unfold at_key. rewrite (filter_cons_False _ c) by congruence. by rewrite app_nil_r.
  - rewrite amount_at_app. destruct c; [done|..]; simpl; by rewrite amount_zero_r.
Qed.

Lemma af_call_inv early late a c :
  0 <= interval → entries_ok w0 → af_inv early late a → call_ok c → (∀ r, holds (recorded r (late ++ [c]))) →
  ∃ a' early' late', af_call_run c a = Some a' ∧ af_inv early' late' a' ∧
    same_calls (early' ++ late') (early ++ late ++ [c]).
Proof.
  intros Hi Hok0 [Hcnt Hdue [Hl0 Hl]] Hc Hfit. destruct c as [now key x| |key].
  - destruct Hc as (Hr & Hn0 & Hn). destruct (counted_record early late _ now key x Hok0 Hcnt Hr Hfit) as (w' & Ew & Hcnt').
    unfold af_call_run, delegate. rewrite Ew. cbn [mbind option_bind]. unfold may_flush, try_flush. cbn [last_flush af_root].
    rewrite wrapping_add_small by lia. case_decide as Hd.
    + eexists _, early, (late ++ [_]). split; [done|]. split; [|done]. split; simpl; [done| |done].
      apply Forall_app. split; [done|]. by repeat constructor.
    + destruct (counted_flush _ _ _ Hcnt') as (e & He & Hs). eexists _, e, []. split; [done|].
      split; [split; simpl; [done|constructor|done]|]. by rewrite app_nil_r.
  - destruct (counted_flush _ _ _ Hcnt) as (e & He & Hs). exists (af_flush a), e, []. split; [done|].
    split; [by split; simpl|]. rewrite app_nil_r, app_assoc. etrans; [exact Hs|]. by apply same_calls_silent.
  - eexists _, (early ++ at_key key late), (off_key key late). split; [done|]. split.
    + split; simpl; [by apply counted_flush_key| |done]. apply Forall_forall. intros c [_ Hin]%list_elem_of_filter.
      by apply (proj1 (Forall_forall _ _) Hdue).
    + etrans; [apply same_calls_flush|]. rewrite app_assoc. by apply same_calls_silent.
Qed.

Lemma af_run_inv calls early late a :
  0 <= interval → entries_ok w0 → af_inv early late a → Forall call_ok calls →
  (∀ r, holds (recorded r (early ++ late ++ calls))) →
  ∃ a' early' late', af_run calls a = Some a' ∧ af_inv early' late' a' ∧
    same_calls (early' ++ late') (early ++ late ++ calls).
Proof.
  intros Hi Hok0. revert early late a. induction calls as [|c calls IH]; intros early late a Hinv Hc Hfit.
  { exists a, early, late. by rewrite !app_nil_r. }
  apply Forall_cons in Hc as [Hc Hcs].
  destruct (af_call_inv early late a c Hi Hok0 Hinv Hc) as (a1 & e1 & l1 & Hr & Hinv1 & Heq).
  { intros r. specialize (Hfit r). unfold recorded in *. rewrite (app_assoc late [c] calls : late ++ c :: calls = _) in Hfit.
    rewrite amount_at_app, (amount_at_app _ (late ++ [c])), amount_swap in Hfit. by apply holds_part in Hfit. }
  assert (Hall : same_calls (e1 ++ l1 ++ calls) (early ++ late ++ c :: calls)).
  { rewrite (app_assoc e1), (app_assoc late [c] calls : late ++ c :: calls = _), (app_assoc early).
    by apply same_calls_app. }
  destruct (IH e1 l1 a1 Hinv1 Hcs) as (a' & e' & l' & Hr' & Hinv' & Heq').
  { intros r. unfold recorded in *. rewrite (proj2 Hall). apply Hfit. }
  exists a', e', l'. simpl. rewrite Hr. split; [exact Hr'|]. split; [done|]. by etrans.
Qed.
End recording.

(** No call is lost: of the calls at each key some come first, [early], and the others,
    [late], last.  The shared metrics show what they showed and what [early] recorded; what
    [late] recorded at a key is pending there, and none of it was recorded when the root was
    due to be flushed. *)
Definition delivers {L G W A P} `{Recording L G W A} (interval : Z) (calls : list (af_call A)) (a a' : AutoFlush L G P) : Prop :=
  ∃ early late, (∀ key, at_key key calls = at_key key early ++ at_key key late) ∧
    Forall (not_due interval (last_flush a')) late ∧
    (∀ r s, LocalMetrics.store (af_root a) !! r = Some s →
       ∃ s', LocalMetrics.store (af_root a') !! r = Some s' ∧ visible s' ≡ visible s ⊕ recorded (af_root a) r early) ∧
    (∀ key r l, locals (af_root a') !! key = Some (r, l) → pending l ≡ worth_at key late).

(** a thread's root metric with nothing pending *)
Record fresh_root {L G W P} `{LocalMetricLaws L G W} (interval : Z) (a : AutoFlush L G P) : Prop := {
  f_ok : entries_ok (af_root a);
  f_empty : ∀ h, emptied (af_root a) h;
  f_last : 0 <= last_flush a ∧ last_flush a + interval < 2 ^ 64;
}.

Lemma af_run_delivers {L G W A P} `{Recording L G W A} interval (calls : list (af_call A)) (a : AutoFlush L G P) :
  0 <= interval → fresh_root interval a → Forall (call_ok interval (af_root a)) calls →
  (∀ r, holds (recorded (af_root a) r calls)) →
  ∃ a', af_run interval calls a = Some a' ∧ delivers interval calls a a'.
Proof.
  intros Hi [Hok He Hl] Hc Hfit.
  destruct (af_run_inv interval (af_root a) calls [] [] a Hi Hok) as (a' & early & late & Hr & [[_ _ Hv Hp _] Hy _] & [Heq _]); [|done|done|].
  { split; [|constructor|done]. split; [done|done| | |constructor].
    - intros r s0 Hs0. exists s0. split; [done|]. symmetry. apply amount_zero_r.
    - intros key r l Hk. by apply (He key r l). }
  exists a'. split; [done|]. exists early, late. split_and!; [|done..].
  intros key. by rewrite <-at_key_app, Heq.
Qed.

(** C22. Metrics that flush themselves: whatever sequence of [inc_by] and [observe] calls
    and flushes a thread makes through its [AFLocalCounter]s (which flush all metrics of the
    root) and [AFLocalHistogram]s (which flush their own), every call returns and none is
    lost.  At each key the calls whose counts the shared metric does not show yet are the
    last ones; they were all made less than the interval after the last call that flushed
    the root because it was due, and what they recorded is what the local metric holds. *)
Theorem auto_flush_delivers {P : Type} interval :
  0 <= interval →
  (∀ (calls : list (af_call Z)) (a : AutoFlush Z (Value Z) P),
     fresh_root interval a → Forall (call_ok interval (af_root a)) calls →
     ∃ a', af_run interval calls a = Some a' ∧ delivers interval calls a a') ∧
  (∀ (calls : list (af_call f64)) (a : AutoFlush LocalHistogram histogram P),
     fresh_root interval a → Forall (call_ok interval (af_root a)) calls → Z.of_nat (length calls) < 2 ^ 63 →
     ∃ a', af_run interval calls a = Some a' ∧ delivers interval calls a a').
Proof.
  intros Hi. split.
  - intros calls a Ha Hc. by apply af_run_delivers.
  - intros calls a Ha Hc Hlen. apply af_run_delivers; [done..|]. intros r. eapply Z.le_lt_trans; [|exact Hlen].
    unfold HistogramFacts.size. apply inj_le. clear. unfold recorded.
    induction calls as [|[now key v| |key] calls IH]; simpl in *; [done| |lia..].
    case_match; simpl; lia.
Qed.

(** The calls above are the methods; [inc] is an [inc_by]. *)
Lemma af_calls_are {P} interval now key (v : Z) (x : f64) :
  af_call_run (P := P) interval (AfRecord now key v) = AFLocalCounter_inc_by u64_number now interval key v ∧
  af_call_run (P := P) interval (AfRecord now key 1) = AFLocalCounter_inc u64_number now interval key ∧
  af_call_run (P := P) (A := Z) interval AfFlush = (λ a, Some (AFLocalCounter_flush u64_number a)) ∧
  af_call_run (P := P) interval (AfRecord now key x) = AFLocalHistogram_observe now interval key x ∧
  af_call_run (P := P) (A := f64) interval (AfFlushLocal key) = (λ a, Some (AFLocalHistogram_flush key a)).
Proof. done. Qed.

(** However often [ensure_updater] is called, one thread updates the clock. *)
Lemma one_updater n :
  foldl (λ '(running, spawned) _, let '(running, spawn) := ensure_updater running in
         (running, spawned + Z.b2z spawn)) (false, 0) (seq 0 n) = (negb (n =? 0)%nat, Z.b2z (negb (n =? 0)%nat)).
Proof.
  induction n as [|n IH]; [done|]. rewrite seq_S, foldl_app, IH. by destruct n.
Qed.

(** The clock never goes back, and shows at least the time of the updater's last turn. *)
Lemma updater_turn_spec t RECENT : RECENT <= updater_turn t RECENT ∧ t <= updater_turn t RECENT.
Proof. unfold updater_turn, now_millis. case_decide; simpl; lia. Qed.

(** ** A counter of a thread: 3 at 50 ms and 4 at 120 ms are visible, 2 at 130 ms is not *)
Module AutoFlushRun.
Definition w : LocalVec Z (Value Z) unit :=
  {| locals := {[ 1 := (0%nat, 0) ]}; vec := LocalRun.core; LocalMetrics.store := {[ 0%nat := LocalRun.counter 5 ]} |}.
Definition a : AutoFlush Z (Value Z) unit := {| af_root := w; last_flush := 10 |}.
Definition calls : list (af_call Z) := [AfRecord 50 1 3; AfRecord 120 1 4; AfRecord 130 1 2].

Lemma entry h r l : locals w !! h = Some (r, l) → h = 1 ∧ r = 0%nat ∧ l = 0.
Proof. unfold w. simpl. intros [<- [= <- <-]]%lookup_singleton_Some. done. Qed.

Lemma a_fresh : fresh_root 100 a.
Proof.
  split; [| |done].
  - intros h r l (-> & -> & ->)%entry. by exists (LocalRun.counter 5).
  - intros h r l (-> & -> & ->)%entry. done.
Qed.

Lemma calls_ok : Forall (call_ok 100 w) calls.
Proof. repeat constructor; simpl; try lia; by eexists. Qed.

Definition shown (o : option (AutoFlush Z (Value Z) unit)) : option (Z * option Z) :=
  a' ← o; s ← LocalMetrics.store (af_root a') !! 0%nat; Some (val s, AFLocalCounter_get 1 a').
End AutoFlushRun.

Example auto_flush_delivers_holds :
  AutoFlushRun.shown (af_run 100 AutoFlushRun.calls AutoFlushRun.a) = Some (12, Some 2) ∧
  ∃ a', af_run 100 AutoFlushRun.calls AutoFlushRun.a = Some a' ∧ delivers 100 AutoFlushRun.calls AutoFlushRun.a a'.
Proof.
  split; [vm_compute; reflexivity|].
  exact (proj1 (auto_flush_delivers (P := unit) 100 ltac:(lia)) AutoFlushRun.calls AutoFlushRun.a
    AutoFlushRun.a_fresh AutoFlushRun.calls_ok).
Defined.
