(* ===== verification/Client.v ===== *)
(** * The Prometheus client as its users see it: handles, registries and macros

    [counter.rs], [gauge.rs], [vec.rs], [registry.rs] and [macros.rs] of
    [prometheus/src].  A counter, a gauge, a histogram or a vector is a handle, an [Arc]:
    its clones, the one in a registry and the one in a vector share one object.  Objects
    live in a store, a handle is a location in it, and the methods change the store.
    Nothing is ever freed, which a handle could not notice. *)
From Stdlib Require Import ZArith Lia.
From S2P Require Import Prelude BTree Float64 Metrics Atomics MetricVec Registry TextEncoder Histogram Options HistogramApi.
Local Open Scope Z_scope.

(** ** The store *)

(** The implementations of the trait [Atomic], and their numbers *)
Inductive AtomicType := AtomicF64 | AtomicI64 | AtomicU64.
Definition T_of (a : AtomicType) : Type := match a with AtomicF64 => f64 | AtomicI64 | AtomicU64 => Z end.
Definition number_of (a : AtomicType) : Number (T_of a) :=
  match a with AtomicF64 => f64_number | AtomicI64 => i64_number | AtomicU64 => u64_number end.

#[export] Instance AtomicType_eq_dec : EqDecision AtomicType.
Proof. solve_decision. Defined.
#[export] Instance ValueType_eq_dec : EqDecision ValueType.
Proof. solve_decision. Defined.

(** A builder of metrics ([CounterVecBuilder], [GaugeVecBuilder], [HistogramVecBuilder])
    with its options *)
Inductive MetricOpts :=
  | CounterOpts (a : AtomicType) (o : Opts)
  | GaugeOpts (a : AtomicType) (o : Opts)
  | HistOpts (o : HistogramOpts).

Abbreviation MetricVec := (MetricVecCore (M := nat) (P := MetricOpts)).

(** What a handle points to: the [Value] of a counter or gauge, a histogram, a vector *)
Inductive Cell :=
  | CValue (a : AtomicType) (v : Value (T_of a))
  | CHist (c : HistogramCore)
  | CVec (v : MetricVec).

Abbreviation Store := (list Cell).

Definition cell_desc (c : Cell) : Desc :=
  match c with
  | CValue _ v => Atomics.v_desc v
  | CHist h => h_desc h
  | CVec v => MetricVec.v_desc v
  end.

(** The value of a cell with this number type *)
Definition value_of (a : AtomicType) (c : Cell) : option (Value (T_of a)) :=
  match c with
  | CValue a' v =>
      match a', a return Value (T_of a') → option (Value (T_of a)) with
      | AtomicF64, AtomicF64 | AtomicI64, AtomicI64 | AtomicU64, AtomicU64 => Some
      | _, _ => λ _, None
      end v
  | _ => None
  end.

(** ** Methods of counters and gauges on their [Value] *)
Section values.
Context {T : Type} (N : Number T).

(** [inc_by] has a [debug_assert!], which a release build does not check. *)
Definition GenericCounter_inc_by (v : T) (c : Value T) : Value T := Value_inc_by N v c.
Definition GenericCounter_inc (c : Value T) : Value T := Value_inc N c.
Definition GenericCounter_get (c : Value T) : T := val c.
Definition GenericCounter_reset (c : Value T) : Value T := counter_reset N c.
Definition GenericCounter_set (v : T) (c : Value T) : Value T := Value_set v c.

Definition GenericGauge_set (v : T) (g : Value T) : Value T := Value_set v g.
Definition GenericGauge_inc (g : Value T) : Value T := Value_inc N g.
Definition GenericGauge_dec (g : Value T) : Value T := Value_dec N g.
Definition GenericGauge_add (v : T) (g : Value T) : Value T := Value_inc_by N v g.
Definition GenericGauge_sub (v : T) (g : Value T) : Value T := Value_dec_by N v g.
Definition GenericGauge_get (g : Value T) : T := val g.
End values.

Inductive CounterOp (T : Type) := CounterIncBy (v : T) | CounterInc | CounterReset | CounterSet (v : T).
Inductive GaugeOp (T : Type) := GaugeSet (v : T) | GaugeInc | GaugeDec | GaugeAdd (v : T) | GaugeSub (v : T).
Arguments CounterIncBy {T} v.
Arguments CounterInc {T}.
Arguments CounterReset {T}.
Arguments CounterSet {T} v.
Arguments GaugeSet {T} v.
Arguments GaugeInc {T}.
Arguments GaugeDec {T}.
Arguments GaugeAdd {T} v.
Arguments GaugeSub {T} v.

Definition counter_op {T} (N : Number T) (u : CounterOp T) : Value T → Value T :=
  match u with
  | CounterIncBy v => GenericCounter_inc_by N v
  | CounterInc => GenericCounter_inc N
  | CounterReset => GenericCounter_reset N
  | CounterSet v => GenericCounter_set v
  end.
Definition gauge_op {T} (N : Number T) (u : GaugeOp T) : Value T → Value T :=
  match u with
  | GaugeSet v => GenericGauge_set v
  | GaugeInc => GenericGauge_inc N
  | GaugeDec => GenericGauge_dec N
  | GaugeAdd v => GenericGauge_add N v
  | GaugeSub v => GenericGauge_sub N v
  end.

(** A method of a counter handle changes the value it points to; a handle that points to
    something else, [None], does not exist in a typed program. *)
Definition on_value (t : ValueType) (a : AtomicType) (f : Value (T_of a) → Value (T_of a)) (c : Cell) : option Cell :=
  v ← value_of a c;
  if decide (val_type v = t) then Some (CValue a (f v)) else None.

Definition on_histogram (f : HistogramCore → HistogramCore) (c : Cell) : option Cell :=
  match c with CHist h => Some (CHist (f h)) | _ => None end.

Definition modify (l : nat) (f : Cell → option Cell) (s : Store) : option Store :=
  c ← s !! l;
  c ← f c;
  Some (<[l := c]> s).

(** ** Construction *)
Section client.
Context (fnv : bytes → Z) (f64_to_string : f64 → string).
Context (debug_desc : Desc → string) (debug_descs : list Desc → string) (debug_string : string → string).
Context (debug_vals : list string → string) (debug_labels : gmap string string → string).

(** [with_opts_and_label_values] of the three kinds *)
Definition new_metric (o : MetricOpts) (label_values : list string) : MetricsResult Cell :=
  match o with
  | CounterOpts a o => v ← counter_with_opts_and_label_values fnv (number_of a) o label_values; Ok (CValue a v)
  | GaugeOpts a o => v ← gauge_with_opts_and_label_values fnv (number_of a) o label_values; Ok (CValue a v)
  | HistOpts o => h ← with_opts_and_label_values fnv f64_to_string o label_values; Ok (CHist h)
  end.

(** [Arc::new] *)
Definition alloc (c : Cell) (s : Store) : nat * Store := (length s, s ++ [c]).

(** [MetricVecBuilder::build] *)
Definition build (o : MetricOpts) (label_values : list string) (s : Store) : MetricsResult (nat * Store) :=
  c ← new_metric o label_values; Ok (alloc c s).

(** [impl Describer] *)
Definition describe_opts (o : MetricOpts) : MetricsResult Desc :=
  match o with
  | CounterOpts _ o | GaugeOpts _ o => describe fnv o
  | HistOpts o => HistogramOpts_describe fnv o
  end.
Definition metric_type_of (o : MetricOpts) : MetricType :=
  match o with CounterOpts _ _ => COUNTER | GaugeOpts _ _ => GAUGE | HistOpts _ => HISTOGRAM end.
Definition with_variable_labels (names : list string) (o : MetricOpts) : MetricOpts :=
  match o with
  | CounterOpts a o => CounterOpts a (set_variable_labels names o)
  | GaugeOpts a o => GaugeOpts a (set_variable_labels names o)
  | HistOpts o => HistOpts (HistogramOpts_variable_labels names o)
  end.

(** [new] of a vector *)
Definition new_vec (o : MetricOpts) (label_names : list string) : MetricsResult Cell :=
  let o := with_variable_labels label_names o in
  v ← create describe_opts (metric_type_of o) o;
  Ok (CVec v).

(** The constructors of each kind of handle; those of one number type, [Counter],
    [IntCounter], [Gauge], [IntGauge], are instances. *)
Definition GenericCounter_with_opts (a : AtomicType) (opts : Opts) : MetricsResult Cell := new_metric (CounterOpts a opts) [].
Definition GenericCounter_new (a : AtomicType) (name help : string) : MetricsResult Cell :=
  GenericCounter_with_opts a (Opts_new name help).
Definition GenericGauge_with_opts (a : AtomicType) (opts : Opts) : MetricsResult Cell := new_metric (GaugeOpts a opts) [].
Definition GenericGauge_new (a : AtomicType) (name help : string) : MetricsResult Cell :=
  GenericGauge_with_opts a (Opts_new name help).
Definition Histogram_with_opts (opts : HistogramOpts) : MetricsResult Cell := new_metric (HistOpts opts) [].
Definition GenericCounterVec_new (a : AtomicType) (opts : Opts) (label_names : list string) : MetricsResult Cell :=
  new_vec (CounterOpts a opts) label_names.
Definition GenericGaugeVec_new (a : AtomicType) (opts : Opts) (label_names : list string) : MetricsResult Cell :=
  new_vec (GaugeOpts a opts) label_names.
Definition HistogramVec_new (opts : HistogramOpts) (label_names : list string) : MetricsResult Cell :=
  new_vec (HistOpts opts) label_names.

(** ** Collecting: histograms change as they are collected *)

(** [Metric::metric] *)
Definition cell_metric (c : Cell) : option (Metric * Cell) :=
  match c with
  | CValue a v => Some (Value_metric (number_of a) v, c)
  | CHist h => '(m, h) ← Histogram_metric h; Some (m, CHist h)
  | CVec _ => None
  end.

(** the loop over the children of a vector *)
Fixpoint metrics_at (ls : list nat) (s : Store) : option (list Metric * Store) :=
  match ls with
  | [] => Some ([], s)
  | l :: ls =>
      c ← s !! l;
      '(m, c) ← cell_metric c;
      '(ms, s) ← metrics_at ls (<[l := c]> s);
      Some (m :: ms, s)
  end.

(** [Collector::collect] *)
Definition collect_at (l : nat) (s : Store) : option (list MetricFamily * Store) :=
  c ← s !! l;
  match c with
  | CValue a v => Some ([Value_collect (number_of a) v], s)
  | CHist h => '(mfs, h) ← Histogram_collect h; Some (mfs, <[l := CHist h]> s)
  | CVec v =>
      '(ms, s) ← metrics_at (map_to_list (children v)).*2 s;
      Some ([{| mf_name := d_fq_name (MetricVec.v_desc v); mf_help := d_help (MetricVec.v_desc v);
                field_type := v_metric_type v; metric := ms |}], s)
  end.

(** the loop of [gather] over the collectors *)
Fixpoint collect_all (ls : list nat) (s : Store) : option (list MetricFamily * Store) :=
  match ls with
  | [] => Some ([], s)
  | l :: ls =>
      '(mfs, s) ← collect_at l s;
      '(mfs', s) ← collect_all ls s;
      Some (mfs ++ mfs', s)
  end.

(** A registered collector is a handle; its descriptors never change. *)
Definition store_collector (s : Store) : Collector nat :=
  {| desc l := match s !! l with Some c => [cell_desc c] | None => [] end;
     collect l := match collect_at l s with Some (mfs, _) => mfs | None => [] end |}.

(** ** The client *)

(** The objects and the registries; the first is [DEFAULT_REGISTRY]. *)
Record Client := { store : Store; registries : list (RegistryCore nat) }.

(** No process collector is registered without the feature "process". *)
Definition Client_new : Client := {| store := []; registries := [RegistryCore_default] |}.
Definition DEFAULT_REGISTRY : nat := 0.

Definition set_store (s : Store) (c : Client) : Client := {| store := s; registries := registries c |}.
Definition set_registry (rid : nat) (r : RegistryCore nat) (c : Client) : Client :=
  {| store := store c; registries := <[rid := r]> (registries c) |}.

(** A constructor that succeeds makes a new object. *)
Definition construct (r : MetricsResult Cell) (c : Client) : MetricsResult (nat * Client) :=
  cell ← r;
  let '(l, s) := alloc cell (store c) in
  Ok (l, set_store s c).

(** *** Registries; a boxed collector is a handle of an object *)
Definition Registry_new_custom (prefix : option string) (labels : option (gmap string string)) (c : Client)
    : MetricsResult (nat * Client) :=
  r ← new_custom prefix labels;
  Ok (length (registries c), {| store := store c; registries := registries c ++ [r] |}).

Definition Registry_register (rid l : nat) (c : Client) : option (MetricsResult unit * Client) :=
  r ← registries c !! rid;
  _ ← store c !! l;
  let '(res, r) := register (H := store_collector (store c)) debug_desc debug_string l r in
  Some (res, set_registry rid r c).

Definition Registry_unregister (rid l : nat) (c : Client) : option (MetricsResult unit * Client) :=
  r ← registries c !! rid;
  _ ← store c !! l;
  let '(res, r) := unregister (H := store_collector (store c)) debug_descs l r in
  Some (res, set_registry rid r c).

Definition Registry_contains (rid l : nat) (c : Client) : option bool :=
  r ← registries c !! rid;
  Some (contains (H := store_collector (store c)) l r).

Definition Registry_gather (rid : nat) (c : Client) : option (list MetricFamily * Client) :=
  r ← registries c !! rid;
  '(fams, s) ← collect_all (map_to_list (collectors_by_id r)).*2 (store c);
  Some (gather_families r fams, set_store s c).

(** the functions on the default registry *)
Definition register_default : nat → Client → option (MetricsResult unit * Client) := Registry_register DEFAULT_REGISTRY.
Definition unregister_default : nat → Client → option (MetricsResult unit * Client) := Registry_unregister DEFAULT_REGISTRY.
Definition gather_default : Client → option (list MetricFamily * Client) := Registry_gather DEFAULT_REGISTRY.
Definition contains_default : nat → Client → option bool := Registry_contains DEFAULT_REGISTRY.

(** *** Vectors: the methods of [MetricVec] on the vector at [lv] *)
Definition on_vec {R} (lv : nat) (f : MetricVec → Store → R * MetricVec * Store) (c : Client) : option (R * Client) :=
  match store c !! lv with
  | Some (CVec v) => let '(res, v, s) := f v (store c) in Some (res, set_store (<[lv := CVec v]> s) c)
  | _ => None
  end.
Definition keep_store {R} (f : MetricVec → R * MetricVec) (v : MetricVec) (s : Store) : R * MetricVec * Store :=
  let '(res, v) := f v in (res, v, s).

Definition Vec_get_metric_with_label_values (lv : nat) (vals : list string) : Client → option (MetricsResult nat * Client) :=
  on_vec lv (λ v s, get_metric_with_label_values fnv build v vals s).
Definition Vec_get_metric_with (lv : nat) (labels : gmap string string) : Client → option (MetricsResult nat * Client) :=
  on_vec lv (λ v s, get_metric_with fnv build v labels s).
Definition Vec_remove_label_values (lv : nat) (vals : list string) : Client → option (MetricsResult unit * Client) :=
  on_vec lv (keep_store (λ v, delete_label_values fnv debug_vals v vals)).
Definition Vec_remove (lv : nat) (labels : gmap string string) : Client → option (MetricsResult unit * Client) :=
  on_vec lv (keep_store (λ v, delete_labels fnv debug_labels v labels)).
Definition Vec_reset (lv : nat) : Client → option (unit * Client) :=
  on_vec lv (keep_store (λ v, (tt, reset v))).

(** [unwrap]: an error panics *)
Definition unwrap {A} (o : option (MetricsResult A * Client)) : option (A * Client) :=
  '(r, c) ← o;
  match r with Ok a => Some (a, c) | Err _ => None end.
Definition Vec_with_label_values (lv : nat) (vals : list string) (c : Client) : option (nat * Client) :=
  unwrap (Vec_get_metric_with_label_values lv vals c).
Definition Vec_with (lv : nat) (labels : gmap string string) (c : Client) : option (nat * Client) :=
  unwrap (Vec_get_metric_with lv labels c).

(** *** Counters, gauges and histograms *)
Definition counter_do (a : AtomicType) (l : nat) (u : CounterOp (T_of a)) (c : Client) : option Client :=
  s ← modify l (on_value VCounter a (counter_op (number_of a) u)) (store c);
  Some (set_store s c).
Definition gauge_do (a : AtomicType) (l : nat) (u : GaugeOp (T_of a)) (c : Client) : option Client :=
  s ← modify l (on_value VGauge a (gauge_op (number_of a) u)) (store c);
  Some (set_store s c).
Definition histogram_do (l : nat) (f : HistogramCore → HistogramCore) (c : Client) : option Client :=
  s ← modify l (on_histogram f) (store c);
  Some (set_store s c).

(** ** The macros

    The unwrap of the constructor panics, [None]; what [register] returns becomes what the
    macro returns, with the metric in place of the unit. *)
Definition register_with (rid : nat) (made : MetricsResult Cell) (c : Client) : option (MetricsResult nat * Client) :=
  match construct made c with
  | Ok (metric, c) =>
      '(res, c) ← Registry_register rid metric c;
      Some (_ ← res; Ok metric, c)
  | Err _ => None
  end.

(** [$TYPE]; each macro on the default registry and with a registry *)
Definition register_counter_of_type (TYPE : AtomicType) (OPTS : Opts) :=
  register_with DEFAULT_REGISTRY (GenericCounter_with_opts TYPE OPTS).
Definition register_counter_of_type_with_registry (TYPE : AtomicType) (OPTS : Opts) (REGISTRY : nat) :=
  register_with REGISTRY (GenericCounter_with_opts TYPE OPTS).
Definition register_counter_vec_of_type (TYPE : AtomicType) (OPTS : Opts) (LABELS_NAMES : list string) :=
  register_with DEFAULT_REGISTRY (GenericCounterVec_new TYPE OPTS LABELS_NAMES).
Definition register_counter_vec_of_type_with_registry (TYPE : AtomicType) (OPTS : Opts) (LABELS_NAMES : list string)
    (REGISTRY : nat) :=
  register_with REGISTRY (GenericCounterVec_new TYPE OPTS LABELS_NAMES).
Definition register_gauge_of_type (TYPE : AtomicType) (OPTS : Opts) :=
  register_with DEFAULT_REGISTRY (GenericGauge_with_opts TYPE OPTS).
Definition register_gauge_of_type_with_registry (TYPE : AtomicType) (OPTS : Opts) (REGISTRY : nat) :=
  register_with REGISTRY (GenericGauge_with_opts TYPE OPTS).
Definition register_gauge_vec_of_type (TYPE : AtomicType) (OPTS : Opts) (LABELS_NAMES : list string) :=
  register_with DEFAULT_REGISTRY (GenericGaugeVec_new TYPE OPTS LABELS_NAMES).
Definition register_gauge_vec_of_type_with_registry (TYPE : AtomicType) (OPTS : Opts) (LABELS_NAMES : list string)
    (REGISTRY : nat) :=
  register_with REGISTRY (GenericGaugeVec_new TYPE OPTS LABELS_NAMES).

(** the arms with options, and those with a name and a help text *)
Inductive MacroOpts := WithOpts (OPTS : Opts) | WithName (NAME HELP : string).
Definition macro_opts (o : MacroOpts) : Opts :=
  match o with WithOpts OPTS => OPTS | WithName NAME HELP => opts_macro NAME HELP [] end.

Definition register_counter o := register_counter_of_type AtomicF64 (macro_opts o).
Definition register_counter_with_registry o := register_counter_of_type_with_registry AtomicF64 (macro_opts o).
Definition register_int_counter o := register_counter_of_type AtomicU64 (macro_opts o).
Definition register_int_counter_with_registry o := register_counter_of_type_with_registry AtomicU64 (macro_opts o).
Definition register_counter_vec o := register_counter_vec_of_type AtomicF64 (macro_opts o).
Definition register_counter_vec_with_registry o := register_counter_vec_of_type_with_registry AtomicF64 (macro_opts o).
Definition register_int_counter_vec o := register_counter_vec_of_type AtomicU64 (macro_opts o).
Definition register_int_counter_vec_with_registry o := register_counter_vec_of_type_with_registry AtomicU64 (macro_opts o).
Definition register_gauge o := register_gauge_of_type AtomicF64 (macro_opts o).
Definition register_gauge_with_registry o := register_gauge_of_type_with_registry AtomicF64 (macro_opts o).
Definition register_int_gauge o := register_gauge_of_type AtomicI64 (macro_opts o).
Definition register_int_gauge_with_registry o := register_gauge_of_type_with_registry AtomicI64 (macro_opts o).
Definition register_gauge_vec o := register_gauge_vec_of_type AtomicF64 (macro_opts o).
Definition register_gauge_vec_with_registry o := register_gauge_vec_of_type_with_registry AtomicF64 (macro_opts o).
Definition register_int_gauge_vec o := register_gauge_vec_of_type AtomicI64 (macro_opts o).
Definition register_int_gauge_vec_with_registry o := register_gauge_vec_of_type_with_registry AtomicI64 (macro_opts o).

(** histograms: with options, with name and help, and with buckets as well *)
Inductive MacroHistogramOpts :=
  | WithHOpts (HOPTS : HistogramOpts) | WithHName (NAME HELP : string) | WithBuckets (NAME HELP : string) (BUCKETS : list f64).
Definition macro_histogram_opts (o : MacroHistogramOpts) : HistogramOpts :=
  match o with
  | WithHOpts HOPTS => HOPTS
  | WithHName NAME HELP => histogram_opts NAME HELP
  | WithBuckets NAME HELP BUCKETS => histogram_opts_buckets NAME HELP BUCKETS
  end.

Definition register_histogram o := register_with DEFAULT_REGISTRY (Histogram_with_opts (macro_histogram_opts o)).
Definition register_histogram_with_registry o (REGISTRY : nat) :=
  register_with REGISTRY (Histogram_with_opts (macro_histogram_opts o)).
Definition register_histogram_vec o (LABELS_NAMES : list string) :=
  register_with DEFAULT_REGISTRY (HistogramVec_new (macro_histogram_opts o) LABELS_NAMES).
Definition register_histogram_vec_with_registry o (LABELS_NAMES : list string) (REGISTRY : nat) :=
  register_with REGISTRY (HistogramVec_new (macro_histogram_opts o) LABELS_NAMES).

(** ** Programs: the calls of a client in order

    An error that a call returns does not stop the program.  A call panics, [None], only
    where the code does or where the model has a handle that a typed program cannot have. *)
Inductive op :=
  | NewMetric (o : MetricOpts)
  | NewVec (o : MetricOpts) (label_names : list string)
  | CounterDo (a : AtomicType) (l : nat) (u : CounterOp (T_of a))
  | GaugeDo (a : AtomicType) (l : nat) (u : GaugeOp (T_of a))
  | ObserveAt (l : nat) (v : f64)
  | VecGet (lv : nat) (vals : list string)
  | VecGetWith (lv : nat) (labels : gmap string string)
  | VecRemove (lv : nat) (vals : list string)
  | VecRemoveWith (lv : nat) (labels : gmap string string)
  | VecReset (lv : nat)
  | NewRegistry (prefix : option string) (labels : option (gmap string string))
  | Register (rid l : nat)
  | Unregister (rid l : nat)
  | Gather (rid : nat).

Definition or_unchanged {A} (r : MetricsResult (A * Client)) (c : Client) : option Client :=
  Some (match r with Ok (_, c) => c | Err _ => c end).

Definition run_op (o : op) (c : Client) : option Client :=
  match o with
  | NewMetric o => or_unchanged (construct (new_metric o []) c) c
  | NewVec o names => or_unchanged (construct (new_vec o names) c) c
  | CounterDo a l u => counter_do a l u c
  | GaugeDo a l u => gauge_do a l u c
  | ObserveAt l v => histogram_do l (Histogram_observe v) c
  | VecGet lv vals => snd <$> Vec_get_metric_with_label_values lv vals c
  | VecGetWith lv labels => snd <$> Vec_get_metric_with lv labels c
  | VecRemove lv vals => snd <$> Vec_remove_label_values lv vals c
  | VecRemoveWith lv labels => snd <$> Vec_remove lv labels c
  | VecReset lv => snd <$> Vec_reset lv c
  | NewRegistry prefix labels => or_unchanged (Registry_new_custom prefix labels c) c
  | Register rid l => snd <$> Registry_register rid l c
  | Unregister rid l => snd <$> Registry_unregister rid l c
  | Gather rid => snd <$> Registry_gather rid c
  end.

Fixpoint run_ops (ops : list op) (c : Client) : option Client :=
  match ops with
  | [] => Some c
  | o :: ops => c ← run_op o c; run_ops ops c
  end.

(** ** What a program does to a metric: the calls that address it, on its object alone *)
Definition cell_op (o : op) : option (nat * (Cell → option Cell)) :=
  match o with
  | CounterDo a l u => Some (l, on_value VCounter a (counter_op (number_of a) u))
  | GaugeDo a l u => Some (l, on_value VGauge a (gauge_op (number_of a) u))
  | ObserveAt l v => Some (l, on_histogram (Histogram_observe v))
  | _ => None
  end.

Definition effect (l : nat) (c : Cell) (o : op) : Cell :=
  match cell_op o with
  | Some (l', f) => if decide (l' = l) then default c (f c) else c
  | None => c
  end.
Definition effects (l : nat) (ops : list op) (c : Cell) : Cell := foldl (effect l) c ops.
End client.
