(* ===== verification/ClientFacts.v ===== *)
(** * Facts about the client: what every call keeps, and what a registry exports

    Two cells are equivalent when no handle can tell them apart; collecting, which flips
    the shards of a histogram, leaves every cell equivalent to what it was. *)
From Stdlib Require Import ZArith Lia.
From S2P Require Import Prelude BTree Float64 Metrics MetricsFacts Atomics MetricVec Registry RegistryFacts TextEncoder Histogram HistogramFacts HistogramInv Options HistogramApi Client.
Local Open Scope Z_scope.
Set Default Proof Using "Type".

(** ** Equivalence *)
Inductive CellView :=
  | ViewValue (a : AtomicType) (v : Value (T_of a))
  | ViewHist (d : Desc) (lps : list LabelPair) (ub vs : list f64)
  | ViewVec (v : MetricVec).

Definition cell_view (c : Cell) : CellView :=
  match c with
  | CValue a v => ViewValue a v
  | CHist h => ViewHist (h_desc h) (h_label_pairs h) (upper_bounds (h_state h)) (started (h_state h))
  | CVec v => ViewVec v
  end.

#[export] Instance cell_equiv : Equiv Cell := λ c c', cell_view c = cell_view c'.
#[export] Instance cell_equivalence : Equivalence (≡@{Cell}).
Proof. split; repeat intro; unfold equiv, cell_equiv in *; congruence. Qed.

(** ** What no call changes *)
Inductive Static :=
  | StaticValue (a : AtomicType) (d : Desc) (t : ValueType) (lps : list LabelPair)
  | StaticHist (d : Desc) (lps : list LabelPair) (ub : list f64)
  | StaticVec (d : Desc) (t : MetricType) (o : MetricOpts).

Definition static_view (c : CellView) : Static :=
  match c with
  | ViewValue a v => StaticValue a (Atomics.v_desc v) (val_type v) (label_pairs v)
  | ViewHist d lps ub _ => StaticHist d lps ub
  | ViewVec v => StaticVec (MetricVec.v_desc v) (v_metric_type v) (opts v)
  end.
Definition static (c : Cell) : Static := static_view (cell_view c).
Definition static_desc (t : Static) : Desc :=
  match t with StaticValue _ d _ _ | StaticHist d _ _ | StaticVec d _ _ => d end.

Lemma cell_desc_static c : cell_desc c = static_desc (static c).
Proof. by destruct c. Qed.
Lemma equiv_static c c' : c ≡ c' → static c = static c'.
Proof. intros Heq. unfold static. by rewrite Heq. Qed.

Definition is_metric (c : Cell) : Prop := match c with CVec _ => False | _ => True end.

Lemma is_metric_static c c' : static c = static c' → is_metric c → is_metric c'.
Proof. by destruct c, c'. Qed.

(** a metric that this builder makes *)
Definition made_by (o : MetricOpts) (c : Cell) : Prop :=
  match o, c with
  | CounterOpts a _, CValue a' v => a' = a ∧ val_type v = VCounter
  | GaugeOpts a _, CValue a' v => a' = a ∧ val_type v = VGauge
  | HistOpts _, CHist _ => True
  | _, _ => False
  end.

Lemma made_by_metric o c : made_by o c → is_metric c.
Proof. by destruct o, c. Qed.
Lemma made_by_static o c c' : static c = static c' → made_by o c → made_by o c'.
Proof.
  destruct o, c, c'; unfold static; simpl; try (intros; discriminate || done);
    intros Hs [Ha Ht]; injection Hs as Ha' _ Ht' _; split; congruence.
Qed.

(** *** The store only grows. *)
Definition grows (s s' : Store) : Prop := (static <$> s) `prefix_of` (static <$> s').

#[export] Instance grows_preorder : PreOrder grows.
Proof. split; unfold grows; [intros s; done|]. intros x y z. apply transitivity. Qed.

Lemma grows_lookup s s' l c :
  grows s s' → s !! l = Some c → ∃ c', s' !! l = Some c' ∧ static c' = static c.
Proof.
  intros Hg Hl. assert (Hs : (static <$> s') !! l = Some (static c)).
  { eapply prefix_lookup_Some; [|exact Hg]. by rewrite list_lookup_fmap, Hl. }
  rewrite list_lookup_fmap in Hs. destruct (s' !! l) as [c'|]; [|done]. exists c'. split; [done|]. by injection Hs.
Qed.

Lemma grows_insert s l c c' : s !! l = Some c → static c' = static c → grows s (<[l := c']> s).
Proof.
  intros Hl Hs. unfold grows. rewrite list_fmap_insert, Hs, list_insert_id; [done|].
  by rewrite list_lookup_fmap, Hl.
Qed.

Lemma grows_app s k : grows s (s ++ k).
Proof. unfold grows. rewrite fmap_app. by apply prefix_app_r. Qed.

Lemma grows_equiv s s' : s ≡ s' → grows s s'.
Proof.
  intros Heq. unfold grows. replace (static <$> s') with (static <$> s); [done|].
  induction Heq as [|c c' s s' Hc _ IH]; [done|].
  rewrite !fmap_cons. f_equal; [by apply equiv_static|exact IH].
Qed.


Lemma equiv_lookup (s s' : Store) l c : s' ≡ s → s !! l = Some c → ∃ c', s' !! l = Some c' ∧ c' ≡ c.
Proof.
  intros Heq Hl. apply list_equiv_Forall2 in Heq. apply (Forall2_lookup_r _ _ _ _ _ Heq) in Hl as (c' & Hl' & Hc).
  by exists c'.
Qed.

(** ** The invariant of the store *)
Definition cell_ok (c : Cell) : Prop :=
  fits 64 (id (cell_desc c)) ∧
  match c with CHist h => fits_count (h_state h) → quiet (h_state h) | _ => True end.

Section facts.
Context (fnv : bytes → Z) (f64_to_string : f64 → string).
Context (debug_desc : Desc → string) (debug_descs : list Desc → string) (debug_string : string → string).
Context (debug_vals : list string → string) (debug_labels : gmap string string → string).

(** The children of a vector are metrics of its own kind under its descriptor, and no
    metric is the child of two vectors, or twice of one. *)
Record store_ok (s : Store) : Prop := {
  so_child lv v h l :
    s !! lv = Some (CVec v) → children v !! h = Some l →
    ∃ c, s !! l = Some c ∧ made_by (opts v) c ∧ cell_desc c = MetricVec.v_desc v;
  so_inj lv v h lv' v' h' l :
    s !! lv = Some (CVec v) → s !! lv' = Some (CVec v') → children v !! h = Some l → children v' !! h' = Some l →
    lv = lv' ∧ h = h';
  so_vec lv v :
    s !! lv = Some (CVec v) →
    describe_opts fnv (opts v) = Ok (MetricVec.v_desc v) ∧ v_metric_type v = metric_type_of (opts v);
  so_cell l c : s !! l = Some c → cell_ok c;
}.

Lemma store_ok_nil : store_ok [].
Proof. split; intros *; by rewrite lookup_nil. Qed.

(** *** A metric changes *)
Lemma lookup_insert_vec (s : Store) l c c' lv v :
  s !! l = Some c → is_metric c → is_metric c' → (<[l := c']> s) !! lv = Some (CVec v) ↔ s !! lv = Some (CVec v).
Proof.
  intros Hl Hc Hc'. destruct (decide (l = lv)) as [->|Hne]; [|by rewrite list_lookup_insert_ne].
  rewrite list_lookup_insert_eq by by eapply lookup_lt_Some. rewrite Hl. split; intros [= ->]; done.
Qed.

Lemma update_metric_ok s l c c' :
  store_ok s → s !! l = Some c → is_metric c → static c' = static c → cell_ok c' → store_ok (<[l := c']> s).
Proof.
  intros [H1 H2 H3 H4] Hl Hm Hs Hc'.
  assert (Hm' : is_metric c') by by eapply is_metric_static.
  split.
  - intros lv v h l'. rewrite (lookup_insert_vec s l c c') by done. intros Hv Hch.
    destruct (H1 _ _ _ _ Hv Hch) as (c0 & Hl' & Hk & Hd). destruct (decide (l = l')) as [->|Hne].
    + rewrite list_lookup_insert_eq by by eapply lookup_lt_Some. exists c'. rewrite Hl' in Hl. simplify_eq.
      split; [done|]. split; [by eapply made_by_static|]. by rewrite cell_desc_static, Hs, <-cell_desc_static.
    + rewrite list_lookup_insert_ne by done. eauto.
  - intros *. rewrite !(lookup_insert_vec s l c c') by done. apply H2.
  - intros lv v. rewrite (lookup_insert_vec s l c c') by done. apply H3.
  - intros l' c0. destruct (decide (l = l')) as [->|Hne]; [|rewrite list_lookup_insert_ne by done; apply H4].
    rewrite list_lookup_insert_eq by by eapply lookup_lt_Some. by intros [= <-].
Qed.

(** *** An object is made *)
Lemma lookup_snoc_cases (s : Store) c l x : (s ++ [c]) !! l = Some x → s !! l = Some x ∨ (l = length s ∧ x = c).
Proof.
  intros [Hl|[Hge Hl]]%lookup_app_Some; [by left|right]. apply list_lookup_singleton_Some in Hl as [? ->]. split; [lia|done].
Qed.

Definition fresh_ok (c : Cell) : Prop :=
  cell_ok c ∧
  match c with
  | CVec v => children v = ∅ ∧ describe_opts fnv (opts v) = Ok (MetricVec.v_desc v) ∧ v_metric_type v = metric_type_of (opts v)
  | _ => True
  end.

Lemma alloc_ok s c : store_ok s → fresh_ok c → store_ok (s ++ [c]).
Proof.
  intros [H1 H2 H3 H4] [Hok Hc]. split.
  - intros lv v h l [Hv|[-> Hv]]%lookup_snoc_cases Hch; [|subst c; destruct Hc as [Hc _]; by rewrite Hc in Hch].
    destruct (H1 _ _ _ _ Hv Hch) as (c0 & Hl & ?). exists c0. split; [by apply lookup_app_l_Some|done].
  - intros lv v h lv' v' h' l [Hv|[-> Hv]]%lookup_snoc_cases [Hv'|[-> Hv']]%lookup_snoc_cases Hch Hch';
      try (subst c; destruct Hc as [Hc _]; by rewrite Hc in *). by eapply H2.
  - intros lv v [Hv|[-> Hv]]%lookup_snoc_cases; [by apply (H3 lv)|subst c; apply Hc].
  - intros l c0 [Hl|[-> ->]]%lookup_snoc_cases; [by eapply H4|done].
Qed.

(** *** A vector changes *)
Lemma shrink_vec_ok s lv v ch :
  store_ok s → s !! lv = Some (CVec v) → (∀ h l, ch !! h = Some l → children v !! h = Some l) →
  store_ok (<[lv := CVec (set_children ch v)]> s).
Proof.
  intros [H1 H2 H3 H4] Hv Hch.
  assert (Hlt : (lv < length s)%nat) by by eapply lookup_lt_Some.
  assert (Hold : ∀ lv' v', (<[lv := CVec (set_children ch v)]> s) !! lv' = Some (CVec v') →
    ∃ v0, s !! lv' = Some (CVec v0) ∧ opts v' = opts v0 ∧ MetricVec.v_desc v' = MetricVec.v_desc v0 ∧
          v_metric_type v' = v_metric_type v0 ∧ ∀ h l, children v' !! h = Some l → children v0 !! h = Some l).
  { intros lv' v'. destruct (decide (lv = lv')) as [->|Hne].
    - rewrite list_lookup_insert_eq by done. intros [= <-]. by exists v.
    - rewrite list_lookup_insert_ne by done. intros Hv'. by exists v'. }
  split.
  - intros lv' v' h l Hv' Hl. destruct (Hold _ _ Hv') as (v0 & Hv0 & Ho & Hd & _ & Hsub).
    destruct (H1 _ _ _ _ Hv0 (Hsub _ _ Hl)) as (c & Hc & Hm & Hdc). rewrite Ho, Hd. exists c. split; [|done].
    rewrite list_lookup_insert_ne; [done|]. intros ->. rewrite Hv in Hc. injection Hc as <-.
    by apply made_by_metric in Hm.
  - intros lv1 v1 h1 lv2 v2 h2 l Hv1 Hv2 Hl1 Hl2.
    destruct (Hold _ _ Hv1) as (? & ? & _ & _ & _ & ?). destruct (Hold _ _ Hv2) as (? & ? & _ & _ & _ & ?). eauto.
  - intros lv' v' Hv'. destruct (Hold _ _ Hv') as (v0 & Hv0 & -> & -> & -> & _). by eapply H3.
  - intros l c. destruct (decide (lv = l)) as [->|Hne]; [|rewrite list_lookup_insert_ne by done; apply H4].
    rewrite list_lookup_insert_eq by done. intros [= <-]. apply (H4 _ _ Hv).
Qed.

Lemma grow_vec_ok s lv v h c :
  store_ok s → s !! lv = Some (CVec v) → made_by (opts v) c → cell_desc c = MetricVec.v_desc v → cell_ok c →
  store_ok (<[lv := CVec (set_children (<[h := length s]> (children v)) v)]> (s ++ [c])).
Proof.
  intros [H1 H2 H3 H4] Hv Hm Hd Hc.
  assert (Hlt : (lv < length s)%nat) by by eapply lookup_lt_Some.
  set (v1 := set_children _ v). set (s1 := <[lv := CVec v1]> (s ++ [c])).
  assert (Hold : ∀ lv' v', s1 !! lv' = Some (CVec v') →
    (lv' = lv ∧ v' = v1) ∨ (lv' ≠ lv ∧ s !! lv' = Some (CVec v'))).
  { intros lv' v'. unfold s1. destruct (decide (lv = lv')) as [<-|Hne].
    - rewrite list_lookup_insert_eq by (rewrite length_app; lia). intros [= <-]. by left.
    - rewrite list_lookup_insert_ne by done. intros [Hv'|[-> Hv']]%lookup_snoc_cases; [by right|].
      subst c. by apply made_by_metric in Hm. }
  assert (Hmet : ∀ l c0, s !! l = Some c0 → is_metric c0 → s1 !! l = Some c0).
  { intros l c0 Hl Hm0. unfold s1. rewrite list_lookup_insert_ne; [by apply lookup_app_l_Some|].
    intros ->. by simplify_eq. }
  assert (Hin : ∀ lv' v' h' l, s1 !! lv' = Some (CVec v') → children v' !! h' = Some l →
    (lv' = lv ∧ h' = h ∧ l = length s) ∨
    (l < length s)%nat ∧ ∃ v0, s !! lv' = Some (CVec v0) ∧ children v0 !! h' = Some l ∧ opts v0 = opts v' ∧
      MetricVec.v_desc v0 = MetricVec.v_desc v').
  { intros lv' v' h' l Hv' Hl. destruct (Hold _ _ Hv') as [[-> ->]|[Hne Hv0]].
    - simpl in Hl. apply lookup_insert_Some in Hl as [[<- <-]|[Hne Hl]]; [by left|right].
      destruct (H1 _ _ _ _ Hv Hl) as (c0 & Hc0 & _). split; [by eapply lookup_lt_Some|]. by exists v.
    - right. destruct (H1 _ _ _ _ Hv0 Hl) as (c0 & Hc0 & _). split; [by eapply lookup_lt_Some|]. by exists v'. }
  split.
  - intros lv' v' h' l Hv' Hl. destruct (Hin _ _ _ _ Hv' Hl) as [(-> & -> & ->)|(Hl' & v0 & Hv0 & Hc0 & Ho & Hd0)].
    + destruct (Hold _ _ Hv') as [[_ ->]|[Hne _]]; [|done]. exists c. split; [|done]. unfold s1.
      rewrite list_lookup_insert_ne by lia. by rewrite lookup_app_r, Nat.sub_diag.
    + destruct (H1 _ _ _ _ Hv0 Hc0) as (c0 & Hc0' & Hm0 & Hd1). exists c0. rewrite <-Ho, <-Hd0.
      split; [|done]. apply Hmet; [done|by eapply made_by_metric].
  - intros lv1 v1' h1 lv2 v2 h2 l Hv1 Hv2 Hl1 Hl2.
    destruct (Hin _ _ _ _ Hv1 Hl1) as [(-> & -> & ->)|(Hlt1 & ? & ? & ? & _)],
             (Hin _ _ _ _ Hv2 Hl2) as [(-> & -> & E)|(Hlt2 & ? & ? & ? & _)]; [done|lia|lia|eauto].
  - intros lv' v' Hv'. destruct (Hold _ _ Hv') as [[-> ->]|[_ Hv0]]; [by apply (H3 lv v)|by eapply H3].
  - intros l c0. unfold s1. destruct (decide (lv = l)) as [->|Hne].
    + rewrite list_lookup_insert_eq by (rewrite length_app; lia). intros [= <-]. apply (H4 _ _ Hv).
    + rewrite list_lookup_insert_ne by done. intros [Hl|[-> ->]]%lookup_snoc_cases; [by eapply H4|done].
Qed.

(** ** The constructors *)
Context (Hfnv : ∀ b, fits 64 (fnv b)).

Lemma describe_fits o d : describe fnv o = Ok d → fits 64 (id d).
Proof using Hfnv.
  unfold describe. intros Hd.
  pose proof (Desc_new_cases fnv (fq_name o) (help o) (variable_labels o) (const_labels o)) as Hc.
  rewrite Hd in Hc. destruct Hc as (_ & _ & _ & _ & _ & -> & _). apply Hfnv.
Qed.
Lemma describe_opts_fits o d : describe_opts fnv o = Ok d → fits 64 (id d).
Proof using Hfnv. destruct o; apply describe_fits. Qed.

Lemma Value_new_spec {T} o t (x : T) vals v :
  Value_new fnv o t x vals = Ok v → describe fnv o = Ok (Atomics.v_desc v) ∧ val_type v = t ∧ val v = x ∧
    make_label_pairs (Atomics.v_desc v) vals = Ok (label_pairs v).
Proof.
  unfold Value_new. intros (d & Hd & (lps & Hl & [= <-])%result_bind_Ok)%result_bind_Ok. done.
Qed.

Lemma new_metric_spec o vals c :
  new_metric fnv f64_to_string o vals = Ok c →
  made_by o c ∧ describe_opts fnv o = Ok (cell_desc c) ∧ fresh_ok c.
Proof using Hfnv.
  intros Hc. enough (made_by o c ∧ describe_opts fnv o = Ok (cell_desc c) ∧
    match c with CHist h => quiet (h_state h) | CVec _ => False | _ => True end) as (Hm & Hd & Hq).
  { pose proof (describe_opts_fits _ _ Hd). split; [done|]. split; [done|]. by destruct c. }
  destruct o as [a o|a o|o]; simpl in Hc.
  - by destruct (proj1 (result_bind_Ok _ _ _) Hc) as (v & (Hd & Ht & _)%Value_new_spec & [= <-]).
  - by destruct (proj1 (result_bind_Ok _ _ _) Hc) as (v & (Hd & Ht & _)%Value_new_spec & [= <-]).
  - apply result_bind_Ok in Hc as (h & Hh & [= <-]). unfold with_opts_and_label_values in Hh.
    apply result_bind_Ok in Hh as ([[d lps] st] & Hh & [= <-]). unfold HistogramCore_new in Hh.
    apply result_bind_Ok in Hh as (d' & Hd & Hh). repeat (apply result_bind_Ok in Hh as (? & _ & Hh)).
    injection Hh as -> _ <-. split; [done|]. split; [done|]. apply quiet_init.
Qed.

Lemma new_vec_spec o names c :
  new_vec fnv o names = Ok c →
  ∃ v, c = CVec v ∧ children v = ∅ ∧ opts v = with_variable_labels names o ∧ fresh_ok c.
Proof using Hfnv.
  unfold new_vec, create. intros (v & (d & Hd & [= <-])%result_bind_Ok & [= <-])%result_bind_Ok.
  eexists. split; [done|]. split; [done|]. split; [done|]. split; [|done]. split; [|done].
  by apply (describe_opts_fits _ _ Hd).
Qed.

(** ** The calls that address a metric *)
Lemma value_of_Some a c v : value_of a c = Some v → c = CValue a v.
Proof. destruct c as [a' v'| |]; [|done..]. destruct a, a'; simpl; try done; by intros [= <-]. Qed.

(** A method of a counter or gauge writes another number and nothing else. *)
Definition sets_value {T} (f : Value T → Value T) : Prop := ∀ v, ∃ x, f v = Value_set x v.

Lemma counter_op_sets {T} (N : Number T) u : sets_value (counter_op N u).
Proof. intros v. destruct u; by eexists. Qed.
Lemma gauge_op_sets {T} (N : Number T) u : sets_value (gauge_op N u).
Proof. intros v. destruct u; by eexists. Qed.

Lemma on_value_spec t a f c c' :
  sets_value f → on_value t a f c = Some c' →
  ∃ v, c = CValue a v ∧ val_type v = t ∧ c' = CValue a (f v) ∧ static c' = static c.
Proof.
  intros Hf. unfold on_value. destruct (value_of a c) as [v|] eqn:E; [|done]. apply value_of_Some in E as ->. simpl.
  case_decide as Ht; [|done]. intros [= <-]. exists v. split_and!; try done. unfold static. simpl.
  by destruct (Hf v) as [x ->].
Qed.

Lemma observe_static v h : static (CHist (Histogram_observe v h)) = static (CHist h).
Proof. done. Qed.

Lemma observe_cell_ok v h : cell_ok (CHist h) → cell_ok (CHist (Histogram_observe v h)).
Proof.
  intros [Hid Hq]. split; [exact Hid|]. intros Hf. apply observe_quiet; [|done]. apply Hq.
  cbn [h_state Histogram_observe set_state] in Hf. unfold fits_count in *.
  rewrite (proj1 (observe_fields v (h_state h))), size_app in Hf. pose proof (size_nonneg [v]). lia.
Qed.

Lemma cell_op_spec o l f c c' :
  cell_op o = Some (l, f) → f c = Some c' → is_metric c ∧ static c' = static c ∧ (cell_ok c → cell_ok c').
Proof.
  destruct o as [| |a l' u|a l' u|l' v| | | | | | | | |]; try done; intros [= <- <-].
  - intros (v & -> & _ & -> & Hs)%on_value_spec; [|apply counter_op_sets].
    split; [done|]. split; [done|]. unfold cell_ok. by rewrite !cell_desc_static, Hs.
  - intros (v & -> & _ & -> & Hs)%on_value_spec; [|apply gauge_op_sets].
    split; [done|]. split; [done|]. unfold cell_ok. by rewrite !cell_desc_static, Hs.
  - destruct c as [|h|]; [done| |done]. intros [= <-]. split; [done|].
    split; [apply observe_static|]. apply (observe_cell_ok v h).
Qed.

Lemma on_value_view t a f c1 c2 : c1 ≡ c2 → default c1 (on_value t a f c1) ≡ default c2 (on_value t a f c2).
Proof.
  intros Heq. destruct c1 as [a1 v1|h1|v1], c2 as [a2 v2|h2|v2]; try done.
  injection Heq as -> Heq. apply Eqdep_dec.inj_pair2_eq_dec in Heq as ->; [done|]. intros x y. apply AtomicType_eq_dec.
Qed.

Lemma observe_view v h :
  cell_view (CHist (Histogram_observe v h)) =
  ViewHist (h_desc h) (h_label_pairs h) (upper_bounds (h_state h)) (started (h_state h) ++ [v]).
Proof.
  unfold cell_view, Histogram_observe, set_state. cbn [h_desc h_label_pairs h_state].
  by destruct (observe_fields v (h_state h)) as (-> & -> & _).
Qed.

(** Equivalent cells stay equivalent. *)
#[export] Instance effect_proper l : Proper ((≡) ==> (=) ==> (≡)) (effect l).
Proof.
  intros c1 c2 Heq o _ <-. unfold effect. destruct o as [| |a l' u|a l' u|l' v| | | | | | | | |]; cbn [cell_op]; try exact Heq;
    case_decide; try exact Heq; try by apply on_value_view.
  destruct c1 as [a1 v1|h1|v1], c2 as [a2 v2|h2|v2]; try discriminate Heq; [exact Heq| |exact Heq].
  change (cell_view (CHist (Histogram_observe v h1)) = cell_view (CHist (Histogram_observe v h2))).
  rewrite !observe_view. injection Heq as -> -> -> ->. reflexivity.
Qed.

Lemma effects_proper l ops c1 c2 : c1 ≡ c2 → effects l ops c1 ≡ effects l ops c2.
Proof.
  revert c1 c2. induction ops as [|o ops IH]; intros c1 c2 Heq; [done|]. simpl. apply IH. by apply effect_proper.
Qed.

(** ** Collecting leaves equivalent cells *)
Lemma cell_metric_spec c m c' :
  cell_metric c = Some (m, c') → c' ≡ c ∧ is_metric c ∧ (cell_ok c → cell_ok c').
Proof.
  destruct c as [a v|h|]; cbn [cell_metric]; [by intros [= <- <-]| |done].
  unfold Histogram_metric. destruct (proto (h_state h)) as [[p h']|] eqn:E; [|done]. intros [= <- <-].
  destruct (proto_fields _ _ _ E) as (_ & Hub & _ & _ & Hst & _). split; [|split; [done|]].
  - unfold equiv, cell_equiv, cell_view, set_state. cbn [h_desc h_label_pairs h_state]. by rewrite Hub, Hst.
  - intros [Hid Hq]. split; [exact Hid|]. cbn [set_state h_state] in *. intros Hf. unfold fits_count in Hf. rewrite Hst in Hf.
    destruct (proto_quiet (h_state h) (Hq Hf) Hf) as (p' & h2 & E' & Hq' & _). rewrite E in E'. by injection E' as _ <-.
Qed.

Lemma insert_equiv (s : Store) l c c' : s !! l = Some c → c' ≡ c → <[l := c']> s ≡ s.
Proof.
  intros Hl Heq. rewrite <-(list_insert_id s l c) at 2 by done. apply list_insert_proper; done.
Qed.

Lemma collect_one_ok s l c c' m :
  s !! l = Some c → cell_metric c = Some (m, c') → <[l := c']> s ≡ s ∧ (store_ok s → store_ok (<[l := c']> s)).
Proof.
  intros Hl (Heq & Hm & Hok)%cell_metric_spec. split; [by eapply insert_equiv|]. intros Hs.
  eapply update_metric_ok; try done; [by apply equiv_static|]. apply Hok, (so_cell s Hs l), Hl.
Qed.

Lemma metrics_at_ok ls s ms s' : metrics_at ls s = Some (ms, s') → s' ≡ s ∧ (store_ok s → store_ok s').
Proof.
  revert s ms s'. induction ls as [|l ls IH]; intros s ms s'; simpl; [by intros [= <- <-]|].
  destruct (s !! l) as [c|] eqn:El; [|done]. simpl. destruct (cell_metric c) as [[m c']|] eqn:Em; [|done]. simpl.
  destruct (metrics_at ls _) as [[ms' s1]|] eqn:E; [|done]. intros [= <- <-].
  destruct (collect_one_ok _ _ _ _ _ El Em) as [Heq Hok]. destruct (IH _ _ _ E) as [Heq' Hok'].
  split; [by rewrite Heq', Heq|auto].
Qed.

Lemma collect_at_ok l s fams s' : collect_at l s = Some (fams, s') → s' ≡ s ∧ (store_ok s → store_ok s').
Proof.
  unfold collect_at. destruct (s !! l) as [[a v|h|v]|] eqn:El; [| | |done]; cbn [mbind option_bind].
  - by intros [= <- <-].
  - unfold Histogram_collect. destruct (Histogram_metric h) as [[m h']|] eqn:Em; [|done]. intros [= <- <-].
    apply (collect_one_ok s l (CHist h) (CHist h') m El). cbn [cell_metric]. by rewrite Em.
  - destruct (metrics_at _ s) as [[ms s1]|] eqn:E; [|done]. intros [= <- <-]. by eapply metrics_at_ok.
Qed.

Lemma collect_all_ok ls s fams s' : collect_all ls s = Some (fams, s') → s' ≡ s ∧ (store_ok s → store_ok s').
Proof.
  revert s fams s'. induction ls as [|l ls IH]; intros s fams s'; simpl; [by intros [= <- <-]|].
  destruct (collect_at l s) as [[mfs s1]|] eqn:E1; [|done]. simpl.
  destruct (collect_all ls s1) as [[mfs' s2]|] eqn:E2; [|done]. intros [= <- <-].
  destruct (collect_at_ok _ _ _ _ E1) as [Heq Hok]. destruct (IH _ _ _ E2) as [Heq' Hok'].
  split; [by rewrite Heq', Heq|auto].
Qed.

(** ** Every call, on the store *)

Definition child_of (s : Store) (lv l : nat) : Prop :=
  ∃ v h, s !! lv = Some (CVec v) ∧ children v !! h = Some l.

(** The store keeps its invariant, only grows, every metric becomes what the call does to it
    alone, and a vector takes no metric for a child that is there already. *)
Definition evolves (o : op) (s s' : Store) : Prop :=
  (store_ok s → store_ok s') ∧ grows s s' ∧
  (∀ l c, s !! l = Some c → is_metric c → ∃ c', s' !! l = Some c' ∧ c' ≡ effect l c o) ∧
  ∀ lv l, (l < length s)%nat → child_of s' lv l → child_of s lv l.

Lemma effect_id l c o : cell_op o = None → effect l c o = c.
Proof. unfold effect. by intros ->. Qed.

Lemma evolves_equiv o s s' : cell_op o = None → s' ≡ s → (store_ok s → store_ok s') → evolves o s s'.
Proof.
  intros Ho Heq Hok. split; [done|]. split; [symmetry in Heq; by apply grows_equiv|]. split.
  - intros l c Hl _. rewrite effect_id by done. by eapply equiv_lookup.
  - intros lv l _ (v & h & Hv & Hl). symmetry in Heq. destruct (equiv_lookup _ _ _ _ Heq Hv) as (c & Hc & Hvc).
    destruct c as [| |v']; try discriminate Hvc. injection Hvc as ->. by exists v, h.
Qed.

Lemma evolves_refl o s : cell_op o = None → evolves o s s.
Proof. intros Ho. by apply evolves_equiv. Qed.

Lemma evolves_alloc o s c : cell_op o = None → fresh_ok c → evolves o s (s ++ [c]).
Proof.
  intros Ho Hc. split; [intros Hs; by apply alloc_ok|]. split; [apply grows_app|]. split.
  - intros l c0 Hl _. rewrite effect_id by done. exists c0. split; [by apply lookup_app_l_Some|done].
  - intros lv l _ (v & h & [Hv|[-> Hv]]%lookup_snoc_cases & Hl); [by exists v, h|].
    subst c. destruct Hc as (_ & Hch & _). by rewrite Hch in Hl.
Qed.

Lemma evolves_modify o l f s s' : cell_op o = Some (l, f) → modify l f s = Some s' → evolves o s s'.
Proof.
  intros Ho. unfold modify. destruct (s !! l) as [c|] eqn:El; [|done]. simpl.
  destruct (f c) as [c'|] eqn:Ef; [|done]. intros [= <-].
  destruct (cell_op_spec o l f c c' Ho Ef) as (Hm & Hs & Hok).
  assert (Hlt : (l < length s)%nat) by by eapply lookup_lt_Some.
  split; [|split; [by eapply grows_insert|split]].
  - intros Hs0. eapply update_metric_ok; try done. apply Hok, (so_cell _ Hs0 l), El.
  - intros l' c0 Hl' _. unfold effect. rewrite Ho. case_decide as Hd.
    + subst l'. rewrite Hl' in El. injection El as ->. exists c'. by rewrite list_lookup_insert_eq, Ef.
    + exists c0. by rewrite list_lookup_insert_ne.
  - intros lv l' _ (v & h & Hv & Hl'). apply (lookup_insert_vec s l c c') in Hv; [by exists v, h|done|done|].
    by apply (is_metric_static c).
Qed.

(** *** Vectors *)
Lemma get_or_create_spec v h vals s res v' s' :
  get_or_create_metric (build fnv f64_to_string) v h vals s = (res, v', s') →
  (v' = v ∧ s' = s ∧ ∀ l, res = Ok l → children v !! h = Some l) ∨
  (∃ c, v' = set_children (<[h := length s]> (children v)) v ∧ s' = s ++ [c] ∧
        new_metric fnv f64_to_string (opts v) vals = Ok c ∧ res = Ok (length s)).
Proof.
  unfold get_or_create_metric. destruct (children v !! h) as [l|] eqn:E.
  { intros [= <- <- <-]. left. by split_and!; [..|intros ? [= <-]]. }
  destruct (build fnv f64_to_string (opts v) vals s) as [[l s1]|e] eqn:Eb.
  2:{ intros [= <- <- <-]. by left. }
  intros [= <- <- <-]. right. apply result_bind_Ok in Eb as (c & Hc & [= <- <-]). by exists c.
Qed.

Lemma get_with_values_spec v vals s res v' s' :
  get_metric_with_label_values fnv (build fnv f64_to_string) v vals s = (res, v', s') →
  (v' = v ∧ s' = s) ∨ (∃ h c, v' = set_children (<[h := length s]> (children v)) v ∧ s' = s ++ [c] ∧
                              new_metric fnv f64_to_string (opts v) vals = Ok c ∧ res = Ok (length s)).
Proof.
  rewrite get_twice. destruct (hash_label_values fnv v vals) as [h|]; [|intros [= <- <- <-]; by left].
  intros [(-> & -> & _)|(c & H)]%get_or_create_spec; [by left|right; by exists h, c].
Qed.

Lemma get_with_labels_spec v labels s res v' s' :
  get_metric_with fnv (build fnv f64_to_string) v labels s = (res, v', s') →
  (v' = v ∧ s' = s) ∨ (∃ h vals c, v' = set_children (<[h := length s]> (children v)) v ∧ s' = s ++ [c] ∧
                              new_metric fnv f64_to_string (opts v) vals = Ok c ∧ res = Ok (length s)).
Proof.
  unfold get_metric_with. destruct (hash_labels fnv v labels) as [h|]; [|intros [= <- <- <-]; by left].
  destruct (children v !! h); [intros [= <- <- <-]; by left|].
  destruct (get_label_values (variables v) labels) as [vals|]; [|intros [= <- <- <-]; by left].
  intros [(-> & -> & _)|(c & H)]%get_or_create_spec; [by left|right; by exists h, vals, c].
Qed.

Lemma evolves_get o s lv v h vals c :
  cell_op o = None → s !! lv = Some (CVec v) → new_metric fnv f64_to_string (opts v) vals = Ok c →
  evolves o s (<[lv := CVec (set_children (<[h := length s]> (children v)) v)]> (s ++ [c])).
Proof using Hfnv.
  intros Ho Hv Hc. destruct (new_metric_spec _ _ _ Hc) as (Hm & Hd & Hok & _).
  assert (Hv' : (s ++ [c]) !! lv = Some (CVec v)) by by apply lookup_app_l_Some.
  split; [|split; [|split]].
  - intros Hs. apply grow_vec_ok; try done. destruct (so_vec s Hs lv v Hv) as [Hd' _]. rewrite Hd in Hd'. by injection Hd'.
  - etrans; [apply grows_app|]. by eapply grows_insert.
  - intros l c0 Hl Hm0. rewrite effect_id by done. exists c0. split; [|done].
    rewrite list_lookup_insert_ne; [by apply lookup_app_l_Some|]. intros ->. rewrite Hv in Hl. by injection Hl as <-.
  - intros lv' l Hlt (v' & h' & Hv1 & Hl). destruct (decide (lv = lv')) as [<-|Hne].
    + rewrite list_lookup_insert_eq in Hv1 by by eapply lookup_lt_Some. injection Hv1 as <-. simpl in Hl.
      apply lookup_insert_Some in Hl as [[_ <-]|[_ Hl]]; [lia|by exists v, h'].
    + rewrite list_lookup_insert_ne in Hv1 by done. apply lookup_snoc_cases in Hv1 as [Hv1|[-> Hv1]]; [by exists v', h'|].
      subst c. by apply made_by_metric in Hm.
Qed.

Lemma evolves_shrink o s lv v ch :
  cell_op o = None → s !! lv = Some (CVec v) → (∀ h l, ch !! h = Some l → children v !! h = Some l) →
  evolves o s (<[lv := CVec (set_children ch v)]> s).
Proof.
  intros Ho Hv Hch. split; [intros Hs; by apply shrink_vec_ok|]. split; [by eapply grows_insert|]. split.
  - intros l c Hl Hm. rewrite effect_id by done. exists c. split; [|done]. rewrite list_lookup_insert_ne; [done|].
    intros ->. rewrite Hv in Hl. by injection Hl as <-.
  - intros lv' l _ (v' & h & Hv' & Hl). destruct (decide (lv = lv')) as [<-|Hne].
    + rewrite list_lookup_insert_eq in Hv' by by eapply lookup_lt_Some. injection Hv' as <-. exists v, h. eauto.
    + rewrite list_lookup_insert_ne in Hv' by done. by exists v', h.
Qed.

Lemma remove_child_shrinks h missing (v : MetricVec) res v' :
  remove_child h missing v = (res, v') →
  ∃ ch, v' = set_children ch v ∧ ∀ h l, ch !! h = Some l → children v !! h = Some l.
Proof.
  unfold remove_child. destruct (children v !! h) eqn:E; intros [= <- <-].
  - eexists. split; [done|]. intros h' l [_ Hl]%lookup_delete_Some. done.
  - exists (children v). split; [by destruct v|done].
Qed.

(** ** The invariant of the client *)
Record client_ok (c : Client) : Prop := {
  co_store : store_ok (store c);
  co_registry rid r : registries c !! rid = Some r → registry_ok (H := store_collector (store c)) r;
  co_live rid r k l :
    registries c !! rid = Some r → collectors_by_id r !! k = Some l → is_Some (store c !! l);
}.

Lemma Client_new_ok : client_ok Client_new.
Proof.
  split; simpl; [apply store_ok_nil| |];
    intros [|rid] r *; simpl; rewrite ?lookup_nil; try done; intros [= <-]; [apply registry_ok_default|done].
Qed.

Lemma store_collector_desc s l : desc (Collector := store_collector s) l = match s !! l with Some c => [cell_desc c] | None => [] end.
Proof. done. Qed.

Lemma grows_desc s s' l :
  grows s s' → is_Some (s !! l) →
  desc (Collector := store_collector s) l = desc (Collector := store_collector s') l.
Proof.
  intros Hg [c Hl]. destruct (grows_lookup _ _ _ _ Hg Hl) as (c' & Hl' & Hs).
  by rewrite !store_collector_desc, Hl, Hl', !cell_desc_static, Hs.
Qed.

Lemma set_store_ok c s' :
  client_ok c → (store_ok (store c) → store_ok s') → grows (store c) s' → client_ok (set_store s' c).
Proof.
  intros [H1 H2 H3] Hok Hg. split; simpl; [by apply Hok| |].
  - intros rid r Hr. eapply registry_ok_ext; [|by apply (H2 rid)]. intros k l Hl.
    by eapply grows_desc; [|eapply H3].
  - intros rid r k l Hr Hl. destruct (H3 _ _ _ _ Hr Hl) as [x Hx].
    destruct (grows_lookup _ _ _ _ Hg Hx) as (x' & -> & _). by eexists.
Qed.

Lemma set_registry_ok c rid r r' :
  client_ok c → registries c !! rid = Some r → registry_ok (H := store_collector (store c)) r' →
  (∀ k l, collectors_by_id r' !! k = Some l → is_Some (store c !! l)) → client_ok (set_registry rid r' c).
Proof.
  intros [H1 H2 H3] Hr Hr' Hl. split; simpl; [done| |].
  - intros rid' x. destruct (decide (rid = rid')) as [<-|Hne].
    + rewrite list_lookup_insert_eq by by eapply lookup_lt_Some. by intros [= <-].
    + rewrite list_lookup_insert_ne by done. apply H2.
  - intros rid' x k l. destruct (decide (rid = rid')) as [<-|Hne].
    + rewrite list_lookup_insert_eq by by eapply lookup_lt_Some. intros [= <-]. apply Hl.
    + rewrite list_lookup_insert_ne by done. apply H3.
Qed.

(** What a registration does, also when it fails *)
Lemma Registry_register_spec rid l c res c' :
  client_ok c → Registry_register debug_desc debug_string rid l c = Some (res, c') →
  client_ok c' ∧ store c' = store c ∧
  ∃ r r' x, registries c !! rid = Some r ∧ store c !! l = Some x ∧ registries c' = <[rid := r']> (registries c) ∧
    labels r' = labels r ∧ prefix r' = prefix r ∧
    match res with
    | Ok _ => collectors_by_id r' = <[id_sum 0 [id (cell_desc x)] := l]> (collectors_by_id r) ∧
              collectors_by_id r !! id_sum 0 [id (cell_desc x)] = None
    | Err _ => collectors_by_id r' = collectors_by_id r ∧ desc_ids r' = desc_ids r
    end.
Proof.
  intros Hc. unfold Registry_register. destruct (registries c !! rid) as [r|] eqn:Er; [|done].
  destruct (store c !! l) as [x|] eqn:Ex; [|done]. cbn [mbind option_bind].
  destruct (register _ _ _ _) as [res0 r'] eqn:E. intros [= -> <-].
  pose proof (register_keeps (H := store_collector (store c)) debug_desc debug_string l r res r' (co_registry _ Hc _ _ Er) E) as [Hok Hcase].
  assert (Hd : desc (Collector := store_collector (store c)) l = [cell_desc x]) by by rewrite store_collector_desc, Ex.
  assert (Hlp : labels r' = labels r ∧ prefix r' = prefix r ∧
    match res with
    | Ok _ => collectors_by_id r' = <[id_sum 0 [id (cell_desc x)] := l]> (collectors_by_id r) ∧
              collectors_by_id r !! id_sum 0 [id (cell_desc x)] = None
    | Err _ => collectors_by_id r' = collectors_by_id r ∧ desc_ids r' = desc_ids r
    end).
  { destruct res as [[]|e].
    - apply (register_Ok (H := store_collector (store c))) in E. rewrite Hd in E. by destruct E as (_ & _ & Hk & Hi & _ & _ & _ & -> & ->).
    - unfold register in E. destruct (register_descs _ _ _ _ _ _) as [res1 r1] eqn:E1.
      apply register_descs_spec in E1 as ((_ & _ & Hl & Hp) & _).
      assert (r' = r1) as ->; [|done].
      destruct res1 as [[S cid]|]; [destruct (collectors_by_id r1 !! cid)|]; by simplify_eq. }
  destruct Hlp as (Hl & Hp & Hlp). split; [|split; [done|]].
  - eapply set_registry_ok; try done. intros k l' Hk. destruct res as [[]|e].
    + destruct Hlp as [Hlp _]. rewrite Hlp, lookup_insert_Some in Hk. destruct Hk as [[_ <-]|[_ Hk]]; [by rewrite Ex|].
      by eapply (co_live _ Hc).
    + destruct Hlp as [Hlp _]. rewrite Hlp in Hk. by eapply (co_live _ Hc).
  - exists r, r', x. by split_and!.
Qed.

Lemma Registry_unregister_spec rid l c res c' :
  client_ok c → Registry_unregister debug_descs rid l c = Some (res, c') →
  client_ok c' ∧ store c' = store c ∧
  ∃ r r' x, registries c !! rid = Some r ∧ store c !! l = Some x ∧ registries c' = <[rid := r']> (registries c) ∧
    labels r' = labels r ∧ prefix r' = prefix r ∧
    match res with
    | Ok _ => collectors_by_id r' = delete (id (cell_desc x)) (collectors_by_id r)
    | Err _ => r' = r
    end.
Proof.
  intros Hc. unfold Registry_unregister. destruct (registries c !! rid) as [r|] eqn:Er; [|done].
  destruct (store c !! l) as [x|] eqn:Ex; [|done]. cbn [mbind option_bind].
  destruct (unregister _ _ _) as [res0 r'] eqn:E. intros [= -> <-].
  destruct (unregister_keeps_single (H := store_collector (store c)) debug_descs l (cell_desc x) r res r')
    as (Hok & Hl & Hp & Hcase); [by rewrite store_collector_desc, Ex|by apply (so_cell _ (co_store _ Hc) _ _ Ex)| |
      by apply (co_registry _ Hc rid)|done|].
  { intros k l' Hk. destruct (co_live _ Hc _ _ _ _ Er Hk) as [x' Hx']. exists (cell_desc x').
    split; [by rewrite store_collector_desc, Hx'|by apply (so_cell _ (co_store _ Hc) _ _ Hx')]. }
  split; [|split; [done|]].
  - eapply set_registry_ok; try done. intros k l' Hk. eapply (co_live _ Hc); [exact Er|].
    destruct res as [u|e]; [|destruct Hcase as [-> _]; exact Hk].
    destruct Hcase as [_ Hcase]. rewrite Hcase in Hk. apply lookup_delete_Some in Hk as [_ Hk]. exact Hk.
  - exists r, r', x. split_and!; try done. destruct res; by destruct Hcase.
Qed.

(** ** Every call, on the client *)
Lemma on_vec_Some {R} lv f c (res : R) c' :
  on_vec lv f c = Some (res, c') →
  ∃ v v' s', store c !! lv = Some (CVec v) ∧ f v (store c) = (res, v', s') ∧ c' = set_store (<[lv := CVec v']> s') c.
Proof.
  unfold on_vec. destruct (store c !! lv) as [[| |v]|] eqn:E; try done.
  destruct (f v (store c)) as [[r v'] s'] eqn:Ef. intros [= <- <-]. by exists v, v', s'.
Qed.

Lemma evolved c o s' :
  client_ok c → evolves o (store c) s' → client_ok (set_store s' c) ∧ evolves o (store c) s'.
Proof. intros Hc He. split; [|done]. destruct He as (Hok & Hg & _). by apply set_store_ok. Qed.

Lemma construct_spec o r c :
  cell_op o = None → (∀ x, r = Ok x → fresh_ok x) → client_ok c →
  ∃ c', or_unchanged (construct r c) c = Some c' ∧ client_ok c' ∧ evolves o (store c) (store c').
Proof.
  intros Ho Hr Hc. unfold construct. destruct r as [x|e].
  - eexists. split; [done|]. apply evolved; [done|]. by apply evolves_alloc, Hr.
  - exists c. split; [done|]. split; [done|]. by apply evolves_refl.
Qed.

Lemma shrunk {R} o lv f c (res : R) c' :
  cell_op o = None → client_ok c →
  (∀ (v : MetricVec) r v', f v = (r, v') → ∃ ch, v' = set_children ch v ∧ ∀ h l, ch !! h = Some l → children v !! h = Some l) →
  on_vec lv (keep_store f) c = Some (res, c') → client_ok c' ∧ evolves o (store c) (store c').
Proof.
  intros Ho Hc Hf (v & v' & s' & Hv & Hf' & ->)%on_vec_Some. unfold keep_store in Hf'.
  destruct (f v) as [r v1] eqn:E. injection Hf' as <- <- <-. destruct (Hf _ _ _ E) as (ch & -> & Hch).
  apply evolved; [done|]. by apply evolves_shrink.
Qed.

Lemma modified o l f c c' :
  cell_op o = Some (l, f) → client_ok c → (s ← modify l f (store c); Some (set_store s c)) = Some c' →
  client_ok c' ∧ evolves o (store c) (store c').
Proof.
  intros Ho Hc. destruct (modify l f (store c)) as [s'|] eqn:E; [|done]. intros [= <-].
  apply evolved; [done|]. by eapply evolves_modify.
Qed.

Abbreviation run_op := (run_op fnv f64_to_string debug_desc debug_descs debug_string debug_vals debug_labels).
Abbreviation run_ops := (run_ops fnv f64_to_string debug_desc debug_descs debug_string debug_vals debug_labels).

Lemma delete_values_shrinks vals (v : MetricVec) res v' :
  delete_label_values fnv debug_vals v vals = (res, v') →
  ∃ ch, v' = set_children ch v ∧ ∀ h l, ch !! h = Some l → children v !! h = Some l.
Proof.
  unfold delete_label_values. destruct (hash_label_values fnv v vals); [apply remove_child_shrinks|].
  intros [= <- <-]. exists (children v). split; [by destruct v|done].
Qed.
Lemma delete_labels_shrinks ls (v : MetricVec) res v' :
  delete_labels fnv debug_labels v ls = (res, v') →
  ∃ ch, v' = set_children ch v ∧ ∀ h l, ch !! h = Some l → children v !! h = Some l.
Proof.
  unfold delete_labels. destruct (hash_labels fnv v ls); [apply remove_child_shrinks|].
  intros [= <- <-]. exists (children v). split; [by destruct v|done].
Qed.

Lemma run_op_spec o c c' : client_ok c → run_op o c = Some c' → client_ok c' ∧ evolves o (store c) (store c').
Proof using Hfnv.
  intros Hc.
  destruct o as [o|o names|a l u|a l u|l v|lv vals|lv ls|lv vals|lv ls|lv|p ls|rid l|rid l|rid]; cbn [Client.run_op].
  - intros Hr. edestruct (construct_spec (NewMetric o)) as (c1 & Hr1 & H); [done| |exact Hc|].
    2:{ rewrite Hr in Hr1. by injection Hr1 as ->. }
    intros x Hx. by apply new_metric_spec in Hx as (_ & _ & ?).
  - intros Hr. edestruct (construct_spec (NewVec o names)) as (c1 & Hr1 & H); [done| |exact Hc|].
    2:{ rewrite Hr in Hr1. by injection Hr1 as ->. }
    intros x Hx. by apply new_vec_spec in Hx as (? & _ & _ & _ & ?).
  - by apply modified.
  - by apply modified.
  - by apply modified.
  - intros ([res c1] & (v & v' & s' & Hv & Hf & ->)%on_vec_Some & ->)%fmap_Some. simpl. apply evolved; [done|].
    apply get_with_values_spec in Hf as [[-> ->]|(h & x & -> & -> & Hx & _)].
    + rewrite list_insert_id by done. by apply evolves_refl.
    + by eapply evolves_get.
  - intros ([res c1] & (v & v' & s' & Hv & Hf & ->)%on_vec_Some & ->)%fmap_Some. simpl. apply evolved; [done|].
    apply get_with_labels_spec in Hf as [[-> ->]|(h & vals & x & -> & -> & Hx & _)].
    + rewrite list_insert_id by done. by apply evolves_refl.
    + by eapply evolves_get.
  - intros ([res c1] & Hr & ->)%fmap_Some. eapply shrunk; [done|done| |exact Hr]. intros *. apply delete_values_shrinks.
  - intros ([res c1] & Hr & ->)%fmap_Some. eapply shrunk; [done|done| |exact Hr]. intros *. apply delete_labels_shrinks.
  - intros ([res c1] & Hr & ->)%fmap_Some. eapply shrunk; [done|done| |exact Hr].
    intros v r v' [= _ <-]. exists ∅. split; [done|]. intros h l. by rewrite lookup_empty.
  - unfold or_unchanged, Registry_new_custom, new_custom. case_decide; simpl; intros [= <-].
    { split; [done|]. by apply evolves_refl. }
    split; [|by apply evolves_refl]. destruct Hc as [H1 H2 H3]. split; simpl; [done| |].
    + intros rid r [Hr|[Hge Hr]]%lookup_app_Some; [by apply (H2 rid)|].
      apply list_lookup_singleton_Some in Hr as [_ <-]. split; simpl; set_solver.
    + intros rid r k l [Hr|[Hge Hr]]%lookup_app_Some; [by apply (H3 rid)|].
      apply list_lookup_singleton_Some in Hr as [_ <-]. simpl. by rewrite lookup_empty.
  - intros ([res c1] & Hr & ->)%fmap_Some. destruct (Registry_register_spec _ _ _ _ _ Hc Hr) as (Hok & Hs & _).
    simpl. split; [done|]. rewrite Hs. by apply evolves_refl.
  - intros ([res c1] & Hr & ->)%fmap_Some. destruct (Registry_unregister_spec _ _ _ _ _ Hc Hr) as (Hok & Hs & _).
    simpl. split; [done|]. rewrite Hs. by apply evolves_refl.
  - intros ([fams c1] & Hr & ->)%fmap_Some. unfold Registry_gather in Hr.
    destruct (registries c !! rid) as [r|]; [|done]. cbn [mbind option_bind] in Hr.
    destruct (collect_all _ _) as [[mfs s']|] eqn:E; [|done]. injection Hr as _ <-. simpl.
    destruct (collect_all_ok _ _ _ _ E) as [Heq Hok]. apply evolved; [done|]. by apply evolves_equiv.
Qed.

(** *** Whole programs *)
Lemma run_ops_app ops ops' c : run_ops (ops ++ ops') c = c' ← run_ops ops c; run_ops ops' c'.
Proof.
  revert c. induction ops as [|o ops IH]; intros c; [done|]. simpl. destruct (run_op o c); [apply IH|done].
Qed.

Lemma run_ops_ok ops c c' : client_ok c → run_ops ops c = Some c' → client_ok c'.
Proof using Hfnv.
  revert c. induction ops as [|o ops IH]; intros c Hc; simpl; [by intros [= <-]|].
  destruct (run_op o c) as [c1|] eqn:E; [|done]. apply IH. by apply (run_op_spec o c).
Qed.

Lemma run_ops_grows ops c c' : client_ok c → run_ops ops c = Some c' → grows (store c) (store c').
Proof using Hfnv.
  revert c. induction ops as [|o ops IH]; intros c Hc; simpl; [by intros [= <-]|].
  destruct (run_op o c) as [c1|] eqn:E; [|done]. destruct (run_op_spec o c c1 Hc E) as (Hok & _ & Hg & _). intros Hr.
  etrans; [exact Hg|by apply IH].
Qed.

Lemma run_ops_effects ops c c' l x :
  client_ok c → run_ops ops c = Some c' → store c !! l = Some x → is_metric x →
  ∃ x', store c' !! l = Some x' ∧ x' ≡ effects l ops x.
Proof using Hfnv.
  revert c x. induction ops as [|o ops IH]; intros c x Hc; simpl; [intros [= <-] Hx _; by exists x|].
  destruct (run_op o c) as [c1|] eqn:E; [|done]. intros Hr Hx Hm.
  destruct (run_op_spec o c c1 Hc E) as (Hok & _ & Hg & He & _).
  destruct (He l x Hx Hm) as (x1 & Hx1 & Hq1).
  assert (Hm1 : is_metric x1).
  { destruct (grows_lookup _ _ _ _ Hg Hx) as (x1' & Hx1' & Hs). rewrite Hx1 in Hx1'. injection Hx1' as <-.
    by apply (is_metric_static x x1). }
  destruct (IH c1 x1 Hok Hr Hx1 Hm1) as (x' & Hx' & Hq). exists x'. split; [done|].
  rewrite Hq. by apply effects_proper.
Qed.

Lemma grows_length s s' : grows s s' → (length s <= length s')%nat.
Proof. intros Hg. apply prefix_length in Hg. by rewrite !length_fmap in Hg. Qed.

Lemma run_ops_children ops c c' lv l :
  client_ok c → run_ops ops c = Some c' → (l < length (store c))%nat → child_of (store c') lv l → child_of (store c) lv l.
Proof using Hfnv.
  revert c. induction ops as [|o ops IH]; intros c Hc; simpl; [by intros [= <-]|].
  destruct (run_op o c) as [c1|] eqn:E; [|done]. intros Hr Hlt Hch.
  destruct (run_op_spec o c c1 Hc E) as (Hok & _ & Hg & _ & Hold). apply Hold; [done|].
  apply (IH c1 Hok Hr); [|done]. apply grows_length in Hg. lia.
Qed.
End facts.
