(* ===== verification/ClientGather.v ===== *)
(** * What a registry exports: [gather] on a client, after any program

    A registry exports the present state of the metrics registered with it and of the
    children of the vectors registered with it, each once, and nothing else; the present
    state is what the calls on any handle of the metric have made of it. *)
From Stdlib Require Import ZArith Lia.
From S2P Require Import Prelude BTree Float64 Metrics MetricsFacts Atomics MetricVec Registry RegistryFacts TextEncoder Histogram HistogramFacts HistogramInv Options HistogramApi Client ClientFacts Exporter.
Local Open Scope Z_scope.
Set Default Proof Using "Type".

(** ** What a cell shows *)
Definition cell_shows (c : Cell) (m : Metric) : Prop :=
  match c with
  | CValue a v => m = Value_metric (number_of a) v
  | CHist h => ∃ p, m = set_histogram p (set_label (h_label_pairs h) Metric_default) ∧
                    statistic (upper_bounds (h_state h)) (started (h_state h)) p
  | CVec _ => False
  end.

(** the object at [l], under the name of its family *)
Definition shows (s : Store) (l : nat) (nm : string * Metric) : Prop :=
  ∃ c, s !! l = Some c ∧ nm.1 = d_fq_name (cell_desc c) ∧ cell_shows c nm.2.

(** no histogram has used up the 63 bits of its count *)
Definition bounded (s : Store) : Prop := ∀ l h, s !! l = Some (CHist h) → fits_count (h_state h).

(** the metrics that a collector exports, and those of a registry *)
Definition exports (s : Store) (l : nat) : list nat :=
  match s !! l with Some (CVec v) => (map_to_list (children v)).*2 | Some _ => [l] | None => [] end.
Definition exported (r : RegistryCore nat) (s : Store) : list nat :=
  (map_to_list (collectors_by_id r)).*2 ≫= exports s.

Lemma cell_shows_equiv c c' m : c ≡ c' → cell_shows c m → cell_shows c' m.
Proof.
  intros Heq. destruct c as [a v|h|v], c' as [a' v'|h'|v']; try discriminate Heq; [| |done].
  - injection Heq as -> Heq. apply Eqdep_dec.inj_pair2_eq_dec in Heq as ->; [done|]. intros x y. apply AtomicType_eq_dec.
  - unfold equiv, cell_equiv, cell_view in Heq. injection Heq as _ Hl Hu Hs. unfold cell_shows. by rewrite Hl, Hu, Hs.
Qed.

Lemma shows_equiv s s' l nm : s ≡ s' → shows s l nm → shows s' l nm.
Proof.
  intros Heq (c & Hl & Hn & Hs). symmetry in Heq. destruct (equiv_lookup s s' l c Heq Hl) as (c' & Hl' & Hc).
  exists c'. split; [done|]. split; [by rewrite cell_desc_static, (equiv_static _ _ Hc), <-cell_desc_static|].
  by eapply cell_shows_equiv.
Qed.

Lemma bounded_equiv s s' : s' ≡ s → bounded s → bounded s'.
Proof.
  intros Heq Hb l h' Hl'. symmetry in Heq. destruct (equiv_lookup s' s l _ Heq Hl') as (c & Hl & Hc).
  destruct c as [a v|h|v]; try discriminate Hc. pose proof (Hb l h Hl) as Hf.
  unfold equiv, cell_equiv, cell_view in Hc. injection Hc as _ _ _ Hs. unfold fits_count in *. by rewrite <-Hs.
Qed.

Lemma exports_equiv s s' l : s' ≡ s → exports s' l = exports s l.
Proof.
  intros Heq. unfold exports. destruct (s !! l) as [c|] eqn:El.
  - destruct (equiv_lookup s s' l c Heq El) as (c' & -> & Hc).
    destruct c, c'; try discriminate Hc; [done|done|]. by injection Hc as ->.
  - destruct (s' !! l) as [c'|] eqn:El'; [|done]. symmetry in Heq.
    destruct (equiv_lookup s' s l c' Heq El') as (c & Hl & _). congruence.
Qed.

Lemma exports_all_equiv s s' (ls : list nat) : s' ≡ s → ls ≫= exports s' = ls ≫= exports s.
Proof.
  intros Heq. induction ls as [|l ls IH]; [done|]. cbn [mbind list_bind]. f_equal; [by apply exports_equiv|exact IH].
Qed.

(** ** Collecting returns, and shows what is there *)
Section gather.
Context (fnv : bytes → Z).

Lemma cell_metric_total c :
  is_metric c → cell_ok c → (∀ h, c = CHist h → fits_count (h_state h)) →
  ∃ m c', cell_metric c = Some (m, c') ∧ cell_shows c m.
Proof.
  intros Hm [_ Hq] Hf. destruct c as [a v|h|v]; [by eexists _, _| |done].
  destruct (proto_quiet (h_state h)) as (p & h' & Hp & _ & _ & _ & Hs); [by apply Hq, Hf|by apply Hf|].
  unfold cell_metric, Histogram_metric. rewrite Hp. eexists _, _. split; [done|]. by exists p.
Qed.

Lemma collect_one s l c :
  store_ok fnv s → bounded s → s !! l = Some c → is_metric c →
  ∃ m c', cell_metric c = Some (m, c') ∧ <[l := c']> s ≡ s ∧ store_ok fnv (<[l := c']> s) ∧
    bounded (<[l := c']> s) ∧ shows s l (d_fq_name (cell_desc c), m).
Proof.
  intros Hs Hb Hl Hm. destruct (cell_metric_total c Hm) as (m & c' & Hc & Hsh); [by apply (so_cell _ _ Hs l)| |].
  { intros h ->. by apply (Hb l). }
  destruct (collect_one_ok fnv s l c c' m Hl Hc) as [Heq Hok]. exists m, c'.
  split_and!; try done; [by apply Hok|by eapply bounded_equiv|]. by exists c.
Qed.

Lemma metrics_at_total n ls s :
  store_ok fnv s → bounded s →
  Forall (λ l, ∃ c, s !! l = Some c ∧ is_metric c ∧ d_fq_name (cell_desc c) = n) ls →
  ∃ ms s', metrics_at ls s = Some (ms, s') ∧ Forall2 (shows s) ls ((λ m, (n, m)) <$> ms).
Proof.
  revert s. induction ls as [|l ls IH]; intros s Hs Hb Hall; [by eexists _, _|].
  apply Forall_cons in Hall as [(c & Hl & Hm & Hn) Hall].
  destruct (collect_one s l c Hs Hb Hl Hm) as (m & c' & Hc & Heq & Hs' & Hb' & Hsh).
  destruct (IH (<[l := c']> s) Hs' Hb') as (ms & s' & Hr & Hshs).
  { eapply Forall_impl; [exact Hall|]. intros l' (c0 & Hl' & Hm0 & Hn0).
    destruct (equiv_lookup _ _ l' c0 Heq Hl') as (c1 & Hl1 & Hc1). apply equiv_static in Hc1. exists c1.
    split; [done|]. split; [by eapply (is_metric_static c0)|]. by rewrite cell_desc_static, Hc1, <-cell_desc_static. }
  exists (m :: ms), s'. cbn [metrics_at]. rewrite Hl. cbn [mbind option_bind]. rewrite Hc. cbn [mbind option_bind].
  rewrite Hr. split; [done|]. rewrite fmap_cons. constructor; [by rewrite <-Hn|].
  eapply Forall2_impl; [exact Hshs|]. intros. by eapply shows_equiv.
Qed.

Lemma named_singleton mf : named [mf] = (λ m, (mf_name mf, m)) <$> metric mf.
Proof. unfold named. simpl. by rewrite app_nil_r. Qed.

Lemma collect_at_total l s :
  store_ok fnv s → bounded s → is_Some (s !! l) →
  ∃ mfs s', collect_at l s = Some (mfs, s') ∧ Forall2 (shows s) (exports s l) (named mfs).
Proof.
  intros Hs Hb [c Hl]. unfold collect_at, exports. rewrite Hl. cbn [mbind option_bind].
  destruct c as [a v|h|v].
  - eexists _, _. split; [done|]. rewrite named_singleton. constructor; [|done]. by eexists.
  - destruct (collect_one s l _ Hs Hb Hl I) as (m & c' & Hc & _ & _ & _ & Hsh). cbn [cell_metric] in Hc.
    unfold Histogram_collect. destruct (Histogram_metric h) as [[m' h']|]; [|done]. injection Hc as -> <-.
    eexists _, _. split; [done|]. rewrite named_singleton. constructor; [exact Hsh|constructor].
  - destruct (metrics_at_total (d_fq_name (MetricVec.v_desc v)) (map_to_list (children v)).*2 s Hs Hb) as (ms & s' & -> & Hsh).
    { apply Forall_forall. intros l' ([h l0] & -> & Hin)%list_elem_of_fmap. apply elem_of_map_to_list in Hin.
      destruct (so_child _ _ Hs _ _ _ _ Hl Hin) as (c & Hc & Hm & Hd). exists c. split; [done|].
      split; [by eapply made_by_metric|by rewrite Hd]. }
    eexists _, _. split; [done|]. by rewrite named_singleton.
Qed.

Lemma collect_all_total ls s :
  store_ok fnv s → bounded s → Forall (λ l, is_Some (s !! l)) ls →
  ∃ fams s', collect_all ls s = Some (fams, s') ∧ Forall2 (shows s) (ls ≫= exports s) (named fams).
Proof.
  revert s. induction ls as [|l ls IH]; intros s Hs Hb Hall; [by eexists _, _|].
  apply Forall_cons in Hall as [Hl Hall].
  destruct (collect_at_total l s Hs Hb Hl) as (mfs & s1 & Hr1 & Hsh1).
  destruct (collect_at_ok fnv _ _ _ _ Hr1) as [Heq Hok].
  destruct (IH s1 (Hok Hs)) as (fams & s' & Hr & Hsh); [by eapply bounded_equiv| |].
  { eapply Forall_impl; [exact Hall|]. intros l' [c Hc]. by destruct (equiv_lookup _ _ l' c Heq Hc) as (c' & -> & _). }
  exists (mfs ++ fams), s'. cbn [collect_all]. rewrite Hr1. cbn [mbind option_bind]. rewrite Hr. split; [done|].
  rewrite named_app, bind_cons. apply Forall2_app; [done|].
  rewrite <-(exports_all_equiv s s1 ls Heq).
  eapply Forall2_impl; [exact Hsh|]. intros. by eapply shows_equiv.
Qed.

(** ** No metric is exported twice *)
Lemma exports_desc s l l' :
  store_ok fnv s → l' ∈ exports s l →
  ∃ c c', s !! l = Some c ∧ s !! l' = Some c' ∧ is_metric c' ∧ cell_desc c' = cell_desc c.
Proof.
  intros Hs. unfold exports. destruct (s !! l) as [c|] eqn:El; [|by intros ?%elem_of_nil].
  assert (Hself : is_metric c → l' ∈ [l] → ∃ c0 c', Some c = Some c0 ∧ s !! l' = Some c' ∧ is_metric c' ∧ cell_desc c' = cell_desc c0).
  { intros Hm ->%list_elem_of_singleton. by exists c, c. }
  destruct c as [a v|h|v]; [by apply Hself|by apply Hself|].
  intros ([h l0] & -> & Hin)%list_elem_of_fmap. apply elem_of_map_to_list in Hin.
  destruct (so_child _ _ Hs _ _ _ _ El Hin) as (c' & Hc & Hm & Hd). exists (CVec v), c'.
  split_and!; try done. by eapply made_by_metric.
Qed.

Lemma exports_NoDup s l : store_ok fnv s → NoDup (exports s l).
Proof.
  intros Hs. unfold exports. destruct (s !! l) as [[a v|h|v]|] eqn:El; try apply NoDup_singleton; [|constructor].
  apply NoDup_fmap_2_strong; [|apply NoDup_map_to_list].
  intros [h1 l1] [h2 l2] H1%elem_of_map_to_list H2%elem_of_map_to_list Heq. simpl in Heq. subst l2.
  by destruct (so_inj _ _ Hs _ _ _ _ _ _ _ El El H1 H2) as [_ ->].
Qed.

Lemma NoDup_bind_strong {A B} (f : A → list B) (l : list A) :
  NoDup l → (∀ x, x ∈ l → NoDup (f x)) → (∀ x y b, x ∈ l → y ∈ l → b ∈ f x → b ∈ f y → x = y) → NoDup (l ≫= f).
Proof.
  induction l as [|x l IH]; intros Hnd Hf Hinj; [constructor|]. apply NoDup_cons in Hnd as [Hni Hnd].
  cbn [mbind list_bind]. apply NoDup_app. split; [apply Hf; by left|]. split.
  - intros b Hb (y & Hby & Hy)%list_elem_of_bind. destruct Hni.
    rewrite (Hinj x y b); [done|by left|by right|done|done].
  - apply IH; [done|intros y Hy; apply Hf; by right|]. intros y z b Hy Hz. apply Hinj; by right.
Qed.

Lemma exported_NoDup c rid r :
  client_ok fnv c → registries c !! rid = Some r → NoDup (exported r (store c)).
Proof.
  intros Hc Hr. pose proof (co_store _ _ Hc) as Hs. pose proof (co_registry _ _ Hc _ _ Hr) as Hreg.
  assert (Hkey : ∀ k l, collectors_by_id r !! k = Some l → ∃ x, store c !! l = Some x ∧
            desc (Collector := store_collector (store c)) l = [cell_desc x]).
  { intros k l Hk. destruct (co_live _ _ Hc _ _ _ _ Hr Hk) as [x Hx]. exists x.
    split; [done|]. by rewrite store_collector_desc, Hx. }
  assert (Hsame : ∀ k1 l1 k2 l2 x1 x2, collectors_by_id r !! k1 = Some l1 → collectors_by_id r !! k2 = Some l2 →
            store c !! l1 = Some x1 → store c !! l2 = Some x2 → cell_desc x1 = cell_desc x2 → k1 = k2).
  { intros k1 l1 k2 l2 x1 x2 H1 H2 Hx1 Hx2 Hd.
    apply (ok_disjoint _ Hreg k1 l1 k2 l2 (id (cell_desc x1))); [done|done|..];
      rewrite store_collector_desc; [rewrite Hx1|rewrite Hx2, <-Hd]; apply list_elem_of_singleton; done. }
  assert (Hval : ∀ l, l ∈ (map_to_list (collectors_by_id r)).*2 → ∃ k, collectors_by_id r !! k = Some l).
  { intros l ([k l0] & -> & Hin)%list_elem_of_fmap. exists k. by apply elem_of_map_to_list in Hin. }
  unfold exported. apply NoDup_bind_strong.
  - apply NoDup_fmap_2_strong; [|apply NoDup_map_to_list].
    intros [k1 l1] [k2 l2] H1%elem_of_map_to_list H2%elem_of_map_to_list Heq. simpl in Heq. subst l2.
    destruct (Hkey _ _ H1) as (x & Hx & _). by rewrite (Hsame _ _ _ _ x x H1 H2 Hx Hx eq_refl).
  - intros l _. by apply exports_NoDup.
  - intros l1 l2 l (k1 & H1)%Hval (k2 & H2)%Hval Hl1 Hl2.
    destruct (exports_desc _ _ _ Hs Hl1) as (x1 & x & Hx1 & Hx & _ & Hd1).
    destruct (exports_desc _ _ _ Hs Hl2) as (x2 & x' & Hx2 & Hx' & _ & Hd2). rewrite Hx in Hx'. injection Hx' as <-.
    rewrite (Hsame k1 l1 k2 l2 x1 x2) in H1 by (done || congruence). congruence.
Qed.

(** ** Gathering *)
Context (f64_to_string : f64 → string).
Context (debug_desc : Desc → string) (debug_descs : list Desc → string) (debug_string : string → string).
Context (debug_vals : list string → string) (debug_labels : gmap string string → string).
Abbreviation run_op := (run_op fnv f64_to_string debug_desc debug_descs debug_string debug_vals debug_labels).
Abbreviation run_ops := (run_ops fnv f64_to_string debug_desc debug_descs debug_string debug_vals debug_labels).

Lemma gather_shows c rid r :
  client_ok fnv c → bounded (store c) → registries c !! rid = Some r →
  ∃ fams s', Registry_gather rid c = Some (fams, set_store s' c) ∧ s' ≡ store c ∧ NoDup (exported r (store c)) ∧
    ∃ nms, Forall2 (shows (store c)) (exported r (store c)) nms ∧ named fams ≡ₚ decorate_named r <$> nms.
Proof.
  intros Hc Hb Hr. destruct (collect_all_total (map_to_list (collectors_by_id r)).*2 (store c)) as (fams & s' & E & Hsh);
    [apply Hc|done| |].
  { apply Forall_forall. intros l ([k l0] & -> & Hin)%list_elem_of_fmap. apply elem_of_map_to_list in Hin.
    by eapply (co_live _ _ Hc). }
  exists (gather_families r fams), s'. unfold Registry_gather. rewrite Hr. cbn [mbind option_bind]. rewrite E.
  split; [done|]. split; [by eapply (collect_all_ok fnv)|]. split; [by eapply exported_NoDup|].
  exists (named fams). split; [done|]. apply gather_families_named.
Qed.

Context (Hfnv : ∀ b, fits 64 (fnv b)).

(** C20. After any program a registry exports exactly the metrics registered with it and the
    children of its vectors, each of them once, under its prefix and with its labels, and
    gathering changes nothing that a handle could see. *)
Theorem gather_exports_exactly ops c rid r :
  run_ops ops Client_new = Some c → bounded (store c) → registries c !! rid = Some r →
  ∃ fams s', Registry_gather rid c = Some (fams, set_store s' c) ∧ s' ≡ store c ∧ NoDup (exported r (store c)) ∧
    ∃ nms, Forall2 (shows (store c)) (exported r (store c)) nms ∧ named fams ≡ₚ decorate_named r <$> nms.
Proof using Hfnv.
  intros Hrun Hb Hr. apply gather_shows; [|done|done].
  by eapply (run_ops_ok fnv f64_to_string debug_desc debug_descs debug_string debug_vals debug_labels Hfnv); [apply Client_new_ok|].
Qed.

(** C19. What a registry shows for a metric is what the calls that addressed the metric
    itself, through any handle, have made of it, whatever else the program did between:
    other metrics, labels created and removed, registrations, other gatherings. *)
Theorem exported_history ops1 ops2 c1 c2 l x rid r :
  run_ops ops1 Client_new = Some c1 → run_ops ops2 c1 = Some c2 → store c1 !! l = Some x → is_metric x →
  bounded (store c2) → registries c2 !! rid = Some r → l ∈ exported r (store c2) →
  ∃ fams c3 m rest, Registry_gather rid c2 = Some (fams, c3) ∧ cell_shows (effects l ops2 x) m ∧
    named fams ≡ₚ decorate_named r (d_fq_name (cell_desc x), m) :: rest.
Proof using Hfnv.
  intros H1 H2 Hx Hm Hb Hr Hin.
  assert (Hc1 : client_ok fnv c1).
  { by eapply (run_ops_ok fnv f64_to_string debug_desc debug_descs debug_string debug_vals debug_labels Hfnv); [apply Client_new_ok|]. }
  assert (Hc2 : client_ok fnv c2).
  { by eapply (run_ops_ok fnv f64_to_string debug_desc debug_descs debug_string debug_vals debug_labels Hfnv). }
  destruct (gather_shows c2 rid r Hc2 Hb Hr) as (fams & s' & Hg & _ & _ & nms & Hsh & Hp).
  destruct (run_ops_effects _ _ _ _ _ _ _ Hfnv _ _ _ _ _ Hc1 H2 Hx Hm) as (x' & Hx' & Hq).
  pose proof (run_ops_grows _ _ _ _ _ _ _ Hfnv _ _ _ Hc1 H2) as Hgr.
  destruct (grows_lookup _ _ _ _ Hgr Hx) as (x2 & Hx2 & Hst). rewrite Hx' in Hx2. injection Hx2 as <-.
  apply list_elem_of_lookup in Hin as [i Hi]. destruct (Forall2_lookup_l _ _ _ _ _ Hsh Hi) as ([n m] & Hnm & c & Hc & Hn & Hm').
  simpl in Hn, Hm'. rewrite Hx' in Hc. injection Hc as <-.
  exists fams, (set_store s' c2), m, (decorate_named r <$> delete i nms). split; [done|].
  split; [by eapply cell_shows_equiv|]. rewrite Hp.
  etrans; [by apply fmap_Permutation, (delete_Permutation nms i (n, m))|]. rewrite fmap_cons, Hn, (cell_desc_static x'), Hst, <-cell_desc_static. done.
Qed.

(** C31. A metric that was removed from its vector still counts for those who hold it, but
    the vector never exports it again: asking for the same label values makes a new one. *)
Theorem removed_child_forgotten ops lv vals c c1 c2 l v h :
  client_ok fnv c → store c !! lv = Some (CVec v) → hash_label_values fnv v vals = Ok h → children v !! h = Some l →
  Vec_remove_label_values fnv debug_vals lv vals c = Some (Ok tt, c1) → run_ops ops c1 = Some c2 →
  l ∉ exports (store c2) lv ∧
  (∃ x x', store c !! l = Some x ∧ store c2 !! l = Some x' ∧ x' ≡ effects l ops x) ∧
  ∀ l' c3, Vec_get_metric_with_label_values fnv f64_to_string lv vals c2 = Some (Ok l', c3) → l' ≠ l.
Proof using Hfnv.
  intros Hc Hv Hh Hl Hrem Hrun.
  assert (Hstep : run_op (VecRemove lv vals) c = Some c1).
  { change (snd <$> Vec_remove_label_values fnv debug_vals lv vals c = Some c1). by rewrite Hrem. }
  destruct (run_op_spec _ _ _ _ _ _ _ Hfnv _ _ _ Hc Hstep) as (Hc1 & _ & Hg & Heff & _).
  apply on_vec_Some in Hrem as (v0 & v1 & s1 & Hv0 & Hf & ->). rewrite Hv in Hv0. injection Hv0 as <-.
  unfold keep_store, delete_label_values, remove_child in Hf. rewrite Hh, Hl in Hf. injection Hf as <- <-.
  destruct (so_child _ _ (co_store _ _ Hc) _ _ _ _ Hv Hl) as (x & Hx & Hm & _). apply made_by_metric in Hm.
  assert (Hlt : (lv < length (store c))%nat) by by eapply lookup_lt_Some.
  set (c1 := set_store _ c) in *.
  assert (Hno : ¬ child_of (store c1) lv l).
  { intros (v' & h' & Hv' & Hl'). simpl in Hv'. rewrite list_lookup_insert_eq in Hv' by done. injection Hv' as <-.
    simpl in Hl'. apply lookup_delete_Some in Hl' as [Hne Hl'].
    by destruct (so_inj _ _ (co_store _ _ Hc) _ _ _ _ _ _ _ Hv Hv Hl Hl') as [_ ->]. }
  destruct (Heff l x Hx Hm) as (x1 & Hx1 & Hq1). unfold effect in Hq1. simpl in Hq1.
  assert (Hm1 : is_metric x1) by (destruct (grows_lookup _ _ _ _ Hg Hx) as (? & ? & ?); simplify_eq; by eapply is_metric_static).
  assert (Hno2 : ¬ child_of (store c2) lv l).
  { intros Hch. apply Hno. eapply (run_ops_children _ _ _ _ _ _ _ Hfnv); [exact Hc1|exact Hrun| |exact Hch].
    by eapply lookup_lt_Some. }
  destruct (run_ops_effects _ _ _ _ _ _ _ Hfnv _ _ _ _ _ Hc1 Hrun Hx1 Hm1) as (x2 & Hx2 & Hq2).
  destruct (grows_lookup _ _ _ _ (run_ops_grows _ _ _ _ _ _ _ Hfnv _ _ _ Hc1 Hrun)
    (list_lookup_insert_eq _ _ _ Hlt : store c1 !! lv = Some (CVec _))) as (vc & Hvc & Hvs).
  destruct vc as [| |v2]; try discriminate Hvs. split_and!.
  - unfold exports. rewrite Hvc. intros ([h' l'] & -> & Hin)%list_elem_of_fmap. apply elem_of_map_to_list in Hin.
    apply Hno2. by exists v2, h'.
  - exists x, x2. split; [done|]. split; [done|]. rewrite Hq2. by apply effects_proper.
  - intros l' c3 (v3 & v3' & s3 & Hv3 & Hf & _)%on_vec_Some ->. rewrite Hvc in Hv3. injection Hv3 as <-.
    rewrite get_twice in Hf. destruct (hash_label_values fnv v2 vals) as [h2|]; [|done].
    apply get_or_create_spec in Hf as [(_ & _ & Hold)|(x3 & _ & _ & _ & [= Heq])].
    + apply Hno2. exists v2, h2. by auto.
    + apply lookup_lt_Some in Hx2. lia.
Qed.

(** ** The macros *)
Lemma exports_app s x l : is_Some (s !! l) → exports (s ++ [x]) l = exports s l.
Proof. intros [c Hc]. unfold exports. by rewrite (lookup_app_l_Some _ _ _ _ Hc), Hc. Qed.

Lemma exported_app c rid r x :
  client_ok fnv c → registries c !! rid = Some r → exported r (store c ++ [x]) = exported r (store c).
Proof.
  intros Hc Hr. unfold exported.
  assert (Hl : Forall (λ l, is_Some (store c !! l)) (map_to_list (collectors_by_id r)).*2).
  { apply Forall_forall. intros l ([k l0] & -> & Hin)%list_elem_of_fmap. apply elem_of_map_to_list in Hin.
    by eapply (co_live _ _ Hc). }
  induction Hl as [|l ls Hl _ IH]; [done|]. by rewrite !bind_cons, exports_app, IH.
Qed.

(** what a macro constructs: a metric without labels, or a vector *)
Definition macro_makes (made : MetricsResult Cell) : Prop :=
  (∃ o, made = new_metric fnv f64_to_string o []) ∨ (∃ o names, made = new_vec fnv o names).

Lemma macro_makes_fresh made x : macro_makes made → made = Ok x → fresh_ok fnv x.
Proof using Hfnv.
  intros [(o & ->)|(o & names & ->)] Hx.
  - by apply new_metric_spec in Hx as (_ & _ & ?).
  - by apply new_vec_spec in Hx as (? & _ & _ & _ & ?).
Qed.

(** C23. A registering macro panics exactly when the options do not make a metric. If it
    returns the metric, the metric is new and the registry exports it besides what it
    exported before; if it returns an error, no registry exports anything else than
    before. *)
Theorem macro_registers rid made c :
  client_ok fnv c → macro_makes made → is_Some (registries c !! rid) →
  match register_with debug_desc debug_string rid made c with
  | None => ∃ e, made = Err e
  | Some (Ok l, c') =>
      client_ok fnv c' ∧ l = length (store c) ∧ (∃ x, made = Ok x ∧ store c' = store c ++ [x]) ∧
      ∀ r, registries c !! rid = Some r →
      ∃ r', registries c' !! rid = Some r' ∧ exported r' (store c') ≡ₚ exports (store c') l ++ exported r (store c)
  | Some (Err _, c') =>
      client_ok fnv c' ∧ (∃ x, made = Ok x) ∧
      ∀ rid' r, registries c !! rid' = Some r →
      ∃ r', registries c' !! rid' = Some r' ∧ exported r' (store c') = exported r (store c)
  end.
Proof using Hfnv.
  intros Hc Hmade [r0 Hr0]. unfold register_with, construct. destruct made as [x|e] eqn:Em; [|by eexists].
  cbn [mbind result_bind]. unfold alloc. set (c1 := set_store (store c ++ [x]) c).
  assert (Hc1 : client_ok fnv c1).
  { apply set_store_ok; [done| |apply grows_app]. intros Hs. apply alloc_ok; [done|]. by eapply macro_makes_fresh. }
  assert (Hx : store c1 !! length (store c) = Some x) by (simpl; by rewrite lookup_app_r, Nat.sub_diag).
  destruct (Registry_register debug_desc debug_string rid (length (store c)) c1) as [[res c2]|] eqn:E.
  2:{ unfold Registry_register in E. change (registries c1) with (registries c) in E. rewrite Hr0 in E.
      cbn [mbind option_bind] in E. rewrite Hx in E. cbn [mbind option_bind] in E.
      by destruct (register _ _ _ _). }
  destruct (Registry_register_spec _ _ _ _ _ _ _ _ Hc1 E) as (Hc2 & Hs2 & r & r' & x' & Hr & Hx' & Hregs & _ & _ & Hres).
  change (registries c1) with (registries c) in *. rewrite Hr0 in Hr. injection Hr as <-.
  assert (Hlt : (rid < length (registries c))%nat) by by eapply lookup_lt_Some.
  cbn [mbind option_bind]. destruct res as [[]|e]; cbn [mbind result_bind].
  - destruct Hres as [Hcol Hfresh]. split; [done|]. split; [done|]. split; [by exists x|]. intros r Hr.
    rewrite Hr0 in Hr. injection Hr as <-. exists r'. rewrite Hregs, list_lookup_insert_eq by done. split; [done|].
    unfold exported. rewrite Hcol, (map_to_list_insert _ _ _ Hfresh), fmap_cons, bind_cons, Hs2. cbn [snd].
    apply Permutation_app_head. pose proof (exported_app c rid r0 x Hc Hr0) as He. unfold exported in He.
    change (store c1) with (store c ++ [x]). by rewrite He.
  - destruct Hres as [Hcol _]. split; [done|]. split; [by exists x|]. intros rid' r Hr.
    rewrite Hregs, Hs2. destruct (decide (rid = rid')) as [<-|Hne].
    + rewrite Hr0 in Hr. injection Hr as <-. exists r'. rewrite list_lookup_insert_eq by done. split; [done|].
      rewrite <-(exported_app c rid r0 x Hc Hr0). unfold exported. by rewrite Hcol.
    + exists r. rewrite list_lookup_insert_ne by done. split; [done|]. by apply (exported_app c rid').
Qed.

(** ** Calls return *)

(** The handles of a call are of the types the language gives them. *)
Definition op_typed (o : op) (c : Client) : Prop :=
  match o with
  | CounterDo a l _ => ∃ v, store c !! l = Some (CValue a v) ∧ val_type v = VCounter
  | GaugeDo a l _ => ∃ v, store c !! l = Some (CValue a v) ∧ val_type v = VGauge
  | ObserveAt l _ => ∃ h, store c !! l = Some (CHist h)
  | VecGet lv _ | VecGetWith lv _ | VecRemove lv _ | VecRemoveWith lv _ | VecReset lv =>
      ∃ v, store c !! lv = Some (CVec v)
  | Register rid l | Unregister rid l => is_Some (registries c !! rid) ∧ is_Some (store c !! l)
  | Gather rid => is_Some (registries c !! rid)
  | NewMetric _ | NewVec _ _ | NewRegistry _ _ => True
  end.

Lemma value_of_cell a v : value_of a (CValue a v) = Some v.
Proof. by destruct a. Qed.

(** Every call of [op] with handles of the right types returns, gathering included, and the
    handles keep their types whatever the program does next.  ([with_label_values] and
    [with], which panic on an error, are not calls of [op].) *)
Lemma typed_call_returns o c :
  client_ok fnv c → bounded (store c) → op_typed o c →
  ∃ c', run_op o c = Some c' ∧ client_ok fnv c' ∧ grows (store c) (store c').
Proof using Hfnv.
  intros Hc Hb Ht. enough (is_Some (run_op o c)) as [c' Hr].
  { exists c'. split; [done|]. by destruct (run_op_spec _ _ _ _ _ _ _ Hfnv _ _ _ Hc Hr) as (Hok & _ & Hg & _). }
  assert (Hmod : ∀ l f x x', store c !! l = Some x → f x = Some x' →
            is_Some (s ← modify l f (store c); Some (set_store s c))).
  { intros l f x x' Hl Hf. unfold modify. rewrite Hl. cbn [mbind option_bind]. rewrite Hf. by eexists. }
  assert (Hval : ∀ t a f v, val_type v = t → on_value t a f (CValue a v) = Some (CValue a (f v))).
  { intros t a f v Hv. unfold on_value. rewrite value_of_cell. cbn [mbind option_bind]. by rewrite decide_True. }
  assert (Hvec : ∀ (R : Type) lv (f : MetricVec → Store → R * MetricVec * Store) v,
            store c !! lv = Some (CVec v) → is_Some (snd <$> on_vec lv f c)).
  { intros R lv f v Hl. unfold on_vec. rewrite Hl. destruct (f v (store c)) as [[??]?]. by eexists. }
  destruct o as [o|o names|a l u|a l u|l v|lv vals|lv ls|lv vals|lv ls|lv|p ls|rid l|rid l|rid]; cbn [op_typed] in Ht;
    try by eexists.
  - destruct Ht as (v & Hl & Hv). by eapply Hmod; [|apply Hval].
  - destruct Ht as (v & Hl & Hv). by eapply Hmod; [|apply Hval].
  - destruct Ht as (h & Hl). eapply Hmod; [exact Hl|reflexivity].
  - destruct Ht as (v & Hl). by eapply Hvec.
  - destruct Ht as (v & Hl). by eapply Hvec.
  - destruct Ht as (v & Hl). by eapply Hvec.
  - destruct Ht as (v & Hl). by eapply Hvec.
  - destruct Ht as (v & Hl). by eapply Hvec.
  - destruct Ht as [[r Hr] [x Hx]]. cbn [Client.run_op]. unfold Registry_register. rewrite Hr. cbn [mbind option_bind].
    rewrite Hx. cbn [mbind option_bind]. destruct (register _ _ _ _). by eexists.
  - destruct Ht as [[r Hr] [x Hx]]. cbn [Client.run_op]. unfold Registry_unregister. rewrite Hr. cbn [mbind option_bind].
    rewrite Hx. cbn [mbind option_bind]. destruct (unregister _ _ _). by eexists.
  - destruct Ht as [r Hr]. destruct (gather_shows c rid r Hc Hb Hr) as (fams & s' & Hg & _).
    cbn [Client.run_op]. rewrite Hg. by eexists.
Qed.
End gather.

(** ** A program: a vector of counters and a histogram, registered by the macros' steps *)
Definition boundedb (s : Store) : bool :=
  forallb (λ c, match c with CHist h => size (started (h_state h)) <? 2 ^ 63 | _ => true end) s.
Lemma boundedb_spec s : boundedb s = true → bounded s.
Proof.
  unfold boundedb. intros Hb%Is_true_true_2%forallb_True l h Hl. rewrite Forall_lookup in Hb. specialize (Hb l _ Hl). simpl in Hb.
  apply Is_true_true, Z.ltb_lt in Hb. exact Hb.
Qed.

Lemma default_there {A} (o : option A) d : (if o then true else false) = true → o = Some (default d o).
Proof. by destruct o. Qed.

Module ClientRun.
Definition str (_ : f64) : string := "".
Definition pd (_ : Desc) : string := "desc".
Definition pds (_ : list Desc) : string := "descs".
Definition ps (s : string) : string := s.
Definition pv (_ : list string) : string := "vals".
Definition pl (_ : gmap string string) : string := "labels".
Definition run (ops : list op) (c : Client) : option Client := run_ops ExportRun.fnv str pd pds ps pv pl ops c.

Definition setup : list op :=
  [NewVec (CounterOpts AtomicU64 (Opts_new "requests" "h")) ["code"]; Register 0 0; VecGet 0 ["200"];
   NewMetric (HistOpts (histogram_opts_buckets "latency" "h" [f64_of_Z 1; f64_of_Z 5])); Register 0 2].
Definition work : list op :=
  [CounterDo AtomicU64 1 (CounterIncBy 5); Gather 0; ObserveAt 2 (f64_of_Z 1); VecGet 0 ["404"];
   CounterDo AtomicU64 3 CounterInc; CounterDo AtomicU64 1 CounterInc; Gather 0].
Definition c1 : Client := default Client_new (run setup Client_new).
Definition c2 : Client := default Client_new (run work c1).
Definition r : RegistryCore nat := default RegistryCore_default (registries c2 !! 0%nat).
(** the counter of the label 200 when it is made *)
Definition x : Cell :=
  ltac:(let y := eval vm_compute in (store c1 !! 1%nat) in match y with Some ?c => exact c end).

Lemma setup_runs : run setup Client_new = Some c1.
Proof. apply default_there. vm_compute. reflexivity. Qed.
Lemma work_runs : run work c1 = Some c2.
Proof. apply default_there. vm_compute. reflexivity. Qed.
Lemma c2_bounded : bounded (store c2).
Proof. apply boundedb_spec. vm_compute. reflexivity. Qed.
Lemma c2_registry : registries c2 !! 0%nat = Some r.
Proof. apply default_there. vm_compute. reflexivity. Qed.
Lemma x_there : store c1 !! 1%nat = Some x.
Proof. vm_compute. reflexivity. Qed.
Lemma x_exported : 1%nat ∈ exported r (store c2).
Proof. apply (bool_decide_unpack _). vm_compute. exact I. Qed.
Lemma c1_ok : client_ok ExportRun.fnv c1.
Proof.
  eapply (run_ops_ok ExportRun.fnv str pd pds ps pv pl ExportRun.fnv_fits setup); [apply Client_new_ok|].
  exact setup_runs.
Qed.
End ClientRun.

Example gather_exports_exactly_holds :
  ClientRun.run (ClientRun.setup ++ ClientRun.work) Client_new = Some ClientRun.c2 ∧ bounded (store ClientRun.c2) ∧
  registries ClientRun.c2 !! 0%nat = Some ClientRun.r ∧
  ∃ fams s', Registry_gather 0 ClientRun.c2 = Some (fams, set_store s' ClientRun.c2) ∧ length (named fams) = 3%nat.
Proof.
  assert (Hr : ClientRun.run (ClientRun.setup ++ ClientRun.work) Client_new = Some ClientRun.c2).
  { unfold ClientRun.run. rewrite run_ops_app. fold (ClientRun.run ClientRun.setup Client_new).
    rewrite ClientRun.setup_runs. exact ClientRun.work_runs. }
  split; [exact Hr|]. split; [exact ClientRun.c2_bounded|]. split; [exact ClientRun.c2_registry|].
  destruct (gather_exports_exactly ExportRun.fnv ClientRun.str ClientRun.pd ClientRun.pds ClientRun.ps ClientRun.pv ClientRun.pl
    ExportRun.fnv_fits _ _ _ _ Hr ClientRun.c2_bounded ClientRun.c2_registry) as (fams & s' & Hg & _ & _ & nms & Hsh & Hp).
  exists fams, s'. split; [exact Hg|]. rewrite Hp, length_fmap, <-(Forall2_length _ _ _ Hsh). vm_compute. reflexivity.
Defined.

Example exported_history_holds :
  ClientRun.run ClientRun.setup Client_new = Some ClientRun.c1 ∧ ClientRun.run ClientRun.work ClientRun.c1 = Some ClientRun.c2 ∧
  ∃ fams c3 m rest, Registry_gather 0 ClientRun.c2 = Some (fams, c3) ∧ counter m = f64_of_Z 6 ∧
    named fams ≡ₚ decorate_named ClientRun.r ("requests", m) :: rest.
Proof.
  split; [exact ClientRun.setup_runs|]. split; [exact ClientRun.work_runs|].
  destruct (exported_history ExportRun.fnv ClientRun.str ClientRun.pd ClientRun.pds ClientRun.ps ClientRun.pv ClientRun.pl
    ExportRun.fnv_fits ClientRun.setup ClientRun.work ClientRun.c1 ClientRun.c2 1 ClientRun.x 0 ClientRun.r
    ClientRun.setup_runs ClientRun.work_runs ClientRun.x_there I ClientRun.c2_bounded ClientRun.c2_registry
    ClientRun.x_exported) as (fams & c3 & m & rest & Hg & Hm & Hp).
  exists fams, c3, m, rest. split; [exact Hg|]. split; [|exact Hp].
  assert (Hc : match effects 1 ClientRun.work ClientRun.x with
               | CValue a v => counter (Value_metric (number_of a) v) = f64_of_Z 6
               | _ => False end) by (vm_compute; reflexivity).
  revert Hm Hc. generalize (effects 1 ClientRun.work ClientRun.x) as y. intros [a v|h|v]; [|intros _ []|intros _ []].
  intros -> Hc. exact Hc.
Defined.

(** The label 200 is removed after the program: its counter is still counted by its handle. *)
Example removed_child_forgotten_holds :
  ∃ v h ct c3,
    store ClientRun.c1 !! 0%nat = Some (CVec v) ∧ hash_label_values ExportRun.fnv v ["200"] = Ok h ∧
    children v !! h = Some 1%nat ∧
    Vec_remove_label_values ExportRun.fnv ClientRun.pv 0 ["200"] ClientRun.c1 = Some (Ok tt, ct) ∧
    ClientRun.run [CounterDo AtomicU64 1 CounterInc; VecGet 0 ["200"]] ct = Some c3 ∧ 1%nat ∉ exports (store c3) 0.
Proof.
  destruct (store ClientRun.c1 !! 0%nat) as [[a v|h|v]|] eqn:Ev; [exfalso; vm_compute in Ev; discriminate Ev| | |];
    [exfalso; vm_compute in Ev; discriminate Ev| |exfalso; vm_compute in Ev; discriminate Ev].
  assert (Hv : match store ClientRun.c1 !! 0%nat with
               | Some (CVec v) => match hash_label_values ExportRun.fnv v ["200"] with
                                  | Ok h => bool_decide (children v !! h = Some 1%nat) | Err _ => false end
               | _ => false end = true) by (vm_compute; reflexivity).
  rewrite Ev in Hv. destruct (hash_label_values ExportRun.fnv v ["200"]) as [h|] eqn:Eh; [|discriminate Hv].
  apply bool_decide_eq_true in Hv.
  assert (Hr : match Vec_remove_label_values ExportRun.fnv ClientRun.pv 0 ["200"] ClientRun.c1 with
               | Some (Ok tt, c) => if ClientRun.run [CounterDo AtomicU64 1 CounterInc; VecGet 0 ["200"]] c then true else false
               | _ => false end = true) by (vm_compute; reflexivity).
  destruct (Vec_remove_label_values ExportRun.fnv ClientRun.pv 0 ["200"] ClientRun.c1) as [[[[]|e] ct]|] eqn:Er;
    [|discriminate Hr|discriminate Hr].
  destruct (ClientRun.run [CounterDo AtomicU64 1 CounterInc; VecGet 0 ["200"]] ct) as [c3|] eqn:E3; [|discriminate Hr].
  exists v, h, ct, c3. split; [reflexivity|]. split; [exact Eh|]. split; [exact Hv|]. split; [reflexivity|].
  split; [exact E3|].
  exact (proj1 (removed_child_forgotten ExportRun.fnv ClientRun.str ClientRun.pd ClientRun.pds ClientRun.ps ClientRun.pv
    ClientRun.pl ExportRun.fnv_fits _ 0 ["200"] ClientRun.c1 ct c3 1 v h ClientRun.c1_ok Ev Eh Hv Er E3)).
Defined.

Example macro_registers_holds :
  client_ok ExportRun.fnv Client_new ∧ is_Some (registries Client_new !! 0%nat) ∧
  let made := new_metric ExportRun.fnv ClientRun.str (GaugeOpts AtomicI64 (Opts_new "temperature" "h")) [] in
  macro_makes ExportRun.fnv ClientRun.str made ∧
  ∃ c' r', register_with ClientRun.pd ClientRun.ps 0 made Client_new = Some (Ok 0%nat, c') ∧
    registries c' !! 0%nat = Some r' ∧ exported r' (store c') ≡ₚ [0%nat].
Proof.
  assert (Hc : client_ok ExportRun.fnv Client_new) by apply Client_new_ok.
  assert (Hr : is_Some (registries Client_new !! 0%nat)) by by eexists.
  split; [exact Hc|]. split; [exact Hr|]. intros made.
  assert (Hm : macro_makes ExportRun.fnv ClientRun.str made) by (left; by eexists). split; [exact Hm|].
  pose proof (macro_registers ExportRun.fnv ClientRun.str ClientRun.pd ClientRun.ps ExportRun.fnv_fits 0 made Client_new
    Hc Hm Hr) as H.
  assert (Hb : match register_with ClientRun.pd ClientRun.ps 0 made Client_new with Some (Ok _, _) => true | _ => false end = true)
    by (vm_compute; reflexivity).
  destruct (register_with ClientRun.pd ClientRun.ps 0 made Client_new) as [[[l|e] c']|] eqn:E;
    [|discriminate Hb|discriminate Hb].
  destruct H as (_ & -> & (x & Hx & Hs) & Hex). destruct (Hex _ eq_refl) as (r' & Hr' & Hp).
  exists c', r'. split; [reflexivity|]. split; [exact Hr'|]. rewrite Hp, Hs. unfold exported, exports. simpl.
  vm_compute in Hx. injection Hx as <-. reflexivity.
Defined.

Example typed_call_returns_holds :
  client_ok ExportRun.fnv ClientRun.c2 ∧ bounded (store ClientRun.c2) ∧ op_typed (Gather 0) ClientRun.c2 ∧
  ∃ c', ClientRun.run [Gather 0] ClientRun.c2 = Some c'.
Proof.
  assert (Hc : client_ok ExportRun.fnv ClientRun.c2).
  { eapply (run_ops_ok ExportRun.fnv ClientRun.str ClientRun.pd ClientRun.pds ClientRun.ps ClientRun.pv ClientRun.pl
      ExportRun.fnv_fits ClientRun.work); [exact ClientRun.c1_ok|exact ClientRun.work_runs]. }
  assert (Ht : op_typed (Gather 0) ClientRun.c2) by (eexists; exact ClientRun.c2_registry).
  split; [exact Hc|]. split; [exact ClientRun.c2_bounded|]. split; [exact Ht|].
  destruct (typed_call_returns ExportRun.fnv ClientRun.str ClientRun.pd ClientRun.pds ClientRun.ps ClientRun.pv ClientRun.pl
    ExportRun.fnv_fits (Gather 0) ClientRun.c2 Hc ClientRun.c2_bounded Ht) as (c' & Hr & _).
  exists c'. unfold ClientRun.run, Client.run_ops. rewrite Hr. reflexivity.
Defined.
